(** * damenweb/images: the image locator, patcher, change tracker and
      write-back sequencer of the Storyblok image editor

    The repository holds two variants of one browser script: [script.js]
    (module [ScriptJs] below) and an unnamed second variant (module
    [Part000]).  Both walk story documents, which are values produced by
    [JSON.parse], and talk to the CMS through [fetch].  The development
    embeds

    - the JavaScript values of JSON shape and the few primitive operations
      the scripts apply to them (property read, [typeof], truthiness, strict
      equality against a string, [lastIndexOf], [substring]);
    - the locator, the lookup by identifier and the patcher of each variant;
    - the change tracker of each variant as a transition on its [Map];
    - the write-back loop of each variant as a function from the pending
      edits and the answers of the server to the list of requests and
      diagnostics it emits;
    - the paging loops of the two listings, the web links shown for a
      story and the tree that [buildStoryTree] builds from the slugs. *)

From Stdlib Require Import List String Ascii ZArith Bool Lia Arith.
Import ListNotations.

Local Open Scope string_scope.
Local Open Scope list_scope.

(** ** Values *)

(** A JavaScript value of JSON shape.  [JUndefined] is not JSON but is what a
    read of a missing property yields.  Numbers are the integers (JSON
    numbers with a fraction are outside the model); strings are sequences of
    code units in U+0000..U+00FF.  [JObj] lists the own properties of a plain
    object in [for ... in] enumeration order; a read takes the first binding
    of a key. *)
Unset Elimination Schemes.
Inductive json : Type :=
| JUndefined
| JNull
| JBool (b : bool)
| JNum (n : Z)
| JStr (s : string)
| JArr (items : list json)
| JObj (props : list (string * json)).
Set Elimination Schemes.

Section JsonInduction.
Variable P : json -> Prop.
Hypothesis Hundef : P JUndefined.
Hypothesis Hnull : P JNull.
Hypothesis Hbool : forall b, P (JBool b).
Hypothesis Hnum : forall n, P (JNum n).
Hypothesis Hstr : forall s, P (JStr s).
Hypothesis Harr : forall items, Forall P items -> P (JArr items).
Hypothesis Hobj : forall props, Forall (fun kv => P (snd kv)) props -> P (JObj props).

Fixpoint json_ind (v : json) : P v :=
  match v with
  | JUndefined => Hundef
  | JNull => Hnull
  | JBool b => Hbool b
  | JNum n => Hnum n
  | JStr s => Hstr s
  | JArr items =>
      Harr items
        ((fix all (l : list json) : Forall P l :=
            match l with
            | [] => Forall_nil _
            | x :: r => Forall_cons x (json_ind x) (all r)
            end) items)
  | JObj props =>
      Hobj props
        ((fix all (l : list (string * json)) : Forall (fun kv => P (snd kv)) l :=
            match l with
            | [] => Forall_nil _
            | kv :: r => Forall_cons kv (json_ind (snd kv)) (all r)
            end) props)
  end.
End JsonInduction.

(** ** Abrupt completion *)

(** A JavaScript evaluation either yields a value or throws.  [TypeError] is
    the exception of a property read on [null] or [undefined] and of a call
    of a non-function; [Error] is what the scripts throw themselves with
    [new Error(...)].  [NotModelled] marks the one place where the model
    stops: the relational comparison [v > 0] of a string, an array or an
    object, whose outcome depends on ToPrimitive and on floating point. *)
Inductive failure : Type :=
| TokenNotSet
| RequestFailed
| StoryDataNotFound.

Inductive exn : Type :=
| TypeError
| Error (why : failure)
| NotModelled.

Inductive result (A : Type) : Type :=
| Ok (a : A)
| Throw (e : exn).
Arguments Ok {A} a.
Arguments Throw {A} e.

Definition bind {A B : Type} (r : result A) (k : A -> result B) : result B :=
  match r with
  | Ok a => k a
  | Throw e => Throw e
  end.

Declare Scope js_scope.
Delimit Scope js_scope with js.
Notation "x <- e ;; k" := (bind e (fun x => k))
  (at level 61, e at next level, right associativity) : js_scope.
Notation "'when' c 'then' k" := (if c then k else Ok false)
  (at level 61, c at next level, right associativity) : js_scope.
Local Open Scope js_scope.

Section Loops.
Context {A S : Type}.
Variable body : S -> A -> result S.

(** [for (const x of l) s = body(s, x)], abandoned at the first throw. *)
Fixpoint for_of (l : list A) (s : S) : result S :=
  match l with
  | [] => Ok s
  | x :: r => s' <- body s x ;; for_of r s'
  end.
End Loops.

(** ** Primitive operations *)

(** [typeof v === 'object'] (true of [null] too). *)
Definition typeof_object (v : json) : bool :=
  match v with
  | JNull | JArr _ | JObj _ => true
  | _ => false
  end.

Definition is_null (v : json) : bool :=
  match v with JNull => true | _ => false end.

Definition isArray (v : json) : bool :=
  match v with JArr _ => true | _ => false end.

(** ToBoolean. *)
Definition truthy (v : json) : bool :=
  match v with
  | JUndefined | JNull => false
  | JBool b => b
  | JNum n => negb (n =? 0)%Z
  | JStr s => negb (s =? "")
  | JArr _ | JObj _ => true
  end.

(** [v === s] for a string [s]. *)
Definition strict_eq_str (v : json) (s : string) : bool :=
  match v with
  | JStr t => t =? s
  | _ => false
  end.

Fixpoint lookup (k : string) (props : list (string * json)) : json :=
  match props with
  | [] => JUndefined
  | (k', v) :: r => if k' =? k then v else lookup k r
  end.

(** [v.k] for a property name [k] that is neither [length], nor an index,
    nor the name of a builtin of [String.prototype], [Array.prototype] or
    [Object.prototype] (the scripts read [component], [image],
    [databaseId], [alt], [name], [files], [transformBaseUrl], [url],
    [_uid], [story], [content]). *)
Definition get_prop (v : json) (k : string) : result json :=
  match v with
  | JUndefined | JNull => Throw TypeError
  | JBool _ | JNum _ | JStr _ | JArr _ => Ok JUndefined
  | JObj props => Ok (lookup k props)
  end.

(** [v.length]. *)
Definition get_length (v : json) : result json :=
  match v with
  | JUndefined | JNull => Throw TypeError
  | JBool _ | JNum _ => Ok JUndefined
  | JStr s => Ok (JNum (Z.of_nat (String.length s)))
  | JArr items => Ok (JNum (Z.of_nat (List.length items)))
  | JObj props => Ok (lookup "length" props)
  end.

(** [v[0]]. *)
Definition get_first (v : json) : result json :=
  match v with
  | JUndefined | JNull => Throw TypeError
  | JBool _ | JNum _ => Ok JUndefined
  | JStr s =>
      Ok match s with
         | EmptyString => JUndefined
         | String c _ => JStr (String c EmptyString)
         end
  | JArr items => Ok (hd JUndefined items)
  | JObj props => Ok (lookup "0" props)
  end.

(** [v > 0]: ToNumber of [undefined] is NaN, of [null] is 0, of [true] 1. *)
Definition gt0 (v : json) : result bool :=
  match v with
  | JUndefined | JNull => Ok false
  | JBool b => Ok b
  | JNum n => Ok (0 <? n)%Z
  | JStr _ | JArr _ | JObj _ => Throw NotModelled
  end.

(** The values a [for ... of] over an array, or a [for ... in] with the
    own-property test over an object, visits. *)
Definition children (v : json) : list json :=
  match v with
  | JArr items => items
  | JObj props => map snd props
  | _ => []
  end.

(** [v.k = x] for a property name [k] as in [get_prop].  An assignment to
    an existing key keeps its place in the enumeration order, a new key goes
    last.  On a primitive the assignment is dropped (the scripts are not in
    strict mode); a named property on an array is outside the model. *)
Fixpoint assign (k : string) (x : json) (props : list (string * json)) : list (string * json) :=
  match props with
  | [] => [(k, x)]
  | (k', v) :: r => if k' =? k then (k, x) :: r else (k', v) :: assign k x r
  end.

Definition set_prop (v : json) (k : string) (x : json) : result json :=
  match v with
  | JUndefined | JNull => Throw TypeError
  | JBool _ | JNum _ | JStr _ => Ok v
  | JArr _ => Throw NotModelled
  | JObj props => Ok (JObj (assign k x props))
  end.

(** The object [v] after the value of its property [k] (of its first
    element) has been mutated into [x]: no assignment to [v] takes place, a
    value without that property is as it was. *)
Fixpoint replace (k : string) (x : json) (props : list (string * json)) : list (string * json) :=
  match props with
  | [] => []
  | (k', v) :: r => if k' =? k then (k, x) :: r else (k', v) :: replace k x r
  end.

Definition with_prop (v : json) (k : string) (x : json) : json :=
  match v with
  | JObj props => JObj (replace k x props)
  | _ => v
  end.

Definition with_first (v : json) (x : json) : json :=
  match v with
  | JArr (_ :: r) => JArr (x :: r)
  | JObj props => JObj (replace "0" x props)
  | _ => v
  end.

(** [s.lastIndexOf(c)] for a one-character [c]; [None] is [-1]. *)
Fixpoint lastIndexOf (c : ascii) (s : string) : option nat :=
  match s with
  | EmptyString => None
  | String a r =>
      match lastIndexOf c r with
      | Some i => Some (S i)
      | None => if Ascii.eqb a c then Some 0 else None
      end
  end.

Definition slash : ascii := "/"%char.

(** [url.lastIndexOf('/')] on a value: a string answers as above, an array
    answers with the position of its last element [=== '/'], anything else
    has no such method. *)
Definition js_lastIndexOf_slash (url : json) : result (option nat) :=
  match url with
  | JStr s => Ok (lastIndexOf slash s)
  | JArr items =>
      Ok (fold_left
            (fun (found : option nat) (ix : nat * json) =>
               if strict_eq_str (snd ix) "/" then Some (fst ix) else found)
            (combine (seq 0 (List.length items)) items) None)
  | _ => Throw TypeError
  end.

(** [url.substring(0, n)]; arrays have no [substring]. *)
Definition js_substring0 (url : json) (n : nat) : result string :=
  match url with
  | JStr s => Ok (substring 0 n s)
  | _ => Throw TypeError
  end.

(** ** References into a tree *)

(** A story document is a tree without sharing, so the object reference a
    search returns is the position of that object: the list of child
    positions from the root, counted in the order of [children]. *)
Definition path : Type := list nat.

Fixpoint node_at (p : path) (v : json) : option json :=
  match p with
  | [] => Some v
  | i :: q =>
      match nth_error (children v) i with
      | Some c => node_at q c
      | None => None
      end
  end.

Section UpdateNth.
Context {A : Type}.
Variable f : A -> result A.

Fixpoint update_nth (i : nat) (l : list A) : result (list A) :=
  match l, i with
  | [], _ => Ok []
  | x :: r, O => x' <- f x ;; Ok (x' :: r)
  | x :: r, S j => r' <- update_nth j r ;; Ok (x :: r')
  end.
End UpdateNth.

(** Mutation of the object behind a reference. *)
Fixpoint update_at (f : json -> result json) (p : path) (v : json) : result json :=
  match p with
  | [] => f v
  | i :: q =>
      match v with
      | JArr items =>
          items' <- update_nth (update_at f q) i items ;; Ok (JArr items')
      | JObj props =>
          props' <- update_nth (fun kv => x <- update_at f q (snd kv) ;; Ok (fst kv, x)) i props ;;
          Ok (JObj props')
      | _ => Ok v
      end
  end.

Section FirstFound.
Context {A : Type}.
Variable visit : A -> result (option path).

(** [for (x of l) { const found = visit(x); if (found) return found; }
     return null], the position of [x] recorded in front of what [visit]
    found. *)
Fixpoint first_found (i : nat) (l : list A) : result (option path) :=
  match l with
  | [] => Ok None
  | x :: r =>
      found <- visit x ;;
      match found with
      | Some p => Ok (Some (i :: p))
      | None => first_found (S i) r
      end
  end.
End FirstFound.

(** ** Maps and sets of the scripts *)

(** A JavaScript [Map] keeps its entries in insertion order and the
    write-back loops iterate over them, so a map is the list of its entries.
    [set] on a present key keeps the entry in place. *)
Class Key (K : Type) : Type := key_eqb : K -> K -> bool.

#[export] Instance string_Key : Key string := String.eqb.

#[export] Instance Z_Key : Key Z := Z.eqb.

#[export] Instance pair_Key {A B : Type} `{Key A} `{Key B} : Key (A * B) :=
  fun x y => key_eqb (fst x) (fst y) && key_eqb (snd x) (snd y).

Module Map.
Section Ops.
Context {K V : Type} `{Key K}.

Definition t : Type := list (K * V).

Fixpoint get (k : K) (m : t) : option V :=
  match m with
  | [] => None
  | (k', v) :: r => if key_eqb k' k then Some v else get k r
  end.

Definition has (k : K) (m : t) : bool :=
  match get k m with Some _ => true | None => false end.

Fixpoint set (k : K) (v : V) (m : t) : t :=
  match m with
  | [] => [(k, v)]
  | (k', v') :: r => if key_eqb k' k then (k, v) :: r else (k', v') :: set k v r
  end.

Fixpoint delete (k : K) (m : t) : t :=
  match m with
  | [] => []
  | (k', v') :: r => if key_eqb k' k then delete k r else (k', v') :: delete k r
  end.

Definition size (m : t) : nat := List.length m.
End Ops.
Arguments t K V : clear implicits.
End Map.

(** A [Set] of keys, in insertion order. *)
Module KeySet.
Section Ops.
Context {K : Type} `{Key K}.

Definition t : Type := list K.

Definition has (k : K) (s : t) : bool := existsb (key_eqb k) s.

Definition add (k : K) (s : t) : t := if has k s then s else s ++ [k].

Definition delete (k : K) (s : t) : t := filter (fun k' => negb (key_eqb k' k)) s.
End Ops.
Arguments t K : clear implicits.
End KeySet.

(** ** The CMS as seen through [fetch] *)

(** What a request comes back with: the promise rejects (network failure;
    a body that is not JSON counts as such), or a status and a parsed
    body. *)
Inductive response : Type :=
| NetworkError
| Http (status : Z) (body : json).

(** [response.ok]. *)
Definition ok (status : Z) : bool := (200 <=? status)%Z && (status <=? 299)%Z.

(** The answers of the Management API to [GET stories/<id>] and to
    [PUT stories/<id>] with a story document.  A run asks at most once per
    story and verb, so the answers are given per story. *)
Record server (Id : Type) : Type := {
  on_get : Id -> response;
  on_put : Id -> json -> response
}.
Arguments on_get {Id} s _.
Arguments on_put {Id} s _ _.

(** ** Handlers: state, output and exceptions *)

(** A handler of state [S] that emits events [E]: it ends normally or by a
    throw, and either way leaves a state and the events emitted so far. *)
Definition M (S E A : Type) : Type := S -> result A * S * list E.

Definition ret {S E A : Type} (a : A) : M S E A := fun s => (Ok a, s, []).

Definition throw {S E A : Type} (e : exn) : M S E A := fun s => (Throw e, s, []).

Definition mbind {S E A B : Type} (m : M S E A) (k : A -> M S E B) : M S E B :=
  fun s =>
    match m s with
    | (Ok a, s', evs) =>
        match k a s' with
        | (r, s'', evs') => (r, s'', evs ++ evs')
        end
    | (Throw e, s', evs) => (Throw e, s', evs)
    end.

Definition lift {S E A : Type} (r : result A) : M S E A := fun s => (r, s, []).

Definition gets {S E A : Type} (f : S -> A) : M S E A := fun s => (Ok (f s), s, []).

Definition modify {S E : Type} (f : S -> S) : M S E unit := fun s => (Ok tt, f s, []).

Definition emit {S E : Type} (e : E) : M S E unit := fun s => (Ok tt, s, [e]).

(** [try { m } catch (e) { handler(e) }]; a run that left the model is not
    caught. *)
Definition try_catch {S E A : Type} (m : M S E A) (handler : exn -> M S E A) : M S E A :=
  fun s =>
    match m s with
    | (Ok a, s', evs) => (Ok a, s', evs)
    | (Throw NotModelled, s', evs) => (Throw NotModelled, s', evs)
    | (Throw e, s', evs) =>
        match handler e s' with
        | (r, s'', evs') => (r, s'', evs ++ evs')
        end
    end.

Notation "x <~ m ;; k" := (mbind m (fun x => k))
  (at level 61, m at next level, right associativity) : js_scope.
Notation "m ;;; k" := (mbind m (fun _ => k))
  (at level 61, right associativity) : js_scope.

Section ForEach.
Context {S E A B : Type}.
Variable body : A -> M S E unit.
Variable step : B -> A -> M S E B.

(** [for (const x of l) body(x)]. *)
Fixpoint for_each (l : list A) : M S E unit :=
  match l with
  | [] => ret tt
  | x :: r => body x ;;; for_each r
  end.

(** The same with local variables [b] that the body updates. *)
Fixpoint for_each_with (l : list A) (b : B) : M S E B :=
  match l with
  | [] => ret b
  | x :: r => b' <~ step b x ;; for_each_with r b'
  end.
End ForEach.

(** * script.js *)

Module ScriptJs.

(** ** Image locator *)

(** The test of [extractImages]:
    [obj.component === 'bynder_image' && obj.image && obj.image.length > 0
     && obj.image[0].databaseId]. *)
Definition image_test (obj : json) : result bool :=
  c <- get_prop obj "component" ;;
  when strict_eq_str c "bynder_image" then
  image <- get_prop obj "image" ;;
  when truthy image then
  len <- get_length image ;;
  pos <- gt0 len ;;
  when pos then
  first <- get_first image ;;
  id <- get_prop first "databaseId" ;;
  Ok (truthy id).

Fixpoint extractImages (obj : json) : result (list json) :=
  match obj with
  | JArr items =>
      hit <- image_test obj ;;
      for_of (fun images item => found <- extractImages item ;; Ok (images ++ found))
             items (if hit then [obj] else [])
  | JObj props =>
      hit <- image_test obj ;;
      for_of (fun images kv => found <- extractImages (snd kv) ;; Ok (images ++ found))
             props (if hit then [obj] else [])
  | _ => Ok []
  end.

(** ** Lookup by identifier *)

(** The test of [findRecursive]; [imageBynderId] is read from a [dataset]
    attribute and so is a string:
    [obj.component === 'bynder_image' && obj.image && obj.image.length > 0]
    and then [obj.image[0].databaseId === imageBynderId]. *)
Definition id_test (imageBynderId : string) (obj : json) : result bool :=
  c <- get_prop obj "component" ;;
  when strict_eq_str c "bynder_image" then
  image <- get_prop obj "image" ;;
  when truthy image then
  len <- get_length image ;;
  pos <- gt0 len ;;
  when pos then
  bynderImage <- get_first image ;;
  id <- get_prop bynderImage "databaseId" ;;
  Ok (strict_eq_str id imageBynderId).

Fixpoint findRecursive (imageBynderId : string) (obj : json) : result (option path) :=
  match obj with
  | JArr items =>
      hit <- id_test imageBynderId obj ;;
      if hit then Ok (Some [])
      else first_found (findRecursive imageBynderId) 0 items
  | JObj props =>
      hit <- id_test imageBynderId obj ;;
      if hit then Ok (Some [])
      else first_found (fun kv => findRecursive imageBynderId (snd kv)) 0 props
  | _ => Ok None
  end.

Definition findImageInStoryContentById (storyContent : json) (imageBynderId : string)
  : result (option path) :=
  findRecursive imageBynderId storyContent.

(** ** Change tracker *)

(** An entry of [imageModifications]. *)
Record modification : Type := {
  originalFileName : string;
  originalAlt : string;
  originalTransformUrl : string;
  newFileName : string;
  newAlt : string
}.

(** An image row of a detail table: its [dataset] and the values of its two
    inputs. *)
Record row : Type := {
  actualStoryId : string;
  imageBynderId : string;
  row_originalFileName : string;
  row_originalAlt : string;
  row_originalTransformUrl : string;
  fileNameInput : string;
  altTextInput : string
}.

(** The globals of the script that the tracker and the write-back touch.
    [allLoadedStoriesContent] is the copy of each story kept when its
    images were listed. *)
Record state : Type := {
  storyblokMapiToken : string;
  changedStories : KeySet.t string;
  imageModifications : Map.t string (Map.t string modification);
  allLoadedStoriesContent : Map.t string json;
  sendToServerButton_hidden : bool
}.

Definition with_tracker (st : state) (cs : KeySet.t string)
  (im : Map.t string (Map.t string modification)) (hidden : bool) : state :=
  {| storyblokMapiToken := storyblokMapiToken st;
     changedStories := cs;
     imageModifications := im;
     allLoadedStoriesContent := allLoadedStoriesContent st;
     sendToServerButton_hidden := hidden |}.

(** [handleInputChange], run on a [change] event of either input of [r]. *)
Definition handleInputChange (r : row) (st : state) : state :=
  let im :=
    if Map.has (actualStoryId r) (imageModifications st) then imageModifications st
    else Map.set (actualStoryId r) [] (imageModifications st) in
  let storyMods := match Map.get (actualStoryId r) im with Some m => m | None => [] end in
  let isFileNameChanged := negb (fileNameInput r =? row_originalFileName r) in
  let isAltTextChanged := negb (altTextInput r =? row_originalAlt r) in
  if isFileNameChanged || isAltTextChanged then
    let storyMods' :=
      Map.set (imageBynderId r)
        {| originalFileName := row_originalFileName r;
           originalAlt := row_originalAlt r;
           originalTransformUrl := row_originalTransformUrl r;
           newFileName := fileNameInput r;
           newAlt := altTextInput r |} storyMods in
    with_tracker st (KeySet.add (actualStoryId r) (changedStories st))
      (Map.set (actualStoryId r) storyMods' im) false
  else
    let storyMods' := Map.delete (imageBynderId r) storyMods in
    let im' := Map.set (actualStoryId r) storyMods' im in
    let '(im'', cs') :=
      if (Map.size storyMods' =? 0)%nat
      then (Map.delete (actualStoryId r) im', KeySet.delete (actualStoryId r) (changedStories st))
      else (im', changedStories st) in
    with_tracker st cs' im''
      (if (List.length cs' =? 0)%nat then true else sendToServerButton_hidden st).

(** The two editable fields of a row. *)
Inductive field : Type := FileName | AltText.

Definition type_into (f : field) (value : string) (r : row) : row :=
  {| actualStoryId := actualStoryId r;
     imageBynderId := imageBynderId r;
     row_originalFileName := row_originalFileName r;
     row_originalAlt := row_originalAlt r;
     row_originalTransformUrl := row_originalTransformUrl r;
     fileNameInput := match f with FileName => value | AltText => fileNameInput r end;
     altTextInput := match f with AltText => value | FileName => altTextInput r end |}.

(** The table and the tracker together.  A [change] event on input [f] of
    the [i]-th row: the input holds the new text and the handler runs. *)
Record page : Type := {
  rows : list row;
  app : state
}.

Definition change (i : nat) (f : field) (value : string) (pg : page) : page :=
  match nth_error (rows pg) i with
  | None => pg
  | Some r =>
      let r' := type_into f value r in
      {| rows := firstn i (rows pg) ++ r' :: skipn (S i) (rows pg);
         app := handleInputChange r' (app pg) |}
  end.

Definition changes (evs : list (nat * field * string)) (pg : page) : page :=
  fold_left (fun pg ev => change (fst (fst ev)) (snd (fst ev)) (snd ev) pg) evs pg.

(** Whether the tracker holds an entry for the image of a row. *)
Definition tracked (r : row) (st : state) : bool :=
  match Map.get (actualStoryId r) (imageModifications st) with
  | Some storyMods => Map.has (imageBynderId r) storyMods
  | None => false
  end.

(** Whether an input of a row differs from the snapshot in its [dataset]. *)
Definition edited (r : row) : bool :=
  negb (fileNameInput r =? row_originalFileName r) || negb (altTextInput r =? row_originalAlt r).

(** A freshly rendered row shows the snapshot. *)
Definition pristine (r : row) : bool :=
  (fileNameInput r =? row_originalFileName r) && (altTextInput r =? row_originalAlt r).

(** ** Image patcher *)

(** The body of [if (imageObj) { ... }] of the send handler, as the new
    value of the object [imageObj] refers to. *)
Definition applyModification (mod_ : modification) (imageObj : json) : result json :=
  image <- get_prop imageObj "image" ;;
  bynderImage <- get_first image ;;
  name <- get_prop bynderImage "name" ;;
  let fileNameChanged := negb (strict_eq_str name (newFileName mod_)) in
  bynderImage <-
    (if fileNameChanged then set_prop bynderImage "name" (JStr (newFileName mod_))
     else Ok bynderImage) ;;
  alt <- get_prop imageObj "alt" ;;
  imageObj <-
    (if negb (strict_eq_str alt (newAlt mod_)) then set_prop imageObj "alt" (JStr (newAlt mod_))
     else Ok imageObj) ;;
  bynderImage <-
    (if fileNameChanged then
       files <- get_prop bynderImage "files" ;;
       transformBaseUrl <- get_prop files "transformBaseUrl" ;;
       oldTransformUrl <- get_prop transformBaseUrl "url" ;;
       lastSlashIndex <- js_lastIndexOf_slash oldTransformUrl ;;
       url <-
         match lastSlashIndex with
         | Some i =>
             baseUrl <- js_substring0 oldTransformUrl (i + 1) ;;
             Ok (baseUrl ++ newFileName mod_)%string
         | None => Ok (newFileName mod_)
         end ;;
       transformBaseUrl <- set_prop transformBaseUrl "url" (JStr url) ;;
       Ok (with_prop bynderImage "files" (with_prop files "transformBaseUrl" transformBaseUrl))
     else Ok bynderImage) ;;
  Ok (with_prop imageObj "image" (with_first image bynderImage)).

(** ** Write-back *)

Inductive diagnostic : Type :=
| TokenMissing
| FetchFailed
| PutFailed
| NoModificationsFound (storyId : string)
| CouldNotFetchLatest (storyId : string)
| ImageNotFound (imageBynderId storyId : string)
| NoActualChanges (storyId : string)
| NoChangesToSend
| ChangesSent (successCount failCount : nat).

(** What a run of the handler does that can be observed: requests to the
    Management API, console lines and alerts. *)
Inductive event : Type :=
| Get (storyId : string)
| Put (storyId : string) (story : json)
| Console (d : diagnostic)
| Alert (d : diagnostic).

(** The globals together with the two counters local to the handler. *)
Record run : Type := {
  st : state;
  successCount : nat;
  failCount : nat
}.

Definition on_state (f : state -> state) (r : run) : run :=
  {| st := f (st r); successCount := successCount r; failCount := failCount r |}.

Definition succeeded (r : run) : run :=
  {| st := st r; successCount := S (successCount r); failCount := failCount r |}.

Definition failed (r : run) : run :=
  {| st := st r; successCount := successCount r; failCount := S (failCount r) |}.

Definition changedStories_delete (storyId : string) (s : state) : state :=
  with_tracker s (KeySet.delete storyId (changedStories s)) (imageModifications s)
    (sendToServerButton_hidden s).

Definition imageModifications_delete (storyId : string) (s : state) : state :=
  with_tracker s (changedStories s) (Map.delete storyId (imageModifications s))
    (sendToServerButton_hidden s).

(** [fetchStoryblokApi('stories/' + storyId)]: [null] is [None]. *)
Definition fetchStoryblokApi (srv : server string) (storyId : string)
  : M run event (option json) :=
  token <~ gets (fun r => storyblokMapiToken (st r)) ;;
  if token =? "" then emit (Console TokenMissing) ;;; ret None
  else
    emit (Get storyId) ;;;
    match on_get srv storyId with
    | Http status body =>
        if ok status then ret (Some body)
        else emit (Console FetchFailed) ;;; emit (Alert FetchFailed) ;;; ret None
    | NetworkError => emit (Console FetchFailed) ;;; emit (Alert FetchFailed) ;;; ret None
    end.

(** [putStoryblokApi('stories/' + storyId, data)]; the body sent is
    [{story: data, publish: 1}]. *)
Definition putStoryblokApi (srv : server string) (storyId : string) (data : json)
  : M run event (option json) :=
  token <~ gets (fun r => storyblokMapiToken (st r)) ;;
  if token =? "" then emit (Console TokenMissing) ;;; ret None
  else
    emit (Put storyId data) ;;;
    match on_put srv storyId data with
    | Http status body =>
        if ok status then ret (Some body)
        else emit (Console PutFailed) ;;; emit (Alert PutFailed) ;;; ret None
    | NetworkError => emit (Console PutFailed) ;;; emit (Alert PutFailed) ;;; ret None
    end.

(** [!r] for what the two functions above return. *)
Definition falsy_response (r : option json) : bool :=
  match r with
  | Some body => negb (truthy body)
  | None => true
  end.

(** One turn of [for (const [imageBynderId, mod] of modsForThisStory.entries())];
    the locals are [modifiedStoryContent] and [actualChangesApplied]. *)
Definition apply_entry (storyIdToUpdate : string) (locals : json * bool)
  (entry : string * modification) : M run event (json * bool) :=
  imageObj <~ lift (findImageInStoryContentById (fst locals) (fst entry)) ;;
  match imageObj with
  | Some ref =>
      content <~ lift (update_at (applyModification (snd entry)) ref (fst locals)) ;;
      ret (content, true)
  | None =>
      emit (Console (ImageNotFound (fst entry) storyIdToUpdate)) ;;;
      ret locals
  end.

(** One turn of [for (const storyIdToUpdate of storiesToProcess)]. *)
Definition process_story (srv : server string) (storyIdToUpdate : string) : M run event unit :=
  modsForThisStory <~ gets (fun r => Map.get storyIdToUpdate (imageModifications (st r))) ;;
  match modsForThisStory with
  | None | Some [] =>
      emit (Console (NoModificationsFound storyIdToUpdate)) ;;;
      modify (on_state (changedStories_delete storyIdToUpdate))
  | Some modsForThisStory =>
      latestStoryResponse <~ fetchStoryblokApi srv storyIdToUpdate ;;
      story <~ lift (match latestStoryResponse with
                     | Some body => if truthy body then get_prop body "story" else Ok JUndefined
                     | None => Ok JUndefined
                     end) ;;
      if falsy_response latestStoryResponse || negb (truthy story) then
        emit (Console (CouldNotFetchLatest storyIdToUpdate)) ;;;
        modify failed ;;;
        modify (on_state (changedStories_delete storyIdToUpdate))
      else
        modifiedStoryContent <~ lift (get_prop story "content") ;;
        locals <~ for_each_with (apply_entry storyIdToUpdate) modsForThisStory
                    (modifiedStoryContent, false) ;;
        if negb (snd locals) then
          emit (Console (NoActualChanges storyIdToUpdate)) ;;;
          modify (on_state (changedStories_delete storyIdToUpdate)) ;;;
          modify (on_state (imageModifications_delete storyIdToUpdate))
        else
          result <~ putStoryblokApi srv storyIdToUpdate (with_prop story "content" (fst locals)) ;;
          if negb (falsy_response result) then
            modify succeeded ;;;
            modify (on_state (changedStories_delete storyIdToUpdate)) ;;;
            modify (on_state (imageModifications_delete storyIdToUpdate))
          else
            modify failed
  end.

Definition hide_if_none (s : state) : state :=
  with_tracker s (changedStories s) (imageModifications s)
    (if (List.length (changedStories s) =? 0)%nat then true else sendToServerButton_hidden s).

(** The [click] handler of [sendToServerButton]; [confirmed] is the answer
    to the [confirm] dialog.  The update of the rows of the table after a
    successful PUT is not part of the model. *)
Definition sendToServer (confirmed : bool) (srv : server string) : M run event unit :=
  storiesToProcess <~ gets (fun r => changedStories (st r)) ;;
  if (List.length storiesToProcess =? 0)%nat then emit (Alert NoChangesToSend)
  else if negb confirmed then ret tt
  else
    for_each (process_story srv) storiesToProcess ;;;
    successes <~ gets successCount ;;
    failures <~ gets failCount ;;
    emit (Alert (ChangesSent successes failures)) ;;;
    modify (on_state hide_if_none).

(** A run of the handler from the globals [s]. *)
Definition click (confirmed : bool) (srv : server string) (s : state)
  : result unit * run * list event :=
  sendToServer confirmed srv {| st := s; successCount := 0; failCount := 0 |}.

End ScriptJs.

(** * The second variant (src/unnamed/part_000) *)

Module Part000.

(** ** Image locator *)

(** A record pushed by [findImagesInContent]. *)
Record found_image : Type := {
  bynderImage : json;
  alt : json;
  parentField : string;
  _uid : json
}.

Definition has_key (k : string) (props : list (string * json)) : bool :=
  existsb (fun kv => fst kv =? k) props.

(** [content.hasOwnProperty(key)] for an enumerated [key]: the method is
    found on the prototype unless the document has a property of that name,
    which is then called though it is no function. *)
Definition hasOwnProperty (props : list (string * json)) : result bool :=
  if has_key "hasOwnProperty" props then Throw TypeError else Ok true.

(** [Array.isArray(v) && v.length > 0 && v[0].component === 'bynder_image']. *)
Definition image_list_test (v : json) : result bool :=
  when isArray v then
  len <- get_length v ;;
  pos <- gt0 len ;;
  when pos then
  first <- get_first v ;;
  c <- get_prop first "component" ;;
  Ok (strict_eq_str c "bynder_image").

(** [imageWrapper.image && Array.isArray(imageWrapper.image) &&
     imageWrapper.image.length > 0 && imageWrapper.image[0].databaseId]. *)
Definition wrapper_test (imageWrapper : json) : result bool :=
  image <- get_prop imageWrapper "image" ;;
  when truthy image then
  when isArray image then
  len <- get_length image ;;
  pos <- gt0 len ;;
  when pos then
  first <- get_first image ;;
  id <- get_prop first "databaseId" ;;
  Ok (truthy id).

(** The body of [content[key].forEach(imageWrapper => ...)]. *)
Definition push_wrapper (key : string) (images : list found_image) (imageWrapper : json)
  : result (list found_image) :=
  hit <- wrapper_test imageWrapper ;;
  if hit then
    image <- get_prop imageWrapper "image" ;;
    first <- get_first image ;;
    a <- get_prop imageWrapper "alt" ;;
    u <- get_prop imageWrapper "_uid" ;;
    Ok (images ++ [{| bynderImage := first; alt := a; parentField := key; _uid := u |}])
  else Ok images.

Fixpoint findImagesInContent (content : json) (parentField : string)
  : result (list found_image) :=
  match content with
  | JArr items =>
      for_of (fun images item =>
                found <- findImagesInContent item parentField ;; Ok (images ++ found))
             items []
  | JObj props =>
      for_of (fun images kv =>
                own <- hasOwnProperty props ;;
                if own then
                  is_list <- image_list_test (snd kv) ;;
                  if is_list then for_of (push_wrapper (fst kv)) (children (snd kv)) images
                  else if typeof_object (snd kv) && negb (is_null (snd kv)) then
                    found <- findImagesInContent (snd kv) (fst kv) ;; Ok (images ++ found)
                  else Ok images
                else Ok images)
             props []
  | _ => Ok []
  end.

(** ** Change tracker *)

(** An element of [currentStoryImages], as [extractImagesFromStoryJson]
    builds it.  [alt] and [fileName] are strings ([x || '']); [_uid] is
    [Some s] for a string and [None] for anything else.  The two references
    into the listed document are kept as the values they point to. *)
Record image : Type := {
  image_storyId : Z;
  image_parentField : string;
  image_alt : string;
  image_fileName : string;
  image_uid : option string;
  bynderImageRef : json;
  altTextRef : json
}.

(** An entry of [modifiedImages]. *)
Record modification : Type := {
  storyId : Z;
  mod_uid : string;
  altText : string;
  fileName : string;
  mod_bynderImageRef : json;
  mod_altTextRef : json;
  originalParentField : string;
  originalAlt : string;
  originalFileName : string
}.

Definition with_altText (value : string) (m : modification) : modification :=
  {| storyId := storyId m; mod_uid := mod_uid m; altText := value; fileName := fileName m;
     mod_bynderImageRef := mod_bynderImageRef m; mod_altTextRef := mod_altTextRef m;
     originalParentField := originalParentField m; originalAlt := originalAlt m;
     originalFileName := originalFileName m |}.

Definition with_fileName (value : string) (m : modification) : modification :=
  {| storyId := storyId m; mod_uid := mod_uid m; altText := altText m; fileName := value;
     mod_bynderImageRef := mod_bynderImageRef m; mod_altTextRef := mod_altTextRef m;
     originalParentField := originalParentField m; originalAlt := originalAlt m;
     originalFileName := originalFileName m |}.

Inductive field : Type := FileName | AltText.

(** The globals of the script that the tracker and the write-back touch.
    [modifiedImages] is keyed by the string [storyId + '-' + uid], which
    determines the pair. *)
Record state : Type := {
  storyblokMapiToken : string;
  currentStoryData : json;
  currentStoryImages : list image;
  modifiedImages : Map.t (Z * string) modification;
  sendToServerBtn_disabled : bool
}.

Definition set_modifiedImages (m : Map.t (Z * string) modification) (st : state) : state :=
  {| storyblokMapiToken := storyblokMapiToken st;
     currentStoryData := currentStoryData st;
     currentStoryImages := currentStoryImages st;
     modifiedImages := m;
     sendToServerBtn_disabled := sendToServerBtn_disabled st |}.

Definition set_disabled (b : bool) (st : state) : state :=
  {| storyblokMapiToken := storyblokMapiToken st;
     currentStoryData := currentStoryData st;
     currentStoryImages := currentStoryImages st;
     modifiedImages := modifiedImages st;
     sendToServerBtn_disabled := b |}.

(** [sendToServerBtn.disabled = modifiedImages.size === 0]. *)
Definition refresh_button (st : state) : state :=
  set_disabled (Map.size (modifiedImages st) =? 0)%nat st.

Definition uid_is (uid : string) (img : image) : bool :=
  match image_uid img with
  | Some s => s =? uid
  | None => false
  end.

(** [handleCellChange] for the [change] event of a textarea whose [dataset]
    holds [storyId] (read back with [parseInt]), [uid] and [field], and whose
    value is [newValue]. *)
Definition handleCellChange (storyId : Z) (uid : string) (f : field) (newValue : string)
  (st : state) : state :=
  match find (fun img => (image_storyId img =? storyId)%Z && uid_is uid img)
             (currentStoryImages st) with
  | None => st
  | Some originalImage =>
      let uniqueKey := (storyId, uid) in
      let tracked :=
        if Map.has uniqueKey (modifiedImages st) then modifiedImages st
        else Map.set uniqueKey
               {| storyId := storyId; mod_uid := uid;
                  altText := image_alt originalImage;
                  fileName := image_fileName originalImage;
                  mod_bynderImageRef := bynderImageRef originalImage;
                  mod_altTextRef := altTextRef originalImage;
                  originalParentField := image_parentField originalImage;
                  originalAlt := image_alt originalImage;
                  originalFileName := image_fileName originalImage |}
               (modifiedImages st) in
      match Map.get uniqueKey tracked with
      | None => st
      | Some modificationEntry =>
          let modificationEntry :=
            match f with
            | AltText => with_altText newValue modificationEntry
            | FileName => with_fileName newValue modificationEntry
            end in
          let isAltChanged := negb (altText modificationEntry =? originalAlt modificationEntry) in
          let isFileNameChanged :=
            negb (fileName modificationEntry =? originalFileName modificationEntry) in
          refresh_button
            (set_modifiedImages
               (if negb isAltChanged && negb isFileNameChanged
                then Map.delete uniqueKey tracked
                else Map.set uniqueKey modificationEntry tracked)
               st)
      end
  end.

(** A row of the table: the image it was rendered from and the values of
    its two textareas. *)
Record row : Type := {
  shown : image;
  fileNameInput : string;
  altTextInput : string
}.

(** [String(_uid)] as stored in the [dataset]. *)
Definition dataset_uid (img : image) : string :=
  match image_uid img with
  | Some s => s
  | None => "undefined"
  end.

Definition type_into (f : field) (value : string) (r : row) : row :=
  {| shown := shown r;
     fileNameInput := match f with FileName => value | AltText => fileNameInput r end;
     altTextInput := match f with AltText => value | FileName => altTextInput r end |}.

Record page : Type := {
  rows : list row;
  app : state
}.

(** A [change] event on textarea [f] of the [i]-th row. *)
Definition change (i : nat) (f : field) (value : string) (pg : page) : page :=
  match nth_error (rows pg) i with
  | None => pg
  | Some r =>
      {| rows := firstn i (rows pg) ++ type_into f value r :: skipn (S i) (rows pg);
         app := handleCellChange (image_storyId (shown r)) (dataset_uid (shown r)) f value
                  (app pg) |}
  end.

Definition changes (evs : list (nat * field * string)) (pg : page) : page :=
  fold_left (fun pg ev => change (fst (fst ev)) (snd (fst ev)) (snd ev) pg) evs pg.

Definition row_key (r : row) : Z * string := (image_storyId (shown r), dataset_uid (shown r)).

Definition tracked (r : row) (st : state) : bool := Map.has (row_key r) (modifiedImages st).

Definition edited (r : row) : bool :=
  negb (fileNameInput r =? image_fileName (shown r)) || negb (altTextInput r =? image_alt (shown r)).

Definition pristine (r : row) : bool :=
  (fileNameInput r =? image_fileName (shown r)) && (altTextInput r =? image_alt (shown r)).

(** ** Image patcher *)

(** [\s] on the code units below U+0100: TAB, LF, VT, FF, CR, SPACE and
    NO-BREAK SPACE. *)
Definition is_space (c : ascii) : bool :=
  let n := nat_of_ascii c in
  ((9 <=? n) && (n <=? 13) || (n =? 32) || (n =? 160))%nat.

(** [s.replace(/\s+/g, '-')]: the scan writes one ['-'] where a run of
    white space starts and drops the rest of the run. *)
Fixpoint replace_spaces (in_run : bool) (s : string) : string :=
  match s with
  | EmptyString => EmptyString
  | String c r =>
      if is_space c then
        if in_run then replace_spaces true r else String "-"%char (replace_spaces true r)
      else String c (replace_spaces false r)
  end.

(** The lower-case mapping of a code unit below U+0100: A-Z and the
    upper-case letters of Latin-1 (U+00C0..U+00DE but the sign U+00D7). *)
Definition lower (c : ascii) : ascii :=
  let n := nat_of_ascii c in
  if ((65 <=? n) && (n <=? 90) || (192 <=? n) && (n <=? 222) && negb (n =? 215))%nat
  then ascii_of_nat (n + 32) else c.

Fixpoint toLowerCase (s : string) : string :=
  match s with
  | EmptyString => EmptyString
  | String c r => String (lower c) (toLowerCase r)
  end.

(** [fileName.replace(/\s+/g, '-').toLowerCase()]. *)
Definition normalize (fileName : string) : string :=
  toLowerCase (replace_spaces false fileName).

(** [Array.isArray(v) && v.length > 0 && v[0] &&
     v[0].component === 'bynder_image'], the test of [updateImageRecursive]. *)
Definition guarded_image_list_test (v : json) : result bool :=
  when isArray v then
  len <- get_length v ;;
  pos <- gt0 len ;;
  when pos then
  first <- get_first v ;;
  when truthy first then
  c <- get_prop first "component" ;;
  Ok (strict_eq_str c "bynder_image").

Inductive modal : Type := NoChangesToSend | ChangesSent | SendFailed.

Inductive event : Type :=
| Get (storyId : Z)
| Put (storyId : Z) (story : json)
| ConsoleError
| ConsoleLog (updated : Z)
| ShowModal (m : modal)
| LoadStoryDetails (id : json).

(** The body of [obj[prop].forEach(imageWrapper => ...)].  The entry [mod]
    of the closure is the state: its [fileName] is overwritten. *)
Definition update_wrapper (imageWrapper : json) : M modification event json :=
  uid <~ lift (get_prop imageWrapper "_uid") ;;
  mod_uid <~ gets mod_uid ;;
  if strict_eq_str uid mod_uid then
    modify (fun m => with_fileName (normalize (fileName m)) m) ;;;
    mod_ <~ gets id ;;
    let fileNameChanged := negb (fileName mod_ =? originalFileName mod_) in
    imageWrapper <~ lift
      (if fileNameChanged then
         image <- get_prop imageWrapper "image" ;;
         first <- get_first image ;;
         first <- set_prop first "name" (JStr (fileName mod_)) ;;
         Ok (with_prop imageWrapper "image" (with_first image first))
       else Ok imageWrapper) ;;
    imageWrapper <~ lift
      (if negb (altText mod_ =? originalAlt mod_)
       then set_prop imageWrapper "alt" (JStr (altText mod_))
       else Ok imageWrapper) ;;
    lift
      (if fileNameChanged then
         image <- get_prop imageWrapper "image" ;;
         bynderImage <- get_first image ;;
         files <- get_prop bynderImage "files" ;;
         transformBaseUrl <- get_prop files "transformBaseUrl" ;;
         oldTransformUrl <- get_prop transformBaseUrl "url" ;;
         lastSlashIndex <- js_lastIndexOf_slash oldTransformUrl ;;
         match lastSlashIndex with
         | Some i =>
             baseUrl <- js_substring0 oldTransformUrl (i + 1) ;;
             transformBaseUrl <-
               set_prop transformBaseUrl "url" (JStr (baseUrl ++ fileName mod_)%string) ;;
             Ok (with_prop imageWrapper "image"
                   (with_first image
                      (with_prop bynderImage "files"
                         (with_prop files "transformBaseUrl" transformBaseUrl))))
         | None => Ok imageWrapper
         end
       else Ok imageWrapper)
  else ret imageWrapper.

Section MapM.
Context {S E A B : Type}.
Variable f : A -> M S E B.

(** A loop that mutates the elements it visits, as the list of what they
    have become. *)
Fixpoint map_each (l : list A) : M S E (list B) :=
  match l with
  | [] => ret []
  | x :: r => y <~ f x ;; ys <~ map_each r ;; ret (y :: ys)
  end.
End MapM.

(** [updateImageRecursive(obj)], as the value [obj] has afterwards. *)
Fixpoint updateImageRecursive (obj : json) : M modification event json :=
  match obj with
  | JArr items =>
      items <~ map_each updateImageRecursive items ;;
      ret (JArr items)
  | JObj props =>
      props' <~ map_each
        (fun kv =>
           own <~ lift (hasOwnProperty props) ;;
           if own then
             is_list <~ lift (guarded_image_list_test (snd kv)) ;;
             if is_list then
               wrappers <~ map_each update_wrapper (children (snd kv)) ;;
               ret (fst kv, JArr wrappers)
             else
               v <~ updateImageRecursive (snd kv) ;;
               ret (fst kv, v)
           else ret kv)
        props ;;
      ret (JObj props')
  | _ => ret obj
  end.

(** ** Write-back *)

Inductive request : Type :=
| GetStory (storyId : Z)
| PutStory (storyId : Z) (story : json).

Definition sent (r : request) : event :=
  match r with
  | GetStory storyId => Get storyId
  | PutStory storyId story => Put storyId story
  end.

Definition answer (srv : server Z) (r : request) : response :=
  match r with
  | GetStory storyId => on_get srv storyId
  | PutStory storyId story => on_put srv storyId story
  end.

(** [makeApiRequest(url, method, body)] for the two requests of the
    write-back; a PUT carries [{story: story, publish: 1}]. *)
Definition makeApiRequest (srv : server Z) (r : request) : M state event json :=
  token <~ gets storyblokMapiToken ;;
  if token =? "" then throw (Error TokenNotSet)
  else
    emit (sent r) ;;;
    match answer srv r with
    | Http status body =>
        if ok status then ret body
        else emit ConsoleError ;;; throw (Error RequestFailed)
    | NetworkError => emit ConsoleError ;;; throw (Error RequestFailed)
    end.

(** One turn of the first loop, which fills the local [storiesToUpdate]. *)
Definition fetch_story (srv : server Z) (storiesToUpdate : Map.t Z json)
  (entry : (Z * string) * modification) : M state event (Map.t Z json) :=
  if Map.has (storyId (snd entry)) storiesToUpdate then ret storiesToUpdate
  else
    storyResponse <~ makeApiRequest srv (GetStory (storyId (snd entry))) ;;
    story <~ lift (get_prop storyResponse "story") ;;
    ret (Map.set (storyId (snd entry)) story storiesToUpdate).

(** Runs an update of the entry [mod] on the entry stored under [key]. *)
Definition on_entry {A : Type} (key : Z * string) (mod_ : modification)
  (m : M modification event A) : M state event A :=
  fun st =>
    match m mod_ with
    | (r, mod', evs) =>
        (r, set_modifiedImages (Map.set key mod' (modifiedImages st)) st, evs)
    end.

(** One turn of the second loop. *)
Definition apply_entry (storiesToUpdate : Map.t Z json)
  (entry : (Z * string) * modification) : M state event (Map.t Z json) :=
  match Map.get (storyId (snd entry)) storiesToUpdate with
  | None => throw (Error StoryDataNotFound)
  | Some storyToUpdate =>
      if negb (truthy storyToUpdate) then throw (Error StoryDataNotFound)
      else
        content <~ lift (get_prop storyToUpdate "content") ;;
        content <~ on_entry (fst entry) (snd entry) (updateImageRecursive content) ;;
        ret (Map.set (storyId (snd entry)) (with_prop storyToUpdate "content" content)
               storiesToUpdate)
  end.

(** One turn of the third loop. *)
Definition put_story (srv : server Z) (entry : Z * json) : M state event unit :=
  makeApiRequest srv (PutStory (fst entry) (snd entry)) ;;;
  emit (ConsoleLog (fst entry)).

(** [sendModificationsToServer].  Of the reload that ends a successful run
    only the call is recorded. *)
Definition sendModificationsToServer (srv : server Z) : M state event unit :=
  pending <~ gets modifiedImages ;;
  if (Map.size pending =? 0)%nat then emit (ShowModal NoChangesToSend)
  else
    modify (set_disabled true) ;;;
    try_catch
      (storiesToUpdate <~ for_each_with (fetch_story srv) pending [] ;;
       storiesToUpdate <~ for_each_with apply_entry pending storiesToUpdate ;;
       for_each (put_story srv) storiesToUpdate ;;;
       emit (ShowModal ChangesSent) ;;;
       modify (set_modifiedImages []) ;;;
       current <~ gets currentStoryData ;;
       story <~ lift (get_prop current "story") ;;
       id <~ lift (get_prop story "id") ;;
       emit (LoadStoryDetails id))
      (fun _ => emit (ShowModal SendFailed)) ;;;
    modify refresh_button.

End Part000.

(** * The listings, the web links and the story tree *)

(** ** Strings and arrays *)

(** [s.startsWith(p)]. *)
Fixpoint startsWith (p s : string) : bool :=
  match p, s with
  | EmptyString, _ => true
  | String a p', String b s' => Ascii.eqb a b && startsWith p' s'
  | String _ _, EmptyString => false
  end.

(** [s.substring(n)]: the string without its first [n] code units. *)
Fixpoint drop (n : nat) (s : string) : string :=
  match n, s with
  | O, _ => s
  | S m, String _ r => drop m r
  | S _, EmptyString => EmptyString
  end.

(** [s.replace(pattern, replacement)] for a string pattern and a
    replacement without ['$']: the first occurrence is replaced. *)
Fixpoint replace_first (pattern replacement s : string) : string :=
  if startsWith pattern s then (replacement ++ drop (String.length pattern) s)%string
  else
    match s with
    | EmptyString => EmptyString
    | String c r => String c (replace_first pattern replacement r)
    end.

(** [s.endsWith('/')]. *)
Fixpoint endsWith_slash (s : string) : bool :=
  match s with
  | EmptyString => false
  | String c EmptyString => Ascii.eqb c slash
  | String _ r => endsWith_slash r
  end.

(** [s.slice(0, -1)]. *)
Fixpoint slice_0_m1 (s : string) : string :=
  match s with
  | EmptyString | String _ EmptyString => EmptyString
  | String c r => String c (slice_0_m1 r)
  end.

(** [s.replace(/\/$/, '')]. *)
Fixpoint replace_trailing_slash (s : string) : string :=
  match s with
  | EmptyString => EmptyString
  | String c EmptyString => if Ascii.eqb c slash then EmptyString else s
  | String c r => String c (replace_trailing_slash r)
  end.

(** [s.split(c)] for a one-character separator. *)
Fixpoint js_split (c : ascii) (s : string) : list string :=
  match s with
  | EmptyString => [EmptyString]
  | String a r =>
      if Ascii.eqb a c then EmptyString :: js_split c r
      else match js_split c r with
           | x :: l => String a x :: l
           | [] => [String a EmptyString]
           end
  end.

(** [l.join(sep)]. *)
Fixpoint js_join (sep : string) (l : list string) : string :=
  match l with
  | [] => EmptyString
  | [x] => x
  | x :: r => x ++ sep ++ js_join sep r
  end.

(** [a.concat(v)]: an array argument is spread, any other value is
    appended as it is. *)
Definition concat_arg (v : json) : list json :=
  match v with
  | JArr items => items
  | _ => [v]
  end.

(** ** script.js: the main table *)

Module ScriptJsTable.
Import ScriptJs.

Definition BASE_DAMEN_URL : string := "https://www.damen.com".

(** The web link of a row of [loadMainTable], from [story.full_slug]. *)
Definition weblink (full_slug : string) : string :=
  let weblinkSlug := replace_first "damen/en" "" full_slug in
  replace_trailing_slash
    (BASE_DAMEN_URL ++ (if startsWith "/" weblinkSlug then weblinkSlug
                        else "/" ++ weblinkSlug))%string.

(** What the listing of [loadMainTable] does that can be observed. *)
Inductive list_event : Type :=
| GetStories (page : nat)
| ListConsole (d : diagnostic)
| ListAlert (d : diagnostic).

(** [fetchStoryblokApi('stories', params)] for the page [page]; [pages]
    stands for the answers of the Management API to the listing. *)
Definition fetchStories (token : string) (pages : nat -> response) (page : nat)
  : M unit list_event (option json) :=
  if token =? "" then emit (ListConsole TokenMissing) ;;; ret None
  else
    emit (GetStories page) ;;;
    match pages page with
    | Http status body =>
        if ok status then ret (Some body)
        else emit (ListConsole FetchFailed) ;;; emit (ListAlert FetchFailed) ;;; ret None
    | NetworkError => emit (ListConsole FetchFailed) ;;; emit (ListAlert FetchFailed) ;;; ret None
    end.

(** The [while (hasMore)] loop of [loadMainTable], which fills
    [storiesForTable]; [None] when the turns allowed by [fuel] do not
    suffice. *)
Fixpoint storiesForTable (fuel : nat) (token : string) (pages : nat -> response)
  (page : nat) (acc : list json) : M unit list_event (option (list json)) :=
  match fuel with
  | O => ret None
  | S fuel' =>
      response <~ fetchStories token pages page ;;
      match response with
      | Some body =>
          if truthy body then
            stories <~ lift (get_prop body "stories") ;;
            len <~ lift (get_length stories) ;;
            more <~ lift (gt0 len) ;;
            if more then storiesForTable fuel' token pages (S page) (acc ++ concat_arg stories)
            else ret (Some acc)
          else ret (Some acc)
      | None => ret (Some acc)
      end
  end.

End ScriptJsTable.

(** ** script.js: the story tree *)

Module ScriptJsTree.

(** A node of the tree that [buildStoryTree] builds.  A level of the tree is
    an object used as a map from the parts of the slugs to nodes; it is read
    and written by key only. *)
Unset Elimination Schemes.
Inductive tree_node : Type :=
| TreeNode (_fullSlug : string) (_children : list (string * tree_node)) (_isLeaf : bool).
Set Elimination Schemes.

Definition level : Type := Map.t string tree_node.

Definition _fullSlug (n : tree_node) : string :=
  match n with TreeNode s _ _ => s end.

Definition _children (n : tree_node) : level :=
  match n with TreeNode _ c _ => c end.

Definition _isLeaf (n : tree_node) : bool :=
  match n with TreeNode _ _ b => b end.

(** The names a fresh object inherits from [Object.prototype]: read as a
    key of a level they give a function or an object that is no node. *)
Definition inherited (part : string) : bool :=
  existsb (String.eqb part)
    ["constructor"; "hasOwnProperty"; "isPrototypeOf"; "propertyIsEnumerable";
     "toLocaleString"; "toString"; "valueOf"; "__proto__";
     "__defineGetter__"; "__defineSetter__"; "__lookupGetter__"; "__lookupSetter__"].

(** [slug.split('/').filter(p => p !== '')]. *)
Definition parts_of (slug : string) : list string :=
  filter (fun p => negb (p =? "")) (js_split "/" slug).

(** The turns of [parts.forEach((part, index) => ...)] from [index] on,
    [rest] being the parts still to visit and [currentLevel] the level the
    turns before have reached.  A part that names an inherited property is
    not modelled. *)
Fixpoint add_parts (parts : list string) (index : nat) (rest : list string)
  (currentLevel : level) : result level :=
  match rest with
  | [] => Ok currentLevel
  | part :: rest' =>
      if inherited part then Throw NotModelled
      else
        let item :=
          match Map.get part currentLevel with
          | Some item => item
          | None =>
              TreeNode (js_join "/" (firstn (index + 1) parts)) []
                (negb (index <? List.length parts - 1)%nat)
          end in
        children <- add_parts parts (index + 1) rest' (_children item) ;;
        Ok (Map.set part (TreeNode (_fullSlug item) children (_isLeaf item)) currentLevel)
  end.

(** The object [root] that [buildStoryTree(slugs)] fills, for an array of
    strings. *)
Definition buildStoryTree (slugs : list string) : result level :=
  for_of (fun root slug => add_parts (parts_of slug) 0 (parts_of slug) root) slugs [].

End ScriptJsTree.

(** ** The second variant: the list of stories *)

Module Part000Stories.
Import Part000.

Definition DAMEN_WEBSITE_BASE_URL : string := "https://www.damen.com".

(** The web link of an item of [renderStoryList], from [story.full_slug]. *)
Definition fullWeblink (full_slug : string) : string :=
  let fullWeblink := replace_first "damen/en" DAMEN_WEBSITE_BASE_URL full_slug in
  if endsWith_slash fullWeblink then slice_0_m1 fullWeblink else fullWeblink.

(** [processedFullSlug] of [fetchAllStories], for a string [s.full_slug]:
    the slug the global [allStories] keeps of a story. *)
Definition processedFullSlug (full_slug : string) : string :=
  if full_slug =? "damen/en/home"
  then replace_first "damen/en/home" "damen/en/" full_slug
  else full_slug.

(** The web link [renderStoryList] shows for a story that the Management
    API lists under [full_slug]: the link is computed from the slug kept in
    [allStories]. *)
Definition listed_weblink (full_slug : string) : string :=
  fullWeblink (processedFullSlug full_slug).

Inductive list_event : Type :=
| GetStories (page : nat)
| ListConsoleError.

(** [makeApiRequest(url)] for the page [page] of the listing. *)
Definition listStories (token : string) (pages : nat -> response) (page : nat)
  : M (list json) list_event json :=
  if token =? "" then throw (Error TokenNotSet)
  else
    emit (GetStories page) ;;;
    match pages page with
    | Http status body =>
        if ok status then ret body
        else emit ListConsoleError ;;; throw (Error RequestFailed)
    | NetworkError => emit ListConsoleError ;;; throw (Error RequestFailed)
    end.

(** The fields [fetchAllStories] keeps of a story of the listing; the
    slug of the home page is rewritten. *)
Definition listed_story (s : json) : result json :=
  full_slug <- get_prop s "full_slug" ;;
  name <- get_prop s "name" ;;
  id <- get_prop s "id" ;;
  slug <- get_prop s "slug" ;;
  Ok (JObj [("name", name); ("id", id); ("slug", slug);
            ("full_slug",
             if strict_eq_str full_slug "damen/en/home" then JStr "damen/en/" else full_slug)]).

(** [response.stories.map(...)]: only an array has the method. *)
Definition map_stories (stories : json) : result (list json) :=
  match stories with
  | JArr items => for_of (fun acc s => x <- listed_story s ;; Ok (acc ++ [x])) items []
  | _ => Throw TypeError
  end.

(** The [while (hasMore)] loop of [fetchAllStories]; the state is the
    global [allStories].  [false] when the turns allowed by [fuel] do not
    suffice. *)
Fixpoint fetch_loop (fuel : nat) (token : string) (pages : nat -> response) (page : nat)
  : M (list json) list_event bool :=
  match fuel with
  | O => ret false
  | S fuel' =>
      response <~ listStories token pages page ;;
      stories <~ lift (get_prop response "stories") ;;
      if truthy stories then
        len <~ lift (get_length stories) ;;
        more <~ lift (gt0 len) ;;
        if more then
          mapped <~ lift (map_stories stories) ;;
          modify (fun allStories => allStories ++ mapped) ;;;
          fetch_loop fuel' token pages (S page)
        else ret true
      else ret true
  end.

End Part000Stories.

(** * Vocabulary of the properties *)

(** ** Trees *)

(** The arrays and objects of a tree in depth-first order: a parent before
    its children, the children in the order in which the loops visit
    them. *)
Fixpoint nodes (v : json) : list json :=
  match v with
  | JArr items => v :: flat_map nodes items
  | JObj props => v :: flat_map (fun kv => nodes (snd kv)) props
  | _ => []
  end.

(** The node carries the component tag. *)
Definition tagged (n : json) : bool :=
  match n with
  | JObj props => strict_eq_str (lookup "component" props) "bynder_image"
  | _ => false
  end.

Definition image_of (n : json) : json :=
  match n with
  | JObj props => lookup "image" props
  | _ => JUndefined
  end.

(** What [image && image.length > 0] and then [image[0]] come to, by the
    shape of [image]: no first element, a first element, or a length that
    the model cannot compare with 0. *)
Inductive descriptors : Type :=
| NoDescriptor
| First (d : json)
| UnknownLength.

Definition descriptors_of (image : json) : descriptors :=
  match image with
  | JArr (d :: _) => First d
  | JStr (String c _) => First (JStr (String c EmptyString))
  | JObj props =>
      match lookup "length" props with
      | JNum n => if (0 <? n)%Z then First (lookup "0" props) else NoDescriptor
      | JBool true => First (lookup "0" props)
      | JStr _ | JArr _ | JObj _ => UnknownLength
      | _ => NoDescriptor
      end
  | _ => NoDescriptor
  end.

Definition database_id (d : json) : json :=
  match d with
  | JObj props => lookup "databaseId" props
  | _ => JUndefined
  end.

(** The qualification [extractImages] applies: the tag, a first descriptor,
    and a truthy identifier on it. *)
Definition image_node (n : json) : bool :=
  tagged n &&
  match descriptors_of (image_of n) with
  | First d => truthy (database_id d)
  | _ => false
  end.

(** The tagged nodes on which the test of [extractImages] does not
    complete: the first descriptor is [null] or missing, or the length of an
    array-like [image] is no number. *)
Definition malformed (n : json) : option exn :=
  if tagged n then
    match descriptors_of (image_of n) with
    | First JNull | First JUndefined => Some TypeError
    | UnknownLength => Some NotModelled
    | _ => None
    end
  else None.

Fixpoint first_malformed (l : list json) : option exn :=
  match l with
  | [] => None
  | n :: r =>
      match malformed n with
      | Some e => Some e
      | None => first_malformed r
      end
  end.

(** The qualification in the words of the specification: the tag, a
    non-empty [image] array, and a first element whose [databaseId] is a
    number. *)
Definition spec_image_node (n : json) : bool :=
  tagged n &&
  match image_of n with
  | JArr (JObj d :: _) =>
      match lookup "databaseId" d with
      | JNum _ => true
      | _ => false
      end
  | _ => false
  end.

Definition is_node (v : json) : bool :=
  match v with
  | JArr _ | JObj _ => true
  | _ => false
  end.

Definition nullish (v : json) : bool :=
  match v with
  | JUndefined | JNull => true
  | _ => false
  end.

(** An array-valued property that [findImagesInContent] takes for a list
    of image wrappers: its first element carries the tag. *)
Definition is_image_list (v : json) : bool :=
  match v with
  | JArr (first :: _) => tagged first
  | _ => false
  end.

(** The qualification [findImagesInContent] applies to an element of such
    a list: [image] is an array whose first element has a truthy
    identifier. *)
Definition wrapper_ok (w : json) : bool :=
  match image_of w with
  | JArr (d :: _) => truthy (database_id d)
  | _ => false
  end.

Definition record_of (key : string) (w : json) : Part000.found_image :=
  {| Part000.bynderImage := match image_of w with JArr (d :: _) => d | _ => JUndefined end;
     Part000.alt := match w with JObj props => lookup "alt" props | _ => JUndefined end;
     Part000.parentField := key;
     Part000._uid := match w with JObj props => lookup "_uid" props | _ => JUndefined end |}.

(** What [findImagesInContent] reports, as a pure function: the qualifying
    elements of the image lists, the lists taken where the walk meets them;
    the walk does not enter an image list. *)
Fixpoint reported (content : json) : list Part000.found_image :=
  match content with
  | JArr items => flat_map reported items
  | JObj props =>
      flat_map
        (fun kv =>
           if is_image_list (snd kv)
           then map (record_of (fst kv)) (filter wrapper_ok (children (snd kv)))
           else reported (snd kv))
        props
  | _ => []
  end.

(** An element of an image list on which the test of the wrapper
    completes. *)
Definition wrapper_clean (w : json) : bool :=
  negb (nullish w) &&
  match image_of w with
  | JArr (d :: _) => negb (nullish d)
  | _ => true
  end.

(** The trees on which the walk of [findImagesInContent] completes: no
    object has a property named [hasOwnProperty], no array-valued property
    starts with [null], and the elements of the image lists are clean. *)
Fixpoint clean (v : json) : bool :=
  match v with
  | JArr items => forallb clean items
  | JObj props =>
      negb (Part000.has_key "hasOwnProperty" props) &&
      forallb
        (fun kv =>
           match snd kv with
           | JArr (first :: rest) =>
               negb (nullish first) &&
               (if tagged first then forallb wrapper_clean (first :: rest)
                else clean (snd kv))
           | _ => clean (snd kv)
           end)
        props
  | _ => true
  end.

(** Two stories for the locator.  In the first the identifier is a string,
    as [findImageInStoryContentById] expects it; in the second it is the
    number 0. *)
Definition hero_image : json :=
  JObj [("component", JStr "bynder_image");
        ("alt", JStr "old");
        ("image", JArr [JObj [("databaseId", JStr "6C1AE0E2");
                              ("name", JStr "Old.jpg")]])].

Definition hero_story : json :=
  JObj [("component", JStr "page"); ("body", JArr [hero_image])].

Definition zero_image : json :=
  JObj [("component", JStr "bynder_image");
        ("image", JArr [JObj [("databaseId", JNum 0)]])].

(** A tagged node whose descriptor array holds [null]. *)
Definition null_descriptor : json :=
  JObj [("component", JStr "bynder_image"); ("image", JArr [JNull])].

(** An image node held directly by a property, not inside an array. *)
Definition numbered_image : json :=
  JObj [("component", JStr "bynder_image");
        ("image", JArr [JObj [("databaseId", JNum 7)]])].

Definition hero_page : json := JObj [("hero", numbered_image)].

(** ** Image nodes as the scripts read them *)

(** The reads by which the scripts list an image node: [image[0].name],
    [image[0].files.transformBaseUrl.url] and [alt]. *)
Definition read_name (imageObj : json) : result json :=
  image <- get_prop imageObj "image" ;;
  bynderImg <- get_first image ;;
  get_prop bynderImg "name".

Definition read_transformUrl (imageObj : json) : result json :=
  image <- get_prop imageObj "image" ;;
  bynderImg <- get_first image ;;
  files <- get_prop bynderImg "files" ;;
  transformBaseUrl <- get_prop files "transformBaseUrl" ;;
  get_prop transformBaseUrl "url".

Definition read_alt (imageObj : json) : result json := get_prop imageObj "alt".

(** The string holds no ['/']. *)
Fixpoint no_slash (s : string) : bool :=
  match s with
  | EmptyString => true
  | String c r => negb (Ascii.eqb c slash) && no_slash r
  end.

(** An image node with the given name, alternative text and transform
    URL. *)
Definition image_node_of (uid name alt url : string) : json :=
  JObj [("_uid", JStr uid);
        ("component", JStr "bynder_image");
        ("alt", JStr alt);
        ("image",
         JArr [JObj [("databaseId", JStr "6C1AE0E2");
                     ("name", JStr name);
                     ("files", JObj [("transformBaseUrl", JObj [("url", JStr url)])])]])].

(** Whether [s] ends in [suffix]. *)
Fixpoint has_suffix (suffix s : string) : bool :=
  (s =? suffix) ||
  match s with
  | EmptyString => false
  | String _ r => has_suffix suffix r
  end.

(** A pending edit of script.js that renames [Old.jpg] into [New.jpg]. *)
Definition rename_edit : ScriptJs.modification :=
  {| ScriptJs.originalFileName := "Old.jpg";
     ScriptJs.originalAlt := "old";
     ScriptJs.originalTransformUrl := "https://cdn/x/Old.jpg";
     ScriptJs.newFileName := "New.jpg";
     ScriptJs.newAlt := "old" |}.

(** A pending edit of script.js that changes the alternative text only. *)
Definition alt_edit : ScriptJs.modification :=
  {| ScriptJs.originalFileName := "Old.jpg";
     ScriptJs.originalAlt := "old";
     ScriptJs.originalTransformUrl := "https://cdn/x/asset-1";
     ScriptJs.newFileName := "Old.jpg";
     ScriptJs.newAlt := "a tug at sea" |}.

(** A pending edit of the second variant for the wrapper [u1]. *)
Definition edit_of (typed original typedAlt : string) : Part000.modification :=
  {| Part000.storyId := 11;
     Part000.mod_uid := "u1";
     Part000.altText := typedAlt;
     Part000.fileName := typed;
     Part000.mod_bynderImageRef := JNull;
     Part000.mod_altTextRef := JNull;
     Part000.originalParentField := "body";
     Part000.originalAlt := "old";
     Part000.originalFileName := original |}.

(** The wrapper as [update_wrapper] leaves it, when it does not throw. *)
Definition updated (w : json) (m : Part000.modification) : result json :=
  fst (fst (Part000.update_wrapper w m)).

(** ** White space in file names *)

Fixpoint all_space (s : string) : bool :=
  match s with
  | EmptyString => true
  | String c r => Part000.is_space c && all_space r
  end.

Fixpoint no_space (s : string) : bool :=
  match s with
  | EmptyString => true
  | String c r => negb (Part000.is_space c) && no_space r
  end.

Definition starts_with_space (s : string) : bool :=
  match s with
  | EmptyString => false
  | String c _ => Part000.is_space c
  end.

Fixpoint ends_in_space (s : string) : bool :=
  match s with
  | EmptyString => false
  | String c EmptyString => Part000.is_space c
  | String _ r => ends_in_space r
  end.

(** ** Rows and entries of the change trackers *)

(** The key of the entry of a row of script.js. *)
Definition ScriptJs_row_key (r : ScriptJs.row) : string * string :=
  (ScriptJs.actualStoryId r, ScriptJs.imageBynderId r).

(** The row [r'] stands for the image of the row [r]. *)
Definition same_image (r r' : ScriptJs.row) : bool :=
  (ScriptJs.actualStoryId r' =? ScriptJs.actualStoryId r)
  && (ScriptJs.imageBynderId r' =? ScriptJs.imageBynderId r).

(** The row of the second variant was rendered from an image with a
    string [_uid]. *)
Definition has_uid (r : Part000.row) : bool :=
  match Part000.image_uid (Part000.shown r) with
  | Some _ => true
  | None => false
  end.

(** In the second variant a row and the tracker agree: an entry exists
    only for an edited row, and then holds the values of its textareas and
    the snapshot of its image. *)
Definition consistent (r : Part000.row) (st : Part000.state) : Prop :=
  match Map.get (Part000.row_key r) (Part000.modifiedImages st) with
  | Some e =>
      Part000.edited r = true
      /\ Part000.fileName e = Part000.fileNameInput r
      /\ Part000.altText e = Part000.altTextInput r
      /\ Part000.originalFileName e = Part000.image_fileName (Part000.shown r)
      /\ Part000.originalAlt e = Part000.image_alt (Part000.shown r)
  | None => Part000.edited r = false
  end.

(** A table of script.js with two images of story 11, as rendered, and the
    globals after [loadMainTable]. *)
Definition fresh_row (story image name alt : string) : ScriptJs.row :=
  {| ScriptJs.actualStoryId := story;
     ScriptJs.imageBynderId := image;
     ScriptJs.row_originalFileName := name;
     ScriptJs.row_originalAlt := alt;
     ScriptJs.row_originalTransformUrl := "https://cdn/x/asset-1";
     ScriptJs.fileNameInput := name;
     ScriptJs.altTextInput := alt |}.

Definition cleared (token : string) : ScriptJs.state :=
  {| ScriptJs.storyblokMapiToken := token;
     ScriptJs.changedStories := [];
     ScriptJs.imageModifications := [];
     ScriptJs.allLoadedStoriesContent := [];
     ScriptJs.sendToServerButton_hidden := true |}.

Definition fresh_page : ScriptJs.page :=
  {| ScriptJs.rows := [fresh_row "11" "6C1AE0E2" "Old.jpg" "old";
                       fresh_row "11" "77F0" "Tug.jpg" "a tug"];
     ScriptJs.app := cleared "token" |}.

(** The same for the second variant. *)
Definition listed (story : Z) (uid name alt : string) : Part000.image :=
  {| Part000.image_storyId := story;
     Part000.image_parentField := "body";
     Part000.image_alt := alt;
     Part000.image_fileName := name;
     Part000.image_uid := Some uid;
     Part000.bynderImageRef := JNull;
     Part000.altTextRef := JNull |}.

Definition rendered (img : Part000.image) : Part000.row :=
  {| Part000.shown := img;
     Part000.fileNameInput := Part000.image_fileName img;
     Part000.altTextInput := Part000.image_alt img |}.

Definition loaded (token : string) (images : list Part000.image) : Part000.state :=
  {| Part000.storyblokMapiToken := token;
     Part000.currentStoryData := JObj [("story", JObj [("id", JNum 11)])];
     Part000.currentStoryImages := images;
     Part000.modifiedImages := [];
     Part000.sendToServerBtn_disabled := true |}.

Definition fresh_table : Part000.page :=
  {| Part000.rows := map rendered [listed 11 "u1" "Old.jpg" "old"; listed 11 "u2" "Tug.jpg" "a tug"];
     Part000.app := loaded "token" [listed 11 "u1" "Old.jpg" "old"; listed 11 "u2" "Tug.jpg" "a tug"] |}.

(** A table of script.js for a story that uses one asset twice: two rows
    with the same story and image identifiers. *)
Definition twin_page : ScriptJs.page :=
  {| ScriptJs.rows := [fresh_row "11" "77F0" "Tug.jpg" "a tug";
                       fresh_row "11" "77F0" "Tug.jpg" "a tug"];
     ScriptJs.app := cleared "token" |}.

(** A table of the second variant for an image whose wrapper has no
    [_uid]. *)
Definition anonymous_image : Part000.image :=
  {| Part000.image_storyId := 11;
     Part000.image_parentField := "body";
     Part000.image_alt := "a tug";
     Part000.image_fileName := "Tug.jpg";
     Part000.image_uid := None;
     Part000.bynderImageRef := JNull;
     Part000.altTextRef := JNull |}.

Definition anonymous_table : Part000.page :=
  {| Part000.rows := [rendered anonymous_image];
     Part000.app := loaded "token" [anonymous_image] |}.

(** ** The write-back of script.js read as a function *)

(** The edits of one story read as a function of the fetched content:
    each pending edit in turn is applied to the running document at the
    node its identifier locates, or its identifier is noted as not found;
    the flag tells whether any edit was applied.  A throw of the lookup or
    of the patcher ends the reading. *)
Fixpoint patch_story (mods : list (string * ScriptJs.modification)) (content : json)
  (applied : bool) : result (json * bool) * list string :=
  match mods with
  | [] => (Ok (content, applied), [])
  | (imageBynderId, mod_) :: rest =>
      match ScriptJs.findImageInStoryContentById content imageBynderId with
      | Throw e => (Throw e, [])
      | Ok None =>
          let (r, missing) := patch_story rest content applied in
          (r, imageBynderId :: missing)
      | Ok (Some ref) =>
          match update_at (ScriptJs.applyModification mod_) ref content with
          | Throw e => (Throw e, [])
          | Ok content' => patch_story rest content' true
          end
      end
  end.

Definition not_found (storyId : string) (missing : list string) : list ScriptJs.event :=
  map (fun imageBynderId => ScriptJs.Console (ScriptJs.ImageNotFound imageBynderId storyId))
      missing.

Inductive verdict : Type :=
| Skipped
| Failed
| Succeeded
| Threw (e : exn).

(** The body of a response with a 2xx status. *)
Definition answered (r : response) : option json :=
  match r with
  | Http status body => if ok status then Some body else None
  | NetworkError => None
  end.

(** What [fetchStoryblokApi] and [putStoryblokApi] return and emit. *)
Definition ask_get (token : string) (srv : server string) (storyId : string)
  : option json * list ScriptJs.event :=
  if token =? "" then (None, [ScriptJs.Console ScriptJs.TokenMissing])
  else
    match answered (on_get srv storyId) with
    | Some body => (Some body, [ScriptJs.Get storyId])
    | None =>
        (None, [ScriptJs.Get storyId; ScriptJs.Console ScriptJs.FetchFailed;
                ScriptJs.Alert ScriptJs.FetchFailed])
    end.

Definition ask_put (token : string) (srv : server string) (storyId : string) (data : json)
  : option json * list ScriptJs.event :=
  if token =? "" then (None, [ScriptJs.Console ScriptJs.TokenMissing])
  else
    match answered (on_put srv storyId data) with
    | Some body => (Some body, [ScriptJs.Put storyId data])
    | None =>
        (None, [ScriptJs.Put storyId data; ScriptJs.Console ScriptJs.PutFailed;
                ScriptJs.Alert ScriptJs.PutFailed])
    end.

(** The story of a response: [None] when [!response || !response.story]. *)
Definition fetched_story (response : option json) : option json :=
  match response with
  | Some body =>
      if truthy body then
        match get_prop body "story" with
        | Ok story => if truthy story then Some story else None
        | Throw _ => None
        end
      else None
  | None => None
  end.

Definition content_of (story : json) : json :=
  match get_prop story "content" with
  | Ok content => content
  | Throw _ => JUndefined
  end.

(** What the turn of one story comes to and what it emits, from the token,
    the answers of the server and the pending edits of the story alone. *)
Definition turn (token : string) (srv : server string) (storyId : string)
  (mods : option (Map.t string ScriptJs.modification)) : verdict * list ScriptJs.event :=
  match mods with
  | None | Some [] => (Skipped, [ScriptJs.Console (ScriptJs.NoModificationsFound storyId)])
  | Some mods =>
      let (response, asked) := ask_get token srv storyId in
      match fetched_story response with
      | None => (Failed, asked ++ [ScriptJs.Console (ScriptJs.CouldNotFetchLatest storyId)])
      | Some story =>
          match patch_story mods (content_of story) false with
          | (Throw e, missing) => (Threw e, asked ++ not_found storyId missing)
          | (Ok (_, false), missing) =>
              (Skipped,
               asked ++ not_found storyId missing
               ++ [ScriptJs.Console (ScriptJs.NoActualChanges storyId)])
          | (Ok (content, true), missing) =>
              let (answer, sent) :=
                ask_put token srv storyId (with_prop story "content" content) in
              (if negb (ScriptJs.falsy_response answer) then Succeeded else Failed,
               asked ++ not_found storyId missing ++ sent)
          end
      end
  end.

Definition result_of (v : verdict) : result unit :=
  match v with
  | Threw e => Throw e
  | _ => Ok tt
  end.

Definition is_succeeded (v : verdict) : bool :=
  match v with Succeeded => true | _ => false end.

Definition is_failed (v : verdict) : bool :=
  match v with Failed => true | _ => false end.

Definition b2n (b : bool) : nat := if b then 1 else 0.

(** The turns of a run: one per story to process, in order, up to and
    with the first that throws. *)
Fixpoint story_turns (token : string) (srv : server string)
  (pending : Map.t string (Map.t string ScriptJs.modification)) (ids : list string)
  : list (verdict * list ScriptJs.event) :=
  match ids with
  | [] => []
  | id :: rest =>
      let t := turn token srv id (Map.get id pending) in
      match fst t with
      | Threw _ => [t]
      | _ => t :: story_turns token srv pending rest
      end
  end.

(** How a sequence of turns ends. *)
Fixpoint outcome (ts : list (verdict * list ScriptJs.event)) : result unit :=
  match ts with
  | [] => Ok tt
  | t :: rest =>
      match fst t with
      | Threw e => Throw e
      | _ => outcome rest
      end
  end.

Definition tally (p : verdict -> bool) (ts : list (verdict * list ScriptJs.event)) : nat :=
  List.length (filter (fun t => p (fst t)) ts).

Definition events_of (ts : list (verdict * list ScriptJs.event)) : list ScriptJs.event :=
  List.concat (map snd ts).

Definition is_put (storyId : string) (ev : ScriptJs.event) : bool :=
  match ev with
  | ScriptJs.Put id _ => id =? storyId
  | _ => false
  end.

Definition puts_for (storyId : string) (evs : list ScriptJs.event) : nat :=
  List.length (filter (is_put storyId) evs).

Definition events {S A E : Type} (x : A * S * list E) : list E := snd x.

Definition fresh_run (s : ScriptJs.state) : ScriptJs.run :=
  {| ScriptJs.st := s; ScriptJs.successCount := 0; ScriptJs.failCount := 0 |}.

Definition no_puts (evs : list ScriptJs.event) : Prop :=
  forall id body, ~ In (ScriptJs.Put id body) evs.

(** ** The write-back of the second variant read as a function *)

(** What [makeApiRequest] returns or throws, and what it emits. *)
Definition ask (token : string) (srv : server Z) (r : Part000.request)
  : result json * list Part000.event :=
  if token =? "" then (Throw (Error TokenNotSet), [])
  else
    match answered (Part000.answer srv r) with
    | Some body => (Ok body, [Part000.sent r])
    | None => (Throw (Error RequestFailed), [Part000.sent r; Part000.ConsoleError])
    end.

(** The first loop read as a function: the stories fetched so far and the
    events, up to the first request that fails. *)
Fixpoint fetch_all (token : string) (srv : server Z)
  (pending : list ((Z * string) * Part000.modification)) (stories : Map.t Z json)
  : result (Map.t Z json) * list Part000.event :=
  match pending with
  | [] => (Ok stories, [])
  | entry :: rest =>
      let id := Part000.storyId (snd entry) in
      if Map.has id stories then fetch_all token srv rest stories
      else
        match ask token srv (Part000.GetStory id) with
        | (Ok response, asked) =>
            match get_prop response "story" with
            | Ok story =>
                let (r, evs) := fetch_all token srv rest (Map.set id story stories) in
                (r, asked ++ evs)
            | Throw e => (Throw e, asked)
            end
        | (Throw e, asked) => (Throw e, asked)
        end
  end.

(** The update of a story by one pending edit, and the entry as the update
    leaves it. *)
Definition update_story (m : Part000.modification) (story : json)
  : result json * Part000.modification :=
  match get_prop story "content" with
  | Ok content =>
      match Part000.updateImageRecursive content m with
      | (Ok content', m', _) => (Ok (with_prop story "content" content'), m')
      | (Throw e, m', _) => (Throw e, m')
      end
  | Throw e => (Throw e, m)
  end.

(** The second loop read as a function on the fetched stories. *)
Fixpoint apply_all (pending : list ((Z * string) * Part000.modification))
  (stories : Map.t Z json) : result (Map.t Z json) :=
  match pending with
  | [] => Ok stories
  | entry :: rest =>
      match Map.get (Part000.storyId (snd entry)) stories with
      | None => Throw (Error StoryDataNotFound)
      | Some storyToUpdate =>
          if negb (truthy storyToUpdate) then Throw (Error StoryDataNotFound)
          else
            match fst (update_story (snd entry) storyToUpdate) with
            | Ok story => apply_all rest (Map.set (Part000.storyId (snd entry)) story stories)
            | Throw e => Throw e
            end
      end
  end.

(** The third loop read as a function. *)
Fixpoint put_all (token : string) (srv : server Z) (stories : list (Z * json))
  : result unit * list Part000.event :=
  match stories with
  | [] => (Ok tt, [])
  | entry :: rest =>
      match ask token srv (Part000.PutStory (fst entry) (snd entry)) with
      | (Ok _, asked) =>
          let (r, evs) := put_all token srv rest in
          (r, asked ++ Part000.ConsoleLog (fst entry) :: evs)
      | (Throw e, asked) => (Throw e, asked)
      end
  end.

(** What the handler shows when its [try] block throws. *)
Definition caught (e : exn) : list Part000.event :=
  match e with
  | NotModelled => []
  | _ => [Part000.ShowModal Part000.SendFailed]
  end.

(** The reload that ends a successful run. *)
Definition reload (current : json) : list Part000.event :=
  match (story <- get_prop current "story" ;; get_prop story "id") with
  | Ok id => [Part000.LoadStoryDetails id]
  | Throw e => caught e
  end.

(** The events of a run of [sendModificationsToServer], from the token,
    the answers of the server, the pending edits and the story on
    display. *)
Definition send_events (token : string) (srv : server Z)
  (pending : list ((Z * string) * Part000.modification)) (current : json)
  : list Part000.event :=
  match pending with
  | [] => [Part000.ShowModal Part000.NoChangesToSend]
  | _ =>
      let (fetched, gets) := fetch_all token srv pending [] in
      match fetched with
      | Throw e => gets ++ caught e
      | Ok stories =>
          match apply_all pending stories with
          | Throw e => gets ++ caught e
          | Ok stories' =>
              let (sent, puts) := put_all token srv stories' in
              match sent with
              | Throw e => gets ++ puts ++ caught e
              | Ok _ =>
                  gets ++ puts ++ Part000.ShowModal Part000.ChangesSent :: reload current
              end
          end
      end
  end.

(** The walk of [updateImageRecursive] completes on the tree without
    meeting a wrapper whose [_uid] is [uid]. *)
Fixpoint misses (uid : string) (v : json) : bool :=
  match v with
  | JArr items => forallb (misses uid) items
  | JObj props =>
      forallb
        (fun kv =>
           match Part000.hasOwnProperty props with
           | Ok true =>
               match Part000.guarded_image_list_test (snd kv) with
               | Ok true =>
                   forallb
                     (fun w =>
                        match get_prop w "_uid" with
                        | Ok u => negb (strict_eq_str u uid)
                        | Throw _ => false
                        end)
                     (children (snd kv))
               | Ok false => misses uid (snd kv)
               | Throw _ => false
               end
           | Ok false => true
           | Throw _ => false
           end)
        props
  | _ => true
  end.

(** The edits of a story, applied in turn to its document. *)
Fixpoint apply_to (id : Z) (pending : list ((Z * string) * Part000.modification))
  (story : json) : result json :=
  match pending with
  | [] => Ok story
  | entry :: rest =>
      if (Part000.storyId (snd entry) =? id)%Z then
        match fst (update_story (snd entry) story) with
        | Ok story' => apply_to id rest story'
        | Throw e => Throw e
        end
      else apply_to id rest story
  end.

Definition put_of (id : Z) (ev : Part000.event) : bool :=
  match ev with
  | Part000.Put i _ => (i =? id)%Z
  | _ => false
  end.

Definition puts_of (id : Z) (evs : list Part000.event) : nat :=
  List.length (filter (put_of id) evs).

(** Neither a PUT nor the modal of a successful run. *)
Definition plain (ev : Part000.event) : bool :=
  match ev with
  | Part000.Put _ _ | Part000.ShowModal Part000.ChangesSent => false
  | _ => true
  end.

(** The story of the answer to [GET stories/<id>]. *)
Definition served (srv : server Z) (id : Z) : option json :=
  match answered (on_get srv id) with
  | Some response =>
      match get_prop response "story" with
      | Ok story => Some story
      | Throw _ => None
      end
  | None => None
  end.

(** ** Runs *)

Definition throws (v : verdict) : bool :=
  match v with Threw _ => true | _ => false end.

(** One turn per story to process. *)
Definition all_turns (token : string) (srv : server string)
  (pending : Map.t string (Map.t string ScriptJs.modification)) (ids : list string)
  : list (verdict * list ScriptJs.event) :=
  map (fun id => turn token srv id (Map.get id pending)) ids.

(** The last alert of a run. *)
Definition report (ts : list (verdict * list ScriptJs.event)) : list ScriptJs.event :=
  match outcome ts with
  | Ok _ => [ScriptJs.Alert (ScriptJs.ChangesSent (tally is_succeeded ts) (tally is_failed ts))]
  | Throw _ => []
  end.

(** The events that are requests to the Management API. *)
Definition is_request (ev : Part000.event) : bool :=
  match ev with
  | Part000.Get _ | Part000.Put _ _ => true
  | _ => false
  end.

(** ** Scenarios of the write-back *)

(** An image wrapper as the Management API serves it. *)
Definition served_image (uid id name alt url : string) : json :=
  JObj [("_uid", JStr uid);
        ("component", JStr "bynder_image");
        ("alt", JStr alt);
        ("image",
         JArr [JObj [("databaseId", JStr id);
                     ("name", JStr name);
                     ("files", JObj [("transformBaseUrl", JObj [("url", JStr url)])])]])].

Definition story_of (id : Z) (images : list json) : json :=
  JObj [("id", JNum id);
        ("content", JObj [("component", JStr "page"); ("body", JArr images)])].

(** The story 11 holds two images, the story 12 one. *)
Definition story_11 : json :=
  story_of 11 [served_image "u1" "A1" "old.jpg" "old" "https://cdn/x/old.jpg";
               served_image "u2" "B2" "tug.jpg" "a tug" "https://cdn/y/tug.jpg"].

Definition story_12 : json :=
  story_of 12 [served_image "u3" "C3" "quay.jpg" "a quay" "https://cdn/z/quay.jpg"].

(** The story 11 with both images edited, and with the second only; the
    story 12 with its image edited. *)
Definition story_11_edited : json :=
  story_of 11 [served_image "u1" "A1" "new.jpg" "old" "https://cdn/x/new.jpg";
               served_image "u2" "B2" "tug.jpg" "a tug at sea" "https://cdn/y/tug.jpg"].

Definition story_11_captioned : json :=
  story_of 11 [served_image "u1" "A1" "old.jpg" "old" "https://cdn/x/old.jpg";
               served_image "u2" "B2" "tug.jpg" "a tug at sea" "https://cdn/y/tug.jpg"].

Definition story_12_edited : json :=
  story_of 12 [served_image "u3" "C3" "quay.jpg" "the quay" "https://cdn/z/quay.jpg"].

Definition by_name (id : string) : json := if id =? "11" then story_11 else story_12.

Definition by_number (id : Z) : json := if (id =? 11)%Z then story_11 else story_12.

(** A server that answers every request, and two on which the story 11
    cannot be read. *)
Definition healthy {Id : Type} (stories : Id -> json) : server Id :=
  {| on_get := fun id => Http 200 (JObj [("story", stories id)]);
     on_put := fun id story => Http 200 (JObj [("story", story)]) |}.

Definition failing_11 : server string :=
  {| on_get := fun id => if id =? "11" then Http 500 JNull
                         else Http 200 (JObj [("story", by_name id)]);
     on_put := fun id story => Http 200 (JObj [("story", story)]) |}.

Definition failing_11_z : server Z :=
  {| on_get := fun id => if (id =? 11)%Z then Http 500 JNull
                         else Http 200 (JObj [("story", by_number id)]);
     on_put := fun id story => Http 200 (JObj [("story", story)]) |}.

(** Pending edits of script.js. *)
Definition edit (name alt name' alt' : string) : ScriptJs.modification :=
  {| ScriptJs.originalFileName := name;
     ScriptJs.originalAlt := alt;
     ScriptJs.originalTransformUrl := "";
     ScriptJs.newFileName := name';
     ScriptJs.newAlt := alt' |}.

Definition pending (mods : Map.t string (Map.t string ScriptJs.modification))
  (cache : Map.t string json) : ScriptJs.state :=
  {| ScriptJs.storyblokMapiToken := "token";
     ScriptJs.changedStories := map fst mods;
     ScriptJs.imageModifications := mods;
     ScriptJs.allLoadedStoriesContent := cache;
     ScriptJs.sendToServerButton_hidden := false |}.

Definition two_edits_on (cache : Map.t string json) : ScriptJs.state :=
  pending [("11", [("A1", edit "old.jpg" "old" "new.jpg" "old");
                   ("B2", edit "tug.jpg" "a tug" "tug.jpg" "a tug at sea")])] cache.

Definition two_edits : ScriptJs.state := two_edits_on [].

Definition gone_and_kept : ScriptJs.state :=
  pending [("11", [("ZZ", edit "gone.jpg" "gone" "here.jpg" "gone");
                   ("B2", edit "tug.jpg" "a tug" "tug.jpg" "a tug at sea")])] [].

Definition two_stories : ScriptJs.state :=
  pending [("11", [("A1", edit "old.jpg" "old" "new.jpg" "old")]);
           ("12", [("C3", edit "quay.jpg" "a quay" "quay.jpg" "the quay")])] [].

(** Pending edits of the second variant. *)
Definition edit_z (story : Z) (uid name alt name' alt' : string)
  : (Z * string) * Part000.modification :=
  ((story, uid),
   {| Part000.storyId := story;
      Part000.mod_uid := uid;
      Part000.altText := alt';
      Part000.fileName := name';
      Part000.mod_bynderImageRef := JNull;
      Part000.mod_altTextRef := JNull;
      Part000.originalParentField := "body";
      Part000.originalAlt := alt;
      Part000.originalFileName := name |}).

Definition pending_z (mods : Map.t (Z * string) Part000.modification) : Part000.state :=
  {| Part000.storyblokMapiToken := "token";
     Part000.currentStoryData := JObj [("story", JObj [("id", JNum 11)])];
     Part000.currentStoryImages := [];
     Part000.modifiedImages := mods;
     Part000.sendToServerBtn_disabled := false |}.

Definition two_edits_z : Part000.state :=
  pending_z [edit_z 11 "u1" "old.jpg" "old" "new.jpg" "old";
             edit_z 11 "u2" "tug.jpg" "a tug" "tug.jpg" "a tug at sea"].

Definition gone_z : Part000.state :=
  pending_z [edit_z 11 "zz" "gone.jpg" "gone" "here.jpg" "gone"].

Definition gone_and_kept_z : Part000.state :=
  pending_z [edit_z 11 "zz" "gone.jpg" "gone" "here.jpg" "gone";
             edit_z 11 "u2" "tug.jpg" "a tug" "tug.jpg" "a tug at sea"].

Definition two_stories_z : Part000.state :=
  pending_z [edit_z 11 "u1" "old.jpg" "old" "new.jpg" "old";
             edit_z 12 "u3" "quay.jpg" "a quay" "quay.jpg" "the quay"].

(** ** The globals after a run of script.js *)

(** What the turn of a story leaves of its marks: whether the story stays
    in [changedStories], and whether its entry leaves [imageModifications]. *)
Definition turn_keeps (token : string) (srv : server string) (storyId : string)
  (mods : option (Map.t string ScriptJs.modification)) : bool :=
  match mods with
  | None | Some [] => false
  | Some ms =>
      match fetched_story (fst (ask_get token srv storyId)) with
      | None => false
      | Some story =>
          match patch_story ms (content_of story) false with
          | (Throw _, _) => true
          | (Ok (_, false), _) => false
          | (Ok (content, true), _) =>
              ScriptJs.falsy_response
                (fst (ask_put token srv storyId (with_prop story "content" content)))
          end
      end
  end.

Definition turn_clears (token : string) (srv : server string) (storyId : string)
  (mods : option (Map.t string ScriptJs.modification)) : bool :=
  match mods with
  | None | Some [] => false
  | Some ms =>
      match fetched_story (fst (ask_get token srv storyId)) with
      | None => false
      | Some story =>
          match patch_story ms (content_of story) false with
          | (Throw _, _) => false
          | (Ok (_, false), _) => true
          | (Ok (content, true), _) =>
              negb (ScriptJs.falsy_response
                      (fst (ask_put token srv storyId (with_prop story "content" content))))
          end
      end
  end.

(** The globals a run leaves. *)
Definition globals_after (x : result unit * ScriptJs.run * list ScriptJs.event)
  : ScriptJs.state :=
  ScriptJs.st (snd (fst x)).

(** The requests of an event list concern the story [id] only. *)
Definition about (id : string) (ev : ScriptJs.event) : bool :=
  match ev with
  | ScriptJs.Get i | ScriptJs.Put i _ => i =? id
  | _ => true
  end.

(** A request for the story [id]. *)
Definition concerns (id : string) (ev : ScriptJs.event) : bool :=
  match ev with
  | ScriptJs.Get i | ScriptJs.Put i _ => i =? id
  | _ => false
  end.

(** The console line of the safeguard of the send handler. *)
Definition safeguard (ev : ScriptJs.event) : bool :=
  match ev with
  | ScriptJs.Console (ScriptJs.NoModificationsFound _) => true
  | _ => false
  end.

(** [changedStories] and [imageModifications] tell the same: the marked
    stories are those with an entry, no story is marked twice and no entry
    is empty. *)
Definition in_sync (s : ScriptJs.state) : Prop :=
  NoDup (ScriptJs.changedStories s)
  /\ (forall id, KeySet.has id (ScriptJs.changedStories s)
                 = Map.has id (ScriptJs.imageModifications s))
  /\ (forall id, Map.get id (ScriptJs.imageModifications s) <> Some []).

(** ** Requests need a token *)

Definition js_request (ev : ScriptJs.event) : bool :=
  match ev with
  | ScriptJs.Get _ | ScriptJs.Put _ _ => true
  | _ => false
  end.

(** ** Lookup by identifier *)

(** The qualification [findRecursive] applies: the tag, a first descriptor,
    and the identifier [id] on it, as a string. *)
Definition has_id (id : string) (n : json) : bool :=
  tagged n &&
  match descriptors_of (image_of n) with
  | First d => strict_eq_str (database_id d) id
  | _ => false
  end.

(** The first node of a list that carries the identifier, unless the test
    throws on a node before it. *)
Fixpoint find_first (id : string) (l : list json) : result (option json) :=
  match l with
  | [] => Ok None
  | n :: r =>
      match malformed n with
      | Some e => Throw e
      | None => if has_id id n then Ok (Some n) else find_first id r
      end
  end.

(** A lookup and a search of the nodes agree: both throw alike, both find
    nothing, or the reference found refers to the node found. *)
Definition agrees (referent : path -> option json) (r : result (option path))
  (f : result (option json)) : Prop :=
  match r, f with
  | Ok (Some p), Ok (Some n) => referent p = Some n
  | Ok None, Ok None => True
  | Throw e, Throw e' => e = e'
  | _, _ => False
  end.

(** The node a result of [first_found] started at [i] refers to, [g]
    giving the value visited for an element of the list. *)
Definition resolve {A : Type} (g : A -> json) (i : nat) (l : list A) (p : path)
  : option json :=
  match p with
  | j :: q =>
      if (i <=? j)%nat then
        match nth_error l (j - i) with
        | Some x => node_at q (g x)
        | None => None
        end
      else None
  | [] => None
  end.

(** [imageObj.image[0].databaseId], as the scripts read it. *)
Definition read_id (imageObj : json) : result json :=
  image <- get_prop imageObj "image" ;;
  bynderImg <- get_first image ;;
  get_prop bynderImg "databaseId".

(** The pages asked for, in order. *)
Definition asked_pages (evs : list ScriptJsTable.list_event) : list nat :=
  flat_map (fun ev => match ev with ScriptJsTable.GetStories p => [p] | _ => [] end) evs.

Definition asked_pages_z (evs : list Part000Stories.list_event) : list nat :=
  flat_map (fun ev => match ev with Part000Stories.GetStories p => [p] | _ => [] end) evs.

(** An answer with a 2xx status whose [stories] is the array [stories]. *)
Definition page_of (r : response) (stories : list json) : Prop :=
  exists status props,
    r = Http status (JObj props) /\ ok status = true /\ lookup "stories" props = JArr stories.

(** The stories of the pages [first], ..., [first + n - 1]. *)
Fixpoint stories_of_pages (stories : nat -> list json) (first n : nat) : list json :=
  match n with
  | O => []
  | S m => stories first ++ stories_of_pages stories (S first) m
  end.

(** The node reached from a level along the parts [p]. *)
Fixpoint node_of (p : list string) (lvl : ScriptJsTree.level) : option ScriptJsTree.tree_node :=
  match p with
  | [] => None
  | part :: p' =>
      match Map.get part lvl with
      | None => None
      | Some n =>
          match p' with
          | [] => Some n
          | _ => node_of p' (ScriptJsTree._children n)
          end
      end
  end.

(** [p] is a beginning of [l]. *)
Fixpoint begins (p l : list string) : bool :=
  match p, l with
  | [], _ => true
  | x :: p', y :: l' => (x =? y) && begins p' l'
  | _ :: _, [] => false
  end.

Fixpoint same_parts (p l : list string) : bool :=
  match p, l with
  | [], [] => true
  | x :: p', y :: l' => (x =? y) && same_parts p' l'
  | _, _ => false
  end.

(** No part of the slug names an inherited property. *)
Definition plain_slug (slug : string) : bool :=
  forallb (fun part => negb (ScriptJsTree.inherited part)) (ScriptJsTree.parts_of slug).

(** What is read of a node: its slug and its flag. *)
Definition label (n : ScriptJsTree.tree_node) : string * bool :=
  (ScriptJsTree._fullSlug n, ScriptJsTree._isLeaf n).

(** The first slug of the list that runs through the parts [p]. *)
Definition first_through (p : list string) (slugs : list string) : option string :=
  find (fun slug => begins p (ScriptJsTree.parts_of slug)) slugs.

Definition sample_slugs : list string :=
  ["damen/en/"; "damen/en/about"; "damen/en/about/team/lead"; "damen/en/about/team"].

(** ** The send button and the edits *)

(** The send button is hidden exactly when no story is marked. *)
Definition button_in_step (s : ScriptJs.state) : Prop :=
  ScriptJs.sendToServerButton_hidden s = (List.length (ScriptJs.changedStories s) =? 0)%nat.

(** Every entry of the tracker is that of a row of the table. *)
Definition entries_of_rows (pg : ScriptJs.page) : Prop :=
  forall x : ScriptJs.row,
    ScriptJs.tracked x (ScriptJs.app pg) = true ->
    exists r, In r (ScriptJs.rows pg) /\ same_image x r = true.

(** An edited row of the story [id]. *)
Definition edited_in (id : string) (r : ScriptJs.row) : bool :=
  (ScriptJs.actualStoryId r =? id) && ScriptJs.edited r.

(** Every entry of the tracker of the second variant is that of a row. *)
Definition entries_of_rows_z (pg : Part000.page) : Prop :=
  forall k : Z * string,
    Map.has k (Part000.modifiedImages (Part000.app pg)) = true ->
    exists r, In r (Part000.rows pg) /\ Part000.row_key r = k.

Definition button_in_step_z (st : Part000.state) : Prop :=
  Part000.sendToServerBtn_disabled st = (Map.size (Part000.modifiedImages st) =? 0)%nat.

(** An edited row with the key [k]. *)
Definition edited_at (k : Z * string) (r : Part000.row) : bool :=
  key_eqb (Part000.row_key r) k && Part000.edited r.

(** ** Further scenarios *)

(** A server on which the story 11 cannot be written. *)
Definition refusing_11 : server string :=
  {| on_get := fun id => Http 200 (JObj [("story", by_name id)]);
     on_put := fun id story => if id =? "11" then Http 500 JNull
                               else Http 200 (JObj [("story", story)]) |}.

(** A server on which the story 11 cannot be written, for the second
    variant. *)
Definition refusing_11_z : server Z :=
  {| on_get := fun id => Http 200 (JObj [("story", by_number id)]);
     on_put := fun id story => if (id =? 11)%Z then Http 500 JNull
                               else Http 200 (JObj [("story", story)]) |}.

(** The globals without a token. *)
Definition logged_out (s : ScriptJs.state) : ScriptJs.state :=
  {| ScriptJs.storyblokMapiToken := "";
     ScriptJs.changedStories := ScriptJs.changedStories s;
     ScriptJs.imageModifications := ScriptJs.imageModifications s;
     ScriptJs.allLoadedStoriesContent := ScriptJs.allLoadedStoriesContent s;
     ScriptJs.sendToServerButton_hidden := ScriptJs.sendToServerButton_hidden s |}.

Definition logged_out_z (st : Part000.state) : Part000.state :=
  {| Part000.storyblokMapiToken := "";
     Part000.currentStoryData := Part000.currentStoryData st;
     Part000.currentStoryImages := Part000.currentStoryImages st;
     Part000.modifiedImages := Part000.modifiedImages st;
     Part000.sendToServerBtn_disabled := Part000.sendToServerBtn_disabled st |}.

(** A story of a listing. *)
Definition listed_as (id : Z) (name slug full_slug : string) : json :=
  JObj [("name", JStr name); ("id", JNum id); ("slug", JStr slug);
        ("full_slug", JStr full_slug)].

(** The stories of a listing of two pages, the second one short. *)
Definition listing (page : nat) : list json :=
  match page with
  | 1 => [listed_as 11 "Home" "home" "damen/en/home"; listed_as 12 "About" "about" "damen/en/about"]
  | 2 => [listed_as 13 "Team" "team" "damen/en/about/team"]
  | _ => []
  end.

(** A listing that ends with an empty page, and one whose third page
    cannot be read. *)
Definition paged (page : nat) : response :=
  Http 200 (JObj [("stories", JArr (listing page))]).

Definition paged_broken (page : nat) : response :=
  if (page <=? 2)%nat then paged page else Http 500 JNull.

(** ** The walk of the second variant *)

(** The walk of [updateImageRecursive] over [v] comes to the position [p]
    as to an element of an array that passes its test of an image list. *)
Fixpoint walked (p : path) (v : json) : bool :=
  match p with
  | [] => false
  | i :: q =>
      match v with
      | JArr items =>
          match nth_error items i with
          | Some x => walked q x
          | None => false
          end
      | JObj props =>
          match nth_error props i with
          | Some kv =>
              match Part000.guarded_image_list_test (snd kv) with
              | Ok true =>
                  match q with
                  | [j] => (j <? List.length (children (snd kv)))%nat
                  | _ => false
                  end
              | Ok false => walked q (snd kv)
              | Throw _ => false
              end
          | None => false
          end
      | _ => false
      end
  end.

(** The entry of an edit once a wrapper has met it. *)
Definition normalised (m : Part000.modification) : Part000.modification :=
  Part000.with_fileName (Part000.normalize (Part000.fileName m)) m.

(** The states of the entry [m] during a walk: as recorded, or normalised. *)
Definition entry_state (m s : Part000.modification) : Prop := s = m \/ s = normalised m.

(** ** Requests without an answer *)

(** A request of the second variant that gets no answer with a 2xx
    status. *)
Definition unanswered (srv : server Z) (ev : Part000.event) : bool :=
  match ev with
  | Part000.Get id =>
      match answered (on_get srv id) with Some _ => false | None => true end
  | Part000.Put id story =>
      match answered (on_put srv id story) with Some _ => false | None => true end
  | _ => false
  end.

(** After a request that gets no such answer the events end with the
    console line of [makeApiRequest] and the modal of failure. *)
Fixpoint halted (srv : server Z) (evs : list Part000.event) : Prop :=
  match evs with
  | [] => True
  | ev :: rest =>
      (unanswered srv ev = true
       -> rest = [Part000.ConsoleError; Part000.ShowModal Part000.SendFailed])
      /\ halted srv rest
  end.

(** Pending edits of the second variant: one of the story 11, whose typed
    file name holds white space and upper-case letters, and one of the
    story 12. *)
Definition renamed_z : Part000.state :=
  pending_z [edit_z 11 "u1" "old.jpg" "old" "Stan Tug  1205.JPG" "old";
             edit_z 12 "u3" "quay.jpg" "a quay" "quay.jpg" "the quay"].

(** The selection [extractImages] computes, on a list of nodes: the test
    runs on each node in turn, the first throw ends the run. *)
Fixpoint select (l : list json) : result (list json) :=
  match l with
  | [] => Ok []
  | n :: r =>
      hit <- ScriptJs.image_test n ;;
      rest <- select r ;;
      Ok (if hit then n :: rest else rest)
  end.

(** * Properties of the image locator *)

Lemma bind_Ok {A B : Type} (a : A) (k : A -> result B) : bind (Ok a) k = k a.
Proof. reflexivity. Qed.

Lemma bind_assoc {A B C : Type} (r : result A) (f : A -> result B) (g : B -> result C) :
  bind (bind r f) g = bind r (fun a => bind (f a) g).
Proof. destruct r; reflexivity. Qed.

Lemma select_app (l1 l2 : list json) :
  select (l1 ++ l2) = (a <- select l1 ;; b <- select l2 ;; Ok (a ++ b)).
Proof.
  induction l1 as [|n l1 IH]; simpl.
  - destruct (select l2); reflexivity.
  - destruct (ScriptJs.image_test n) as [hit|e]; simpl; [|reflexivity].
    rewrite IH. destruct (select l1) as [a|e]; simpl; [|reflexivity].
    destruct (select l2) as [b|e]; simpl; [|reflexivity].
    destruct hit; reflexivity.
Qed.

Lemma for_of_concat {A : Type} (f : A -> result (list json)) (g : A -> list json)
  (l : list A) (acc : list json) :
  Forall (fun x => f x = select (g x)) l ->
  for_of (fun images x => found <- f x ;; Ok (images ++ found)) l acc
  = (rest <- select (flat_map g l) ;; Ok (acc ++ rest)).
Proof.
  intros H. revert acc. induction H as [|x l Hx _ IH]; intros acc; simpl.
  - now rewrite app_nil_r.
  - rewrite Hx, select_app.
    destruct (select (g x)) as [a|e]; simpl; [|reflexivity].
    rewrite IH. destruct (select (flat_map g l)) as [b|e]; simpl; [|reflexivity].
    now rewrite app_assoc.
Qed.

Lemma extractImages_select (v : json) :
  ScriptJs.extractImages v = select (nodes v).
Proof.
  induction v using json_ind; try reflexivity.
  - cbn [ScriptJs.extractImages nodes select].
    destruct (ScriptJs.image_test (JArr items)) as [hit|e]; simpl; [|reflexivity].
    rewrite (for_of_concat ScriptJs.extractImages nodes) by assumption.
    destruct (select (flat_map nodes items)); simpl; [|reflexivity].
    destruct hit; reflexivity.
  - cbn [ScriptJs.extractImages nodes select].
    destruct (ScriptJs.image_test (JObj props)) as [hit|e]; simpl; [|reflexivity].
    rewrite (for_of_concat (fun kv => ScriptJs.extractImages (snd kv))
               (fun kv => nodes (snd kv))) by assumption.
    destruct (select (flat_map (fun kv => nodes (snd kv)) props)); simpl; [|reflexivity].
    destruct hit; reflexivity.
Qed.

Lemma image_test_spec (n : json) :
  is_node n = true ->
  ScriptJs.image_test n
  = match malformed n with
    | Some e => Throw e
    | None => Ok (image_node n)
    end.
Proof.
  destruct n as [| | | | |items|props]; try discriminate; intros _; [reflexivity|].
  unfold ScriptJs.image_test, malformed, image_node, tagged, image_of; simpl.
  destruct (strict_eq_str (lookup "component" props) "bynder_image"); simpl; [|reflexivity].
  destruct (lookup "image" props) as [| |b|z|s|l|ip]; simpl; try reflexivity.
  - destruct b; reflexivity.
  - destruct (z =? 0)%Z; reflexivity.
  - destruct s; reflexivity.
  - destruct l as [|d r]; [reflexivity|].
    cbn. destruct d; reflexivity.
  - destruct (lookup "length" ip) as [| |b|z|s|l|lp]; simpl; try reflexivity.
    + destruct b; simpl; [|reflexivity]. destruct (lookup "0" ip); reflexivity.
    + destruct (0 <? z)%Z; simpl; [|reflexivity]. destruct (lookup "0" ip); reflexivity.
Qed.

Lemma nodes_are_nodes (v : json) : Forall (fun n => is_node n = true) (nodes v).
Proof.
  induction v using json_ind; simpl; auto.
  - constructor; [reflexivity|].
    induction H as [|x l Hx _ IH]; simpl; [constructor|].
    apply Forall_app; split; assumption.
  - constructor; [reflexivity|].
    induction H as [|x l Hx _ IH]; simpl; [constructor|].
    apply Forall_app; split; assumption.
Qed.

Lemma select_spec (l : list json) :
  Forall (fun n => is_node n = true) l ->
  select l
  = match first_malformed l with
    | Some e => Throw e
    | None => Ok (filter image_node l)
    end.
Proof.
  induction 1 as [|n l Hn _ IH]; simpl; [reflexivity|].
  rewrite (image_test_spec n Hn).
  destruct (malformed n); simpl; [reflexivity|].
  rewrite IH. destruct (first_malformed l); simpl; [reflexivity|].
  destruct (image_node n); reflexivity.
Qed.

Lemma extractImages_spec (v : json) :
  ScriptJs.extractImages v
  = match first_malformed (nodes v) with
    | Some e => Throw e
    | None => Ok (filter image_node (nodes v))
    end.
Proof.
  rewrite extractImages_select. apply select_spec, nodes_are_nodes.
Qed.

Lemma for_of_flat_map {A B : Type} (step : list B -> A -> result (list B))
  (g : A -> list B) (l : list A) (acc : list B) :
  Forall (fun x => forall acc, step acc x = Ok (acc ++ g x)) l ->
  for_of step l acc = Ok (acc ++ flat_map g l).
Proof.
  intros H. revert acc. induction H as [|x l Hx _ IH]; intros acc; simpl.
  - now rewrite app_nil_r.
  - rewrite Hx. simpl. rewrite IH. now rewrite app_assoc.
Qed.

Lemma image_list_test_spec (v : json) :
  match v with JArr (first :: _) => nullish first = false | _ => True end ->
  Part000.image_list_test v = Ok (is_image_list v).
Proof.
  destruct v as [| | | | |items|props]; try reflexivity.
  destruct items as [|first rest]; [reflexivity|].
  intros H. unfold Part000.image_list_test. cbn.
  destruct first; try discriminate; reflexivity.
Qed.

Lemma wrapper_test_spec (w : json) :
  wrapper_clean w = true -> Part000.wrapper_test w = Ok (wrapper_ok w).
Proof.
  unfold wrapper_clean, wrapper_ok, Part000.wrapper_test.
  destruct w as [| | | | |items|props]; try discriminate; try reflexivity.
  simpl. destruct (lookup "image" props) as [| |b|z|s|l|ip]; simpl; try reflexivity.
  - destruct b; reflexivity.
  - destruct (z =? 0)%Z; reflexivity.
  - destruct (negb (s =? "")); reflexivity.
  - destruct l as [|d r]; [reflexivity|]. cbn.
    destruct d; try discriminate; reflexivity.
Qed.

Lemma push_wrapper_spec (key : string) (w : json) (acc : list Part000.found_image) :
  wrapper_clean w = true ->
  Part000.push_wrapper key acc w
  = Ok (acc ++ map (record_of key) (if wrapper_ok w then [w] else [])).
Proof.
  intros Hc. unfold Part000.push_wrapper. rewrite (wrapper_test_spec w Hc).
  simpl. destruct (wrapper_ok w) eqn:Hok; simpl; [|now rewrite app_nil_r].
  unfold wrapper_ok, record_of in *.
  destruct w as [| | | | |items|props]; try discriminate.
  simpl in *. destruct (lookup "image" props) as [| | | | |l|]; try discriminate.
  destruct l as [|d r]; [discriminate|]. reflexivity.
Qed.

Lemma push_wrappers_spec (key : string) (items : list json) (acc : list Part000.found_image) :
  forallb wrapper_clean items = true ->
  for_of (Part000.push_wrapper key) items acc
  = Ok (acc ++ map (record_of key) (filter wrapper_ok items)).
Proof.
  revert acc. induction items as [|w items IH]; intros acc H; simpl.
  - now rewrite app_nil_r.
  - apply andb_true_iff in H as [Hw Hr].
    rewrite (push_wrapper_spec key w acc Hw). simpl.
    rewrite (IH _ Hr). destruct (wrapper_ok w); simpl.
    + now rewrite <- app_assoc.
    + now rewrite app_nil_r.
Qed.

Lemma findImagesInContent_spec (v : json) :
  forall parentField,
    clean v = true -> Part000.findImagesInContent v parentField = Ok (reported v).
Proof.
  induction v using json_ind; intros parentField Hc; try reflexivity.
  - cbn [Part000.findImagesInContent reported].
    rewrite (for_of_flat_map _ reported); [reflexivity|].
    simpl in Hc. rewrite forallb_forall in Hc.
    rewrite Forall_forall in *. intros x Hx acc.
    rewrite (H x Hx parentField (Hc x Hx)). reflexivity.
  - cbn [Part000.findImagesInContent reported].
    simpl in Hc. apply andb_true_iff in Hc as [Hk Hc].
    rewrite forallb_forall in Hc.
    rewrite (for_of_flat_map _
               (fun kv => if is_image_list (snd kv)
                          then map (record_of (fst kv)) (filter wrapper_ok (children (snd kv)))
                          else reported (snd kv))); [reflexivity|].
    rewrite Forall_forall in *. intros [key value] Hx acc.
    specialize (H _ Hx). specialize (Hc _ Hx). simpl in H, Hc |- *.
    unfold Part000.hasOwnProperty.
    apply negb_true_iff in Hk. rewrite Hk. simpl.
    destruct value as [| |b|z|s|items|vp]; try (simpl; now rewrite app_nil_r).
    + destruct items as [|first rest].
      * rewrite (image_list_test_spec (JArr []) I). cbn [bind is_image_list].
        cbn [typeof_object is_null negb andb]. rewrite (H key eq_refl). reflexivity.
      * apply andb_true_iff in Hc as [Hn Hc]. apply negb_true_iff in Hn.
        rewrite (image_list_test_spec (JArr (first :: rest)) Hn).
        cbn [bind is_image_list]. destruct (tagged first).
        -- cbn [children]. apply push_wrappers_spec. exact Hc.
        -- cbn [typeof_object is_null negb andb]. rewrite (H key Hc). reflexivity.
    + rewrite (image_list_test_spec (JObj vp) I). cbn [bind is_image_list].
      cbn [typeof_object is_null negb andb]. rewrite (H key Hc). reflexivity.
Qed.

(** C1, as amended.  [extractImages] of script.js returns exactly the arrays
    and objects of the tree that carry the component tag ['bynder_image'],
    whose [image] is truthy and of positive length, and whose first
    descriptor has a truthy [databaseId] (a non-empty string, a non-zero
    number, [true], an object or an array), in depth-first order, parents
    first; the run throws instead when, before the end of the walk, it meets
    a tagged node whose first descriptor is [null] or missing.
    [findImagesInContent] of the second variant, on a tree on which its walk
    completes, reports instead one record per qualifying element of every
    array-valued property whose first element carries the tag, and does not
    enter such arrays. *)
Theorem C1_locator_exact :
  (forall v,
      ScriptJs.extractImages v
      = match first_malformed (nodes v) with
        | Some e => Throw e
        | None => Ok (filter image_node (nodes v))
        end)
  /\ (forall v parentField,
         clean v = true -> Part000.findImagesInContent v parentField = Ok (reported v)).
Proof.
  split.
  - exact extractImages_spec.
  - intros v parentField. apply findImagesInContent_spec.
Qed.

Lemma C1_locator_exact_witness :
  ScriptJs.extractImages hero_story = Ok [hero_image]
  /\ Part000.findImagesInContent hero_story "root"
     = Ok [{| Part000.bynderImage := JObj [("databaseId", JStr "6C1AE0E2");
                                           ("name", JStr "Old.jpg")];
              Part000.alt := JStr "old";
              Part000.parentField := "body";
              Part000._uid := JUndefined |}].
Proof.
  split.
  - rewrite (proj1 C1_locator_exact hero_story). reflexivity.
  - rewrite (proj2 C1_locator_exact hero_story "root" eq_refl). reflexivity.
Defined.

(** C1 as stated fails: a node whose identifier is a string is returned
    though its [databaseId] is not numeric, a node whose identifier is the
    number 0 is left out though it is numeric and not null, and the second
    variant does not report an image node that is not an element of an
    array. *)
Lemma C1_counterexample :
  (ScriptJs.extractImages hero_story = Ok [hero_image] /\ spec_image_node hero_image = false)
  /\ (ScriptJs.extractImages zero_image = Ok [] /\ spec_image_node zero_image = true)
  /\ (Part000.findImagesInContent hero_page "root" = Ok []
      /\ spec_image_node numbered_image = true).
Proof. repeat split; reflexivity. Qed.

(** C9.  On a value that is no array and no object [extractImages] returns
    the empty list, but on an object it can throw: a tagged node whose
    descriptor array holds [null] makes the read of [databaseId] a
    TypeError; in the second variant any array-valued property that starts
    with [null] does. *)
Theorem C9_locator_throws :
  (ScriptJs.extractImages JUndefined = Ok []
   /\ ScriptJs.extractImages JNull = Ok []
   /\ (forall b, ScriptJs.extractImages (JBool b) = Ok [])
   /\ (forall n, ScriptJs.extractImages (JNum n) = Ok [])
   /\ (forall s, ScriptJs.extractImages (JStr s) = Ok []))
  /\ ScriptJs.extractImages null_descriptor = Throw TypeError
  /\ Part000.findImagesInContent (JObj [("gallery", JArr [JNull])]) "root" = Throw TypeError.
Proof. repeat split; reflexivity. Qed.

(** * Properties of the image patcher *)

(** ** Strings *)

Lemma lastIndexOf_no_slash (u : string) :
  no_slash u = true -> lastIndexOf slash u = None.
Proof.
  induction u as [|c u IH]; simpl; [reflexivity|].
  intros H. apply andb_true_iff in H as [Hc Hu].
  rewrite (IH Hu). apply negb_true_iff in Hc. now rewrite Hc.
Qed.

Lemma lastIndexOf_last_slash (front rest : string) :
  no_slash rest = true ->
  lastIndexOf slash (front ++ String slash rest) = Some (String.length front).
Proof.
  intros H. induction front as [|c front IH]; simpl.
  - rewrite (lastIndexOf_no_slash rest H). reflexivity.
  - rewrite IH. reflexivity.
Qed.

Lemma substring_front (front rest : string) :
  substring 0 (String.length front + 1) (front ++ String slash rest)
  = (front ++ String slash EmptyString)%string.
Proof.
  induction front as [|c front IH]; simpl.
  - destruct rest; reflexivity.
  - now rewrite IH.
Qed.

Lemma string_app_assoc (a b c : string) : ((a ++ b) ++ c = a ++ (b ++ c))%string.
Proof. induction a as [|x a IH]; simpl; [reflexivity|now rewrite IH]. Qed.

(** ** Reads after writes *)

Lemma lookup_assign_same (k : string) (x : json) (props : list (string * json)) :
  lookup k (assign k x props) = x.
Proof.
  induction props as [|[k' v] r IH]; simpl.
  - now rewrite String.eqb_refl.
  - destruct (k' =? k) eqn:E; simpl.
    + now rewrite String.eqb_refl.
    + now rewrite E.
Qed.

Lemma lookup_assign_other (k k' : string) (x : json) (props : list (string * json)) :
  (k =? k') = false -> lookup k' (assign k x props) = lookup k' props.
Proof.
  intros Hk. induction props as [|[k0 v] r IH]; simpl.
  - now rewrite Hk.
  - destruct (k0 =? k) eqn:E; simpl.
    + apply String.eqb_eq in E. subst k0. now rewrite Hk.
    + destruct (k0 =? k'); [reflexivity|exact IH].
Qed.

Lemma lookup_replace_same (k : string) (x : json) (props : list (string * json)) :
  lookup k props <> JUndefined -> lookup k (replace k x props) = x.
Proof.
  induction props as [|[k' v] r IH]; simpl; [congruence|].
  destruct (k' =? k) eqn:E; simpl.
  - now rewrite String.eqb_refl.
  - rewrite E. exact IH.
Qed.

Lemma lookup_replace_other (k k' : string) (x : json) (props : list (string * json)) :
  (k =? k') = false -> lookup k' (replace k x props) = lookup k' props.
Proof.
  intros Hk. induction props as [|[k0 v] r IH]; simpl; [reflexivity|].
  destruct (k0 =? k) eqn:E; simpl.
  - apply String.eqb_eq in E. subst k0. now rewrite Hk.
  - destruct (k0 =? k'); [reflexivity|exact IH].
Qed.

Lemma get_first_with_first (image x : json) (d : list (string * json)) :
  get_first image = Ok (JObj d) -> get_first (with_first image x) = Ok x.
Proof.
  destruct image as [| | | |s|items|ip]; simpl; try discriminate.
  - destruct s; discriminate.
  - destruct items; simpl; [discriminate|reflexivity].
  - intros H. injection H as H. rewrite lookup_replace_same; [reflexivity|congruence].
Qed.

(** What a node must look like for its transform URL to read as a
    string. *)
Lemma read_transformUrl_inv (node : json) (u : string) :
  read_transformUrl node = Ok (JStr u) ->
  exists props d f t,
    node = JObj props
    /\ get_first (lookup "image" props) = Ok (JObj d)
    /\ lookup "files" d = JObj f
    /\ lookup "transformBaseUrl" f = JObj t
    /\ lookup "url" t = JStr u.
Proof.
  unfold read_transformUrl. intros H.
  destruct node as [| | | | | |props]; try discriminate.
  simpl in H. destruct (get_first (lookup "image" props)) as [b|] eqn:Hb; [|discriminate].
  simpl in H. destruct b as [| | | | | |d]; try discriminate.
  simpl in H. destruct (lookup "files" d) as [| | | | | |f] eqn:Hf; try discriminate.
  simpl in H. destruct (lookup "transformBaseUrl" f) as [| | | | | |t] eqn:Ht; try discriminate.
  simpl in H. injection H as H.
  exists props, d, f, t. repeat split; assumption.
Qed.

(** ** script.js *)

Lemma read_after_patch (props props' : list (string * json)) (image b : json)
  (d : list (string * json)) :
  lookup "image" props' = image ->
  get_first image = Ok (JObj d) ->
  let node' := with_prop (JObj props') "image" (with_first image b) in
  get_prop node' "image" = Ok (with_first image b)
  /\ get_first (with_first image b) = Ok b.
Proof.
  intros Hi Hf node'. split.
  - simpl. rewrite lookup_replace_same; [reflexivity|].
    rewrite Hi. intros E. rewrite E in Hf. discriminate.
  - eapply get_first_with_first; eassumption.
Qed.

Lemma applyModification_renames (mod_ : ScriptJs.modification)
  (props d f t : list (string * json)) (u : string) :
  get_first (lookup "image" props) = Ok (JObj d) ->
  strict_eq_str (lookup "name" d) (ScriptJs.newFileName mod_) = false ->
  lookup "files" d = JObj f ->
  lookup "transformBaseUrl" f = JObj t ->
  lookup "url" t = JStr u ->
  exists node',
    ScriptJs.applyModification mod_ (JObj props) = Ok node'
    /\ read_name node' = Ok (JStr (ScriptJs.newFileName mod_))
    /\ read_alt node' = Ok (JStr (ScriptJs.newAlt mod_))
    /\ read_transformUrl node'
       = Ok (JStr match lastIndexOf slash u with
                  | Some i => (substring 0 (i + 1) u ++ ScriptJs.newFileName mod_)%string
                  | None => ScriptJs.newFileName mod_
                  end).
Proof.
  intros Hfirst Hname Hf Ht Hu.
  unfold ScriptJs.applyModification.
  cbn [get_prop bind]. rewrite Hfirst. cbn [get_prop bind]. rewrite Hname.
  cbn [negb set_prop bind].
  set (new := ScriptJs.newFileName mod_).
  set (props' := if negb (strict_eq_str (lookup "alt" props) (ScriptJs.newAlt mod_))
                 then assign "alt" (JStr (ScriptJs.newAlt mod_)) props else props).
  assert (Hprops' :
    (if negb (strict_eq_str (lookup "alt" props) (ScriptJs.newAlt mod_))
     then Ok (JObj (assign "alt" (JStr (ScriptJs.newAlt mod_)) props))
     else Ok (JObj props)) = Ok (JObj props')).
  { unfold props'. destruct (negb _); reflexivity. }
  rewrite Hprops'. cbn [bind get_prop].
  rewrite (lookup_assign_other "name" "files") by reflexivity.
  rewrite Hf. cbn [bind get_prop]. rewrite Ht. cbn [bind get_prop]. rewrite Hu.
  cbn [js_lastIndexOf_slash bind].
  assert (Himg : lookup "image" props' = lookup "image" props).
  { unfold props'. destruct (negb _); [|reflexivity].
    now apply lookup_assign_other. }
  assert (Halt : lookup "alt" props' = JStr (ScriptJs.newAlt mod_)).
  { unfold props'.
    destruct (strict_eq_str (lookup "alt" props) (ScriptJs.newAlt mod_)) eqn:E; simpl.
    - unfold strict_eq_str in E.
      destruct (lookup "alt" props); try discriminate E.
      apply String.eqb_eq in E. now subst.
    - apply lookup_assign_same. }
  set (url := match lastIndexOf slash u with
              | Some i => (substring 0 (i + 1) u ++ new)%string
              | None => new
              end).
  assert (Hurl :
    match lastIndexOf slash u with
    | Some i => baseUrl <- js_substring0 (JStr u) (i + 1) ;; Ok (baseUrl ++ new)%string
    | None => Ok new
    end = Ok url).
  { unfold url. destruct (lastIndexOf slash u); reflexivity. }
  rewrite Hurl. cbn [bind set_prop].
  eexists. split; [reflexivity|].
  destruct (read_after_patch props props' (lookup "image" props)
              (with_prop (JObj (assign "name" (JStr new) d)) "files"
                 (with_prop (JObj f) "transformBaseUrl" (JObj (assign "url" (JStr url) t))))
              d Himg Hfirst) as [Hgi Hgf].
  unfold read_name, read_alt, read_transformUrl.
  rewrite Hgi. cbn [bind]. rewrite Hgf. cbn [bind with_prop get_prop].
  repeat split.
  - rewrite (lookup_replace_other "files" "name") by reflexivity.
    now rewrite lookup_assign_same.
  - rewrite (lookup_replace_other "image" "alt") by reflexivity. now rewrite Halt.
  - rewrite lookup_replace_same.
    2:{ rewrite (lookup_assign_other "name" "files") by reflexivity. rewrite Hf. discriminate. }
    cbn [bind get_prop]. rewrite lookup_replace_same by (rewrite Ht; discriminate).
    cbn [bind get_prop]. now rewrite lookup_assign_same.
Qed.

Lemma applyModification_keeps (mod_ : ScriptJs.modification)
  (props d : list (string * json)) :
  get_first (lookup "image" props) = Ok (JObj d) ->
  strict_eq_str (lookup "name" d) (ScriptJs.newFileName mod_) = true ->
  exists node',
    ScriptJs.applyModification mod_ (JObj props) = Ok node'
    /\ read_name node' = Ok (JStr (ScriptJs.newFileName mod_))
    /\ read_alt node' = Ok (JStr (ScriptJs.newAlt mod_))
    /\ read_transformUrl node' = read_transformUrl (JObj props).
Proof.
  intros Hfirst Hname.
  unfold ScriptJs.applyModification.
  cbn [get_prop bind]. rewrite Hfirst. cbn [get_prop bind]. rewrite Hname.
  cbn [negb bind].
  set (props' := if negb (strict_eq_str (lookup "alt" props) (ScriptJs.newAlt mod_))
                 then assign "alt" (JStr (ScriptJs.newAlt mod_)) props else props).
  assert (Hprops' :
    (if negb (strict_eq_str (lookup "alt" props) (ScriptJs.newAlt mod_))
     then set_prop (JObj props) "alt" (JStr (ScriptJs.newAlt mod_))
     else Ok (JObj props)) = Ok (JObj props')).
  { unfold props'. destruct (negb _); reflexivity. }
  rewrite Hprops'. cbn [bind].
  assert (Himg : lookup "image" props' = lookup "image" props).
  { unfold props'. destruct (negb _); [|reflexivity].
    now apply lookup_assign_other. }
  assert (Halt : lookup "alt" props' = JStr (ScriptJs.newAlt mod_)).
  { unfold props'.
    destruct (strict_eq_str (lookup "alt" props) (ScriptJs.newAlt mod_)) eqn:E; simpl.
    - unfold strict_eq_str in E.
      destruct (lookup "alt" props); try discriminate E.
      apply String.eqb_eq in E. now subst.
    - apply lookup_assign_same. }
  eexists. split; [reflexivity|].
  destruct (read_after_patch props props' (lookup "image" props) (JObj d) d Himg Hfirst)
    as [Hgi Hgf].
  unfold read_name, read_alt, read_transformUrl.
  rewrite Hgi. cbn [bind]. rewrite Hgf. cbn [bind get_prop]. rewrite Hfirst.
  cbn [bind get_prop with_prop].
  repeat split.
  - unfold strict_eq_str in Hname. destruct (lookup "name" d); try discriminate Hname.
    apply String.eqb_eq in Hname. now subst.
  - rewrite (lookup_replace_other "image" "alt") by reflexivity. now rewrite Halt.
Qed.

(** ** Handlers *)

Section MonadLaws.
Context {S E A B : Type}.
Variable k : A -> M S E B.
Variable s : S.

Lemma mbind_lift_Ok (a : A) : mbind (lift (Ok a)) k s = k a s.
Proof. unfold mbind, lift. destruct (k a s) as [[r s'] evs]. reflexivity. Qed.

Lemma mbind_lift_Throw (e : exn) : mbind (lift (Throw e)) k s = (Throw e, s, []).
Proof. reflexivity. Qed.

Lemma mbind_ret (a : A) : mbind (ret a) k s = k a s.
Proof. unfold mbind, ret. destruct (k a s) as [[r s'] evs]. reflexivity. Qed.

Lemma mbind_throw (e : exn) : mbind (throw e) k s = (Throw e, s, []).
Proof. reflexivity. Qed.

Lemma mbind_gets (f : S -> A) : mbind (gets f) k s = k (f s) s.
Proof. unfold mbind, gets. destruct (k (f s) s) as [[r s'] evs]. reflexivity. Qed.
End MonadLaws.

Section MonadLawsUnit.
Context {S E B : Type}.
Variable k : unit -> M S E B.
Variable s : S.

Lemma mbind_modify (f : S -> S) : mbind (modify f) k s = k tt (f s).
Proof. unfold mbind, modify. destruct (k tt (f s)) as [[r s'] evs]. reflexivity. Qed.

Lemma mbind_emit (e : E) :
  mbind (emit e) k s = (fst (fst (k tt s)), snd (fst (k tt s)), e :: snd (k tt s)).
Proof. unfold mbind, emit. destruct (k tt s) as [[r s'] evs]. reflexivity. Qed.
End MonadLawsUnit.

(** ** The second variant *)

Lemma update_wrapper_renames (m : Part000.modification)
  (props d f t : list (string * json)) (u : string) :
  lookup "_uid" props = JStr (Part000.mod_uid m) ->
  (Part000.normalize (Part000.fileName m) =? Part000.originalFileName m) = false ->
  get_first (lookup "image" props) = Ok (JObj d) ->
  lookup "files" d = JObj f ->
  lookup "transformBaseUrl" f = JObj t ->
  lookup "url" t = JStr u ->
  exists w',
    Part000.update_wrapper (JObj props) m
    = (Ok w', Part000.with_fileName (Part000.normalize (Part000.fileName m)) m, [])
    /\ read_name w' = Ok (JStr (Part000.normalize (Part000.fileName m)))
    /\ read_transformUrl w'
       = Ok (JStr match lastIndexOf slash u with
                  | Some i =>
                      (substring 0 (i + 1) u ++ Part000.normalize (Part000.fileName m))%string
                  | None => u
                  end).
Proof.
  intros Huid Hnew Hfirst Hf Ht Hu.
  unfold Part000.update_wrapper.
  cbn [get_prop]. rewrite Huid, mbind_lift_Ok, mbind_gets.
  cbn [strict_eq_str]. rewrite String.eqb_refl.
  rewrite mbind_modify, mbind_gets. unfold id.
  cbn [Part000.with_fileName Part000.fileName Part000.originalFileName
       Part000.altText Part000.originalAlt].
  rewrite Hnew. set (nm := Part000.normalize (Part000.fileName m)).
  cbn [negb bind]. rewrite Hfirst.
  cbn [bind set_prop]. rewrite mbind_lift_Ok.
  set (b1 := JObj (assign "name" (JStr nm) d)).
  set (w1 := with_prop (JObj props) "image" (with_first (lookup "image" props) b1)).
  set (props2 := if negb (Part000.altText m =? Part000.originalAlt m)
                 then assign "alt" (JStr (Part000.altText m))
                        (replace "image" (with_first (lookup "image" props) b1) props)
                 else replace "image" (with_first (lookup "image" props) b1) props).
  assert (Hw2 :
    (if negb (Part000.altText m =? Part000.originalAlt m)
     then set_prop w1 "alt" (JStr (Part000.altText m)) else Ok w1) = Ok (JObj props2)).
  { unfold props2, w1. destruct (negb _); reflexivity. }
  rewrite Hw2, mbind_lift_Ok.
  assert (Himg : lookup "image" props2 = with_first (lookup "image" props) b1).
  { assert (lookup "image" (replace "image" (with_first (lookup "image" props) b1) props)
            = with_first (lookup "image" props) b1).
    { apply lookup_replace_same. intros E. rewrite E in Hfirst. discriminate. }
    unfold props2. destruct (negb _); [|assumption].
    rewrite (lookup_assign_other "alt" "image") by reflexivity. assumption. }
  assert (Hfirst2 : get_first (lookup "image" props2) = Ok b1).
  { rewrite Himg. eapply get_first_with_first; eassumption. }
  cbn [get_prop bind]. rewrite Hfirst2. unfold b1 at 1. cbn [bind get_prop].
  rewrite (lookup_assign_other "name" "files") by reflexivity.
  rewrite Hf. cbn [bind get_prop]. rewrite Ht. cbn [bind get_prop]. rewrite Hu.
  cbn [js_lastIndexOf_slash bind].
  destruct (lastIndexOf slash u) as [i|]; cbn [bind js_substring0 set_prop]; unfold lift;
    (eexists; split; [reflexivity|]).
  - destruct (read_after_patch props2 props2 (lookup "image" props2)
                (with_prop (JObj (assign "name" (JStr nm) d)) "files"
                   (with_prop (JObj f) "transformBaseUrl"
                      (JObj (assign "url" (JStr (substring 0 (i + 1) u ++ nm)%string) t))))
                (assign "name" (JStr nm) d) eq_refl Hfirst2) as [Hgi Hgf].
    unfold read_name, read_transformUrl.
    rewrite Hgi. cbn [bind]. rewrite Hgf. cbn [bind with_prop get_prop].
    split.
    + rewrite (lookup_replace_other "files" "name") by reflexivity.
      now rewrite lookup_assign_same.
    + rewrite lookup_replace_same.
      2:{ rewrite (lookup_assign_other "name" "files") by reflexivity. rewrite Hf. discriminate. }
      cbn [bind get_prop]. rewrite lookup_replace_same by (rewrite Ht; discriminate).
      cbn [bind get_prop]. now rewrite lookup_assign_same.
  - unfold read_name, read_transformUrl. cbn [get_prop bind]. rewrite Hfirst2.
    unfold b1. cbn [bind get_prop]. split.
    + now rewrite lookup_assign_same.
    + rewrite (lookup_assign_other "name" "files") by reflexivity.
      rewrite Hf. cbn [bind get_prop]. rewrite Ht. cbn [bind get_prop]. now rewrite Hu.
Qed.

(** ** Claims on the patcher *)

Lemma has_suffix_app (front suffix : string) :
  has_suffix suffix (front ++ suffix) = true.
Proof.
  induction front as [|c front IH]; simpl.
  - destruct suffix; simpl; [reflexivity|].
    now rewrite Ascii.eqb_refl, String.eqb_refl.
  - rewrite IH. apply orb_true_r.
Qed.

Lemma split_at_last_slash (u : string) :
  no_slash u = false ->
  exists front rest, u = (front ++ String slash rest)%string /\ no_slash rest = true.
Proof.
  induction u as [|c u IH]; simpl; [discriminate|].
  destruct (no_slash u) eqn:Hu.
  - rewrite andb_true_r. intros Hc. apply negb_false_iff, Ascii.eqb_eq in Hc. subst c.
    exists EmptyString, u. split; [reflexivity|assumption].
  - intros _. destruct (IH eq_refl) as (front & rest & -> & Hrest).
    exists (String c front), rest. split; [reflexivity|assumption].
Qed.

Lemma derived_with_slash (front rest new : string) :
  no_slash rest = true ->
  match lastIndexOf slash (front ++ String slash rest) with
  | Some i => (substring 0 (i + 1) (front ++ String slash rest) ++ new)%string
  | None => new
  end = (front ++ String slash new)%string.
Proof.
  intros H. rewrite (lastIndexOf_last_slash front rest H), substring_front.
  now rewrite string_app_assoc.
Qed.

(** C2, as amended.  In script.js, for every located image node whose
    current name differs from the proposed file name and whose transform
    URL is a string, the patcher sets the transform URL to the part of the
    previous URL up to and including its last ['/'] followed by the new file
    name, and to the bare new file name when the previous URL holds no
    ['/'].  In the second variant, for every wrapper with the [_uid] of the
    edit, when the normalised proposed name differs from the recorded
    original and the previous URL holds a ['/'], the URL becomes that part
    of the previous URL followed by the normalised name. *)
Theorem C2_transform_url_derived :
  (forall mod_ node name front rest,
      read_name node = Ok name ->
      strict_eq_str name (ScriptJs.newFileName mod_) = false ->
      read_transformUrl node = Ok (JStr (front ++ String slash rest)) ->
      no_slash rest = true ->
      exists node',
        ScriptJs.applyModification mod_ node = Ok node'
        /\ read_transformUrl node'
           = Ok (JStr (front ++ String slash (ScriptJs.newFileName mod_))))
  /\ (forall mod_ node name u,
         read_name node = Ok name ->
         strict_eq_str name (ScriptJs.newFileName mod_) = false ->
         read_transformUrl node = Ok (JStr u) ->
         no_slash u = true ->
         exists node',
           ScriptJs.applyModification mod_ node = Ok node'
           /\ read_transformUrl node' = Ok (JStr (ScriptJs.newFileName mod_)))
  /\ (forall m w front rest,
         get_prop w "_uid" = Ok (JStr (Part000.mod_uid m)) ->
         (Part000.normalize (Part000.fileName m) =? Part000.originalFileName m) = false ->
         read_transformUrl w = Ok (JStr (front ++ String slash rest)) ->
         no_slash rest = true ->
         exists w',
           Part000.update_wrapper w m
           = (Ok w', Part000.with_fileName (Part000.normalize (Part000.fileName m)) m, [])
           /\ read_transformUrl w'
              = Ok (JStr (front ++ String slash (Part000.normalize (Part000.fileName m))))).
Proof.
  split; [|split].
  - intros mod_ node name front rest Hname Hneq Hurl Hrest.
    destruct (read_transformUrl_inv _ _ Hurl) as (props & d & f & t & -> & Hfirst & Hf & Ht & Hu).
    unfold read_name in Hname. cbn [get_prop bind] in Hname.
    rewrite Hfirst in Hname. cbn [get_prop bind] in Hname. injection Hname as <-.
    destruct (applyModification_renames mod_ props d f t _ Hfirst Hneq Hf Ht Hu)
      as (node' & Happ & _ & _ & Hread).
    exists node'. split; [assumption|].
    rewrite Hread. do 2 f_equal. now apply derived_with_slash.
  - intros mod_ node name u Hname Hneq Hurl Hnone.
    destruct (read_transformUrl_inv _ _ Hurl) as (props & d & f & t & -> & Hfirst & Hf & Ht & Hu).
    unfold read_name in Hname. cbn [get_prop bind] in Hname.
    rewrite Hfirst in Hname. cbn [get_prop bind] in Hname. injection Hname as <-.
    destruct (applyModification_renames mod_ props d f t _ Hfirst Hneq Hf Ht Hu)
      as (node' & Happ & _ & _ & Hread).
    exists node'. split; [assumption|].
    rewrite Hread. now rewrite (lastIndexOf_no_slash u Hnone).
  - intros m w front rest Huid Hneq Hurl Hrest.
    destruct (read_transformUrl_inv _ _ Hurl) as (props & d & f & t & -> & Hfirst & Hf & Ht & Hu).
    cbn [get_prop] in Huid. injection Huid as Huid.
    destruct (update_wrapper_renames m props d f t _ Huid Hneq Hfirst Hf Ht Hu)
      as (w' & Hup & _ & Hread).
    exists w'. split; [assumption|].
    rewrite Hread, (lastIndexOf_last_slash front rest Hrest), substring_front.
    now rewrite string_app_assoc.
Qed.

Lemma C2_transform_url_derived_witness :
  (exists node',
      ScriptJs.applyModification rename_edit
        (image_node_of "u1" "Old.jpg" "old" "https://cdn/x/Old.jpg") = Ok node'
      /\ read_transformUrl node' = Ok (JStr "https://cdn/x/New.jpg"))
  /\ (exists node',
         ScriptJs.applyModification rename_edit (image_node_of "u1" "Old.jpg" "old" "Old.jpg")
         = Ok node'
         /\ read_transformUrl node' = Ok (JStr "New.jpg"))
  /\ (exists w',
         Part000.update_wrapper (image_node_of "u1" "Old.jpg" "old" "https://cdn/x/Old.jpg")
           (edit_of "New Name.JPG" "Old.jpg" "old")
         = (Ok w', edit_of "new-name.jpg" "Old.jpg" "old", [])
         /\ read_transformUrl w' = Ok (JStr "https://cdn/x/new-name.jpg")).
Proof.
  destruct C2_transform_url_derived as (A & B & C).
  split; [|split].
  - exact (A rename_edit (image_node_of "u1" "Old.jpg" "old" "https://cdn/x/Old.jpg")
             (JStr "Old.jpg") "https://cdn/x" "Old.jpg" eq_refl eq_refl eq_refl eq_refl).
  - exact (B rename_edit (image_node_of "u1" "Old.jpg" "old" "Old.jpg")
             (JStr "Old.jpg") "Old.jpg" eq_refl eq_refl eq_refl eq_refl).
  - exact (C (edit_of "New Name.JPG" "Old.jpg" "old")
             (image_node_of "u1" "Old.jpg" "old" "https://cdn/x/Old.jpg")
             "https://cdn/x" "Old.jpg" eq_refl eq_refl eq_refl eq_refl).
Defined.

(** C2 as stated fails.  In script.js an edit that proposes [New.jpg] for
    an image recorded as [Old.jpg] leaves the transform URL alone when the
    freshly fetched node is already called [New.jpg]; in the second variant
    the proposal [OLD.JPG] for [old.jpg] differs from the original and
    leaves the URL alone too, because it is compared after normalisation. *)
Lemma C2_counterexample :
  ((ScriptJs.newFileName rename_edit =? ScriptJs.originalFileName rename_edit) = false
   /\ (node' <- ScriptJs.applyModification rename_edit
                  (image_node_of "u1" "New.jpg" "old" "https://cdn/x/Old.jpg") ;;
       read_transformUrl node') = Ok (JStr "https://cdn/x/Old.jpg"))
  /\ ((Part000.fileName (edit_of "OLD.JPG" "old.jpg" "old")
       =? Part000.originalFileName (edit_of "OLD.JPG" "old.jpg" "old")) = false
      /\ (w' <- updated (image_node_of "u1" "old.jpg" "old" "https://cdn/x/asset-1")
                  (edit_of "OLD.JPG" "old.jpg" "old") ;;
          read_transformUrl w') = Ok (JStr "https://cdn/x/asset-1")).
Proof. repeat split; reflexivity. Qed.

(** C3, as amended.  In script.js, for every located image node whose
    transform URL is a string that holds a ['/'], applying an edit whose
    file name X differs from the current name of the node yields, on
    re-reading, the name X and a transform URL that ends in ["/" + X]; an
    edit whose file name X is the current name leaves name and URL as they
    are.  In the second variant the name written is the normalised X: when
    it differs from the recorded original, re-reading the wrapper yields
    that name and a URL that ends in ['/'] followed by it. *)
Theorem C3_patch_round_trip :
  (forall mod_ node name u,
      read_name node = Ok name ->
      strict_eq_str name (ScriptJs.newFileName mod_) = false ->
      read_transformUrl node = Ok (JStr u) ->
      no_slash u = false ->
      exists node' u',
        ScriptJs.applyModification mod_ node = Ok node'
        /\ read_name node' = Ok (JStr (ScriptJs.newFileName mod_))
        /\ read_transformUrl node' = Ok (JStr u')
        /\ has_suffix (String slash (ScriptJs.newFileName mod_)) u' = true)
  /\ (forall mod_ node name u,
         read_name node = Ok name ->
         strict_eq_str name (ScriptJs.newFileName mod_) = true ->
         read_transformUrl node = Ok (JStr u) ->
         exists node',
           ScriptJs.applyModification mod_ node = Ok node'
           /\ read_name node' = Ok (JStr (ScriptJs.newFileName mod_))
           /\ read_transformUrl node' = Ok (JStr u))
  /\ (forall m w u,
         get_prop w "_uid" = Ok (JStr (Part000.mod_uid m)) ->
         (Part000.normalize (Part000.fileName m) =? Part000.originalFileName m) = false ->
         read_transformUrl w = Ok (JStr u) ->
         no_slash u = false ->
         exists w' u',
           updated w m = Ok w'
           /\ read_name w' = Ok (JStr (Part000.normalize (Part000.fileName m)))
           /\ read_transformUrl w' = Ok (JStr u')
           /\ has_suffix (String slash (Part000.normalize (Part000.fileName m))) u' = true).
Proof.
  split; [|split].
  - intros mod_ node name u Hname Hneq Hurl Hslash.
    destruct (read_transformUrl_inv _ _ Hurl) as (props & d & f & t & -> & Hfirst & Hf & Ht & Hu).
    unfold read_name in Hname. cbn [get_prop bind] in Hname.
    rewrite Hfirst in Hname. cbn [get_prop bind] in Hname. injection Hname as <-.
    destruct (applyModification_renames mod_ props d f t _ Hfirst Hneq Hf Ht Hu)
      as (node' & Happ & Hn & _ & Hread).
    destruct (split_at_last_slash u Hslash) as (front & rest & -> & Hrest).
    rewrite derived_with_slash in Hread by assumption.
    exists node', (front ++ String slash (ScriptJs.newFileName mod_))%string.
    repeat split; try assumption. apply has_suffix_app.
  - intros mod_ node name u Hname Heq Hurl.
    destruct (read_transformUrl_inv _ _ Hurl) as (props & d & f & t & -> & Hfirst & Hf & Ht & Hu).
    unfold read_name in Hname. cbn [get_prop bind] in Hname.
    rewrite Hfirst in Hname. cbn [get_prop bind] in Hname. injection Hname as <-.
    destruct (applyModification_keeps mod_ props d Hfirst Heq) as (node' & Happ & Hn & _ & Hread).
    exists node'. repeat split; try assumption. now rewrite Hread.
  - intros m w u Huid Hneq Hurl Hslash.
    destruct (read_transformUrl_inv _ _ Hurl) as (props & d & f & t & -> & Hfirst & Hf & Ht & Hu).
    cbn [get_prop] in Huid. injection Huid as Huid.
    destruct (update_wrapper_renames m props d f t _ Huid Hneq Hfirst Hf Ht Hu)
      as (w' & Hup & Hn & Hread).
    destruct (split_at_last_slash u Hslash) as (front & rest & -> & Hrest).
    rewrite (lastIndexOf_last_slash front rest Hrest), substring_front, string_app_assoc in Hread.
    exists w', (front ++ String slash (Part000.normalize (Part000.fileName m)))%string.
    unfold updated. rewrite Hup. repeat split; try assumption. apply has_suffix_app.
Qed.

Lemma C3_patch_round_trip_witness :
  (exists node' u',
      ScriptJs.applyModification rename_edit
        (image_node_of "u1" "Old.jpg" "old" "https://cdn/x/Old.jpg") = Ok node'
      /\ read_name node' = Ok (JStr "New.jpg")
      /\ read_transformUrl node' = Ok (JStr u')
      /\ has_suffix "/New.jpg" u' = true)
  /\ (exists node',
         ScriptJs.applyModification alt_edit
           (image_node_of "u1" "Old.jpg" "old" "https://cdn/x/asset-1") = Ok node'
         /\ read_name node' = Ok (JStr "Old.jpg")
         /\ read_transformUrl node' = Ok (JStr "https://cdn/x/asset-1"))
  /\ (exists w' u',
         updated (image_node_of "u1" "Old.jpg" "old" "https://cdn/x/Old.jpg")
           (edit_of "New Name.JPG" "Old.jpg" "old") = Ok w'
         /\ read_name w' = Ok (JStr "new-name.jpg")
         /\ read_transformUrl w' = Ok (JStr u')
         /\ has_suffix "/new-name.jpg" u' = true).
Proof.
  destruct C3_patch_round_trip as (A & B & C).
  split; [|split].
  - exact (A rename_edit (image_node_of "u1" "Old.jpg" "old" "https://cdn/x/Old.jpg")
             (JStr "Old.jpg") "https://cdn/x/Old.jpg" eq_refl eq_refl eq_refl eq_refl).
  - exact (B alt_edit (image_node_of "u1" "Old.jpg" "old" "https://cdn/x/asset-1")
             (JStr "Old.jpg") "https://cdn/x/asset-1" eq_refl eq_refl eq_refl).
  - exact (C (edit_of "New Name.JPG" "Old.jpg" "old")
             (image_node_of "u1" "Old.jpg" "old" "https://cdn/x/Old.jpg")
             "https://cdn/x/Old.jpg" eq_refl eq_refl eq_refl eq_refl).
Defined.

(** C3 as stated fails.  In script.js an edit of the alternative text
    carries the current name [Old.jpg] as its file name; applying it to a
    node whose URL is [https://cdn/x/asset-1] leaves that URL, which does not
    end in [/Old.jpg].  In the second variant the edit [New Name.JPG] is
    written as [new-name.jpg], so the name read back is not the proposed
    one. *)
Lemma C3_counterexample :
  ((node' <- ScriptJs.applyModification alt_edit
               (image_node_of "u1" "Old.jpg" "old" "https://cdn/x/asset-1") ;;
    read_transformUrl node') = Ok (JStr "https://cdn/x/asset-1")
   /\ has_suffix "/Old.jpg" "https://cdn/x/asset-1" = false
   /\ no_slash "https://cdn/x/asset-1" = false)
  /\ ((w' <- updated (image_node_of "u1" "Old.jpg" "old" "https://cdn/x/Old.jpg")
               (edit_of "New Name.JPG" "Old.jpg" "old") ;;
       read_name w') = Ok (JStr "new-name.jpg")
      /\ ("new-name.jpg" =? "New Name.JPG") = false).
Proof. repeat split; reflexivity. Qed.

(** ** Normalisation of the file name in the second variant *)

Lemma lower_not_space (c : ascii) :
  Part000.is_space c = false -> Part000.is_space (Part000.lower c) = false.
Proof.
  destruct c as [[] [] [] [] [] [] [] []]; intros H; try reflexivity; discriminate H.
Qed.

Lemma lower_lower (c : ascii) : Part000.lower (Part000.lower c) = Part000.lower c.
Proof. destruct c as [[] [] [] [] [] [] [] []]; reflexivity. Qed.

Lemma toLowerCase_app (a b : string) :
  Part000.toLowerCase (a ++ b) = (Part000.toLowerCase a ++ Part000.toLowerCase b)%string.
Proof. induction a as [|c a IH]; simpl; [reflexivity|now rewrite IH]. Qed.

Lemma toLowerCase_idem (s : string) :
  Part000.toLowerCase (Part000.toLowerCase s) = Part000.toLowerCase s.
Proof. induction s as [|c s IH]; simpl; [reflexivity|now rewrite lower_lower, IH]. Qed.

Lemma no_space_toLowerCase (s : string) :
  no_space s = true -> no_space (Part000.toLowerCase s) = true.
Proof.
  induction s as [|c s IH]; simpl; [reflexivity|].
  intros H. apply andb_true_iff in H as [Hc Hs]. apply negb_true_iff in Hc.
  now rewrite (lower_not_space c Hc), (IH Hs).
Qed.

Lemma no_space_replace_spaces (in_run : bool) (s : string) :
  no_space (Part000.replace_spaces in_run s) = true.
Proof.
  revert in_run. induction s as [|c s IH]; intros in_run; simpl; [reflexivity|].
  destruct (Part000.is_space c) eqn:Hc.
  - destruct in_run; simpl; now rewrite ?IH.
  - simpl. now rewrite Hc, IH.
Qed.

Lemma replace_spaces_no_space (in_run : bool) (s : string) :
  no_space s = true -> Part000.replace_spaces in_run s = s.
Proof.
  revert in_run. induction s as [|c s IH]; intros in_run; simpl; [reflexivity|].
  intros H. apply andb_true_iff in H as [Hc Hs]. apply negb_true_iff in Hc.
  now rewrite Hc, (IH false Hs).
Qed.

Lemma replace_spaces_app (in_run : bool) (a b : string) :
  ends_in_space a = false ->
  (a = EmptyString -> in_run = false) ->
  Part000.replace_spaces in_run (a ++ b)
  = (Part000.replace_spaces in_run a ++ Part000.replace_spaces false b)%string.
Proof.
  revert in_run. induction a as [|c a IH]; intros in_run He Hf.
  - now rewrite (Hf eq_refl).
  - assert (Htail : ends_in_space a = false /\ (a = EmptyString -> Part000.is_space c = false)).
    { destruct a; [split; [reflexivity|intros _; exact He]|].
      split; [exact He|discriminate]. }
    destruct Htail as [Ha Hc]. cbn [append Part000.replace_spaces].
    destruct (Part000.is_space c) eqn:Hsp.
    + rewrite (IH true Ha) by (intros E; specialize (Hc E); discriminate).
      destruct in_run; reflexivity.
    + rewrite (IH false Ha) by reflexivity. reflexivity.
Qed.

Lemma replace_spaces_run (ws b : string) :
  all_space ws = true ->
  Part000.replace_spaces true (ws ++ b) = Part000.replace_spaces true b.
Proof.
  induction ws as [|c ws IH]; simpl; [reflexivity|].
  intros H. apply andb_true_iff in H as [Hc Hw]. now rewrite Hc, (IH Hw).
Qed.

Lemma replace_spaces_after_run (b : string) :
  starts_with_space b = false ->
  Part000.replace_spaces true b = Part000.replace_spaces false b.
Proof. destruct b as [|c b]; simpl; [reflexivity|]. now intros ->. Qed.

Lemma normalize_no_space (s : string) :
  no_space s = true -> Part000.normalize s = Part000.toLowerCase s.
Proof. intros H. unfold Part000.normalize. now rewrite replace_spaces_no_space. Qed.

Lemma normalize_run (a ws b : string) :
  ends_in_space a = false ->
  all_space ws = true ->
  ws <> EmptyString ->
  starts_with_space b = false ->
  Part000.normalize (a ++ ws ++ b)
  = (Part000.normalize a ++ String "-"%char (Part000.normalize b))%string.
Proof.
  intros Ha Hws Hne Hb. unfold Part000.normalize.
  rewrite (replace_spaces_app false a (ws ++ b) Ha) by reflexivity.
  rewrite toLowerCase_app. f_equal.
  destruct ws as [|c ws]; [congruence|].
  simpl in Hws. apply andb_true_iff in Hws as [Hc Hw].
  cbn [append Part000.replace_spaces]. rewrite Hc.
  rewrite (replace_spaces_run ws b Hw), (replace_spaces_after_run b Hb).
  reflexivity.
Qed.

Lemma normalize_shape (s : string) :
  no_space (Part000.normalize s) = true
  /\ Part000.toLowerCase (Part000.normalize s) = Part000.normalize s.
Proof.
  unfold Part000.normalize. split.
  - apply no_space_toLowerCase, no_space_replace_spaces.
  - apply toLowerCase_idem.
Qed.

(** * Properties of the change tracker *)

(** ** Maps *)

Section MapFacts.
Context {K V : Type} `{Key K}.
Hypothesis key_ok : forall a b : K, key_eqb a b = true <-> a = b.

Lemma key_eqb_refl (k : K) : key_eqb k k = true.
Proof. now apply key_ok. Qed.

Lemma key_eqb_neq (a b : K) : a <> b -> key_eqb a b = false.
Proof.
  intros N. destruct (key_eqb a b) eqn:E; [|reflexivity].
  apply key_ok in E. contradiction.
Qed.

Lemma get_set_same (k : K) (v : V) (m : Map.t K V) : Map.get k (Map.set k v m) = Some v.
Proof.
  induction m as [|[k' v'] m IH]; simpl.
  - now rewrite key_eqb_refl.
  - destruct (key_eqb k' k) eqn:E; simpl.
    + now rewrite key_eqb_refl.
    + now rewrite E.
Qed.

Lemma get_set_other (k k' : K) (v : V) (m : Map.t K V) :
  k <> k' -> Map.get k' (Map.set k v m) = Map.get k' m.
Proof.
  intros N. induction m as [|[k0 v0] m IH]; simpl.
  - now rewrite (key_eqb_neq k k' N).
  - destruct (key_eqb k0 k) eqn:E; simpl.
    + apply key_ok in E. subst k0. now rewrite (key_eqb_neq k k' N).
    + destruct (key_eqb k0 k'); [reflexivity|exact IH].
Qed.

Lemma get_delete_same (k : K) (m : Map.t K V) : Map.get k (Map.delete k m) = None.
Proof.
  induction m as [|[k' v'] m IH]; simpl; [reflexivity|].
  destruct (key_eqb k' k) eqn:E; simpl; [exact IH|]. now rewrite E.
Qed.

Lemma get_delete_other (k k' : K) (m : Map.t K V) :
  k <> k' -> Map.get k' (Map.delete k m) = Map.get k' m.
Proof.
  intros N. induction m as [|[k0 v0] m IH]; simpl; [reflexivity|].
  destruct (key_eqb k0 k) eqn:E; simpl.
  - apply key_ok in E. subst k0. now rewrite (key_eqb_neq k k' N).
  - destruct (key_eqb k0 k'); [reflexivity|exact IH].
Qed.

Lemma has_set (k k' : K) (v : V) (m : Map.t K V) :
  Map.has k' (Map.set k v m) = key_eqb k k' || Map.has k' m.
Proof.
  unfold Map.has. destruct (key_eqb k k') eqn:E.
  - apply key_ok in E. subst k'. now rewrite get_set_same.
  - rewrite get_set_other; [reflexivity|]. intros ->. now rewrite key_eqb_refl in E.
Qed.

Lemma has_delete (k k' : K) (m : Map.t K V) :
  Map.has k' (Map.delete k m) = negb (key_eqb k k') && Map.has k' m.
Proof.
  unfold Map.has. destruct (key_eqb k k') eqn:E.
  - apply key_ok in E. subst k'. now rewrite get_delete_same.
  - rewrite get_delete_other; [reflexivity|]. intros ->. now rewrite key_eqb_refl in E.
Qed.

Lemma size_0_has (k : K) (m : Map.t K V) : (Map.size m =? 0)%nat = true -> Map.has k m = false.
Proof. destruct m; [reflexivity|discriminate]. Qed.
End MapFacts.

Lemma string_key_ok (a b : string) : key_eqb a b = true <-> a = b.
Proof. apply String.eqb_eq. Qed.

Lemma Z_key_ok (a b : Z) : key_eqb a b = true <-> a = b.
Proof. apply Z.eqb_eq. Qed.

Lemma pair_key_ok (x y : Z * string) : key_eqb x y = true <-> x = y.
Proof.
  destruct x as [a b], y as [c d]. unfold key_eqb, pair_Key; simpl.
  rewrite andb_true_iff, Z_key_ok, string_key_ok. split.
  - now intros [-> ->].
  - intros E. now inversion E.
Qed.

(** ** script.js *)

Lemma tracked_handleInputChange (r r' : ScriptJs.row) (st : ScriptJs.state) :
  ScriptJs.tracked r (ScriptJs.handleInputChange r' st)
  = if same_image r r' then ScriptJs.edited r' else ScriptJs.tracked r st.
Proof.
  unfold ScriptJs.handleInputChange, ScriptJs.tracked, same_image.
  set (sid := ScriptJs.actualStoryId r'). set (iid := ScriptJs.imageBynderId r').
  set (im0 := ScriptJs.imageModifications st).
  set (im := if Map.has sid im0 then im0 else Map.set sid [] im0).
  assert (Hentry : forall s i,
            match Map.get s im with Some m => Map.has i m | None => false end
            = match Map.get s im0 with Some m => Map.has i m | None => false end).
  { intros s i. unfold im, Map.has. destruct (Map.get sid im0) eqn:E; [reflexivity|].
    destruct (String.eqb_spec sid s) as [->|N].
    - rewrite (get_set_same string_key_ok), E. reflexivity.
    - now rewrite (get_set_other string_key_ok). }
  assert (Hsid : exists m, Map.get sid im = Some m).
  { unfold im, Map.has. destruct (Map.get sid im0) eqn:E; [eauto|].
    rewrite (get_set_same string_key_ok). eauto. }
  destruct Hsid as [storyMods Hsid]. rewrite Hsid.
  rewrite <- (Hentry (ScriptJs.actualStoryId r) (ScriptJs.imageBynderId r)).
  set (s := ScriptJs.actualStoryId r). set (i := ScriptJs.imageBynderId r).
  unfold ScriptJs.edited.
  destruct (negb (ScriptJs.fileNameInput r' =? ScriptJs.row_originalFileName r')
            || negb (ScriptJs.altTextInput r' =? ScriptJs.row_originalAlt r')) eqn:Hed.
  - cbn [ScriptJs.with_tracker ScriptJs.imageModifications].
    destruct (String.eqb_spec sid s) as [<-|N]; cbn [andb].
    + rewrite (get_set_same string_key_ok), (has_set string_key_ok), Hsid.
      unfold key_eqb, string_Key. destruct (iid =? i); reflexivity.
    + now rewrite (get_set_other string_key_ok).
  - destruct (Map.size (Map.delete iid storyMods) =? 0)%nat eqn:Hsz;
      cbn [ScriptJs.with_tracker ScriptJs.imageModifications];
      destruct (String.eqb_spec sid s) as [<-|N]; cbn [andb].
    + rewrite get_delete_same, Hsid.
      pose proof (size_0_has i _ Hsz) as Hno.
      rewrite (has_delete string_key_ok) in Hno.
      unfold key_eqb, string_Key in Hno.
      destruct (iid =? i); cbn [negb andb] in Hno |- *; [reflexivity|exact (eq_sym Hno)].
    + rewrite (get_delete_other string_key_ok) by assumption.
      now rewrite (get_set_other string_key_ok).
    + rewrite (get_set_same string_key_ok), (has_delete string_key_ok), Hsid.
      unfold key_eqb, string_Key. destruct (iid =? i); reflexivity.
    + now rewrite (get_set_other string_key_ok).
Qed.

Lemma same_image_key (r r' : ScriptJs.row) :
  same_image r r' = true <-> ScriptJs_row_key r' = ScriptJs_row_key r.
Proof.
  unfold same_image, ScriptJs_row_key. rewrite andb_true_iff, !String.eqb_eq. split.
  - now intros [-> ->].
  - intros E. now inversion E.
Qed.

Lemma type_into_key (f : ScriptJs.field) (v : string) (r : ScriptJs.row) :
  ScriptJs_row_key (ScriptJs.type_into f v r) = ScriptJs_row_key r.
Proof. reflexivity. Qed.

Lemma nth_error_split_at {A : Type} (l : list A) (i : nat) (x : A) :
  nth_error l i = Some x ->
  exists l1 l2, l = l1 ++ x :: l2 /\ firstn i l = l1 /\ skipn (S i) l = l2.
Proof.
  revert i. induction l as [|y l IH]; intros [|i] H; try discriminate.
  - injection H as ->. exists [], l. auto.
  - destruct (IH i H) as (l1 & l2 & -> & H1 & H2).
    exists (y :: l1), l2. simpl. rewrite H1. simpl in H2. rewrite H2. auto.
Qed.

Lemma ScriptJs_change_invariant (i : nat) (f : ScriptJs.field) (v : string) (pg : ScriptJs.page) :
  NoDup (map ScriptJs_row_key (ScriptJs.rows pg)) ->
  Forall (fun r => ScriptJs.tracked r (ScriptJs.app pg) = ScriptJs.edited r) (ScriptJs.rows pg) ->
  let pg' := ScriptJs.change i f v pg in
  map ScriptJs_row_key (ScriptJs.rows pg') = map ScriptJs_row_key (ScriptJs.rows pg)
  /\ Forall (fun r => ScriptJs.tracked r (ScriptJs.app pg') = ScriptJs.edited r)
       (ScriptJs.rows pg').
Proof.
  intros Hnd Hinv. unfold ScriptJs.change.
  destruct (nth_error (ScriptJs.rows pg) i) as [r|] eqn:Hi; [|split; [reflexivity|assumption]].
  destruct (nth_error_split_at _ _ _ Hi) as (l1 & l2 & Hrows & -> & ->).
  cbn [ScriptJs.rows ScriptJs.app]. rewrite Hrows in *.
  set (r' := ScriptJs.type_into f v r).
  split.
  - rewrite !map_app. cbn [map]. reflexivity.
  - rewrite map_app in Hnd. cbn [map] in Hnd.
    apply NoDup_remove_2 in Hnd.
    apply Forall_app in Hinv as [H1 H2]. inversion H2 as [|? ? _ H2']; subst.
    assert (Hother : forall x, In x (l1 ++ l2) ->
              ScriptJs.tracked x (ScriptJs.app pg) = ScriptJs.edited x ->
              ScriptJs.tracked x (ScriptJs.handleInputChange r' (ScriptJs.app pg))
              = ScriptJs.edited x).
    { intros x Hx Hxinv. rewrite tracked_handleInputChange.
      destruct (same_image x r') eqn:E; [|assumption].
      apply same_image_key in E. exfalso. apply Hnd.
      rewrite <- map_app. change (ScriptJs_row_key r) with (ScriptJs_row_key r').
      rewrite E. now apply in_map. }
    apply Forall_app. split; [|constructor].
    + rewrite Forall_forall in *. intros x Hx. apply Hother; [apply in_or_app; now left|auto].
    + rewrite tracked_handleInputChange.
      assert (E : same_image r' r' = true) by now apply same_image_key.
      now rewrite E.
    + rewrite Forall_forall in *. intros x Hx. apply Hother; [apply in_or_app; now right|auto].
Qed.

Lemma ScriptJs_changes_invariant (evs : list (nat * ScriptJs.field * string)) (pg : ScriptJs.page) :
  NoDup (map ScriptJs_row_key (ScriptJs.rows pg)) ->
  Forall (fun r => ScriptJs.tracked r (ScriptJs.app pg) = ScriptJs.edited r) (ScriptJs.rows pg) ->
  Forall (fun r => ScriptJs.tracked r (ScriptJs.app (ScriptJs.changes evs pg)) = ScriptJs.edited r)
    (ScriptJs.rows (ScriptJs.changes evs pg)).
Proof.
  revert pg. induction evs as [|[[i f] v] evs IH]; intros pg Hnd Hinv; [assumption|].
  cbn [ScriptJs.changes fold_left fst snd].
  destruct (ScriptJs_change_invariant i f v pg Hnd Hinv) as [Hk Hinv'].
  apply IH; [now rewrite Hk|assumption].
Qed.

(** ** The second variant *)

Lemma consistent_tracked (r : Part000.row) (st : Part000.state) :
  consistent r st -> Part000.tracked r st = Part000.edited r.
Proof.
  unfold consistent, Part000.tracked, Map.has.
  destruct (Map.get _ _); [intros (-> & _)|intros ->]; reflexivity.
Qed.

Lemma NoDup_map_inj {A B : Type} (f : A -> B) (l : list A) (x y : A) :
  NoDup (map f l) -> In x l -> In y l -> f x = f y -> x = y.
Proof.
  induction l as [|a l IH]; simpl; [contradiction|].
  intros Hnd Hx Hy E. inversion Hnd as [|? ? Hna Hnd']; subst.
  destruct Hx as [->|Hx], Hy as [->|Hy]; auto.
  - exfalso. apply Hna. rewrite E. now apply in_map.
  - exfalso. apply Hna. rewrite <- E. now apply in_map.
Qed.

Lemma find_own (rows : list Part000.row) (r : Part000.row) :
  NoDup (map Part000.row_key rows) ->
  Forall (fun r => has_uid r = true) rows ->
  In r rows ->
  find (fun img => (Part000.image_storyId img =? Part000.image_storyId (Part000.shown r))%Z
                   && Part000.uid_is (Part000.dataset_uid (Part000.shown r)) img)
       (map Part000.shown rows)
  = Some (Part000.shown r).
Proof.
  intros Hnd Huid Hr.
  assert (Hmatch : forall x, In x rows ->
            ((Part000.image_storyId (Part000.shown x)
              =? Part000.image_storyId (Part000.shown r))%Z
             && Part000.uid_is (Part000.dataset_uid (Part000.shown r)) (Part000.shown x)) = true
            <-> Part000.row_key x = Part000.row_key r).
  { intros x Hx. rewrite Forall_forall in Huid.
    pose proof (Huid x Hx) as Ux. pose proof (Huid r Hr) as Ur.
    unfold has_uid, Part000.row_key, Part000.uid_is, Part000.dataset_uid in *.
    destruct (Part000.image_uid (Part000.shown x)) as [sx|]; [|discriminate].
    destruct (Part000.image_uid (Part000.shown r)) as [sr|]; [|discriminate].
    rewrite andb_true_iff, Z.eqb_eq, String.eqb_eq. split.
    - now intros [-> ->].
    - intros E. now inversion E. }
  destruct (find _ (map Part000.shown rows)) as [img|] eqn:F.
  - apply find_some in F as [Hin Hp]. apply in_map_iff in Hin as (x & <- & Hx).
    apply (Hmatch x Hx) in Hp. f_equal. f_equal.
    exact (NoDup_map_inj Part000.row_key rows x r Hnd Hx Hr Hp).
  - exfalso. pose proof (find_none _ _ F (Part000.shown r) (in_map _ _ _ Hr)) as N.
    cbv beta in N. rewrite (proj2 (Hmatch r Hr) eq_refl) in N. discriminate.
Qed.

Lemma edited_false (r : Part000.row) :
  Part000.edited r = false ->
  Part000.fileNameInput r = Part000.image_fileName (Part000.shown r)
  /\ Part000.altTextInput r = Part000.image_alt (Part000.shown r).
Proof.
  unfold Part000.edited. intros H. apply orb_false_iff in H as [H1 H2].
  apply negb_false_iff in H1, H2. now apply String.eqb_eq in H1, H2.
Qed.

Lemma handleCellChange_own (rows : list Part000.row) (r : Part000.row)
  (f : Part000.field) (v : string) (st : Part000.state) :
  NoDup (map Part000.row_key rows) ->
  Forall (fun r => has_uid r = true) rows ->
  In r rows ->
  Part000.currentStoryImages st = map Part000.shown rows ->
  consistent r st ->
  let st' := Part000.handleCellChange (Part000.image_storyId (Part000.shown r))
               (Part000.dataset_uid (Part000.shown r)) f v st in
  Part000.currentStoryImages st' = Part000.currentStoryImages st
  /\ consistent (Part000.type_into f v r) st'
  /\ forall x, Part000.row_key x <> Part000.row_key r ->
       Map.get (Part000.row_key x) (Part000.modifiedImages st')
       = Map.get (Part000.row_key x) (Part000.modifiedImages st).
Proof.
  intros Hnd Huid Hr Himgs Hc. unfold Part000.handleCellChange.
  rewrite Himgs, (find_own rows r Hnd Huid Hr).
  fold (Part000.row_key r). set (key := Part000.row_key r).
  set (fresh := {| Part000.storyId := Part000.image_storyId (Part000.shown r) |}).
  set (m0 := Part000.modifiedImages st) in *.
  set (tracked0 := if Map.has key m0 then m0 else Map.set key fresh m0).
  assert (Hother0 : forall k, k <> key -> Map.get k tracked0 = Map.get k m0).
  { intros k N. unfold tracked0. destruct (Map.has key m0); [reflexivity|].
    apply (get_set_other pair_key_ok). congruence. }
  assert (He0 : exists e0,
            Map.get key tracked0 = Some e0
            /\ Part000.fileName e0 = Part000.fileNameInput r
            /\ Part000.altText e0 = Part000.altTextInput r
            /\ Part000.originalFileName e0 = Part000.image_fileName (Part000.shown r)
            /\ Part000.originalAlt e0 = Part000.image_alt (Part000.shown r)).
  { unfold consistent in Hc. fold key m0 in Hc. unfold tracked0, Map.has.
    destruct (Map.get key m0) as [e|] eqn:G.
    - exists e. rewrite G. tauto.
    - exists fresh. rewrite (get_set_same pair_key_ok).
      destruct (edited_false r Hc) as [-> ->]. repeat split; reflexivity. }
  destruct He0 as (e0 & Hget & Hfn & Halt & Hofn & Hoalt). rewrite Hget.
  set (e1 := match f with
             | Part000.FileName => Part000.with_fileName v e0
             | Part000.AltText => Part000.with_altText v e0
             end).
  set (r' := Part000.type_into f v r).
  assert (He1 : Part000.fileName e1 = Part000.fileNameInput r'
                /\ Part000.altText e1 = Part000.altTextInput r'
                /\ Part000.originalFileName e1 = Part000.image_fileName (Part000.shown r')
                /\ Part000.originalAlt e1 = Part000.image_alt (Part000.shown r')).
  { unfold e1, r'. destruct f; simpl; auto. }
  destruct He1 as (Hfn1 & Halt1 & Hofn1 & Hoalt1).
  assert (Hcond :
    negb (negb (Part000.altText e1 =? Part000.originalAlt e1))
    && negb (negb (Part000.fileName e1 =? Part000.originalFileName e1))
    = negb (Part000.edited r')).
  { unfold Part000.edited. rewrite Hfn1, Halt1, Hofn1, Hoalt1.
    destruct (Part000.fileNameInput r' =? _), (Part000.altTextInput r' =? _); reflexivity. }
  rewrite Hcond.
  cbn [Part000.refresh_button Part000.set_modifiedImages Part000.set_disabled
       Part000.currentStoryImages Part000.modifiedImages].
  split; [exact Himgs|]. split.
  - unfold consistent. change (Part000.row_key r') with key.
    cbn [Part000.modifiedImages].
    destruct (Part000.edited r') eqn:Hed;
      cbn [negb Part000.refresh_button Part000.set_modifiedImages Part000.set_disabled
           Part000.modifiedImages].
    + rewrite (get_set_same pair_key_ok). auto.
    + now rewrite get_delete_same.
  - intros x N. destruct (negb (Part000.edited r'));
      cbn [Part000.refresh_button Part000.set_modifiedImages Part000.set_disabled
           Part000.modifiedImages].
    + rewrite (get_delete_other pair_key_ok) by congruence. now apply Hother0.
    + rewrite (get_set_other pair_key_ok) by congruence. now apply Hother0.
Qed.

Lemma Part000_change_invariant (i : nat) (f : Part000.field) (v : string) (pg : Part000.page) :
  NoDup (map Part000.row_key (Part000.rows pg)) ->
  Forall (fun r => has_uid r = true) (Part000.rows pg) ->
  Part000.currentStoryImages (Part000.app pg) = map Part000.shown (Part000.rows pg) ->
  Forall (fun r => consistent r (Part000.app pg)) (Part000.rows pg) ->
  let pg' := Part000.change i f v pg in
  map Part000.row_key (Part000.rows pg') = map Part000.row_key (Part000.rows pg)
  /\ Forall (fun r => has_uid r = true) (Part000.rows pg')
  /\ Part000.currentStoryImages (Part000.app pg') = map Part000.shown (Part000.rows pg')
  /\ Forall (fun r => consistent r (Part000.app pg')) (Part000.rows pg').
Proof.
  intros Hnd Huid Himgs Hinv. unfold Part000.change.
  destruct (nth_error (Part000.rows pg) i) as [r|] eqn:Hi; [|auto].
  destruct (nth_error_split_at _ _ _ Hi) as (l1 & l2 & Hrows & -> & ->).
  cbn [Part000.rows Part000.app].
  assert (Hr : In r (Part000.rows pg)) by (rewrite Hrows; apply in_elt).
  pose proof (Forall_forall (fun r => consistent r (Part000.app pg)) (Part000.rows pg)) as FF.
  destruct (handleCellChange_own (Part000.rows pg) r f v (Part000.app pg) Hnd Huid Hr Himgs
              (proj1 FF Hinv r Hr)) as (Hcs & Hown & Hothers).
  rewrite Hcs, Himgs. rewrite Hrows in *. clear FF.
  repeat split.
  - rewrite !map_app. reflexivity.
  - apply Forall_app in Huid as [H1 H2]. inversion H2; subst.
    apply Forall_app. split; [assumption|constructor; assumption].
  - rewrite !map_app. reflexivity.
  - rewrite map_app in Hnd. cbn [map] in Hnd. apply NoDup_remove_2 in Hnd.
    apply Forall_app in Hinv as [H1 H2]. inversion H2 as [|? ? _ H2']; subst.
    assert (Hkeep : forall x, In x (l1 ++ l2) -> consistent x (Part000.app pg) ->
              consistent x (Part000.handleCellChange (Part000.image_storyId (Part000.shown r))
                              (Part000.dataset_uid (Part000.shown r)) f v (Part000.app pg))).
    { intros x Hx Hxc. unfold consistent in *. rewrite Hothers; [assumption|].
      intros E. apply Hnd. rewrite <- map_app, <- E. now apply in_map. }
    apply Forall_app. split; [|constructor].
    + rewrite Forall_forall in *. intros x Hx. apply Hkeep; [apply in_or_app; now left|auto].
    + exact Hown.
    + rewrite Forall_forall in *. intros x Hx. apply Hkeep; [apply in_or_app; now right|auto].
Qed.

Lemma Part000_changes_invariant (evs : list (nat * Part000.field * string)) (pg : Part000.page) :
  NoDup (map Part000.row_key (Part000.rows pg)) ->
  Forall (fun r => has_uid r = true) (Part000.rows pg) ->
  Part000.currentStoryImages (Part000.app pg) = map Part000.shown (Part000.rows pg) ->
  Forall (fun r => consistent r (Part000.app pg)) (Part000.rows pg) ->
  Forall (fun r => consistent r (Part000.app (Part000.changes evs pg)))
    (Part000.rows (Part000.changes evs pg)).
Proof.
  revert pg. induction evs as [|[[i f] v] evs IH]; intros pg Hnd Huid Himgs Hinv; [assumption|].
  cbn [Part000.changes fold_left fst snd].
  destruct (Part000_change_invariant i f v pg Hnd Huid Himgs Hinv) as (Hk & Hu & Hi & Hc).
  apply IH; try assumption. now rewrite Hk.
Qed.

Lemma ScriptJs_pristine_not_edited (r : ScriptJs.row) :
  ScriptJs.pristine r = true -> ScriptJs.edited r = false.
Proof.
  unfold ScriptJs.pristine, ScriptJs.edited. intros H.
  apply andb_true_iff in H as [-> ->]. reflexivity.
Qed.

Lemma Part000_pristine_not_edited (r : Part000.row) :
  Part000.pristine r = true -> Part000.edited r = false.
Proof.
  unfold Part000.pristine, Part000.edited. intros H.
  apply andb_true_iff in H as [-> ->]. reflexivity.
Qed.

(** C4, as amended.  Let the rows of the table stand for distinct images
    (distinct pairs of story and image identifier; in the second variant
    each image has a string [_uid] and [currentStoryImages] lists the images
    of the rows) and let the tracker agree with the rows to begin with, as it
    does when the table has just been rendered and the tracker is empty.
    Then after any sequence of [change] events on the inputs, with no run of
    the write-back in between, the tracker holds an entry for the key of a
    row if and only if the file name or the alternative text of that row
    differs from its snapshot; in particular a row whose two inputs are back
    at the snapshot has no entry. *)
Theorem C4_tracker_invariant :
  (forall evs pg,
      NoDup (map ScriptJs_row_key (ScriptJs.rows pg)) ->
      Forall (fun r => ScriptJs.tracked r (ScriptJs.app pg) = ScriptJs.edited r)
        (ScriptJs.rows pg) ->
      Forall (fun r =>
                ScriptJs.tracked r (ScriptJs.app (ScriptJs.changes evs pg)) = ScriptJs.edited r
                /\ (ScriptJs.pristine r = true ->
                    ScriptJs.tracked r (ScriptJs.app (ScriptJs.changes evs pg)) = false))
        (ScriptJs.rows (ScriptJs.changes evs pg)))
  /\ (forall evs pg,
         NoDup (map Part000.row_key (Part000.rows pg)) ->
         Forall (fun r => has_uid r = true) (Part000.rows pg) ->
         Part000.currentStoryImages (Part000.app pg) = map Part000.shown (Part000.rows pg) ->
         Forall (fun r => consistent r (Part000.app pg)) (Part000.rows pg) ->
         Forall (fun r =>
                   Part000.tracked r (Part000.app (Part000.changes evs pg)) = Part000.edited r
                   /\ (Part000.pristine r = true ->
                       Part000.tracked r (Part000.app (Part000.changes evs pg)) = false))
           (Part000.rows (Part000.changes evs pg))).
Proof.
  split.
  - intros evs pg Hnd Hinv.
    pose proof (ScriptJs_changes_invariant evs pg Hnd Hinv) as H.
    rewrite Forall_forall in *. intros r Hr. specialize (H r Hr). split; [assumption|].
    intros Hp. rewrite H. now apply ScriptJs_pristine_not_edited.
  - intros evs pg Hnd Huid Himgs Hinv.
    pose proof (Part000_changes_invariant evs pg Hnd Huid Himgs Hinv) as H.
    rewrite Forall_forall in *. intros r Hr. specialize (H r Hr).
    apply consistent_tracked in H. split; [assumption|].
    intros Hp. rewrite H. now apply Part000_pristine_not_edited.
Qed.

Lemma C4_tracker_invariant_witness :
  Forall (fun r =>
            ScriptJs.tracked r
              (ScriptJs.app
                 (ScriptJs.changes
                    [(0, ScriptJs.FileName, "New.jpg"); (1, ScriptJs.AltText, "a tug at sea");
                     (0, ScriptJs.FileName, "Old.jpg")] fresh_page))
            = ScriptJs.edited r
            /\ (ScriptJs.pristine r = true ->
                ScriptJs.tracked r
                  (ScriptJs.app
                     (ScriptJs.changes
                        [(0, ScriptJs.FileName, "New.jpg"); (1, ScriptJs.AltText, "a tug at sea");
                         (0, ScriptJs.FileName, "Old.jpg")] fresh_page))
                = false))
    (ScriptJs.rows
       (ScriptJs.changes
          [(0, ScriptJs.FileName, "New.jpg"); (1, ScriptJs.AltText, "a tug at sea");
           (0, ScriptJs.FileName, "Old.jpg")] fresh_page))
  /\ Forall (fun r =>
               Part000.tracked r
                 (Part000.app
                    (Part000.changes
                       [(0, Part000.FileName, "New.jpg"); (1, Part000.AltText, "a tug at sea");
                        (0, Part000.FileName, "Old.jpg")] fresh_table))
               = Part000.edited r
               /\ (Part000.pristine r = true ->
                   Part000.tracked r
                     (Part000.app
                        (Part000.changes
                           [(0, Part000.FileName, "New.jpg"); (1, Part000.AltText, "a tug at sea");
                            (0, Part000.FileName, "Old.jpg")] fresh_table))
                   = false))
       (Part000.rows
          (Part000.changes
             [(0, Part000.FileName, "New.jpg"); (1, Part000.AltText, "a tug at sea");
              (0, Part000.FileName, "Old.jpg")] fresh_table)).
Proof.
  destruct C4_tracker_invariant as [A B]. split.
  - apply A.
    + repeat constructor; simpl; intuition discriminate.
    + repeat constructor.
  - apply B.
    + repeat constructor; simpl; intuition discriminate.
    + repeat constructor.
    + reflexivity.
    + repeat constructor.
Defined.

(** C4 as stated fails when two rows stand for one image, as when a story
    uses one asset twice: the two rows of script.js share the key of their
    entry, so when the second row is edited and put back the entry of the
    first row goes with it, and the send button is hidden while the first
    row still differs from its snapshot.  In the second variant a row whose
    image has no [_uid] is never found by the handler: its edit is not
    recorded at all. *)
Lemma C4_counterexample :
  (exists r,
      nth_error
        (ScriptJs.rows
           (ScriptJs.changes
              [(0, ScriptJs.AltText, "a tug at sea"); (1, ScriptJs.AltText, "x");
               (1, ScriptJs.AltText, "a tug")] twin_page)) 0 = Some r
      /\ ScriptJs.edited r = true
      /\ ScriptJs.tracked r
           (ScriptJs.app
              (ScriptJs.changes
                 [(0, ScriptJs.AltText, "a tug at sea"); (1, ScriptJs.AltText, "x");
                  (1, ScriptJs.AltText, "a tug")] twin_page)) = false
      /\ ScriptJs.sendToServerButton_hidden
           (ScriptJs.app
              (ScriptJs.changes
                 [(0, ScriptJs.AltText, "a tug at sea"); (1, ScriptJs.AltText, "x");
                  (1, ScriptJs.AltText, "a tug")] twin_page)) = true)
  /\ (exists r,
         nth_error
           (Part000.rows (Part000.changes [(0, Part000.AltText, "a tug at sea")] anonymous_table))
           0 = Some r
         /\ Part000.edited r = true
         /\ Part000.tracked r
              (Part000.app (Part000.changes [(0, Part000.AltText, "a tug at sea")] anonymous_table))
            = false).
Proof. split; eexists; repeat split; reflexivity. Qed.

(** * Properties of the write-back *)

(** ** script.js *)

Lemma mbind_assoc {S E A B C : Type} (m : M S E A) (f : A -> M S E B) (g : B -> M S E C)
  (s : S) :
  mbind (mbind m f) g s = mbind m (fun a => mbind (f a) g) s.
Proof.
  unfold mbind. destruct (m s) as [[[a|e] s1] evs1]; [|reflexivity].
  destruct (f a s1) as [[[b|e] s2] evs2]; [|reflexivity].
  destruct (g b s2) as [[r s3] evs3]. now rewrite app_assoc.
Qed.

Lemma apply_entries_spec (storyId : string) (mods : list (string * ScriptJs.modification))
  (content : json) (applied : bool) (r : ScriptJs.run) :
  for_each_with (ScriptJs.apply_entry storyId) mods (content, applied) r
  = (fst (patch_story mods content applied), r,
     not_found storyId (snd (patch_story mods content applied))).
Proof.
  revert content applied. induction mods as [|[id m] mods IH]; intros content applied.
  - reflexivity.
  - cbn [for_each_with patch_story]. unfold ScriptJs.apply_entry at 1. cbn [fst snd].
    rewrite mbind_assoc.
    destruct (ScriptJs.findImageInStoryContentById content id) as [[ref|]|e].
    + rewrite !mbind_lift_Ok.
      destruct (update_at (ScriptJs.applyModification m) ref content) as [c|e].
      * rewrite mbind_assoc, !mbind_lift_Ok, mbind_ret. apply IH.
      * reflexivity.
    + rewrite !mbind_lift_Ok, mbind_assoc, mbind_emit, mbind_ret, IH.
      destruct (patch_story mods content applied) as [res missing]. reflexivity.
    + reflexivity.
Qed.

Ltac mstep :=
  repeat first
    [ rewrite mbind_assoc | rewrite mbind_lift_Ok | rewrite mbind_ret
    | rewrite mbind_gets | rewrite mbind_modify | rewrite mbind_emit ].

Lemma mbind_stateless {S E A B : Type} (m : M S E A) (k : A -> M S E B) (s : S)
  (x : result A) (evs : list E) :
  m s = (x, s, evs) ->
  mbind m k s
  = match x with
    | Ok a => (fst (fst (k a s)), snd (fst (k a s)), evs ++ snd (k a s))
    | Throw e => (Throw e, s, evs)
    end.
Proof.
  intros H. unfold mbind. rewrite H. destruct x as [a|e]; [|reflexivity].
  destruct (k a s) as [[y s'] evs']. reflexivity.
Qed.

Lemma truthy_get_prop (v : json) (k : string) :
  truthy v = true -> exists x, get_prop v k = Ok x.
Proof. destruct v; try discriminate; simpl; eauto. Qed.

Lemma fetchStoryblokApi_spec (srv : server string) (storyId : string) (r : ScriptJs.run) :
  ScriptJs.fetchStoryblokApi srv storyId r
  = (Ok (fst (ask_get (ScriptJs.storyblokMapiToken (ScriptJs.st r)) srv storyId)), r,
     snd (ask_get (ScriptJs.storyblokMapiToken (ScriptJs.st r)) srv storyId)).
Proof.
  unfold ScriptJs.fetchStoryblokApi, ask_get, answered. mstep.
  destruct (ScriptJs.storyblokMapiToken (ScriptJs.st r) =? ""); mstep; [reflexivity|].
  destruct (on_get srv storyId) as [|status body]; [|destruct (ok status)]; mstep; reflexivity.
Qed.

Lemma putStoryblokApi_spec (srv : server string) (storyId : string) (data : json)
  (r : ScriptJs.run) :
  ScriptJs.putStoryblokApi srv storyId data r
  = (Ok (fst (ask_put (ScriptJs.storyblokMapiToken (ScriptJs.st r)) srv storyId data)), r,
     snd (ask_put (ScriptJs.storyblokMapiToken (ScriptJs.st r)) srv storyId data)).
Proof.
  unfold ScriptJs.putStoryblokApi, ask_put, answered. mstep.
  destruct (ScriptJs.storyblokMapiToken (ScriptJs.st r) =? ""); mstep; [reflexivity|].
  destruct (on_put srv storyId data) as [|status body]; [|destruct (ok status)]; mstep;
    reflexivity.
Qed.

Lemma process_story_spec (srv : server string) (storyId : string) (r : ScriptJs.run) :
  let t := turn (ScriptJs.storyblokMapiToken (ScriptJs.st r)) srv storyId
             (Map.get storyId (ScriptJs.imageModifications (ScriptJs.st r))) in
  exists r',
    ScriptJs.process_story srv storyId r = (result_of (fst t), r', snd t)
    /\ ScriptJs.successCount r' = ScriptJs.successCount r + b2n (is_succeeded (fst t))
    /\ ScriptJs.failCount r' = ScriptJs.failCount r + b2n (is_failed (fst t))
    /\ ScriptJs.storyblokMapiToken (ScriptJs.st r') = ScriptJs.storyblokMapiToken (ScriptJs.st r)
    /\ (forall k, k <> storyId ->
          Map.get k (ScriptJs.imageModifications (ScriptJs.st r'))
          = Map.get k (ScriptJs.imageModifications (ScriptJs.st r))).
Proof.
  intros t. unfold t, turn, ScriptJs.process_story.
  rewrite mbind_gets.
  assert (Hframe : forall m : Map.t string (Map.t string ScriptJs.modification),
            forall k, k <> storyId -> Map.get k (Map.delete storyId m) = Map.get k m).
  { intros m k N. apply (get_delete_other string_key_ok). congruence. }
  destruct (Map.get storyId (ScriptJs.imageModifications (ScriptJs.st r)))
    as [[|entry mods]|] eqn:Hmods.
  1, 3: mstep; unfold modify; cbn [fst snd result_of is_succeeded is_failed b2n];
        eexists; split; [reflexivity|]; cbn; repeat split; auto; lia.
  set (ms := entry :: mods).
  rewrite (mbind_stateless _ _ _ _ _ (fetchStoryblokApi_spec srv storyId r)).
  destruct (ask_get (ScriptJs.storyblokMapiToken (ScriptJs.st r)) srv storyId)
    as [response asked]. cbn [fst snd].
  assert (Hfailed :
    exists r',
      (emit (ScriptJs.Console (ScriptJs.CouldNotFetchLatest storyId)) ;;;
       modify ScriptJs.failed ;;;
       modify (ScriptJs.on_state (ScriptJs.changedStories_delete storyId))) r
      = (Ok tt, r', [ScriptJs.Console (ScriptJs.CouldNotFetchLatest storyId)])
      /\ ScriptJs.successCount r' = ScriptJs.successCount r + 0
      /\ ScriptJs.failCount r' = ScriptJs.failCount r + 1
      /\ ScriptJs.storyblokMapiToken (ScriptJs.st r')
         = ScriptJs.storyblokMapiToken (ScriptJs.st r)
      /\ (forall k, k <> storyId ->
            Map.get k (ScriptJs.imageModifications (ScriptJs.st r'))
            = Map.get k (ScriptJs.imageModifications (ScriptJs.st r)))).
  { mstep. unfold modify. cbn [fst snd]. eexists. split; [reflexivity|].
    cbn. repeat split; auto; lia. }
  destruct Hfailed as (rf & Hrf & Hfrest).
  unfold fetched_story.
  destruct response as [body|]; [destruct (truthy body) eqn:Hb|].
  2, 3: mstep; cbn [ScriptJs.falsy_response truthy negb orb]; rewrite ?Hb; cbn [negb orb];
        rewrite Hrf; cbn [fst snd result_of is_succeeded is_failed b2n];
        exists rf; split; [reflexivity|exact Hfrest].
  destruct (truthy_get_prop body "story" Hb) as [story Hs]. rewrite Hs. mstep.
  cbn [ScriptJs.falsy_response]. rewrite Hb. cbn [negb orb].
  destruct (truthy story) eqn:Hst; cbn [negb].
  2: rewrite Hrf; cbn [fst snd result_of is_succeeded is_failed b2n];
     exists rf; split; [reflexivity|exact Hfrest].
  destruct (truthy_get_prop story "content" Hst) as [content Hc].
  unfold content_of. rewrite Hc. mstep.
  rewrite (mbind_stateless _ _ _ _ _ (apply_entries_spec storyId ms content false r)).
  destruct (patch_story ms content false) as [[[content' applied]|e] missing]; cbn [fst snd].
  2: { exists r. cbn [result_of is_succeeded is_failed b2n].
       repeat split; auto; lia. }
  destruct applied; cbn [negb].
  2: { mstep. unfold modify. cbn [fst snd result_of is_succeeded is_failed b2n].
       eexists. split; [reflexivity|].
       cbn. repeat split; auto; lia. }
  rewrite (mbind_stateless _ _ _ _ _
             (putStoryblokApi_spec srv storyId (with_prop story "content" content') r)).
  destruct (ask_put (ScriptJs.storyblokMapiToken (ScriptJs.st r)) srv storyId
              (with_prop story "content" content')) as [answer sent]. cbn [fst snd].
  destruct (negb (ScriptJs.falsy_response answer)).
  - mstep. unfold modify. cbn [fst snd result_of is_succeeded is_failed b2n].
    eexists. split; [rewrite app_nil_r; reflexivity|].
    cbn. repeat split; auto; lia.
  - unfold modify. cbn [fst snd result_of is_succeeded is_failed b2n].
    eexists. split; [rewrite app_nil_r; reflexivity|].
    cbn. repeat split; auto; lia.
Qed.

Lemma story_turns_ext (token : string) (srv : server string)
  (p1 p2 : Map.t string (Map.t string ScriptJs.modification)) (ids : list string) :
  (forall id, In id ids -> Map.get id p1 = Map.get id p2) ->
  story_turns token srv p1 ids = story_turns token srv p2 ids.
Proof.
  induction ids as [|id ids IH]; intros H; [reflexivity|].
  cbn [story_turns]. rewrite (H id (or_introl eq_refl)).
  rewrite IH by (intros; apply H; now right). reflexivity.
Qed.

Lemma for_each_process_spec (srv : server string) (ids : list string) :
  NoDup ids ->
  forall r,
    let ts := story_turns (ScriptJs.storyblokMapiToken (ScriptJs.st r)) srv
                (ScriptJs.imageModifications (ScriptJs.st r)) ids in
    exists r',
      for_each (ScriptJs.process_story srv) ids r = (outcome ts, r', events_of ts)
      /\ ScriptJs.successCount r' = ScriptJs.successCount r + tally is_succeeded ts
      /\ ScriptJs.failCount r' = ScriptJs.failCount r + tally is_failed ts.
Proof.
  induction 1 as [|id ids Hnotin Hnd IH]; intros r.
  - exists r. cbn. repeat split; lia.
  - cbn [for_each story_turns].
    destruct (process_story_spec srv id r) as (r1 & Hrun & Hs & Hf & Htok & Hframe).
    set (t := turn (ScriptJs.storyblokMapiToken (ScriptJs.st r)) srv id
                (Map.get id (ScriptJs.imageModifications (ScriptJs.st r)))) in *.
    unfold mbind. rewrite Hrun.
    destruct (fst t) as [| | |e] eqn:Hv; cbn [result_of].
    4: { exists r1. unfold events_of, tally. cbn [map List.concat filter outcome fst].
         rewrite Hv, app_nil_r. cbn [is_succeeded is_failed b2n List.length] in *.
         repeat split; [assumption|assumption]. }
    all: destruct (IH r1) as (r2 & Hrest & Hs2 & Hf2);
      rewrite Htok in Hrest, Hs2, Hf2;
      rewrite (story_turns_ext _ srv (ScriptJs.imageModifications (ScriptJs.st r1))
                 (ScriptJs.imageModifications (ScriptJs.st r)) ids) in Hrest, Hs2, Hf2
        by (intros k Hk; apply Hframe; intros ->; contradiction);
      rewrite Hrest; exists r2;
      unfold events_of, tally in *; cbn [map List.concat filter outcome fst];
      rewrite Hv; cbn [is_succeeded is_failed b2n List.length] in *;
      repeat split; lia.
Qed.

Lemma click_spec (srv : server string) (s : ScriptJs.state) :
  NoDup (ScriptJs.changedStories s) ->
  ScriptJs.changedStories s <> [] ->
  let ts := story_turns (ScriptJs.storyblokMapiToken s) srv (ScriptJs.imageModifications s)
              (ScriptJs.changedStories s) in
  exists r',
    ScriptJs.click true srv s
    = (outcome ts, r',
       events_of ts
       ++ match outcome ts with
          | Ok _ => [ScriptJs.Alert (ScriptJs.ChangesSent (tally is_succeeded ts)
                                       (tally is_failed ts))]
          | Throw _ => []
          end)
    /\ ScriptJs.successCount r' = tally is_succeeded ts
    /\ ScriptJs.failCount r' = tally is_failed ts.
Proof.
  intros Hnd Hne ts. unfold ScriptJs.click, ScriptJs.sendToServer.
  rewrite mbind_gets. cbn [ScriptJs.st].
  destruct (ScriptJs.changedStories s) as [|id ids] eqn:Hids; [congruence|].
  cbn [List.length Nat.eqb negb].
  destruct (for_each_process_spec srv (id :: ids) Hnd (fresh_run s)) as (r1 & Hrun & Hs & Hf).
  cbn [fresh_run ScriptJs.st ScriptJs.successCount ScriptJs.failCount] in Hrun, Hs, Hf.
  fold ts in Hrun, Hs, Hf. unfold fresh_run in Hrun.
  unfold mbind at 1. rewrite Hrun.
  destruct (outcome ts) as [[]|e].
  - mstep. unfold modify. cbn [fst snd]. eexists. rewrite Hs, Hf. cbn [Nat.add].
    split; [reflexivity|]. cbn. split; assumption.
  - exists r1. rewrite app_nil_r. repeat split; assumption.
Qed.

Lemma click_not_confirmed (srv : server string) (s : ScriptJs.state) :
  events (ScriptJs.click false srv s)
  = match ScriptJs.changedStories s with
    | [] => [ScriptJs.Alert ScriptJs.NoChangesToSend]
    | _ => []
    end.
Proof.
  unfold ScriptJs.click, ScriptJs.sendToServer, events. rewrite mbind_gets. cbn [ScriptJs.st].
  destruct (ScriptJs.changedStories s); reflexivity.
Qed.

Lemma click_nothing (confirmed : bool) (srv : server string) (s : ScriptJs.state) :
  ScriptJs.changedStories s = [] ->
  events (ScriptJs.click confirmed srv s) = [ScriptJs.Alert ScriptJs.NoChangesToSend].
Proof.
  intros H. unfold ScriptJs.click, ScriptJs.sendToServer, events. rewrite mbind_gets.
  cbn [ScriptJs.st]. rewrite H. reflexivity.
Qed.

Lemma no_puts_not_found (storyId : string) (missing : list string) :
  no_puts (not_found storyId missing).
Proof.
  intros id body H. unfold not_found in H. apply in_map_iff in H as (x & E & _). discriminate.
Qed.

Lemma puts_for_no_puts (id : string) (evs : list ScriptJs.event) :
  no_puts evs -> puts_for id evs = 0.
Proof.
  unfold puts_for. induction evs as [|ev evs IH]; intros H; [reflexivity|].
  cbn [filter]. destruct ev as [g|p body|d|d]; cbn [is_put];
    try (apply IH; intros i b Hin; apply (H i b); now right).
  exfalso. apply (H p body). now left.
Qed.

Lemma puts_for_app (id : string) (a b : list ScriptJs.event) :
  puts_for id (a ++ b) = puts_for id a + puts_for id b.
Proof. unfold puts_for. now rewrite filter_app, length_app. Qed.

(** The events of a turn hold no PUT, or they start with the GET of the
    story and hold one PUT, of the fetched story with its content patched by
    all the pending edits of that story. *)
Lemma turn_shape (token : string) (srv : server string) (storyId : string)
  (mods : option (Map.t string ScriptJs.modification)) :
  no_puts (snd (turn token srv storyId mods))
  \/ exists ms status response story content missing rest,
       mods = Some ms
       /\ on_get srv storyId = Http status response
       /\ ok status = true
       /\ fetched_story (Some response) = Some story
       /\ patch_story ms (content_of story) false = (Ok (content, true), missing)
       /\ snd (turn token srv storyId mods)
          = ScriptJs.Get storyId :: not_found storyId missing
            ++ ScriptJs.Put storyId (with_prop story "content" content) :: rest
       /\ no_puts rest.
Proof.
  unfold turn.
  destruct mods as [[|entry ms]|]; try (left; intros id body [H|[]]; discriminate).
  unfold ask_get. destruct (token =? "") eqn:Htoken.
  { left. cbn [fetched_story]. intros id body [H|[H|[]]]; discriminate. }
  unfold answered. destruct (on_get srv storyId) as [|status response] eqn:Hget.
  { left. cbn [fetched_story]. intros id body H. cbn in H.
    repeat (destruct H as [H|H]; try discriminate); contradiction. }
  destruct (ok status) eqn:Hok.
  2:{ left. cbn [fetched_story]. intros id body H. cbn in H.
      repeat (destruct H as [H|H]; try discriminate); contradiction. }
  destruct (fetched_story (Some response)) as [story|] eqn:Hstory.
  2:{ left. intros id body H. cbn in H.
      repeat (destruct H as [H|H]; try discriminate); contradiction. }
  destruct (patch_story (entry :: ms) (content_of story) false)
    as [[[content applied]|e] missing] eqn:Hpatch.
  2:{ left. cbn [snd app]. intros id body [H|H]; [discriminate|].
      exact (no_puts_not_found _ _ _ _ H). }
  destruct applied.
  2:{ left. cbn [snd app]. intros id body [H|H]; [discriminate|].
      apply in_app_or in H as [H|[H|[]]]; [|discriminate].
      exact (no_puts_not_found _ _ _ _ H). }
  right. exists (entry :: ms), status, response, story, content, missing.
  unfold ask_put. rewrite Htoken.
  destruct (answered (on_put srv storyId (with_prop story "content" content))).
  - exists []. cbn [snd app]. repeat split; auto. intros id body [].
  - eexists [_; _]. cbn [snd app]. repeat split; auto.
    intros id body [H|[H|[]]]; discriminate.
Qed.

Lemma turn_puts (token : string) (srv : server string) (storyId id : string)
  (mods : option (Map.t string ScriptJs.modification)) :
  puts_for id (snd (turn token srv storyId mods)) <= (if storyId =? id then 1 else 0).
Proof.
  destruct (turn_shape token srv storyId mods)
    as [H|(ms & status & response & story & content & missing & rest & _ & _ & _ & _ & _ & E & Hr)].
  - rewrite (puts_for_no_puts id _ H). lia.
  - rewrite E. change (ScriptJs.Get storyId :: ?l) with ([ScriptJs.Get storyId] ++ l).
    rewrite !puts_for_app.
    change (ScriptJs.Put storyId ?b :: rest) with ([ScriptJs.Put storyId b] ++ rest).
    rewrite puts_for_app, (puts_for_no_puts id _ (no_puts_not_found _ _)),
      (puts_for_no_puts id rest Hr).
    unfold puts_for. cbn [filter is_put]. destruct (storyId =? id); cbn; lia.
Qed.

Lemma story_turns_puts (token : string) (srv : server string)
  (pending : Map.t string (Map.t string ScriptJs.modification)) (ids : list string)
  (id : string) :
  NoDup ids ->
  puts_for id (events_of (story_turns token srv pending ids)) <= 1
  /\ (~ In id ids -> puts_for id (events_of (story_turns token srv pending ids)) = 0).
Proof.
  induction 1 as [|x ids Hx Hnd IH]; [cbn; split; intros; lia|].
  cbn [story_turns].
  pose proof (turn_puts token srv x id (Map.get x pending)) as Ht.
  set (t := turn token srv x (Map.get x pending)) in *.
  destruct IH as [IH1 IH2].
  assert (Hsum : forall tail,
            puts_for id (events_of (t :: tail))
            = puts_for id (snd t) + puts_for id (events_of tail)).
  { intros tail. unfold events_of. cbn [map List.concat]. apply puts_for_app. }
  assert (Hone : puts_for id (events_of [t]) = puts_for id (snd t)).
  { rewrite Hsum. unfold events_of. cbn. unfold puts_for. cbn. lia. }
  destruct (String.eqb_spec x id) as [->|N].
  - assert (H0 : puts_for id (events_of (story_turns token srv pending ids)) = 0)
      by (apply IH2; assumption).
    split.
    + destruct (fst t); rewrite ?Hone, ?Hsum, ?H0; lia.
    + intros Hn. exfalso. apply Hn. now left.
  - assert (Ht0 : puts_for id (snd t) = 0) by lia.
    split.
    + destruct (fst t); rewrite ?Hone, ?Hsum, ?Ht0; lia.
    + intros Hn. destruct (fst t); rewrite ?Hone, ?Hsum, ?Ht0; try lia.
      all: rewrite IH2; [lia|]; intros Hin; apply Hn; now right.
Qed.

Lemma turn_put_inv (token : string) (srv : server string) (storyId id : string) (body : json)
  (mods : option (Map.t string ScriptJs.modification)) :
  In (ScriptJs.Put id body) (snd (turn token srv storyId mods)) ->
  id = storyId
  /\ exists ms status response story content missing rest,
       mods = Some ms
       /\ on_get srv storyId = Http status response
       /\ ok status = true
       /\ fetched_story (Some response) = Some story
       /\ patch_story ms (content_of story) false = (Ok (content, true), missing)
       /\ body = with_prop story "content" content
       /\ snd (turn token srv storyId mods)
          = ScriptJs.Get storyId :: not_found storyId missing
            ++ ScriptJs.Put storyId body :: rest.
Proof.
  intros Hin.
  destruct (turn_shape token srv storyId mods)
    as [H|(ms & status & response & story & content & missing & rest
           & Hm & Hg & Hok & Hs & Hp & E & Hr)].
  - exfalso. exact (H _ _ Hin).
  - rewrite E in Hin. destruct Hin as [Hin|Hin]; [discriminate|].
    apply in_app_or in Hin as [Hin|[Hin|Hin]].
    + exfalso. exact (no_puts_not_found _ _ _ _ Hin).
    + injection Hin as <- <-. split; [reflexivity|].
      exists ms, status, response, story, content, missing, rest. repeat split; assumption.
    + exfalso. exact (Hr _ _ Hin).
Qed.

Lemma story_turns_segment (token : string) (srv : server string)
  (pending : Map.t string (Map.t string ScriptJs.modification)) (ids : list string)
  (ev : ScriptJs.event) :
  In ev (events_of (story_turns token srv pending ids)) ->
  exists id before after,
    In id ids
    /\ In ev (snd (turn token srv id (Map.get id pending)))
    /\ events_of (story_turns token srv pending ids)
       = before ++ snd (turn token srv id (Map.get id pending)) ++ after.
Proof.
  induction ids as [|x ids IH]; [intros []|].
  cbn [story_turns]. set (t := turn token srv x (Map.get x pending)).
  assert (Hhere : In ev (snd t) -> forall tail,
            exists id before after,
              In id (x :: ids)
              /\ In ev (snd (turn token srv id (Map.get id pending)))
              /\ events_of (t :: tail)
                 = before ++ snd (turn token srv id (Map.get id pending)) ++ after).
  { intros H tail. exists x, [], (events_of tail). repeat split; [now left|assumption]. }
  assert (Hthere : In ev (events_of (story_turns token srv pending ids)) ->
            exists id before after,
              In id (x :: ids)
              /\ In ev (snd (turn token srv id (Map.get id pending)))
              /\ events_of (t :: story_turns token srv pending ids)
                 = before ++ snd (turn token srv id (Map.get id pending)) ++ after).
  { intros H. destruct (IH H) as (id & before & after & Hid & Hev & E).
    exists id, (snd t ++ before), after. repeat split; [now right|assumption|].
    unfold events_of in *. cbn [map List.concat]. rewrite E. now rewrite app_assoc. }
  assert (Hsplit : forall tail, In ev (events_of (t :: tail)) ->
            In ev (snd t) \/ In ev (events_of tail)).
  { intros tail H. unfold events_of in H. cbn [map List.concat] in H.
    now apply in_app_or in H. }
  destruct (fst t); intros H; apply Hsplit in H as [H|H]; auto; destruct H.
Qed.

(** ** The second variant *)

Lemma makeApiRequest_spec (srv : server Z) (r : Part000.request) (st : Part000.state) :
  Part000.makeApiRequest srv r st
  = (fst (ask (Part000.storyblokMapiToken st) srv r), st,
     snd (ask (Part000.storyblokMapiToken st) srv r)).
Proof.
  unfold Part000.makeApiRequest, ask, answered. mstep.
  destruct (Part000.storyblokMapiToken st =? ""); [reflexivity|]. mstep.
  destruct (Part000.answer srv r) as [|status body]; [|destruct (ok status)]; mstep;
    reflexivity.
Qed.

Lemma fetch_loop_spec (srv : server Z) (pending : list ((Z * string) * Part000.modification))
  (stories : Map.t Z json) (st : Part000.state) :
  for_each_with (Part000.fetch_story srv) pending stories st
  = (fst (fetch_all (Part000.storyblokMapiToken st) srv pending stories), st,
     snd (fetch_all (Part000.storyblokMapiToken st) srv pending stories)).
Proof.
  revert stories. induction pending as [|entry rest IH]; intros stories; [reflexivity|].
  cbn [for_each_with fetch_all]. unfold Part000.fetch_story at 1.
  destruct (Map.has (Part000.storyId (snd entry)) stories).
  - rewrite mbind_ret. apply IH.
  - rewrite mbind_assoc.
    rewrite (mbind_stateless _ _ _ _ _ (makeApiRequest_spec srv _ st)).
    destruct (ask (Part000.storyblokMapiToken st) srv
                (Part000.GetStory (Part000.storyId (snd entry)))) as [[response|e] asked];
      cbn [fst snd]; [|reflexivity].
    rewrite mbind_assoc.
    destruct (get_prop response "story") as [story|e].
    + rewrite mbind_lift_Ok, mbind_ret, IH.
      destruct (fetch_all _ srv rest _) as [r evs]. reflexivity.
    + cbn. now rewrite app_nil_r.
Qed.

Section MapEach.
Context {S E A B : Type}.
Variable f : A -> M S E B.

Lemma map_each_silent (l : list A) :
  Forall (fun x => forall s, snd (f x s) = []) l ->
  forall s, snd (Part000.map_each f l s) = [].
Proof.
  induction 1 as [|x l Hx _ IH]; intros s; [reflexivity|].
  cbn [Part000.map_each]. unfold mbind. specialize (Hx s).
  destruct (f x s) as [[[y|e] s1] evs1]; cbn [snd] in Hx; subst evs1; [|reflexivity].
  specialize (IH s1). destruct (Part000.map_each f l s1) as [[[ys|e] s2] evs2]; cbn [snd] in IH;
    subst evs2; reflexivity.
Qed.
End MapEach.

Lemma update_wrapper_silent (w : json) (m : Part000.modification) :
  snd (Part000.update_wrapper w m) = [].
Proof.
  unfold Part000.update_wrapper.
  destruct (get_prop w "_uid") as [uid|e]; [|reflexivity].
  rewrite mbind_lift_Ok, mbind_gets.
  destruct (strict_eq_str uid (Part000.mod_uid m)); [|reflexivity].
  rewrite mbind_modify, mbind_gets. unfold id.
  match goal with |- snd (mbind (lift ?r) _ _) = _ => destruct r as [w1|e] end;
    [|reflexivity].
  rewrite mbind_lift_Ok.
  match goal with |- snd (mbind (lift ?r) _ _) = _ => destruct r as [w2|e] end;
    [|reflexivity].
  rewrite mbind_lift_Ok. reflexivity.
Qed.

Lemma updateImageRecursive_silent (v : json) :
  forall m, snd (Part000.updateImageRecursive v m) = [].
Proof.
  induction v using json_ind; intros m; try reflexivity.
  - cbn [Part000.updateImageRecursive]. unfold mbind.
    pose proof (map_each_silent Part000.updateImageRecursive items H m) as Hs.
    destruct (Part000.map_each Part000.updateImageRecursive items m) as [[[ys|e] s] evs];
      cbn [snd] in Hs; subst evs; reflexivity.
  - cbn [Part000.updateImageRecursive]. unfold mbind at 1.
    match goal with |- snd (match Part000.map_each ?f props m with _ => _ end) = _ =>
      pose proof (map_each_silent f props) as Hs end.
    match type of Hs with ?P -> _ => assert (HP : P) end.
    { rewrite Forall_forall in *. intros kv Hkv s.
      destruct (Part000.hasOwnProperty props) as [own|e]; [|reflexivity].
      rewrite mbind_lift_Ok. destruct own; [|reflexivity].
      destruct (Part000.guarded_image_list_test (snd kv)) as [is_list|e]; [|reflexivity].
      rewrite mbind_lift_Ok. destruct is_list.
      - unfold mbind.
        pose proof (map_each_silent Part000.update_wrapper (children (snd kv))) as Hw.
        rewrite Forall_forall in Hw.
        specialize (Hw (fun w _ s => update_wrapper_silent w s) s).
        destruct (Part000.map_each Part000.update_wrapper (children (snd kv)) s)
          as [[[ws|e] s1] evs]; cbn [snd] in Hw; subst evs; reflexivity.
      - unfold mbind. pose proof (H kv Hkv s) as Hv.
        destruct (Part000.updateImageRecursive (snd kv) s) as [[[x|e] s1] evs];
          cbn [snd] in Hv; subst evs; reflexivity. }
    specialize (Hs HP m).
    match goal with |- snd (match ?X with _ => _ end) = _ =>
      destruct X as [[[ys|e] s] evs] end; cbn [snd] in Hs; subst evs; reflexivity.
Qed.

Lemma apply_loop_spec (pending : list ((Z * string) * Part000.modification))
  (stories : Map.t Z json) (st : Part000.state) :
  exists st',
    for_each_with Part000.apply_entry pending stories st = (apply_all pending stories, st', [])
    /\ Part000.storyblokMapiToken st' = Part000.storyblokMapiToken st
    /\ Part000.currentStoryData st' = Part000.currentStoryData st.
Proof.
  revert stories st. induction pending as [|entry rest IH]; intros stories st.
  - exists st. repeat split.
  - cbn [for_each_with apply_all]. unfold Part000.apply_entry at 1.
    destruct (Map.get (Part000.storyId (snd entry)) stories) as [story|].
    2:{ exists st. repeat split. }
    destruct (truthy story) eqn:Ht; cbn [negb].
    2:{ exists st. repeat split. }
    destruct (truthy_get_prop story "content" Ht) as [content Hc].
    unfold update_story. rewrite Hc, mbind_assoc, mbind_lift_Ok, mbind_assoc.
    unfold mbind at 1. unfold Part000.on_entry.
    pose proof (updateImageRecursive_silent content (snd entry)) as Hs.
    destruct (Part000.updateImageRecursive content (snd entry)) as [[[content'|e] m'] evs];
      cbn [snd] in Hs; subst evs; cbn [fst].
    + rewrite mbind_ret.
      destruct (IH (Map.set (Part000.storyId (snd entry)) (with_prop story "content" content')
                      stories)
                  (Part000.set_modifiedImages
                     (Map.set (fst entry) m' (Part000.modifiedImages st)) st))
        as (st' & Hrun & Htok & Hcur).
      rewrite Hrun. exists st'. repeat split; assumption.
    + eexists. repeat split.
Qed.

Lemma put_loop_spec (srv : server Z) (stories : list (Z * json)) (st : Part000.state) :
  for_each (Part000.put_story srv) stories st
  = (fst (put_all (Part000.storyblokMapiToken st) srv stories), st,
     snd (put_all (Part000.storyblokMapiToken st) srv stories)).
Proof.
  induction stories as [|entry rest IH]; [reflexivity|].
  cbn [for_each put_all]. unfold Part000.put_story at 1.
  rewrite mbind_assoc.
  rewrite (mbind_stateless _ _ _ _ _ (makeApiRequest_spec srv _ st)).
  destruct (ask (Part000.storyblokMapiToken st) srv
              (Part000.PutStory (fst entry) (snd entry))) as [[response|e] asked];
    cbn [fst snd]; [|reflexivity].
  rewrite mbind_emit, IH.
  destruct (put_all _ srv rest) as [r evs]. reflexivity.
Qed.

Lemma try_catch_spec {S E A : Type} (m : M S E A) (handler : exn -> M S E A) (s : S) :
  try_catch m handler s
  = match m s with
    | (Ok a, s', evs) => (Ok a, s', evs)
    | (Throw NotModelled, s', evs) => (Throw NotModelled, s', evs)
    | (Throw e, s', evs) =>
        (fst (fst (handler e s')), snd (fst (handler e s')), evs ++ snd (handler e s'))
    end.
Proof.
  unfold try_catch. destruct (m s) as [[[a|e] s'] evs]; [reflexivity|].
  destruct e; try reflexivity; destruct (handler _ s') as [[r s''] evs']; reflexivity.
Qed.

Lemma mbind_run {S E A B : Type} (m : M S E A) (k : A -> M S E B) (s s' : S)
  (x : result A) (evs : list E) :
  m s = (x, s', evs) ->
  mbind m k s
  = match x with
    | Ok a => (fst (fst (k a s')), snd (fst (k a s')), evs ++ snd (k a s'))
    | Throw e => (Throw e, s', evs)
    end.
Proof.
  intros H. unfold mbind. rewrite H. destruct x as [a|e]; [|reflexivity].
  destruct (k a s') as [[y s''] evs']. reflexivity.
Qed.

Ltac caught_case e :=
  destruct e; cbn [caught emit modify fst snd app]; rewrite ?app_nil_r, <- ?app_assoc;
  reflexivity.

Lemma send_spec (srv : server Z) (st : Part000.state) :
  snd (Part000.sendModificationsToServer srv st)
  = send_events (Part000.storyblokMapiToken st) srv (Part000.modifiedImages st)
      (Part000.currentStoryData st).
Proof.
  unfold Part000.sendModificationsToServer, send_events. rewrite mbind_gets.
  destruct (Part000.modifiedImages st) as [|entry rest] eqn:Hp; [reflexivity|].
  cbn [Map.size List.length Nat.eqb]. rewrite mbind_modify.
  set (pending := entry :: rest).
  set (st0 := Part000.set_disabled true st).
  assert (Htok0 : Part000.storyblokMapiToken st0 = Part000.storyblokMapiToken st) by reflexivity.
  assert (Hcur0 : Part000.currentStoryData st0 = Part000.currentStoryData st) by reflexivity.
  unfold mbind at 1. rewrite try_catch_spec.
  rewrite (mbind_run _ _ _ _ _ _ (fetch_loop_spec srv pending [] st0)).
  rewrite Htok0.
  destruct (fetch_all (Part000.storyblokMapiToken st) srv pending []) as [[stories|e] gets];
    cbn [fst snd]; [|caught_case e].
  destruct (apply_loop_spec pending stories st0) as (st1 & Hrun & Htok1 & Hcur1).
  rewrite (mbind_run _ _ _ _ _ _ Hrun).
  destruct (apply_all pending stories) as [stories'|e]; cbn [fst snd]; [|caught_case e].
  rewrite (mbind_run _ _ _ _ _ _ (put_loop_spec srv stories' st1)).
  rewrite Htok1, Htok0.
  destruct (put_all (Part000.storyblokMapiToken st) srv stories') as [[[]|e] puts];
    cbn [fst snd]; [|caught_case e].
  mstep. cbn [fst snd Part000.set_modifiedImages Part000.currentStoryData].
  rewrite Hcur1, Hcur0. unfold reload.
  destruct (get_prop (Part000.currentStoryData st) "story") as [story|e]; cbn [bind].
  2:{ rewrite mbind_lift_Throw. cbn [fst snd app]. caught_case e. }
  rewrite mbind_lift_Ok.
  destruct (get_prop story "id") as [id|e].
  2:{ rewrite mbind_lift_Throw. cbn [fst snd app]. caught_case e. }
  rewrite mbind_lift_Ok. cbn [emit modify fst snd app]. rewrite app_nil_r, <- ?app_assoc.
  reflexivity.
Qed.

Section MapEachId.
Context {S E A : Type}.
Variable f : A -> M S E A.

Lemma map_each_id (l : list A) (s : S) :
  Forall (fun x => f x s = (Ok x, s, [])) l ->
  Part000.map_each f l s = (Ok l, s, []).
Proof.
  induction 1 as [|x l Hx _ IH]; [reflexivity|].
  cbn [Part000.map_each]. unfold mbind at 1. rewrite Hx.
  unfold mbind at 1. rewrite IH. reflexivity.
Qed.
End MapEachId.

Lemma guarded_image_list_is_array (v : json) :
  Part000.guarded_image_list_test v = Ok true -> JArr (children v) = v.
Proof.
  destruct v; try discriminate. reflexivity.
Qed.

Lemma updateImageRecursive_misses (v : json) (m : Part000.modification) :
  misses (Part000.mod_uid m) v = true ->
  Part000.updateImageRecursive v m = (Ok v, m, []).
Proof.
  induction v using json_ind; intros Hmiss; try reflexivity.
  - cbn [Part000.updateImageRecursive misses] in *.
    rewrite forallb_forall in Hmiss. unfold mbind.
    rewrite (map_each_id Part000.updateImageRecursive items m); [reflexivity|].
    rewrite Forall_forall in *. intros x Hx. apply H; auto.
  - cbn [Part000.updateImageRecursive misses] in *.
    rewrite forallb_forall in Hmiss. unfold mbind at 1.
    rewrite map_each_id; [reflexivity|].
    rewrite Forall_forall in *. intros kv Hkv.
    specialize (Hmiss kv Hkv). specialize (H kv Hkv).
    destruct (Part000.hasOwnProperty props) as [[|]|e]; try discriminate;
      rewrite mbind_lift_Ok; [|reflexivity].
    destruct (Part000.guarded_image_list_test (snd kv)) as [[|]|e] eqn:Hg; try discriminate;
      rewrite mbind_lift_Ok.
    + unfold mbind. rewrite forallb_forall in Hmiss.
      rewrite (map_each_id Part000.update_wrapper (children (snd kv)) m).
      * rewrite (guarded_image_list_is_array _ Hg). destruct kv; reflexivity.
      * rewrite Forall_forall. intros w Hw. specialize (Hmiss w Hw).
        unfold Part000.update_wrapper.
        destruct (get_prop w "_uid") as [u|e]; [|discriminate].
        rewrite mbind_lift_Ok, mbind_gets.
        destruct (strict_eq_str u (Part000.mod_uid m)); [discriminate|reflexivity].
    + unfold mbind. rewrite (H Hmiss). destruct kv; reflexivity.
Qed.

Section Keys.
Context {V : Type}.

Lemma has_In (k : Z) (m : Map.t Z V) : Map.has k m = true <-> In k (map fst m).
Proof.
  unfold Map.has. induction m as [|[k' v] m IH]; simpl.
  - split; [discriminate|tauto].
  - destruct (key_eqb k' k) eqn:E.
    + apply Z_key_ok in E. tauto.
    + split.
      * intros Hh. right. now apply IH.
      * intros [Hk|Hin]; [apply Z_key_ok in Hk; congruence|now apply IH].
Qed.

Lemma keys_set (k : Z) (v : V) (m : Map.t Z V) :
  map fst (Map.set k v m) = if Map.has k m then map fst m else map fst m ++ [k].
Proof.
  unfold Map.has. induction m as [|[k' v'] m IH]; simpl; [reflexivity|].
  destruct (key_eqb k' k) eqn:E; simpl.
  - apply Z_key_ok in E. now subst.
  - rewrite IH. destruct (Map.get k m); reflexivity.
Qed.

Lemma NoDup_keys_set (k : Z) (v : V) (m : Map.t Z V) :
  NoDup (map fst m) -> NoDup (map fst (Map.set k v m)).
Proof.
  intros Hnd. rewrite keys_set. destruct (Map.has k m) eqn:E; [assumption|].
  apply NoDup_app; [assumption|repeat constructor; simpl; tauto|].
  intros x Hx [Hk|[]]. subst x. apply has_In in Hx. congruence.
Qed.

Lemma In_get (k : Z) (v : V) (m : Map.t Z V) :
  NoDup (map fst m) -> In (k, v) m -> Map.get k m = Some v.
Proof.
  induction m as [|[k' v'] m IH]; simpl; [tauto|].
  intros Hnd [Heq|Hin].
  - inversion Heq; subst. now rewrite (key_eqb_refl Z_key_ok).
  - inversion Hnd as [|? ? Hk Hnd']; subst.
    destruct (key_eqb k' k) eqn:E.
    + apply Z_key_ok in E. subst. exfalso. apply Hk.
      change k with (fst (k, v)). now apply in_map.
    + now apply IH.
Qed.

End Keys.

Lemma puts_of_app (id : Z) (a b : list Part000.event) :
  puts_of id (a ++ b) = puts_of id a + puts_of id b.
Proof. unfold puts_of. now rewrite filter_app, length_app. Qed.

Lemma puts_of_plain (id : Z) (evs : list Part000.event) :
  forallb plain evs = true -> puts_of id evs = 0.
Proof.
  unfold puts_of. induction evs as [|ev evs IH]; simpl; [reflexivity|].
  intros H. apply andb_prop in H as [Hev Hevs].
  destruct ev; simpl in *; try discriminate; auto.
Qed.

Lemma plain_not_put (id : Z) (body : json) (evs : list Part000.event) :
  forallb plain evs = true -> ~ In (Part000.Put id body) evs.
Proof.
  intros H Hin. rewrite forallb_forall in H. now apply H in Hin.
Qed.

Lemma plain_not_sent (evs : list Part000.event) :
  forallb plain evs = true -> ~ In (Part000.ShowModal Part000.ChangesSent) evs.
Proof.
  intros H Hin. rewrite forallb_forall in H. now apply H in Hin.
Qed.

Lemma ask_get_plain (token : string) (srv : server Z) (id : Z) :
  forallb plain (snd (ask token srv (Part000.GetStory id))) = true.
Proof.
  unfold ask. destruct (token =? ""); [reflexivity|].
  destruct (answered _); reflexivity.
Qed.

Lemma caught_plain (e : exn) : forallb plain (caught e) = true.
Proof. destruct e; reflexivity. Qed.

Lemma reload_plain (current : json) : forallb plain (reload current) = true.
Proof.
  unfold reload. destruct (bind _ _) as [id|e]; [reflexivity|apply caught_plain].
Qed.

Lemma fetch_all_plain (token : string) (srv : server Z)
  (pending : list ((Z * string) * Part000.modification)) (stories : Map.t Z json) :
  forallb plain (snd (fetch_all token srv pending stories)) = true.
Proof.
  revert stories. induction pending as [|entry rest IH]; intros stories; [reflexivity|].
  cbn [fetch_all]. destruct (Map.has _ stories); [apply IH|].
  pose proof (ask_get_plain token srv (Part000.storyId (snd entry))) as Ha.
  destruct (ask token srv _) as [[response|e] asked]; cbn [snd] in *; [|assumption].
  destruct (get_prop response "story") as [story|e]; [|assumption].
  specialize (IH (Map.set (Part000.storyId (snd entry)) story stories)).
  destruct (fetch_all token srv rest _) as [r evs]. cbn [snd] in *.
  rewrite forallb_app, Ha, IH. reflexivity.
Qed.

Lemma ask_get_served (token : string) (srv : server Z) (id : Z) (response : json)
  (asked : list Part000.event) :
  ask token srv (Part000.GetStory id) = (Ok response, asked) ->
  answered (on_get srv id) = Some response /\ asked = [Part000.Get id].
Proof.
  unfold ask. destruct (token =? ""); [discriminate|]. cbn [Part000.answer].
  destruct (answered (on_get srv id)); [|discriminate].
  intros [= -> <-]. split; reflexivity.
Qed.

(** What the first loop leaves in [storiesToUpdate]. *)
Lemma fetch_all_inv (token : string) (srv : server Z)
  (pending : list ((Z * string) * Part000.modification)) :
  forall (stories stories' : Map.t Z json) (gets : list Part000.event),
  fetch_all token srv pending stories = (Ok stories', gets) ->
  (NoDup (map fst stories) -> NoDup (map fst stories'))
  /\ (forall id story, Map.get id stories' = Some story ->
        Map.get id stories = Some story
        \/ (In (Part000.Get id) gets /\ served srv id = Some story))
  /\ (forall id, Map.has id stories = true -> Map.has id stories' = true)
  /\ (forall entry, In entry pending ->
        Map.has (Part000.storyId (snd entry)) stories' = true).
Proof.
  induction pending as [|entry rest IH]; intros stories stories' gets.
  - cbn [fetch_all]. intros [= -> <-]. repeat split; auto; intros entry [].
  - cbn [fetch_all]. set (id0 := Part000.storyId (snd entry)).
    destruct (Map.has id0 stories) eqn:Hhas.
    + intros Hf. destruct (IH _ _ _ Hf) as (Hnd & Hget & Hkeep & Hall).
      repeat split; auto. intros e [<-|Hin]; auto.
    + destruct (ask token srv (Part000.GetStory id0)) as [[response|e] asked] eqn:Hask;
        [|discriminate].
      destruct (ask_get_served _ _ _ _ _ Hask) as [Hans ->].
      destruct (get_prop response "story") as [story|e] eqn:Hstory; [|discriminate].
      destruct (fetch_all token srv rest (Map.set id0 story stories)) as [r evs] eqn:Hf.
      intros [= -> <-].
      destruct (IH _ _ _ Hf) as (Hnd & Hget & Hkeep & Hall).
      split; [|split; [|split]].
      * intros H. apply Hnd. now apply NoDup_keys_set.
      * intros id story' Hg. destruct (Hget id story' Hg) as [Hold|[Hin Hs]].
        -- destruct (Z.eq_dec id id0) as [->|Hne].
           ++ rewrite (get_set_same Z_key_ok) in Hold. injection Hold as <-.
              right. split; [now left|]. unfold served. now rewrite Hans, Hstory.
           ++ rewrite (get_set_other Z_key_ok) in Hold by congruence. now left.
        -- right. split; [now right|assumption].
      * intros id Hh. apply Hkeep. rewrite (has_set Z_key_ok). rewrite Hh.
        now destruct (key_eqb id0 id).
      * intros e [<-|Hin]; [|now apply Hall].
        apply Hkeep. fold id0. rewrite (has_set Z_key_ok).
        now rewrite (key_eqb_refl Z_key_ok).
Qed.

(** The second loop keeps the stories and leaves each with its edits
    applied. *)
Lemma apply_all_inv (pending : list ((Z * string) * Part000.modification)) :
  forall stories stories' : Map.t Z json,
  apply_all pending stories = Ok stories' ->
  map fst stories' = map fst stories
  /\ (forall id story', Map.get id stories' = Some story' ->
        exists story, Map.get id stories = Some story /\ apply_to id pending story = Ok story').
Proof.
  induction pending as [|entry rest IH]; intros stories stories'; cbn [apply_all apply_to].
  - intros [= ->]. split; [reflexivity|]. eauto.
  - set (id0 := Part000.storyId (snd entry)).
    destruct (Map.get id0 stories) as [story0|] eqn:Hget; [|discriminate].
    destruct (negb (truthy story0)); [discriminate|].
    destruct (fst (update_story (snd entry) story0)) as [story1|e] eqn:Hup; [|discriminate].
    intros Ha. destruct (IH _ _ Ha) as [Hkeys Hall]. split.
    + rewrite Hkeys, keys_set. unfold Map.has. now rewrite Hget.
    + intros id story' Hg. destruct (Hall id story' Hg) as (story & Hs & Happ).
      destruct (Z.eq_dec id0 id) as [<-|Hne].
      * rewrite (get_set_same Z_key_ok) in Hs. injection Hs as <-.
        exists story0. split; [assumption|]. fold id0. rewrite Z.eqb_refl, Hup. assumption.
      * rewrite (get_set_other Z_key_ok) in Hs by assumption.
        exists story. split; [assumption|].
        destruct (Z.eqb_spec id0 id) as [|_]; [contradiction|]. assumption.
Qed.

Lemma ask_put_events (token : string) (srv : server Z) (id : Z) (body : json) :
  exists rest,
    forallb plain rest = true
    /\ (snd (ask token srv (Part000.PutStory id body)) = Part000.Put id body :: rest
        \/ (snd (ask token srv (Part000.PutStory id body)) = []
            /\ exists e, fst (ask token srv (Part000.PutStory id body)) = Throw e)).
Proof.
  unfold ask. destruct (token =? "").
  - exists []. split; [reflexivity|]. right. split; [reflexivity|]. eexists. reflexivity.
  - destruct (answered _); eexists; (split; [|left; reflexivity]); reflexivity.
Qed.

(** The events of the third loop: a PUT for each story sent, in order. *)
Lemma put_all_inv (token : string) (srv : server Z) (stories : list (Z * json)) :
  (forall id body,
      In (Part000.Put id body) (snd (put_all token srv stories)) -> In (id, body) stories)
  /\ (forall id, NoDup (map fst stories) ->
        puts_of id (snd (put_all token srv stories)) <= 1)
  /\ (forall id, ~ In id (map fst stories) ->
        puts_of id (snd (put_all token srv stories)) = 0)
  /\ (fst (put_all token srv stories) = Ok tt ->
      forall entry, In entry stories ->
        In (Part000.Put (fst entry) (snd entry)) (snd (put_all token srv stories)))
  /\ ~ In (Part000.ShowModal Part000.ChangesSent) (snd (put_all token srv stories)).
Proof.
  induction stories as [|[id0 body0] rest IH]; cbn [put_all fst snd].
  - repeat split; auto; try tauto; try (intros _ entry []).
  - destruct IH as (Hin & Hone & Hnone & Hall & Hmodal).
    destruct (ask_put_events token srv id0 body0) as (tail & Hplain & Hask).
    assert (Hzero : forall id, id <> id0 ->
              puts_of id (snd (ask token srv (Part000.PutStory id0 body0))) = 0).
    { intros id Hne. destruct Hask as [->|[-> _]]; [|reflexivity].
      unfold puts_of. cbn [filter put_of].
      destruct (Z.eqb_spec id0 id) as [|_]; [congruence|].
      now apply puts_of_plain. }
    assert (Hle : forall id,
              puts_of id (snd (ask token srv (Part000.PutStory id0 body0))) <= 1).
    { intros id. destruct Hask as [->|[-> _]]; [|unfold puts_of; simpl; lia].
      unfold puts_of. cbn [filter put_of].
      pose proof (puts_of_plain id tail Hplain) as Hp. unfold puts_of in Hp.
      destruct (id0 =? id)%Z; cbn [List.length]; lia. }
    destruct (ask token srv (Part000.PutStory id0 body0)) as [[response|e] asked] eqn:Ea;
      cbn [fst snd] in *.
    + destruct (put_all token srv rest) as [r evs]. cbn [fst snd] in *.
      assert (Hasked : asked = Part000.Put id0 body0 :: tail).
      { destruct Hask as [|[_ [e He]]]; [assumption|discriminate]. }
      split; [|split; [|split; [|split]]].
      * intros id body H. apply in_app_or in H as [H|H].
        -- subst asked. destruct H as [H|H]; [injection H as <- <-; now left|].
           exfalso. eapply plain_not_put; eauto.
        -- destruct H as [H|H]; [discriminate|]. right. now apply Hin.
      * intros id Hnd. inversion Hnd as [|? ? Hk Hnd']; subst.
        rewrite puts_of_app. change (Part000.ConsoleLog id0 :: evs)
          with ([Part000.ConsoleLog id0] ++ evs). rewrite puts_of_app.
        change (puts_of id [Part000.ConsoleLog id0]) with 0.
        destruct (Z.eq_dec id id0) as [->|Hne].
        -- rewrite (Hnone id0 Hk). specialize (Hle id0). lia.
        -- rewrite (Hzero id Hne). specialize (Hone id Hnd'). lia.
      * intros id Hk. rewrite puts_of_app. change (Part000.ConsoleLog id0 :: evs)
          with ([Part000.ConsoleLog id0] ++ evs). rewrite puts_of_app.
        change (puts_of id [Part000.ConsoleLog id0]) with 0.
        rewrite Hzero, Hnone; [reflexivity| |]; simpl in Hk; intuition.
      * intros -> entry [<-|He].
        -- apply in_or_app. left. subst asked. now left.
        -- apply in_or_app. right. right. now apply Hall.
      * intros H. apply in_app_or in H as [H|H].
        -- subst asked. destruct H as [H|H]; [discriminate|].
           eapply plain_not_sent; eauto.
        -- destruct H as [H|H]; [discriminate|]. now apply Hmodal.
    + split; [|split; [|split; [|split]]].
      * intros id body H.
        destruct Hask as [->|[-> _]]; [|destruct H].
        destruct H as [H|H]; [injection H as <- <-; now left|].
        exfalso. eapply plain_not_put; eauto.
      * intros id _. apply Hle.
      * intros id Hk. apply Hzero. simpl in Hk. intuition.
      * discriminate.
      * intros H. destruct Hask as [->|[-> _]]; [|destruct H].
        destruct H as [H|H]; [discriminate|]. eapply plain_not_sent; eauto.
Qed.

Lemma puts_of_In (id : Z) (body : json) (evs : list Part000.event) :
  In (Part000.Put id body) evs -> 1 <= puts_of id evs.
Proof.
  intros H. apply in_split in H as (a & b & ->).
  rewrite puts_of_app. unfold puts_of at 2. cbn [filter put_of].
  rewrite Z.eqb_refl. cbn [List.length]. lia.
Qed.

(** The shape of a run that sends something: the requests of the first
    loop, then those of the third, then what the user is shown. *)
Lemma send_events_shape (token : string) (srv : server Z)
  (pending : list ((Z * string) * Part000.modification)) (current : json) :
  (forallb plain (send_events token srv pending current) = true)
  \/ exists stories stories' gets sent puts tail,
       fetch_all token srv pending [] = (Ok stories, gets)
       /\ apply_all pending stories = Ok stories'
       /\ put_all token srv stories' = (sent, puts)
       /\ send_events token srv pending current = gets ++ puts ++ tail
       /\ tail = match sent with
                 | Ok _ => Part000.ShowModal Part000.ChangesSent :: reload current
                 | Throw e => caught e
                 end.
Proof.
  unfold send_events. destruct pending as [|entry rest]; [left; reflexivity|].
  set (pending := entry :: rest).
  pose proof (fetch_all_plain token srv pending []) as Hgets.
  destruct (fetch_all token srv pending []) as [[stories|e] gets] eqn:Hf; cbn [snd] in Hgets.
  2:{ left. rewrite forallb_app, Hgets. apply caught_plain. }
  destruct (apply_all pending stories) as [stories'|e] eqn:Ha.
  2:{ left. rewrite forallb_app, Hgets. apply caught_plain. }
  destruct (put_all token srv stories') as [sent puts] eqn:Hp.
  right. exists stories, stories', gets, sent, puts.
  destruct sent as [[]|e]; eexists; repeat split; first [reflexivity | assumption].
Qed.

Lemma send_puts_le (token : string) (srv : server Z)
  (pending : list ((Z * string) * Part000.modification)) (current : json) (id : Z) :
  puts_of id (send_events token srv pending current) <= 1.
Proof.
  destruct (send_events_shape token srv pending current)
    as [Hplain|(stories & stories' & gets & sent & puts & tail & Hf & Ha & Hp & -> & ->)].
  - rewrite (puts_of_plain _ _ Hplain). lia.
  - destruct (fetch_all_inv _ _ _ _ _ _ Hf) as (Hnd & _).
    destruct (apply_all_inv _ _ _ Ha) as (Hkeys & _).
    destruct (put_all_inv token srv stories') as (_ & Hone & _).
    rewrite Hp in Hone. cbn [snd] in Hone.
    pose proof (fetch_all_plain token srv pending []) as Hgets. rewrite Hf in Hgets.
    rewrite !puts_of_app, (puts_of_plain _ _ Hgets).
    assert (Htail : puts_of id match sent with
                               | Ok _ => Part000.ShowModal Part000.ChangesSent :: reload current
                               | Throw e => caught e
                               end = 0).
    { destruct sent as [[]|e].
      - change (puts_of id (Part000.ShowModal Part000.ChangesSent :: reload current))
          with (puts_of id (reload current)). apply puts_of_plain, reload_plain.
      - apply puts_of_plain, caught_plain. }
    rewrite Htail. specialize (Hone id). rewrite Hkeys in Hone.
    specialize (Hone (Hnd (NoDup_nil _))). lia.
Qed.

Lemma send_put_inv (token : string) (srv : server Z)
  (pending : list ((Z * string) * Part000.modification)) (current : json)
  (id : Z) (body : json) :
  In (Part000.Put id body) (send_events token srv pending current) ->
  exists story before after,
    served srv id = Some story
    /\ apply_to id pending story = Ok body
    /\ send_events token srv pending current = before ++ Part000.Put id body :: after
    /\ In (Part000.Get id) before.
Proof.
  destruct (send_events_shape token srv pending current)
    as [Hplain|(stories & stories' & gets & sent & puts & tail & Hf & Ha & Hp & -> & ->)].
  - intros H. exfalso. eapply plain_not_put; eauto.
  - intros H.
    pose proof (fetch_all_plain token srv pending []) as Hgets. rewrite Hf in Hgets.
    cbn [snd] in Hgets.
    apply in_app_or in H as [H|H]; [exfalso; eapply plain_not_put; eauto|].
    apply in_app_or in H as [H|H].
    2:{ exfalso. destruct sent as [[]|e].
        - destruct H as [H|H]; [discriminate|].
          eapply plain_not_put; [apply reload_plain|exact H].
        - eapply plain_not_put; [apply caught_plain|exact H]. }
    destruct (fetch_all_inv _ _ _ _ _ _ Hf) as (Hnd & Hget & _).
    destruct (apply_all_inv _ _ _ Ha) as (Hkeys & Hall).
    destruct (put_all_inv token srv stories') as (Hin & _).
    rewrite Hp in Hin. cbn [snd] in Hin.
    assert (Hg : Map.get id stories' = Some body).
    { apply In_get; [|now apply Hin]. rewrite Hkeys. apply Hnd. constructor. }
    destruct (Hall id body Hg) as (story & Hs & Happ).
    destruct (Hget id story Hs) as [Hold|[Hgot Hserved]]; [discriminate|].
    apply in_split in H as (p1 & p2 & ->).
    exists story, (gets ++ p1). eexists.
    repeat split; [assumption|assumption| |apply in_or_app; now left].
    rewrite <- !app_assoc. reflexivity.
Qed.

Lemma send_all_put (token : string) (srv : server Z)
  (pending : list ((Z * string) * Part000.modification)) (current : json) :
  In (Part000.ShowModal Part000.ChangesSent) (send_events token srv pending current) ->
  forall entry, In entry pending ->
    puts_of (Part000.storyId (snd entry)) (send_events token srv pending current) = 1.
Proof.
  intros Hsent entry Hentry.
  pose proof (send_puts_le token srv pending current (Part000.storyId (snd entry))) as Hle.
  enough (exists body, In (Part000.Put (Part000.storyId (snd entry)) body)
                         (send_events token srv pending current)) as [body Hbody].
  { apply puts_of_In in Hbody. lia. }
  clear Hle. revert Hsent.
  destruct (send_events_shape token srv pending current)
    as [Hplain|(stories & stories' & gets & sent & puts & tail & Hf & Ha & Hp & -> & ->)].
  - intros H. exfalso. eapply plain_not_sent; eauto.
  - intros H.
    pose proof (fetch_all_plain token srv pending []) as Hgets. rewrite Hf in Hgets.
    cbn [snd] in Hgets.
    destruct (put_all_inv token srv stories') as (_ & _ & _ & Hall & Hmodal).
    rewrite Hp in Hall, Hmodal. cbn [fst snd] in Hall, Hmodal.
    destruct sent as [[]|e].
    2:{ exfalso. apply in_app_or in H as [H|H]; [eapply plain_not_sent; eauto|].
        apply in_app_or in H as [H|H]; [tauto|].
        eapply plain_not_sent; [apply caught_plain|exact H]. }
    destruct (fetch_all_inv _ _ _ _ _ _ Hf) as (_ & _ & _ & Hhas).
    destruct (apply_all_inv _ _ _ Ha) as (Hkeys & _).
    specialize (Hhas entry Hentry). apply has_In in Hhas. rewrite <- Hkeys in Hhas.
    apply in_map_iff in Hhas as ([id body] & Hid & Hin). cbn [fst] in Hid. subst id.
    exists body. apply in_or_app. right. apply in_or_app. left.
    apply (Hall eq_refl (Part000.storyId (snd entry), body) Hin).
Qed.

(** A first request that fails ends the run. *)
Lemma send_abort (token : string) (srv : server Z)
  (entry : (Z * string) * Part000.modification)
  (rest : list ((Z * string) * Part000.modification)) (current : json) :
  token <> "" ->
  answered (on_get srv (Part000.storyId (snd entry))) = None ->
  send_events token srv (entry :: rest) current
  = [Part000.Get (Part000.storyId (snd entry)); Part000.ConsoleError;
     Part000.ShowModal Part000.SendFailed].
Proof.
  intros Htoken Hget. unfold send_events. cbn [fetch_all Map.has Map.get].
  unfold ask. cbn [Part000.answer]. rewrite Hget.
  destruct (token =? "") eqn:E; [apply String.eqb_eq in E; contradiction|].
  reflexivity.
Qed.

(** ** Runs *)

Lemma click_events (confirmed : bool) (srv : server string) (s : ScriptJs.state) :
  NoDup (ScriptJs.changedStories s) ->
  let ts := story_turns (ScriptJs.storyblokMapiToken s) srv (ScriptJs.imageModifications s)
              (ScriptJs.changedStories s) in
  events (ScriptJs.click confirmed srv s)
  = match ScriptJs.changedStories s with
    | [] => [ScriptJs.Alert ScriptJs.NoChangesToSend]
    | _ => if confirmed then events_of ts ++ report ts else []
    end.
Proof.
  intros Hnd ts. destruct confirmed.
  - assert (Hcase : ScriptJs.changedStories s = [] \/ ScriptJs.changedStories s <> []).
    { destruct (ScriptJs.changedStories s); [left|right]; congruence. }
    destruct Hcase as [E|Hne].
    + rewrite (click_nothing _ _ _ E), E. reflexivity.
    + destruct (click_spec srv s Hnd Hne) as (r' & Hrun & _).
      rewrite Hrun. unfold events, report. subst ts. cbn [snd].
      destruct (ScriptJs.changedStories s); [contradiction|reflexivity].
  - rewrite click_not_confirmed. reflexivity.
Qed.

Lemma no_puts_report (ts : list (verdict * list ScriptJs.event)) : no_puts (report ts).
Proof.
  unfold report. destruct (outcome ts); intros id body H; [|destruct H].
  destruct H as [H|[]]. discriminate.
Qed.

Lemma click_puts (confirmed : bool) (srv : server string) (s : ScriptJs.state) (id : string) :
  NoDup (ScriptJs.changedStories s) ->
  puts_for id (events (ScriptJs.click confirmed srv s)) <= 1.
Proof.
  intros Hnd. rewrite (click_events confirmed srv s Hnd).
  destruct (story_turns_puts (ScriptJs.storyblokMapiToken s) srv (ScriptJs.imageModifications s)
              (ScriptJs.changedStories s) id Hnd) as [Hle _].
  destruct (ScriptJs.changedStories s) as [|id0 ids]; [cbn; lia|].
  destruct confirmed; [|cbn; lia].
  rewrite puts_for_app, (puts_for_no_puts _ _ (no_puts_report _)). lia.
Qed.

(** A PUT of a run is the PUT of its story's turn. *)
Lemma click_put_inv (confirmed : bool) (srv : server string) (s : ScriptJs.state)
  (id : string) (body : json) :
  NoDup (ScriptJs.changedStories s) ->
  In (ScriptJs.Put id body) (events (ScriptJs.click confirmed srv s)) ->
  exists ms status response story content missing before after,
    Map.get id (ScriptJs.imageModifications s) = Some ms
    /\ on_get srv id = Http status response
    /\ ok status = true
    /\ fetched_story (Some response) = Some story
    /\ patch_story ms (content_of story) false = (Ok (content, true), missing)
    /\ body = with_prop story "content" content
    /\ events (ScriptJs.click confirmed srv s)
       = before ++ ScriptJs.Get id :: not_found id missing ++ ScriptJs.Put id body :: after.
Proof.
  intros Hnd. rewrite (click_events confirmed srv s Hnd).
  destruct (ScriptJs.changedStories s) as [|id0 ids] eqn:E.
  { intros [H|[]]. discriminate. }
  destruct confirmed; [|intros []]. rewrite <- E. intros Hin.
  apply in_app_or in Hin as [Hin|Hin]; [|exfalso; exact (no_puts_report _ _ _ Hin)].
  destruct (story_turns_segment _ _ _ _ _ Hin) as (sid & before & after & Hsid & Hev & Heq).
  destruct (turn_put_inv _ _ _ _ _ _ Hev)
    as (-> & ms & status & response & story & content & missing & rest
        & Hm & Hg & Hok & Hs & Hp & Hb & Ht).
  exists ms, status, response, story, content, missing, before.
  exists (rest ++ after ++ report (story_turns (ScriptJs.storyblokMapiToken s) srv
                                     (ScriptJs.imageModifications s)
                                     (ScriptJs.changedStories s))).
  repeat split; try assumption.
  rewrite Heq, Ht.
  repeat first [rewrite <- app_assoc | rewrite <- app_comm_cons]. reflexivity.
Qed.

Lemma story_turns_all (token : string) (srv : server string)
  (pending : Map.t string (Map.t string ScriptJs.modification)) (ids : list string) :
  existsb (fun t => throws (fst t)) (all_turns token srv pending ids) = false ->
  story_turns token srv pending ids = all_turns token srv pending ids
  /\ outcome (all_turns token srv pending ids) = Ok tt.
Proof.
  unfold all_turns. induction ids as [|id ids IH]; cbn [map existsb story_turns outcome].
  - split; reflexivity.
  - intros H. apply orb_false_elim in H as [Ht Hrest].
    destruct (IH Hrest) as [IH1 IH2].
    destruct (fst (turn token srv id (Map.get id pending))) eqn:E;
      try discriminate; rewrite IH1; split; auto.
Qed.

(** When no turn throws the run takes every story in turn and reports the
    counts. *)
Lemma click_all_turns (srv : server string) (s : ScriptJs.state) :
  NoDup (ScriptJs.changedStories s) ->
  ScriptJs.changedStories s <> [] ->
  let ts := all_turns (ScriptJs.storyblokMapiToken s) srv (ScriptJs.imageModifications s)
              (ScriptJs.changedStories s) in
  existsb (fun t => throws (fst t)) ts = false ->
  events (ScriptJs.click true srv s)
  = events_of ts
    ++ [ScriptJs.Alert (ScriptJs.ChangesSent (tally is_succeeded ts) (tally is_failed ts))].
Proof.
  intros Hnd Hne ts Hno. rewrite (click_events true srv s Hnd).
  destruct (ScriptJs.changedStories s) as [|id0 ids]; [contradiction|].
  destruct (story_turns_all _ _ _ _ Hno) as [-> Hout].
  unfold report. rewrite Hout. reflexivity.
Qed.

Lemma get_failed_turn (token : string) (srv : server string) (storyId : string)
  (entry : string * ScriptJs.modification) (ms : Map.t string ScriptJs.modification) :
  answered (on_get srv storyId) = None ->
  fst (turn token srv storyId (Some (entry :: ms))) = Failed.
Proof.
  intros Hget. unfold turn, ask_get. rewrite Hget.
  destruct (token =? ""); reflexivity.
Qed.

Lemma in_events_of (ts : list (verdict * list ScriptJs.event))
  (t : verdict * list ScriptJs.event) (ev : ScriptJs.event) :
  In t ts -> In ev (snd t) -> In ev (events_of ts).
Proof.
  intros Ht Hev. unfold events_of. apply in_concat. exists (snd t). split; [|assumption].
  now apply in_map.
Qed.

Lemma puts_for_In (id : string) (body : json) (evs : list ScriptJs.event) :
  In (ScriptJs.Put id body) evs -> 1 <= puts_for id evs.
Proof.
  intros H. apply in_split in H as (a & b & ->).
  rewrite puts_for_app. unfold puts_for at 2. cbn [filter is_put].
  rewrite String.eqb_refl. cbn [List.length]. lia.
Qed.

(** A story that is fetched and patched is PUT once. *)
Lemma click_one_put (srv : server string) (s : ScriptJs.state) (id : string)
  (ms : Map.t string ScriptJs.modification) (story content : json) (missing : list string) :
  NoDup (ScriptJs.changedStories s) ->
  existsb (fun t => throws (fst t))
    (all_turns (ScriptJs.storyblokMapiToken s) srv (ScriptJs.imageModifications s)
       (ScriptJs.changedStories s)) = false ->
  In id (ScriptJs.changedStories s) ->
  ScriptJs.storyblokMapiToken s <> "" ->
  Map.get id (ScriptJs.imageModifications s) = Some ms ->
  fetched_story (answered (on_get srv id)) = Some story ->
  patch_story ms (content_of story) false = (Ok (content, true), missing) ->
  puts_for id (events (ScriptJs.click true srv s)) = 1
  /\ In (ScriptJs.Put id (with_prop story "content" content))
        (events (ScriptJs.click true srv s)).
Proof.
  intros Hnd Hno Hid Htoken Hms Hstory Hpatch.
  pose proof (click_puts true srv s id Hnd) as Hle.
  enough (In (ScriptJs.Put id (with_prop story "content" content))
             (events (ScriptJs.click true srv s))) as Hin.
  { split; [|assumption]. apply puts_for_In in Hin. lia. }
  assert (Hne : ScriptJs.changedStories s <> []) by (intros E; rewrite E in Hid; destruct Hid).
  rewrite (click_all_turns srv s Hnd Hne Hno). apply in_or_app. left.
  apply (in_events_of _ (turn (ScriptJs.storyblokMapiToken s) srv id
                           (Map.get id (ScriptJs.imageModifications s)))).
  { unfold all_turns. now apply (in_map (fun id => turn _ srv id (Map.get id _))). }
  rewrite Hms. unfold turn, ask_get.
  destruct (ScriptJs.storyblokMapiToken s =? "") eqn:E;
    [apply String.eqb_eq in E; contradiction|].
  destruct ms as [|entry ms].
  { cbn in Hpatch. discriminate. }
  destruct (answered (on_get srv id)) as [response|] eqn:Ha; [|discriminate].
  rewrite Hstory, Hpatch. unfold ask_put. rewrite E.
  destruct (answered (on_put srv id (with_prop story "content" content)));
    cbn [snd]; apply in_or_app; right; apply in_or_app; right; now left.
Qed.

(** A turn throws only when the lookup or the patch of an edit throws on
    the fetched content. *)
Lemma turn_throws_inv (token : string) (srv : server string) (storyId : string)
  (mods : option (Map.t string ScriptJs.modification)) :
  throws (fst (turn token srv storyId mods)) = true ->
  exists ms story e missing,
    mods = Some ms
    /\ fetched_story (fst (ask_get token srv storyId)) = Some story
    /\ patch_story ms (content_of story) false = (Throw e, missing).
Proof.
  unfold turn. destruct mods as [[|entry ms]|]; try discriminate.
  destruct (ask_get token srv storyId) as [response asked]. cbn [fst].
  destruct (fetched_story response) as [story|]; [|discriminate].
  destruct (patch_story (entry :: ms) (content_of story) false)
    as [[[content applied]|e'] missing] eqn:Hp.
  - destruct applied; [|discriminate].
    destruct (ask_put token srv storyId (with_prop story "content" content)) as [answer sent].
    cbn [fst]. destruct (negb (ScriptJs.falsy_response answer)); discriminate.
  - intros _. exists (entry :: ms), story, e', missing. auto.
Qed.

(** A story whose PUT gets no answer is counted as failed. *)
Lemma put_unanswered_turn (token : string) (srv : server string) (storyId : string)
  (ms : Map.t string ScriptJs.modification) (story content : json) (missing : list string) :
  fetched_story (fst (ask_get token srv storyId)) = Some story ->
  patch_story ms (content_of story) false = (Ok (content, true), missing) ->
  answered (on_put srv storyId (with_prop story "content" content)) = None ->
  fst (turn token srv storyId (Some ms)) = Failed.
Proof.
  intros Hstory Hpatch Hput. unfold turn.
  destruct ms as [|entry ms]; [cbn in Hpatch; discriminate|].
  destruct (ask_get token srv storyId) as [response asked]. cbn [fst] in Hstory.
  rewrite Hstory, Hpatch. unfold ask_put. rewrite Hput.
  destruct (token =? ""); reflexivity.
Qed.

Lemma requests_plain_tail (current : json) (e : exn) :
  filter is_request (reload current) = [] /\ filter is_request (caught e) = [].
Proof.
  split.
  - unfold reload. destruct (bind _ _) as [id|e']; [reflexivity|destruct e'; reflexivity].
  - destruct e; reflexivity.
Qed.

(** The requests of a run do not depend on the story on display. *)
Lemma send_events_requests (token : string) (srv : server Z)
  (pending : list ((Z * string) * Part000.modification)) (c1 c2 : json) :
  filter is_request (send_events token srv pending c1)
  = filter is_request (send_events token srv pending c2).
Proof.
  unfold send_events. destruct pending as [|entry rest]; [reflexivity|].
  destruct (fetch_all token srv (entry :: rest) []) as [[stories|e] gets]; [|reflexivity].
  destruct (apply_all (entry :: rest) stories) as [stories'|e]; [|reflexivity].
  destruct (put_all token srv stories') as [[[]|e] puts]; [|reflexivity].
  rewrite !filter_app. cbn [filter is_request].
  rewrite (proj1 (requests_plain_tail c1 TypeError)), (proj1 (requests_plain_tail c2 TypeError)).
  reflexivity.
Qed.

(** * The claims on the write-back *)

(** C5, as amended.  In a run of either handler at most one PUT is issued
    for a story.  A PUT for a story carries the story document of the answer
    to the GET of that run, with every pending edit of the story applied to
    it in turn (in script.js those whose image is located).  In script.js a
    story to process is PUT exactly once when no turn of the run throws, the
    token is set, the GET answers with a story and one edit at least locates
    its image; in the second variant every story with a pending edit is PUT
    exactly once in a run that ends with the modal of success. *)
Theorem C5_one_put_per_story :
  (forall confirmed srv s id,
      NoDup (ScriptJs.changedStories s) ->
      puts_for id (events (ScriptJs.click confirmed srv s)) <= 1
      /\ (forall body,
             In (ScriptJs.Put id body) (events (ScriptJs.click confirmed srv s)) ->
             exists ms story content missing,
               Map.get id (ScriptJs.imageModifications s) = Some ms
               /\ fetched_story (answered (on_get srv id)) = Some story
               /\ patch_story ms (content_of story) false = (Ok (content, true), missing)
               /\ body = with_prop story "content" content))
  /\ (forall srv s id ms story content missing,
         NoDup (ScriptJs.changedStories s) ->
         existsb (fun t => throws (fst t))
           (all_turns (ScriptJs.storyblokMapiToken s) srv (ScriptJs.imageModifications s)
              (ScriptJs.changedStories s)) = false ->
         In id (ScriptJs.changedStories s) ->
         ScriptJs.storyblokMapiToken s <> "" ->
         Map.get id (ScriptJs.imageModifications s) = Some ms ->
         fetched_story (answered (on_get srv id)) = Some story ->
         patch_story ms (content_of story) false = (Ok (content, true), missing) ->
         puts_for id (events (ScriptJs.click true srv s)) = 1
         /\ In (ScriptJs.Put id (with_prop story "content" content))
               (events (ScriptJs.click true srv s)))
  /\ (forall srv st id,
         puts_of id (events (Part000.sendModificationsToServer srv st)) <= 1
         /\ (forall body,
                In (Part000.Put id body) (events (Part000.sendModificationsToServer srv st)) ->
                exists story,
                  served srv id = Some story
                  /\ apply_to id (Part000.modifiedImages st) story = Ok body))
  /\ (forall srv st entry,
         In (Part000.ShowModal Part000.ChangesSent)
            (events (Part000.sendModificationsToServer srv st)) ->
         In entry (Part000.modifiedImages st) ->
         puts_of (Part000.storyId (snd entry))
           (events (Part000.sendModificationsToServer srv st)) = 1).
Proof.
  split; [|split; [|split]].
  - intros confirmed srv s id Hnd. split; [now apply click_puts|].
    intros body Hin.
    destruct (click_put_inv confirmed srv s id body Hnd Hin)
      as (ms & status & response & story & content & missing & before & after
          & Hms & Hget & Hok & Hstory & Hpatch & Hbody & _).
    exists ms, story, content, missing. repeat split; try assumption.
    unfold answered. now rewrite Hget, Hok.
  - intros srv s id ms story content missing. apply click_one_put.
  - intros srv st id. unfold events. rewrite send_spec. split; [apply send_puts_le|].
    intros body Hin.
    destruct (send_put_inv _ _ _ _ _ _ Hin) as (story & before & after & Hs & Ha & _).
    exists story. split; assumption.
  - intros srv st entry. unfold events. rewrite send_spec. intros Hsent Hentry.
    now apply send_all_put.
Qed.

Lemma C5_one_put_per_story_witness :
  (puts_for "11" (events (ScriptJs.click true (healthy by_name) two_edits)) = 1
   /\ In (ScriptJs.Put "11" story_11_edited)
         (events (ScriptJs.click true (healthy by_name) two_edits)))
  /\ puts_of 11 (events (Part000.sendModificationsToServer (healthy by_number) two_edits_z)) = 1.
Proof.
  destruct C5_one_put_per_story as (_ & A & _ & B). split.
  - apply (A (healthy by_name) two_edits "11"
             [("A1", edit "old.jpg" "old" "new.jpg" "old");
              ("B2", edit "tug.jpg" "a tug" "tug.jpg" "a tug at sea")]
             story_11 (content_of story_11_edited) []).
    + repeat constructor; simpl; intuition discriminate.
    + reflexivity.
    + now left.
    + discriminate.
    + reflexivity.
    + reflexivity.
    + reflexivity.
  - apply (B (healthy by_number) two_edits_z
             (edit_z 11 "u1" "old.jpg" "old" "new.jpg" "old")).
    + vm_compute. right. right. right. now left.
    + now left.
Defined.

(** C5 as stated fails: a story with pending edits whose GET is answered
    with a status 500 is not PUT at all; in the second variant that failure
    leaves the story 12 without its PUT as well, though its edit is pending
    and its requests would be answered. *)
Lemma C5_counterexample :
  (Map.has "11" (ScriptJs.imageModifications two_stories) = true
   /\ puts_for "11" (events (ScriptJs.click true failing_11 two_stories)) = 0)
  /\ (Map.has (12%Z, "u3") (Part000.modifiedImages two_stories_z) = true
      /\ puts_of 12 (events (Part000.sendModificationsToServer failing_11_z two_stories_z)) = 0).
Proof. repeat split; reflexivity. Qed.

Lemma replace_lookup (k : string) (props : list (string * json)) :
  replace k (lookup k props) props = props.
Proof.
  induction props as [|[k' v] r IH]; [reflexivity|]. cbn [replace lookup].
  destruct (k' =? k) eqn:E; [apply String.eqb_eq in E; now subst|now rewrite IH].
Qed.

Lemma with_prop_read (v : json) (k : string) (x : json) :
  get_prop v k = Ok x -> with_prop v k x = v.
Proof.
  destruct v; try reflexivity. cbn [get_prop with_prop]. intros [= <-].
  now rewrite replace_lookup.
Qed.

(** A run whose only pending edit misses its wrapper in the story fetched:
    the story is PUT as it was fetched, and the run ends as a run does that
    wrote an edit. *)
Lemma send_missing (srv : server Z) (st : Part000.state) (k : Z * string)
  (m : Part000.modification) (response story content : json) :
  Part000.modifiedImages st = [(k, m)] ->
  Part000.storyblokMapiToken st <> "" ->
  answered (on_get srv (Part000.storyId m)) = Some response ->
  get_prop response "story" = Ok story ->
  truthy story = true ->
  get_prop story "content" = Ok content ->
  misses (Part000.mod_uid m) content = true ->
  exists tail,
    events (Part000.sendModificationsToServer srv st)
    = Part000.Get (Part000.storyId m) :: Part000.Put (Part000.storyId m) story :: tail
    /\ (forall answer,
           answered (on_put srv (Part000.storyId m) story) = Some answer ->
           tail = Part000.ConsoleLog (Part000.storyId m)
                  :: Part000.ShowModal Part000.ChangesSent
                  :: reload (Part000.currentStoryData st)).
Proof.
  intros Hpending Htoken Hget Hstory Htruthy Hcontent Hmiss.
  unfold events. rewrite send_spec, Hpending. unfold send_events.
  cbn [fetch_all Map.has Map.get snd]. unfold ask.
  destruct (Part000.storyblokMapiToken st =? "") eqn:E;
    [apply String.eqb_eq in E; contradiction|].
  cbn [Part000.answer]. rewrite Hget, Hstory.
  cbn [Map.set apply_all Map.get snd]. unfold key_eqb, Z_Key. rewrite !Z.eqb_refl, Htruthy.
  cbn [negb]. unfold update_story. rewrite Hcontent.
  rewrite (updateImageRecursive_misses content m Hmiss). cbn [fst].
  rewrite (with_prop_read story "content" content Hcontent).
  cbn [put_all fst snd]. unfold ask. rewrite E. cbn [Part000.answer].
  destruct (answered (on_put srv (Part000.storyId m) story)) as [answer|].
  - eexists. split; [reflexivity|]. intros answer' _. reflexivity.
  - eexists. split; [reflexivity|]. intros answer' H. discriminate H.
Qed.

(** C6, as amended.  In script.js an edit whose identifier the lookup does
    not find in the fetched content is passed over with the console line
    [ImageNotFound]: the loop over the edits of the story emits that line
    and goes on with the remaining edits on the same content and flag.  In
    the second variant the update of a tree that holds no wrapper with the
    [_uid] of the edit returns the tree as it is, and the update never
    emits anything: the edit is passed over without a diagnostic.  The run
    whose only pending edit misses in this way still PUTs the story, as it
    was fetched, and ends with the modal of success when the PUT is
    answered. *)
Theorem C6_missing_image_skipped :
  (forall storyId imageBynderId mod_ rest content applied r,
      ScriptJs.findImageInStoryContentById content imageBynderId = Ok None ->
      for_each_with (ScriptJs.apply_entry storyId) ((imageBynderId, mod_) :: rest)
        (content, applied) r
      = (fst (fst (for_each_with (ScriptJs.apply_entry storyId) rest (content, applied) r)),
         snd (fst (for_each_with (ScriptJs.apply_entry storyId) rest (content, applied) r)),
         ScriptJs.Console (ScriptJs.ImageNotFound imageBynderId storyId)
         :: snd (for_each_with (ScriptJs.apply_entry storyId) rest (content, applied) r)))
  /\ (forall content m,
         misses (Part000.mod_uid m) content = true ->
         Part000.updateImageRecursive content m = (Ok content, m, []))
  /\ (forall content m, events (Part000.updateImageRecursive content m) = [])
  /\ (forall srv st k m response story content,
         Part000.modifiedImages st = [(k, m)] ->
         Part000.storyblokMapiToken st <> "" ->
         answered (on_get srv (Part000.storyId m)) = Some response ->
         get_prop response "story" = Ok story ->
         truthy story = true ->
         get_prop story "content" = Ok content ->
         misses (Part000.mod_uid m) content = true ->
         exists tail,
           events (Part000.sendModificationsToServer srv st)
           = Part000.Get (Part000.storyId m) :: Part000.Put (Part000.storyId m) story :: tail
           /\ (forall answer,
                  answered (on_put srv (Part000.storyId m) story) = Some answer ->
                  tail = Part000.ConsoleLog (Part000.storyId m)
                         :: Part000.ShowModal Part000.ChangesSent
                         :: reload (Part000.currentStoryData st))).
Proof.
  split; [|split; [|split]].
  - intros storyId imageBynderId mod_ rest content applied r Hnone.
    rewrite !apply_entries_spec. cbn [patch_story fst snd]. rewrite Hnone.
    destruct (patch_story rest content applied) as [res missing]. reflexivity.
  - intros content m. apply updateImageRecursive_misses.
  - intros content m. apply updateImageRecursive_silent.
  - exact send_missing.
Qed.

Lemma C6_missing_image_skipped_witness :
  for_each_with (ScriptJs.apply_entry "11")
    [("ZZ", edit "gone.jpg" "gone" "here.jpg" "gone");
     ("B2", edit "tug.jpg" "a tug" "tug.jpg" "a tug at sea")]
    (content_of story_11, false) (fresh_run gone_and_kept)
  = (Ok (content_of story_11_captioned, true), fresh_run gone_and_kept,
     [ScriptJs.Console (ScriptJs.ImageNotFound "ZZ" "11")])
  /\ Part000.updateImageRecursive (content_of story_11)
       (snd (edit_z 11 "zz" "gone.jpg" "gone" "here.jpg" "gone"))
     = (Ok (content_of story_11), snd (edit_z 11 "zz" "gone.jpg" "gone" "here.jpg" "gone"), [])
  /\ (exists tail,
         events (Part000.sendModificationsToServer (healthy by_number) gone_z)
         = Part000.Get 11 :: Part000.Put 11 story_11 :: tail
         /\ tail = [Part000.ConsoleLog 11; Part000.ShowModal Part000.ChangesSent;
                    Part000.LoadStoryDetails (JNum 11)]).
Proof.
  destruct C6_missing_image_skipped as (A & B & _ & D). split; [|split].
  - rewrite (A "11" "ZZ" (edit "gone.jpg" "gone" "here.jpg" "gone")
               [("B2", edit "tug.jpg" "a tug" "tug.jpg" "a tug at sea")]
               (content_of story_11) false (fresh_run gone_and_kept) eq_refl).
    reflexivity.
  - apply (B (content_of story_11) (snd (edit_z 11 "zz" "gone.jpg" "gone" "here.jpg" "gone"))).
    reflexivity.
  - destruct (D (healthy by_number) gone_z (11%Z, "zz")
                (snd (edit_z 11 "zz" "gone.jpg" "gone" "here.jpg" "gone"))
                (JObj [("story", story_11)]) story_11 (content_of story_11)
                eq_refl ltac:(discriminate) eq_refl eq_refl eq_refl eq_refl eq_refl)
      as (tail & Hev & Htail).
    exists tail. split; [exact Hev|].
    exact (Htail (JObj [("story", story_11)]) eq_refl).
Defined.

(** C6 as stated fails for the second variant: the image [zz] of the only
    pending edit is not in the fetched story 11; the run emits no diagnostic
    for it, PUTs the story as fetched and shows the modal of success. *)
Lemma C6_counterexample :
  misses "zz" (content_of story_11) = true
  /\ events (Part000.sendModificationsToServer (healthy by_number) gone_z)
     = [Part000.Get 11; Part000.Put 11 story_11; Part000.ConsoleLog 11;
        Part000.ShowModal Part000.ChangesSent; Part000.LoadStoryDetails (JNum 11)].
Proof. split; reflexivity. Qed.

(** ** The run of the second variant ends at an unanswered request *)

(** A read that throws throws a TypeError. *)
Lemma get_prop_exn (v : json) (k : string) (e : exn) :
  get_prop v k = Throw e -> e = TypeError.
Proof. destruct v; simpl; congruence. Qed.

Lemma halted_clean (srv : server Z) (evs : list Part000.event) :
  existsb (unanswered srv) evs = false -> halted srv evs.
Proof.
  induction evs as [|ev rest IH]; [exact (fun _ => I)|].
  cbn [existsb halted]. intros H. apply orb_false_iff in H as [Hev Hrest].
  split; [congruence|now apply IH].
Qed.

Lemma halted_app (srv : server Z) (pre tail : list Part000.event) :
  existsb (unanswered srv) pre = false -> halted srv tail -> halted srv (pre ++ tail).
Proof.
  induction pre as [|ev pre IH]; [exact (fun _ H => H)|].
  cbn [existsb app halted]. intros H Ht. apply orb_false_iff in H as [Hev Hpre].
  split; [congruence|now apply IH].
Qed.

Lemma halted_split (srv : server Z) (before : list Part000.event) (ev : Part000.event)
  (after : list Part000.event) :
  halted srv (before ++ ev :: after) ->
  unanswered srv ev = true ->
  after = [Part000.ConsoleError; Part000.ShowModal Part000.SendFailed].
Proof.
  induction before as [|x before IH]; cbn [app halted].
  - intros [H _] Hev. now apply H.
  - intros [_ H]. now apply IH.
Qed.

Lemma halted_failure (srv : server Z) (ev : Part000.event) :
  halted srv [ev; Part000.ConsoleError; Part000.ShowModal Part000.SendFailed].
Proof. cbn [halted unanswered]. repeat split; intros; try reflexivity; discriminate. Qed.

Lemma ask_halted (token : string) (srv : server Z) (r : Part000.request) :
  match ask token srv r with
  | (Ok _, evs) => existsb (unanswered srv) evs = false
  | (Throw e, evs) =>
      e <> NotModelled /\ halted srv (evs ++ [Part000.ShowModal Part000.SendFailed])
  end.
Proof.
  unfold ask. destruct (token =? "").
  - split; [discriminate|]. now apply halted_clean.
  - destruct (answered (Part000.answer srv r)) as [body|] eqn:Ha.
    + destruct r; cbn [Part000.sent Part000.answer existsb unanswered orb] in *;
        now rewrite Ha.
    + split; [discriminate|]. apply halted_failure.
Qed.

Lemma fetch_all_halted (token : string) (srv : server Z)
  (pending : list ((Z * string) * Part000.modification)) :
  forall stories,
    match fetch_all token srv pending stories with
    | (Ok _, evs) => existsb (unanswered srv) evs = false
    | (Throw e, evs) =>
        e <> NotModelled /\ halted srv (evs ++ [Part000.ShowModal Part000.SendFailed])
    end.
Proof.
  induction pending as [|entry rest IH]; intros stories; [reflexivity|].
  cbn [fetch_all]. destruct (Map.has _ stories); [apply IH|].
  pose proof (ask_halted token srv (Part000.GetStory (Part000.storyId (snd entry)))) as Ha.
  destruct (ask token srv _) as [[response|e] asked]; [|exact Ha].
  destruct (get_prop response "story") as [story|e] eqn:Hs.
  - specialize (IH (Map.set (Part000.storyId (snd entry)) story stories)).
    destruct (fetch_all token srv rest _) as [[stories'|e] evs].
    + rewrite existsb_app, Ha, IH. reflexivity.
    + destruct IH as [He Hh]. split; [assumption|]. rewrite <- app_assoc.
      now apply halted_app.
  - apply get_prop_exn in Hs. subst e. split; [discriminate|].
    apply halted_clean. rewrite existsb_app, Ha. reflexivity.
Qed.

Lemma put_all_halted (token : string) (srv : server Z) (stories : list (Z * json)) :
  match put_all token srv stories with
  | (Ok _, evs) => existsb (unanswered srv) evs = false
  | (Throw e, evs) =>
      e <> NotModelled /\ halted srv (evs ++ [Part000.ShowModal Part000.SendFailed])
  end.
Proof.
  induction stories as [|entry rest IH]; [reflexivity|].
  cbn [put_all].
  pose proof (ask_halted token srv (Part000.PutStory (fst entry) (snd entry))) as Ha.
  destruct (ask token srv _) as [[response|e] asked]; [|exact Ha].
  destruct (put_all token srv rest) as [[[]|e] evs].
  - rewrite existsb_app, Ha. exact IH.
  - destruct IH as [He Hh]. split; [assumption|]. rewrite <- app_assoc.
    apply halted_app; [assumption|]. cbn [app halted unanswered]. split; [discriminate|exact Hh].
Qed.

Lemma reload_answered (srv : server Z) (current : json) :
  existsb (unanswered srv) (reload current) = false.
Proof.
  unfold reload. destruct (story <- get_prop current "story" ;; get_prop story "id") as [id|e];
    [reflexivity|]. destruct e; reflexivity.
Qed.

(** A run of the second variant ends at the first request that gets no
    answer with a 2xx status. *)
Lemma send_events_halted (token : string) (srv : server Z)
  (pending : list ((Z * string) * Part000.modification)) (current : json) :
  halted srv (send_events token srv pending current).
Proof.
  unfold send_events. destruct pending as [|entry rest]; [now apply halted_clean|].
  pose proof (fetch_all_halted token srv (entry :: rest) []) as Hf.
  destruct (fetch_all token srv (entry :: rest) []) as [[stories|e] gets].
  2:{ destruct Hf as [He Hh]. destruct e; [exact Hh|exact Hh|contradiction]. }
  destruct (apply_all (entry :: rest) stories) as [stories'|e].
  2:{ apply halted_clean. rewrite existsb_app, Hf. destruct e; reflexivity. }
  pose proof (put_all_halted token srv stories') as Hp.
  destruct (put_all token srv stories') as [[[]|e] puts].
  - apply halted_clean. rewrite !existsb_app, Hf, Hp. cbn [existsb unanswered orb].
    apply reload_answered.
  - destruct Hp as [He Hh]. apply halted_app; [assumption|].
    destruct e; [exact Hh|exact Hh|contradiction].
Qed.

Lemma send_halts (srv : server Z) (st : Part000.state) (before : list Part000.event)
  (r : Part000.request) (after : list Part000.event) :
  events (Part000.sendModificationsToServer srv st) = before ++ Part000.sent r :: after ->
  answered (Part000.answer srv r) = None ->
  after = [Part000.ConsoleError; Part000.ShowModal Part000.SendFailed].
Proof.
  unfold events. rewrite send_spec. intros Hev Hr.
  pose proof (send_events_halted (Part000.storyblokMapiToken st) srv
                (Part000.modifiedImages st) (Part000.currentStoryData st)) as Hh.
  rewrite Hev in Hh. apply (halted_split srv before (Part000.sent r) after Hh).
  destruct r; cbn [Part000.sent Part000.answer unanswered] in *; now rewrite Hr.
Qed.

(** C7, as amended.  In script.js a confirmed run in which no turn throws
    takes every story to process in turn and ends with the alert of the
    counts: the stories that were PUT with success and those that failed.  A
    story whose GET or whose PUT gets no answer with a 2xx status is counted
    as failed, and a turn throws only when the lookup or the patch of an edit
    throws on the fetched content.  In the second variant a first GET that
    gets no such answer ends the run: nothing else is requested and the modal
    of failure is shown; no counts are kept.  So does every request of a run
    of the second variant, GET or PUT: the one that gets no such answer is
    followed by the console line of [makeApiRequest] and the modal of
    failure, and by nothing else. *)
Theorem C7_batch_continues :
  (forall srv s,
      NoDup (ScriptJs.changedStories s) ->
      ScriptJs.changedStories s <> [] ->
      existsb (fun t => throws (fst t))
        (all_turns (ScriptJs.storyblokMapiToken s) srv (ScriptJs.imageModifications s)
           (ScriptJs.changedStories s)) = false ->
      events (ScriptJs.click true srv s)
      = events_of (all_turns (ScriptJs.storyblokMapiToken s) srv (ScriptJs.imageModifications s)
                     (ScriptJs.changedStories s))
        ++ [ScriptJs.Alert
              (ScriptJs.ChangesSent
                 (tally is_succeeded
                    (all_turns (ScriptJs.storyblokMapiToken s) srv
                       (ScriptJs.imageModifications s) (ScriptJs.changedStories s)))
                 (tally is_failed
                    (all_turns (ScriptJs.storyblokMapiToken s) srv
                       (ScriptJs.imageModifications s) (ScriptJs.changedStories s))))])
  /\ (forall token srv storyId entry ms,
         answered (on_get srv storyId) = None ->
         fst (turn token srv storyId (Some (entry :: ms))) = Failed)
  /\ (forall token srv storyId ms story content missing,
         fetched_story (fst (ask_get token srv storyId)) = Some story ->
         patch_story ms (content_of story) false = (Ok (content, true), missing) ->
         answered (on_put srv storyId (with_prop story "content" content)) = None ->
         fst (turn token srv storyId (Some ms)) = Failed)
  /\ (forall token srv storyId mods,
         throws (fst (turn token srv storyId mods)) = true ->
         exists ms story e missing,
           mods = Some ms
           /\ fetched_story (fst (ask_get token srv storyId)) = Some story
           /\ patch_story ms (content_of story) false = (Throw e, missing))
  /\ (forall srv st entry rest,
         Part000.modifiedImages st = entry :: rest ->
         Part000.storyblokMapiToken st <> "" ->
         answered (on_get srv (Part000.storyId (snd entry))) = None ->
         events (Part000.sendModificationsToServer srv st)
         = [Part000.Get (Part000.storyId (snd entry)); Part000.ConsoleError;
            Part000.ShowModal Part000.SendFailed])
  /\ (forall srv st before r after,
         events (Part000.sendModificationsToServer srv st)
         = before ++ Part000.sent r :: after ->
         answered (Part000.answer srv r) = None ->
         after = [Part000.ConsoleError; Part000.ShowModal Part000.SendFailed]).
Proof.
  split; [|split; [|split; [|split; [|split]]]].
  - intros srv s. apply click_all_turns.
  - intros token srv storyId entry ms. apply get_failed_turn.
  - intros token srv storyId ms story content missing. apply put_unanswered_turn.
  - intros token srv storyId mods. apply turn_throws_inv.
  - intros srv st entry rest Hp Htoken Hget. unfold events. rewrite send_spec, Hp.
    now apply send_abort.
  - exact send_halts.
Qed.

Lemma C7_batch_continues_witness :
  events (ScriptJs.click true failing_11 two_stories)
  = [ScriptJs.Get "11"; ScriptJs.Console ScriptJs.FetchFailed;
     ScriptJs.Alert ScriptJs.FetchFailed;
     ScriptJs.Console (ScriptJs.CouldNotFetchLatest "11");
     ScriptJs.Get "12"; ScriptJs.Put "12" story_12_edited;
     ScriptJs.Alert (ScriptJs.ChangesSent 1 1)]
  /\ events (Part000.sendModificationsToServer failing_11_z two_stories_z)
     = [Part000.Get 11; Part000.ConsoleError; Part000.ShowModal Part000.SendFailed]
  /\ (exists body after,
         events (Part000.sendModificationsToServer refusing_11_z two_stories_z)
         = [Part000.Get 11; Part000.Get 12] ++ Part000.Put 11 body :: after
         /\ answered (on_put refusing_11_z 11%Z body) = None
         /\ after = [Part000.ConsoleError; Part000.ShowModal Part000.SendFailed]).
Proof.
  destruct C7_batch_continues as (A & _ & _ & _ & B & C). split; [|split].
  - rewrite (A failing_11 two_stories).
    + reflexivity.
    + repeat constructor; simpl; intuition discriminate.
    + discriminate.
    + reflexivity.
  - apply (B failing_11_z two_stories_z
             (edit_z 11 "u1" "old.jpg" "old" "new.jpg" "old")
             [edit_z 12 "u3" "quay.jpg" "a quay" "quay.jpg" "the quay"]).
    + reflexivity.
    + discriminate.
    + reflexivity.
  - eexists _, _. split; [reflexivity|]. split; [reflexivity|].
    eapply (C refusing_11_z two_stories_z [Part000.Get 11; Part000.Get 12]
              (Part000.PutStory 11 _)); reflexivity.
Defined.

(** C7 as stated fails for the second variant: with edits pending on the
    stories 11 and 12 and a GET of the story 11 that is answered with a
    status 500, the run ends at once; the story 12 is neither fetched nor
    PUT, and the modal tells of a failure without counts. *)
Lemma C7_counterexample :
  Map.has (12%Z, "u3") (Part000.modifiedImages two_stories_z) = true
  /\ answered (on_get failing_11_z 12%Z) = Some (JObj [("story", story_12)])
  /\ events (Part000.sendModificationsToServer failing_11_z two_stories_z)
     = [Part000.Get 11; Part000.ConsoleError; Part000.ShowModal Part000.SendFailed].
Proof. repeat split; reflexivity. Qed.

(** C8.  Every PUT of a run comes after the GET of the same story in that
    run, and the document it carries is the story of the answer to that GET
    with the pending edits applied.  The events of a run of script.js do not
    depend on [allLoadedStoriesContent], the copies kept at browse time; the
    requests of a run of the second variant do not depend on
    [currentStoryData] nor on [currentStoryImages]. *)
Theorem C8_fresh_copy_before_put :
  (forall confirmed srv s id body,
      NoDup (ScriptJs.changedStories s) ->
      In (ScriptJs.Put id body) (events (ScriptJs.click confirmed srv s)) ->
      exists ms story content missing before after,
        Map.get id (ScriptJs.imageModifications s) = Some ms
        /\ fetched_story (answered (on_get srv id)) = Some story
        /\ patch_story ms (content_of story) false = (Ok (content, true), missing)
        /\ body = with_prop story "content" content
        /\ events (ScriptJs.click confirmed srv s)
           = before ++ ScriptJs.Get id :: not_found id missing
                    ++ ScriptJs.Put id body :: after)
  /\ (forall confirmed srv s s',
         NoDup (ScriptJs.changedStories s) ->
         ScriptJs.storyblokMapiToken s' = ScriptJs.storyblokMapiToken s ->
         ScriptJs.changedStories s' = ScriptJs.changedStories s ->
         ScriptJs.imageModifications s' = ScriptJs.imageModifications s ->
         events (ScriptJs.click confirmed srv s') = events (ScriptJs.click confirmed srv s))
  /\ (forall srv st id body,
         In (Part000.Put id body) (events (Part000.sendModificationsToServer srv st)) ->
         exists story before after,
           served srv id = Some story
           /\ apply_to id (Part000.modifiedImages st) story = Ok body
           /\ events (Part000.sendModificationsToServer srv st)
              = before ++ Part000.Put id body :: after
           /\ In (Part000.Get id) before)
  /\ (forall srv st st',
         Part000.storyblokMapiToken st' = Part000.storyblokMapiToken st ->
         Part000.modifiedImages st' = Part000.modifiedImages st ->
         filter is_request (events (Part000.sendModificationsToServer srv st'))
         = filter is_request (events (Part000.sendModificationsToServer srv st))).
Proof.
  split; [|split; [|split]].
  - intros confirmed srv s id body Hnd Hin.
    destruct (click_put_inv confirmed srv s id body Hnd Hin)
      as (ms & status & response & story & content & missing & before & after
          & Hms & Hget & Hok & Hstory & Hpatch & Hbody & Hev).
    exists ms, story, content, missing, before, after. repeat split; try assumption.
    unfold answered. now rewrite Hget, Hok.
  - intros confirmed srv s s' Hnd Htoken Hids Hmods.
    rewrite (click_events confirmed srv s Hnd).
    rewrite (click_events confirmed srv s') by (now rewrite Hids).
    now rewrite Htoken, Hids, Hmods.
  - intros srv st id body. unfold events. rewrite send_spec. apply send_put_inv.
  - intros srv st st' Htoken Hmods. unfold events. rewrite !send_spec, Htoken, Hmods.
    apply send_events_requests.
Qed.

Lemma C8_fresh_copy_before_put_witness :
  (exists ms story content missing before after,
      Map.get "11" (ScriptJs.imageModifications two_edits) = Some ms
      /\ fetched_story (answered (on_get (healthy by_name) "11")) = Some story
      /\ patch_story ms (content_of story) false = (Ok (content, true), missing)
      /\ story_11_edited = with_prop story "content" content
      /\ events (ScriptJs.click true (healthy by_name) two_edits)
         = before ++ ScriptJs.Get "11" :: not_found "11" missing
                  ++ ScriptJs.Put "11" story_11_edited :: after)
  /\ events (ScriptJs.click true (healthy by_name) (two_edits_on [("11", story_11_captioned)]))
     = events (ScriptJs.click true (healthy by_name) two_edits)
  /\ (exists story before after,
         served (healthy by_number) 11 = Some story
         /\ apply_to 11 (Part000.modifiedImages two_edits_z) story = Ok story_11_edited
         /\ events (Part000.sendModificationsToServer (healthy by_number) two_edits_z)
            = before ++ Part000.Put 11 story_11_edited :: after
         /\ In (Part000.Get 11) before).
Proof.
  destruct C8_fresh_copy_before_put as (A & B & C & _). split; [|split].
  - apply (A true (healthy by_name) two_edits "11" story_11_edited).
    + repeat constructor; simpl; intuition discriminate.
    + vm_compute. right. now left.
  - apply (B true (healthy by_name) two_edits (two_edits_on [("11", story_11_captioned)])).
    + repeat constructor; simpl; intuition discriminate.
    + reflexivity.
    + reflexivity.
    + reflexivity.
  - apply (C (healthy by_number) two_edits_z 11%Z story_11_edited).
    vm_compute. right. now left.
Defined.

(** ** The normalised name in the walk and in the run *)

Lemma normalize_idem (s : string) :
  Part000.normalize (Part000.normalize s) = Part000.normalize s.
Proof.
  destruct (normalize_shape s) as [Hns Hlow]. now rewrite (normalize_no_space _ Hns).
Qed.

Lemma normalised_idem (m : Part000.modification) : normalised (normalised m) = normalised m.
Proof.
  unfold normalised. cbn [Part000.with_fileName Part000.fileName]. now rewrite normalize_idem.
Qed.

Lemma update_wrapper_state (w : json) (s : Part000.modification) :
  snd (fst (Part000.update_wrapper w s)) = s
  \/ snd (fst (Part000.update_wrapper w s)) = normalised s.
Proof.
  unfold Part000.update_wrapper.
  destruct (get_prop w "_uid") as [uid|e]; [|now left].
  rewrite mbind_lift_Ok, mbind_gets.
  destruct (strict_eq_str uid (Part000.mod_uid s)); [|now left].
  rewrite mbind_modify, mbind_gets. unfold id. right.
  match goal with |- snd (fst (mbind (lift ?r) _ _)) = _ => destruct r as [w1|e] end;
    [|reflexivity].
  rewrite mbind_lift_Ok.
  match goal with |- snd (fst (mbind (lift ?r) _ _)) = _ => destruct r as [w2|e] end;
    [|reflexivity].
  rewrite mbind_lift_Ok. reflexivity.
Qed.

Section MapEachInv.
Context {S E A B : Type}.
Variable f : A -> M S E B.
Variable P : S -> Prop.

(** A loop that completes has visited every element, each from a state
    that [P] holds of when the turns keep [P]. *)
Lemma map_each_inv (l : list A) :
  Forall (fun x => forall s y s' evs, P s -> f x s = (Ok y, s', evs) -> P s') l ->
  forall s l' s' evs,
    P s ->
    Part000.map_each f l s = (Ok l', s', evs) ->
    P s'
    /\ forall i x, nth_error l i = Some x ->
         exists s0 y s1 evs1,
           P s0 /\ f x s0 = (Ok y, s1, evs1) /\ nth_error l' i = Some y.
Proof.
  induction 1 as [|x l Hx _ IH]; intros s l' s' evs Hs Hrun.
  - cbn [Part000.map_each] in Hrun. injection Hrun as <- <- <-. split; [assumption|].
    intros [|i] y Hy; discriminate.
  - cbn [Part000.map_each] in Hrun. unfold mbind at 1 in Hrun.
    destruct (f x s) as [[[y|e] s1] evs1] eqn:Hf; [|discriminate].
    unfold mbind at 1 in Hrun.
    destruct (Part000.map_each f l s1) as [[[ys|e] s2] evs2] eqn:Hl; [|discriminate].
    cbn [ret] in Hrun. injection Hrun as <- <- <-.
    pose proof (Hx s y s1 evs1 Hs Hf) as Hs1.
    destruct (IH s1 ys s2 evs2 Hs1 Hl) as [Hs2 Hnth].
    split; [assumption|]. intros [|i] z Hz.
    + injection Hz as <-. exists s, y, s1, evs1. repeat split; assumption.
    + exact (Hnth i z Hz).
Qed.
End MapEachInv.

Section Walk.
Variable m : Part000.modification.


Lemma update_wrapper_entry_state (w : json) (s : Part000.modification) (w' : json)
  (s' : Part000.modification) (evs : list Part000.event) :
  entry_state m s -> Part000.update_wrapper w s = (Ok w', s', evs) -> entry_state m s'.
Proof.
  intros Hs Hrun. pose proof (update_wrapper_state w s) as H. rewrite Hrun in H.
  cbn [fst snd] in H. unfold entry_state in *.
  destruct H as [->| ->]; [assumption|].
  destruct Hs as [->| ->]; [now right|]. right. apply normalised_idem.
Qed.

(** The walk replaces every wrapper it comes to by what [update_wrapper]
    makes of it. *)
Lemma walk_at (v : json) :
  forall st v' st' evs,
    entry_state m st ->
    Part000.updateImageRecursive v st = (Ok v', st', evs) ->
    entry_state m st'
    /\ forall p w,
         walked p v = true ->
         node_at p v = Some w ->
         exists s0 w' s1 evs1,
           entry_state m s0
           /\ Part000.update_wrapper w s0 = (Ok w', s1, evs1)
           /\ node_at p v' = Some w'.
Proof.
  induction v using json_ind; intros st v' st' evs Hs Hrun;
    try (cbn [Part000.updateImageRecursive ret] in Hrun; injection Hrun as <- <- <-;
         split; [assumption|]; intros [|i q] w Hw; discriminate Hw).
  - cbn [Part000.updateImageRecursive] in Hrun. unfold mbind in Hrun.
    destruct (Part000.map_each Part000.updateImageRecursive items st)
      as [[[items'|e] s1] evs1] eqn:Hmap; [|discriminate].
    cbn [ret] in Hrun. injection Hrun as <- <- <-.
    assert (Hkeep : Forall (fun x => forall s y s' evs, entry_state m s ->
                        Part000.updateImageRecursive x s = (Ok y, s', evs) -> entry_state m s')
                      items).
    { rewrite Forall_forall in *. intros x Hx s0 y s0' evs0 Hs0 Hr.
      exact (proj1 (H x Hx s0 y s0' evs0 Hs0 Hr)). }
    destruct (map_each_inv _ (entry_state m) items Hkeep st items' s1 evs1 Hs Hmap) as [Hs1 Hnth].
    split; [assumption|]. intros [|i q] w Hw Hat; [discriminate|].
    cbn [walked] in Hw. cbn [node_at children] in *.
    destruct (nth_error items i) as [x|] eqn:Hi; [|discriminate].
    destruct (Hnth i x Hi) as (s0 & y & s2 & evs2 & Hs0 & Hf & Hy).
    rewrite Hy. rewrite Forall_forall in H.
    exact (proj2 (H x (nth_error_In _ _ Hi) s0 y s2 evs2 Hs0 Hf) q w Hw Hat).
  - cbn [Part000.updateImageRecursive] in Hrun. unfold mbind at 1 in Hrun.
    match type of Hrun with
    | match Part000.map_each ?f props st with _ => _ end = _ => set (g := f) in *
    end.
    destruct (Part000.map_each g props st) as [[[props'|e] s1] evs1] eqn:Hmap; [|discriminate].
    cbn [ret] in Hrun. injection Hrun as <- <- <-.
    assert (Hkeep : Forall (fun kv => forall s y s' evs, entry_state m s ->
                        g kv s = (Ok y, s', evs) -> entry_state m s') props).
    { rewrite Forall_forall in *. intros kv Hkv s0 y s0' evs0 Hs0 Hr. unfold g in Hr.
      destruct (Part000.hasOwnProperty props) as [own|e]; [|discriminate].
      rewrite mbind_lift_Ok in Hr. destruct own; [|injection Hr as _ <- _; assumption].
      destruct (Part000.guarded_image_list_test (snd kv)) as [is_list|e]; [|discriminate].
      rewrite mbind_lift_Ok in Hr. destruct is_list.
      - unfold mbind in Hr.
        destruct (Part000.map_each Part000.update_wrapper (children (snd kv)) s0)
          as [[[ws|e] s2] evs2] eqn:Hws; [|discriminate].
        cbn [ret] in Hr. injection Hr as _ <- _.
        refine (proj1 (map_each_inv _ (entry_state m) (children (snd kv)) _ s0 ws s2 evs2 Hs0 Hws)).
        rewrite Forall_forall. intros w _ t w' t' evs' Ht Hw.
        exact (update_wrapper_entry_state w t w' t' evs' Ht Hw).
      - unfold mbind in Hr.
        destruct (Part000.updateImageRecursive (snd kv) s0) as [[[x|e] s2] evs2] eqn:Hx;
          [|discriminate].
        cbn [ret] in Hr. injection Hr as _ <- _.
        exact (proj1 (H kv Hkv s0 x s2 evs2 Hs0 Hx)). }
    destruct (map_each_inv _ (entry_state m) props Hkeep st props' s1 evs1 Hs Hmap) as [Hs1 Hnth].
    split; [assumption|]. intros [|i q] w Hw Hat; [discriminate|].
    cbn [walked] in Hw. cbn [node_at children] in *. rewrite nth_error_map in Hat |- *.
    destruct (nth_error props i) as [kv|] eqn:Hi; [|discriminate].
    destruct (Hnth i kv Hi) as (s0 & kv' & s2 & evs2 & Hs0 & Hf & Hkv').
    rewrite Hkv'. cbn [option_map] in *. unfold g in Hf.
    destruct (Part000.hasOwnProperty props) as [own|e] eqn:Hown; [|discriminate].
    rewrite mbind_lift_Ok in Hf.
    destruct own.
    2:{ unfold Part000.hasOwnProperty in Hown.
        destruct (Part000.has_key "hasOwnProperty" props); discriminate. }
    destruct (Part000.guarded_image_list_test (snd kv)) as [is_list|e]; [|discriminate].
    rewrite mbind_lift_Ok in Hf. destruct is_list.
    + unfold mbind in Hf.
      destruct (Part000.map_each Part000.update_wrapper (children (snd kv)) s0)
        as [[[ws|e] s3] evs3] eqn:Hws; [|discriminate].
      cbn [ret] in Hf. injection Hf as <- _ _. cbn [snd].
      destruct q as [|j [|k q]]; try discriminate.
      cbn [node_at] in Hat |- *. cbn [children].
      destruct (nth_error (children (snd kv)) j) as [w0|] eqn:Hj; [|discriminate].
      injection Hat as ->.
      assert (Hkeepw : Forall (fun w => forall s y s' evs, entry_state m s ->
                          Part000.update_wrapper w s = (Ok y, s', evs) -> entry_state m s')
                         (children (snd kv))).
      { rewrite Forall_forall. intros w0 _ t w' t' evs' Ht Hw0.
        exact (update_wrapper_entry_state w0 t w' t' evs' Ht Hw0). }
      destruct (proj2 (map_each_inv _ (entry_state m) (children (snd kv)) Hkeepw s0 ws s3 evs3
                         Hs0 Hws) j w Hj) as (t & w' & t' & evs' & Ht & Hw' & Hnw).
      exists t, w', t', evs'. rewrite Hnw. repeat split; assumption.
    + unfold mbind in Hf.
      destruct (Part000.updateImageRecursive (snd kv) s0) as [[[x|e] s3] evs3] eqn:Hx;
        [|discriminate].
      cbn [ret] in Hf. injection Hf as <- _ _. cbn [snd].
      rewrite Forall_forall in H.
      exact (proj2 (H kv (nth_error_In _ _ Hi) s0 x s3 evs3 Hs0 Hx) q w Hw Hat).
Qed.
End Walk.

(** The wrapper of an edit whose normalised name differs from the recorded
    original: the name and the transform URL after [update_wrapper]. *)
Lemma update_wrapper_normalises (m : Part000.modification) (w : json) (front rest : string) :
  get_prop w "_uid" = Ok (JStr (Part000.mod_uid m)) ->
  (Part000.normalize (Part000.fileName m) =? Part000.originalFileName m) = false ->
  read_transformUrl w = Ok (JStr (front ++ String slash rest)) ->
  no_slash rest = true ->
  exists w',
    Part000.update_wrapper w m
    = (Ok w', Part000.with_fileName (Part000.normalize (Part000.fileName m)) m, [])
    /\ read_name w' = Ok (JStr (Part000.normalize (Part000.fileName m)))
    /\ read_transformUrl w'
       = Ok (JStr (front ++ String slash (Part000.normalize (Part000.fileName m)))).
Proof.
  intros Huid Hneq Hurl Hrest.
  destruct (read_transformUrl_inv _ _ Hurl) as (props & d & f & t & -> & Hfirst & Hf & Ht & Hu).
  cbn [get_prop] in Huid. injection Huid as Huid.
  destruct (update_wrapper_renames m props d f t _ Huid Hneq Hfirst Hf Ht Hu)
    as (w' & Hup & Hn & Hread).
  exists w'. repeat split; try assumption.
  rewrite Hread, (lastIndexOf_last_slash front rest Hrest), substring_front.
  now rewrite string_app_assoc.
Qed.

(** The walk writes the normalised name where it comes to the wrapper of
    the edit. *)
Lemma walk_normalises (m : Part000.modification) (content content' : json)
  (m' : Part000.modification) (evs : list Part000.event) (p : path) (w : json)
  (front rest : string) :
  Part000.updateImageRecursive content m = (Ok content', m', evs) ->
  walked p content = true ->
  node_at p content = Some w ->
  get_prop w "_uid" = Ok (JStr (Part000.mod_uid m)) ->
  (Part000.normalize (Part000.fileName m) =? Part000.originalFileName m) = false ->
  read_transformUrl w = Ok (JStr (front ++ String slash rest)) ->
  no_slash rest = true ->
  exists w',
    node_at p content' = Some w'
    /\ read_name w' = Ok (JStr (Part000.normalize (Part000.fileName m)))
    /\ read_transformUrl w'
       = Ok (JStr (front ++ String slash (Part000.normalize (Part000.fileName m)))).
Proof.
  intros Hrun Hp Hw Huid Hneq Hurl Hrest.
  destruct (walk_at m content m content' m' evs (or_introl eq_refl) Hrun) as [_ Hat].
  destruct (Hat p w Hp Hw) as (s0 & w' & s1 & evs1 & Hs0 & Hup & Hnode).
  assert (Hsame : Part000.mod_uid s0 = Part000.mod_uid m
                  /\ Part000.originalFileName s0 = Part000.originalFileName m
                  /\ Part000.normalize (Part000.fileName s0)
                     = Part000.normalize (Part000.fileName m)).
  { destruct Hs0 as [->| ->]; [repeat split|].
    unfold normalised. cbn [Part000.with_fileName Part000.mod_uid Part000.originalFileName
                            Part000.fileName].
    repeat split. apply normalize_idem. }
  destruct Hsame as (Hu & Ho & Hn).
  destruct (update_wrapper_normalises s0 w front rest) as (w'' & Hup' & Hname & Hread);
    try assumption.
  - now rewrite Hu.
  - now rewrite Hn, Ho.
  - rewrite Hup in Hup'. injection Hup' as <- _ _.
    exists w'. rewrite Hn in Hname, Hread. repeat split; assumption.
Qed.

Lemma apply_to_others (id : Z) (pending : list ((Z * string) * Part000.modification))
  (story : json) :
  Forall (fun e => Part000.storyId (snd e) <> id) pending ->
  apply_to id pending story = Ok story.
Proof.
  induction 1 as [|e pending He _ IH]; [reflexivity|].
  cbn [apply_to]. destruct (Z.eqb_spec (Part000.storyId (snd e)) id); [contradiction|exact IH].
Qed.

(** The story that a run PUTs for an edit that is the only pending one of
    its story carries the normalised name where the walk comes to the
    wrapper of the edit. *)
Lemma run_normalises (srv : server Z) (st : Part000.state)
  (before after : list ((Z * string) * Part000.modification)) (k : Z * string)
  (m : Part000.modification) (body story content : json) (p : path) (w : json)
  (front rest : string) :
  Part000.modifiedImages st = before ++ (k, m) :: after ->
  Forall (fun e => Part000.storyId (snd e) <> Part000.storyId m) (before ++ after) ->
  In (Part000.Put (Part000.storyId m) body)
     (events (Part000.sendModificationsToServer srv st)) ->
  served srv (Part000.storyId m) = Some story ->
  get_prop story "content" = Ok content ->
  walked p content = true ->
  node_at p content = Some w ->
  get_prop w "_uid" = Ok (JStr (Part000.mod_uid m)) ->
  (Part000.normalize (Part000.fileName m) =? Part000.originalFileName m) = false ->
  read_transformUrl w = Ok (JStr (front ++ String slash rest)) ->
  no_slash rest = true ->
  exists content' w',
    get_prop body "content" = Ok content'
    /\ node_at p content' = Some w'
    /\ read_name w' = Ok (JStr (Part000.normalize (Part000.fileName m)))
    /\ read_transformUrl w'
       = Ok (JStr (front ++ String slash (Part000.normalize (Part000.fileName m)))).
Proof.
  intros Hpending Hothers Hin Hserved Hcontent Hp Hw Huid Hneq Hurl Hrest.
  unfold events in Hin. rewrite send_spec, Hpending in Hin.
  destruct (send_put_inv _ _ _ _ _ _ Hin) as (story' & _ & _ & Hserved' & Happly & _).
  rewrite Hserved in Hserved'. injection Hserved' as <-.
  apply Forall_app in Hothers as [Hbefore Hafter].
  assert (Hskip : forall l story0,
            Forall (fun e => Part000.storyId (snd e) <> Part000.storyId m) l ->
            apply_to (Part000.storyId m) (l ++ (k, m) :: after) story0
            = apply_to (Part000.storyId m) ((k, m) :: after) story0).
  { induction 1 as [|e l He _ IH]; [reflexivity|]. cbn [app apply_to].
    destruct (Z.eqb_spec (Part000.storyId (snd e)) (Part000.storyId m));
      [contradiction|exact IH]. }
  rewrite (Hskip before story Hbefore) in Happly.
  cbn [apply_to snd] in Happly. rewrite Z.eqb_refl in Happly.
  unfold update_story in Happly. rewrite Hcontent in Happly.
  destruct (Part000.updateImageRecursive content m) as [[[content'|e] m'] evs] eqn:Hrun;
    cbn [fst] in Happly; [|discriminate].
  rewrite (apply_to_others _ after _ Hafter) in Happly.
  injection Happly as <-.
  destruct (walk_normalises m content content' m' evs p w front rest Hrun Hp Hw Huid Hneq
              Hurl Hrest) as (w' & Hnode & Hname & Hread).
  exists content', w'. repeat split; try assumption.
  destruct story as [| | | | | |props];
    try (cbn [get_prop] in Hcontent; injection Hcontent as <-; destruct p; discriminate Hp);
    try discriminate Hcontent.
  cbn [get_prop] in Hcontent. injection Hcontent as Hc.
  cbn [with_prop get_prop]. f_equal. apply lookup_replace_same.
  rewrite Hc. intros E. rewrite E in Hp. destruct p; discriminate Hp.
Qed.

(** C10.  In the second variant the file name of a pending edit is
    normalised when the edit meets its wrapper: a name without white space
    is lower-cased; a run of white space between two parts is replaced by
    one ['-'] between the normalised parts; the result holds no white space
    and no upper-case letter.  The normalised name replaces the typed one
    in the edit, is the name written to the wrapper, and is what follows
    the last ['/'] of the new transform URL.  The walk of
    [updateImageRecursive] does so at every wrapper with the [_uid] of the
    edit that it comes to in the content, and the story that a run PUTs
    for an edit that is the only pending one of its story carries the
    normalised name and the new URL at the place of that wrapper. *)
Theorem C10_name_normalised :
  (forall s, no_space s = true -> Part000.normalize s = Part000.toLowerCase s)
  /\ (forall a ws b,
         ends_in_space a = false -> all_space ws = true -> ws <> EmptyString ->
         starts_with_space b = false ->
         Part000.normalize (a ++ ws ++ b)
         = (Part000.normalize a ++ String "-"%char (Part000.normalize b))%string)
  /\ (forall s,
         no_space (Part000.normalize s) = true
         /\ Part000.toLowerCase (Part000.normalize s) = Part000.normalize s)
  /\ (forall m w front rest,
         get_prop w "_uid" = Ok (JStr (Part000.mod_uid m)) ->
         (Part000.normalize (Part000.fileName m) =? Part000.originalFileName m) = false ->
         read_transformUrl w = Ok (JStr (front ++ String slash rest)) ->
         no_slash rest = true ->
         exists w',
           Part000.update_wrapper w m
           = (Ok w', Part000.with_fileName (Part000.normalize (Part000.fileName m)) m, [])
           /\ read_name w' = Ok (JStr (Part000.normalize (Part000.fileName m)))
           /\ read_transformUrl w'
              = Ok (JStr (front ++ String slash (Part000.normalize (Part000.fileName m)))))
  /\ (forall m content content' m' evs p w front rest,
         Part000.updateImageRecursive content m = (Ok content', m', evs) ->
         walked p content = true ->
         node_at p content = Some w ->
         get_prop w "_uid" = Ok (JStr (Part000.mod_uid m)) ->
         (Part000.normalize (Part000.fileName m) =? Part000.originalFileName m) = false ->
         read_transformUrl w = Ok (JStr (front ++ String slash rest)) ->
         no_slash rest = true ->
         exists w',
           node_at p content' = Some w'
           /\ read_name w' = Ok (JStr (Part000.normalize (Part000.fileName m)))
           /\ read_transformUrl w'
              = Ok (JStr (front ++ String slash (Part000.normalize (Part000.fileName m)))))
  /\ (forall srv st before after k m body story content p w front rest,
         Part000.modifiedImages st = before ++ (k, m) :: after ->
         Forall (fun e => Part000.storyId (snd e) <> Part000.storyId m) (before ++ after) ->
         In (Part000.Put (Part000.storyId m) body)
            (events (Part000.sendModificationsToServer srv st)) ->
         served srv (Part000.storyId m) = Some story ->
         get_prop story "content" = Ok content ->
         walked p content = true ->
         node_at p content = Some w ->
         get_prop w "_uid" = Ok (JStr (Part000.mod_uid m)) ->
         (Part000.normalize (Part000.fileName m) =? Part000.originalFileName m) = false ->
         read_transformUrl w = Ok (JStr (front ++ String slash rest)) ->
         no_slash rest = true ->
         exists content' w',
           get_prop body "content" = Ok content'
           /\ node_at p content' = Some w'
           /\ read_name w' = Ok (JStr (Part000.normalize (Part000.fileName m)))
           /\ read_transformUrl w'
              = Ok (JStr (front ++ String slash (Part000.normalize (Part000.fileName m))))).
Proof.
  split; [exact normalize_no_space|].
  split; [exact normalize_run|].
  split; [exact normalize_shape|].
  split; [exact update_wrapper_normalises|].
  split; [exact walk_normalises|exact run_normalises].
Qed.

Lemma C10_name_normalised_witness :
  Part000.normalize "photo.JPG" = "photo.jpg"
  /\ Part000.normalize "Stan  Tug 1205.JPG"
     = (Part000.normalize "Stan" ++ String "-"%char (Part000.normalize "Tug 1205.JPG"))%string
  /\ (exists w',
         Part000.update_wrapper (image_node_of "u1" "Old.jpg" "old" "https://cdn/x/Old.jpg")
           (edit_of "Stan Tug  1205.JPG" "Old.jpg" "old")
         = (Ok w', edit_of "stan-tug-1205.jpg" "Old.jpg" "old", [])
         /\ read_name w' = Ok (JStr "stan-tug-1205.jpg")
         /\ read_transformUrl w' = Ok (JStr "https://cdn/x/stan-tug-1205.jpg"))
  /\ (exists content' m' w',
         Part000.updateImageRecursive (content_of story_11)
           (snd (edit_z 11 "u1" "old.jpg" "old" "Stan Tug  1205.JPG" "old"))
         = (Ok content', m', [])
         /\ node_at [1; 0] content' = Some w'
         /\ read_name w' = Ok (JStr "stan-tug-1205.jpg")
         /\ read_transformUrl w' = Ok (JStr "https://cdn/x/stan-tug-1205.jpg"))
  /\ (exists body content' w',
         In (Part000.Put 11 body)
            (events (Part000.sendModificationsToServer (healthy by_number) renamed_z))
         /\ get_prop body "content" = Ok content'
         /\ node_at [1; 0] content' = Some w'
         /\ read_name w' = Ok (JStr "stan-tug-1205.jpg")
         /\ read_transformUrl w' = Ok (JStr "https://cdn/x/stan-tug-1205.jpg")).
Proof.
  destruct C10_name_normalised as (A & B & _ & D & E & F).
  split; [exact (A "photo.JPG" eq_refl)|].
  split.
  { apply (B "Stan" "  " "Tug 1205.JPG"); [reflexivity|reflexivity|discriminate|reflexivity]. }
  split.
  { exact (D (edit_of "Stan Tug  1205.JPG" "Old.jpg" "old")
             (image_node_of "u1" "Old.jpg" "old" "https://cdn/x/Old.jpg")
             "https://cdn/x" "Old.jpg" eq_refl eq_refl eq_refl eq_refl). }
  split.
  { destruct (Part000.updateImageRecursive (content_of story_11)
                (snd (edit_z 11 "u1" "old.jpg" "old" "Stan Tug  1205.JPG" "old")))
      as [[[content'|e] m'] evs] eqn:Hrun; [|vm_compute in Hrun; discriminate Hrun].
    destruct (E _ _ _ _ _ [1; 0]
                (served_image "u1" "A1" "old.jpg" "old" "https://cdn/x/old.jpg")
                "https://cdn/x" "old.jpg" Hrun eq_refl eq_refl eq_refl eq_refl eq_refl eq_refl)
      as (w' & Hnode & Hname & Hurl).
    exists content', m', w'. split; [|split; [exact Hnode|split; [exact Hname|exact Hurl]]].
    assert (Hevs : evs = []) by (vm_compute in Hrun; injection Hrun as _ _ <-; reflexivity).
    now rewrite Hevs. }
  assert (Hput : exists body,
            In (Part000.Put 11 body)
               (events (Part000.sendModificationsToServer (healthy by_number) renamed_z))).
  { eexists. vm_compute. right. right. left. reflexivity. }
  destruct Hput as [body Hput].
  destruct (F (healthy by_number) renamed_z []
              [edit_z 12 "u3" "quay.jpg" "a quay" "quay.jpg" "the quay"] (11%Z, "u1")
              (snd (edit_z 11 "u1" "old.jpg" "old" "Stan Tug  1205.JPG" "old"))
              body story_11 (content_of story_11) [1; 0]
              (served_image "u1" "A1" "old.jpg" "old" "https://cdn/x/old.jpg")
              "https://cdn/x" "old.jpg" eq_refl
              ltac:(repeat constructor; discriminate) Hput eq_refl eq_refl eq_refl eq_refl
              eq_refl eq_refl eq_refl eq_refl) as (content' & w' & Hc & Hnode & Hname & Hurl).
  exists body, content', w'. repeat split; assumption.
Defined.

(** * Further properties of the scripts *)

(** ** The globals after a run of script.js *)

Section KeySetFacts.
Context {K : Type} `{Key K}.
Hypothesis key_ok : forall a b : K, key_eqb a b = true <-> a = b.

Lemma keyset_has_In (k : K) (s : KeySet.t K) : KeySet.has k s = true <-> In k s.
Proof.
  unfold KeySet.has. rewrite existsb_exists. split.
  - intros (x & Hx & E). apply key_ok in E. now subst.
  - intros Hin. exists k. split; [assumption|]. now apply key_ok.
Qed.

Lemma keyset_has_delete (k k' : K) (s : KeySet.t K) :
  KeySet.has k' (KeySet.delete k s) = negb (key_eqb k' k) && KeySet.has k' s.
Proof.
  unfold KeySet.has, KeySet.delete. induction s as [|x s IH]; simpl.
  - now rewrite andb_false_r.
  - destruct (key_eqb x k) eqn:Exk; simpl.
    + rewrite IH. destruct (key_eqb k' x) eqn:Ex; simpl; [|reflexivity].
      apply key_ok in Ex. subst x. rewrite Exk. reflexivity.
    + rewrite IH. destruct (key_eqb k' x) eqn:Ex; simpl; [|reflexivity].
      apply key_ok in Ex. subst x. rewrite Exk. reflexivity.
Qed.

Lemma keyset_has_add (k k' : K) (s : KeySet.t K) :
  KeySet.has k' (KeySet.add k s) = key_eqb k' k || KeySet.has k' s.
Proof.
  unfold KeySet.add. destruct (KeySet.has k s) eqn:E.
  - destruct (key_eqb k' k) eqn:Ek; [|reflexivity].
    apply key_ok in Ek. subst. now rewrite E.
  - unfold KeySet.has. rewrite existsb_app. simpl. rewrite orb_false_r. apply orb_comm.
Qed.

Lemma keyset_NoDup_add (k : K) (s : KeySet.t K) : NoDup s -> NoDup (KeySet.add k s).
Proof.
  intros Hnd. unfold KeySet.add. destruct (KeySet.has k s) eqn:E; [assumption|].
  apply NoDup_app; [assumption|repeat constructor; simpl; tauto|].
  intros x Hx [<-|[]]. apply keyset_has_In in Hx. congruence.
Qed.

Lemma keyset_NoDup_delete (k : K) (s : KeySet.t K) : NoDup s -> NoDup (KeySet.delete k s).
Proof. apply NoDup_filter. Qed.
End KeySetFacts.

(** The turn of a story, with what it leaves of the globals. *)
Lemma process_story_globals (srv : server string) (storyId : string) (r : ScriptJs.run) :
  let token := ScriptJs.storyblokMapiToken (ScriptJs.st r) in
  let mods := Map.get storyId (ScriptJs.imageModifications (ScriptJs.st r)) in
  let r' := snd (fst (ScriptJs.process_story srv storyId r)) in
  ScriptJs.changedStories (ScriptJs.st r')
  = (if turn_keeps token srv storyId mods then ScriptJs.changedStories (ScriptJs.st r)
     else KeySet.delete storyId (ScriptJs.changedStories (ScriptJs.st r)))
  /\ ScriptJs.imageModifications (ScriptJs.st r')
     = (if turn_clears token srv storyId mods
        then Map.delete storyId (ScriptJs.imageModifications (ScriptJs.st r))
        else ScriptJs.imageModifications (ScriptJs.st r))
  /\ ScriptJs.sendToServerButton_hidden (ScriptJs.st r')
     = ScriptJs.sendToServerButton_hidden (ScriptJs.st r)
  /\ ScriptJs.allLoadedStoriesContent (ScriptJs.st r')
     = ScriptJs.allLoadedStoriesContent (ScriptJs.st r).
Proof.
  cbv zeta. unfold turn_keeps, turn_clears, ScriptJs.process_story.
  rewrite mbind_gets.
  destruct (Map.get storyId (ScriptJs.imageModifications (ScriptJs.st r)))
    as [[|entry mods]|] eqn:Hmods.
  1, 3: mstep; unfold modify; cbn; repeat split.
  set (ms := entry :: mods).
  rewrite (mbind_stateless _ _ _ _ _ (fetchStoryblokApi_spec srv storyId r)).
  destruct (ask_get (ScriptJs.storyblokMapiToken (ScriptJs.st r)) srv storyId)
    as [response asked]. cbn [fst snd].
  unfold fetched_story.
  destruct response as [body|]; [destruct (truthy body) eqn:Hb|].
  2, 3: mstep; cbn [ScriptJs.falsy_response truthy negb orb]; rewrite ?Hb; cbn [negb orb];
        mstep; unfold modify; cbn; repeat split.
  destruct (truthy_get_prop body "story" Hb) as [story Hs]. rewrite Hs. mstep.
  cbn [ScriptJs.falsy_response]. rewrite Hb. cbn [negb orb].
  destruct (truthy story) eqn:Hst; cbn [negb].
  2: mstep; unfold modify; cbn; repeat split.
  destruct (truthy_get_prop story "content" Hst) as [content Hc].
  unfold content_of. rewrite Hc. mstep.
  rewrite (mbind_stateless _ _ _ _ _ (apply_entries_spec storyId ms content false r)).
  destruct (patch_story ms content false) as [[[content' applied]|e] missing]; cbn [fst snd].
  2: repeat split.
  destruct applied; cbn [negb].
  2: mstep; unfold modify; cbn; repeat split.
  rewrite (mbind_stateless _ _ _ _ _
             (putStoryblokApi_spec srv storyId (with_prop story "content" content') r)).
  destruct (ask_put (ScriptJs.storyblokMapiToken (ScriptJs.st r)) srv storyId
              (with_prop story "content" content')) as [answer sent]. cbn [fst snd].
  destruct (ScriptJs.falsy_response answer); cbn [negb].
  - unfold modify. cbn. repeat split.
  - mstep. unfold modify. cbn. repeat split.
Qed.

Lemma for_each_globals (srv : server string) (ids : list string) :
  NoDup ids ->
  forall r,
    let token := ScriptJs.storyblokMapiToken (ScriptJs.st r) in
    let mods := ScriptJs.imageModifications (ScriptJs.st r) in
    existsb (fun t => throws (fst t)) (all_turns token srv mods ids) = false ->
    let r' := snd (fst (for_each (ScriptJs.process_story srv) ids r)) in
    (forall id,
        KeySet.has id (ScriptJs.changedStories (ScriptJs.st r'))
        = KeySet.has id (ScriptJs.changedStories (ScriptJs.st r))
          && (negb (KeySet.has id ids) || turn_keeps token srv id (Map.get id mods)))
    /\ (forall id,
           Map.get id (ScriptJs.imageModifications (ScriptJs.st r'))
           = if KeySet.has id ids && turn_clears token srv id (Map.get id mods)
             then None else Map.get id mods)
    /\ ScriptJs.sendToServerButton_hidden (ScriptJs.st r')
       = ScriptJs.sendToServerButton_hidden (ScriptJs.st r)
    /\ (NoDup (ScriptJs.changedStories (ScriptJs.st r)) ->
        NoDup (ScriptJs.changedStories (ScriptJs.st r'))).
Proof.
  induction 1 as [|id0 ids Hnotin Hnd IH]; intros r; cbv zeta.
  - intros _. cbn. repeat split; auto. intros id. now rewrite andb_true_r.
  - cbn [all_turns map existsb]. intros Hno. apply orb_false_elim in Hno as [Ht Hrest].
    destruct (process_story_spec srv id0 r) as (r1 & Hrun & _ & _ & Htok & Hframe).
    pose proof (process_story_globals srv id0 r) as Hg. cbv zeta in Hg.
    rewrite Hrun in Hg. cbn [fst snd] in Hg. destruct Hg as (Hcs & Hmods & Hhid & _).
    cbn [for_each]. unfold mbind. rewrite Hrun.
    assert (Hok : result_of (fst (turn (ScriptJs.storyblokMapiToken (ScriptJs.st r)) srv id0
                                    (Map.get id0 (ScriptJs.imageModifications (ScriptJs.st r)))))
                  = Ok tt).
    { destruct (fst (turn _ srv id0 _)); try reflexivity. discriminate. }
    rewrite Hok. clear Hok Ht Hrun.
    specialize (IH r1). cbv zeta in IH. rewrite Htok in IH.
    assert (Hext : all_turns (ScriptJs.storyblokMapiToken (ScriptJs.st r)) srv
                     (ScriptJs.imageModifications (ScriptJs.st r1)) ids
                   = all_turns (ScriptJs.storyblokMapiToken (ScriptJs.st r)) srv
                       (ScriptJs.imageModifications (ScriptJs.st r)) ids).
    { unfold all_turns. apply map_ext_in. intros k Hk. rewrite Hframe; [reflexivity|].
      intros ->. contradiction. }
    rewrite Hext in IH. destruct (IH Hrest) as (IHcs & IHmods & IHhid & IHnd). clear IH.
    destruct (for_each (ScriptJs.process_story srv) ids r1) as [[res r2] evs].
    cbn [fst snd] in *.
    assert (Hn : KeySet.has id0 ids = false).
    { destruct (KeySet.has id0 ids) eqn:E; [|reflexivity].
      apply (keyset_has_In string_key_ok) in E. contradiction. }
    split; [|split; [|split]].
    + intros id. rewrite IHcs, Hcs. cbn [KeySet.has existsb]. fold (KeySet.has id ids).
      change (key_eqb id id0) with (id =? id0).
      destruct (String.eqb_spec id id0) as [->|Hne].
      * rewrite Hn. cbn [negb orb].
        destruct (turn_keeps _ srv id0 _); [now rewrite andb_true_r|].
        rewrite (keyset_has_delete string_key_ok).
        change (key_eqb id0 id0) with (id0 =? id0). rewrite String.eqb_refl.
        cbn [negb andb]. now rewrite andb_false_r.
      * rewrite (Hframe id Hne). cbn [orb].
        destruct (turn_keeps _ srv id0 _); [reflexivity|].
        rewrite (keyset_has_delete string_key_ok).
        change (key_eqb id id0) with (id =? id0).
        destruct (String.eqb_spec id id0) as [|_]; [contradiction|]. reflexivity.
    + intros id. rewrite IHmods. cbn [KeySet.has existsb]. fold (KeySet.has id ids).
      change (key_eqb id id0) with (id =? id0).
      destruct (String.eqb_spec id id0) as [->|Hne].
      * rewrite Hn. cbn [andb orb]. rewrite Hmods.
        destruct (turn_clears _ srv id0 _); [apply get_delete_same|reflexivity].
      * rewrite !(Hframe id Hne). reflexivity.
    + now rewrite IHhid.
    + intros Hndcs. apply IHnd. rewrite Hcs.
      destruct (turn_keeps _ srv id0 _); [assumption|now apply keyset_NoDup_delete].
Qed.

(** The globals after a confirmed run in which no turn throws. *)
Lemma click_globals (srv : server string) (s : ScriptJs.state) :
  NoDup (ScriptJs.changedStories s) ->
  ScriptJs.changedStories s <> [] ->
  existsb (fun t => throws (fst t))
    (all_turns (ScriptJs.storyblokMapiToken s) srv (ScriptJs.imageModifications s)
       (ScriptJs.changedStories s)) = false ->
  let s' := globals_after (ScriptJs.click true srv s) in
  (forall id,
      KeySet.has id (ScriptJs.changedStories s')
      = KeySet.has id (ScriptJs.changedStories s)
        && turn_keeps (ScriptJs.storyblokMapiToken s) srv id
             (Map.get id (ScriptJs.imageModifications s)))
  /\ (forall id,
         Map.get id (ScriptJs.imageModifications s')
         = if KeySet.has id (ScriptJs.changedStories s)
              && turn_clears (ScriptJs.storyblokMapiToken s) srv id
                   (Map.get id (ScriptJs.imageModifications s))
           then None else Map.get id (ScriptJs.imageModifications s))
  /\ ScriptJs.sendToServerButton_hidden s'
     = (if (List.length (ScriptJs.changedStories s') =? 0)%nat then true
        else ScriptJs.sendToServerButton_hidden s)
  /\ NoDup (ScriptJs.changedStories s').
Proof.
  intros Hnd Hne Hno. cbv zeta. unfold globals_after, ScriptJs.click, ScriptJs.sendToServer.
  rewrite mbind_gets. cbn [ScriptJs.st].
  destruct (for_each_globals srv (ScriptJs.changedStories s) Hnd (fresh_run s) Hno)
    as (Hcs & Hmods & Hhid & Hnd').
  destruct (for_each_process_spec srv (ScriptJs.changedStories s) Hnd (fresh_run s))
    as (r1 & Hrun & _).
  cbn [fresh_run ScriptJs.st] in *.
  destruct (story_turns_all _ _ _ _ Hno) as [Hall Hout].
  rewrite Hall, Hout in Hrun. unfold fresh_run in *. rewrite Hrun in *. cbn [fst snd] in *.
  destruct (ScriptJs.changedStories s) as [|id0 ids] eqn:Hids; [congruence|].
  cbn [List.length Nat.eqb negb].
  match goal with |- context [snd (fst ?x)] =>
    assert (Hr : snd (fst x) = ScriptJs.on_state ScriptJs.hide_if_none r1)
      by (unfold mbind at 1; rewrite Hrun; mstep; reflexivity);
    rewrite !Hr
  end.
  cbn [ScriptJs.on_state ScriptJs.st ScriptJs.hide_if_none
    ScriptJs.with_tracker ScriptJs.changedStories ScriptJs.imageModifications
    ScriptJs.sendToServerButton_hidden].
  split; [|split; [|split]].
  - intros id. rewrite Hcs.
    destruct (KeySet.has id (id0 :: ids)); [reflexivity|]. reflexivity.
  - exact Hmods.
  - now rewrite Hhid.
  - apply Hnd'. assumption.
Qed.

Lemma not_found_about (id storyId : string) (missing : list string) :
  forallb (about id) (not_found storyId missing) = true
  /\ existsb safeguard (not_found storyId missing) = false.
Proof. unfold not_found. induction missing as [|i l [IH1 IH2]]; split; simpl; auto. Qed.

Lemma turn_about (token : string) (srv : server string) (storyId : string)
  (mods : option (Map.t string ScriptJs.modification)) :
  forallb (about storyId) (snd (turn token srv storyId mods)) = true.
Proof.
  unfold turn. destruct mods as [[|entry ms]|]; try reflexivity.
  assert (Hget : forallb (about storyId) (snd (ask_get token srv storyId)) = true).
  { unfold ask_get. destruct (token =? ""); [reflexivity|].
    destruct (answered _); simpl; now rewrite String.eqb_refl. }
  destruct (ask_get token srv storyId) as [response asked]. cbn [snd] in Hget.
  destruct (fetched_story response) as [story|]; cbn [snd].
  2:{ now rewrite forallb_app, Hget. }
  destruct (patch_story (entry :: ms) (content_of story) false)
    as [[[content [|]]|e] missing]; cbn [snd].
  - assert (Hput : forallb (about storyId)
                     (snd (ask_put token srv storyId (with_prop story "content" content)))
                   = true).
    { unfold ask_put. destruct (token =? ""); [reflexivity|].
      destruct (answered _); simpl; now rewrite String.eqb_refl. }
    destruct (ask_put token srv storyId _) as [answer sent]. cbn [snd] in *.
    now rewrite !forallb_app, Hget, (proj1 (not_found_about _ _ _)), Hput.
  - now rewrite !forallb_app, Hget, (proj1 (not_found_about _ _ _)).
  - now rewrite !forallb_app, Hget, (proj1 (not_found_about _ _ _)).
Qed.

Lemma turn_no_safeguard (token : string) (srv : server string) (storyId : string)
  (entry : string * ScriptJs.modification) (ms : Map.t string ScriptJs.modification) :
  existsb safeguard (snd (turn token srv storyId (Some (entry :: ms)))) = false.
Proof.
  unfold turn.
  assert (Hget : existsb safeguard (snd (ask_get token srv storyId)) = false).
  { unfold ask_get. destruct (token =? ""); [reflexivity|].
    destruct (answered _); reflexivity. }
  destruct (ask_get token srv storyId) as [response asked]. cbn [snd] in Hget.
  destruct (fetched_story response) as [story|]; cbn [snd].
  2:{ now rewrite existsb_app, Hget. }
  destruct (patch_story (entry :: ms) (content_of story) false)
    as [[[content [|]]|e] missing]; cbn [snd].
  - assert (Hput : existsb safeguard
                     (snd (ask_put token srv storyId (with_prop story "content" content)))
                   = false).
    { unfold ask_put. destruct (token =? ""); [reflexivity|].
      destruct (answered _); reflexivity. }
    destruct (ask_put token srv storyId _) as [answer sent]. cbn [snd] in *.
    now rewrite !existsb_app, Hget, (proj2 (not_found_about storyId _ _)), Hput.
  - now rewrite !existsb_app, Hget, (proj2 (not_found_about storyId _ _)).
  - now rewrite !existsb_app, Hget, (proj2 (not_found_about storyId _ _)).
Qed.

(** Every event of a run belongs to the turn of a story to process, the
    last alert apart. *)
Lemma click_event_inv (confirmed : bool) (srv : server string) (s : ScriptJs.state)
  (ev : ScriptJs.event) :
  NoDup (ScriptJs.changedStories s) ->
  In ev (events (ScriptJs.click confirmed srv s)) ->
  (exists d, ev = ScriptJs.Alert d)
  \/ exists id,
       In id (ScriptJs.changedStories s)
       /\ In ev (snd (turn (ScriptJs.storyblokMapiToken s) srv id
                        (Map.get id (ScriptJs.imageModifications s)))).
Proof.
  intros Hnd. rewrite (click_events confirmed srv s Hnd).
  destruct (ScriptJs.changedStories s) as [|id0 ids] eqn:E.
  { intros [<-|[]]. left. eauto. }
  destruct confirmed; [|intros []]. rewrite <- E. intros Hin.
  apply in_app_or in Hin as [Hin|Hin].
  - right. destruct (story_turns_segment _ _ _ _ _ Hin) as (id & _ & _ & Hid & Hev & _).
    exists id. split; assumption.
  - left. unfold report in Hin. destruct (outcome _); [|destruct Hin].
    destruct Hin as [<-|[]]. eauto.
Qed.

Lemma click_gets (confirmed : bool) (srv : server string) (s : ScriptJs.state) (id : string) :
  NoDup (ScriptJs.changedStories s) ->
  KeySet.has id (ScriptJs.changedStories s) = false ->
  existsb (concerns id) (events (ScriptJs.click confirmed srv s)) = false.
Proof.
  intros Hnd Hid.
  destruct (existsb _ (events (ScriptJs.click confirmed srv s))) eqn:E; [|reflexivity].
  exfalso. apply existsb_exists in E as (ev & Hin & Hev).
  destruct (click_event_inv confirmed srv s ev Hnd Hin) as [[d ->]|(sid & Hsid & Hturn)].
  { discriminate. }
  pose proof (turn_about (ScriptJs.storyblokMapiToken s) srv sid
                (Map.get sid (ScriptJs.imageModifications s))) as Hab.
  rewrite forallb_forall in Hab. specialize (Hab ev Hturn).
  assert (Hne : sid <> id).
  { intros ->. apply (keyset_has_In string_key_ok) in Hsid. congruence. }
  destruct ev as [i|i body|d|d]; simpl in *; try discriminate.
  - apply String.eqb_eq in Hab, Hev. congruence.
  - apply String.eqb_eq in Hab, Hev. congruence.
Qed.

(** A story whose GET gets no 2xx answer leaves [changedStories] though it
    was not written, while its edits stay in [imageModifications]: the next
    click sends no request for it. *)
Theorem failed_fetch_unmarks_story (srv : server string) (s : ScriptJs.state) (id : string)
  (entry : string * ScriptJs.modification) (ms : Map.t string ScriptJs.modification) :
  NoDup (ScriptJs.changedStories s) ->
  existsb (fun t => throws (fst t))
    (all_turns (ScriptJs.storyblokMapiToken s) srv (ScriptJs.imageModifications s)
       (ScriptJs.changedStories s)) = false ->
  In id (ScriptJs.changedStories s) ->
  Map.get id (ScriptJs.imageModifications s) = Some (entry :: ms) ->
  answered (on_get srv id) = None ->
  KeySet.has id (ScriptJs.changedStories (globals_after (ScriptJs.click true srv s))) = false
  /\ Map.get id (ScriptJs.imageModifications (globals_after (ScriptJs.click true srv s)))
     = Some (entry :: ms)
  /\ (forall confirmed srv',
         existsb (concerns id)
           (events (ScriptJs.click confirmed srv' (globals_after (ScriptJs.click true srv s))))
         = false).
Proof.
  intros Hnd Hno Hid Hms Hget.
  assert (Hne : ScriptJs.changedStories s <> []) by (intros E; rewrite E in Hid; destruct Hid).
  destruct (click_globals srv s Hnd Hne Hno) as (Hcs & Hmods & _ & Hnd').
  assert (Hk : turn_keeps (ScriptJs.storyblokMapiToken s) srv id
                 (Map.get id (ScriptJs.imageModifications s)) = false
               /\ turn_clears (ScriptJs.storyblokMapiToken s) srv id
                    (Map.get id (ScriptJs.imageModifications s)) = false).
  { rewrite Hms. unfold turn_keeps, turn_clears, ask_get. rewrite Hget.
    destruct (_ =? ""); split; reflexivity. }
  destruct Hk as [Hkeeps Hclears].
  assert (Hout : KeySet.has id
                   (ScriptJs.changedStories (globals_after (ScriptJs.click true srv s)))
                 = false).
  { rewrite Hcs, Hkeeps. apply andb_false_r. }
  split; [exact Hout|]. split.
  - rewrite Hmods, Hclears, andb_false_r. exact Hms.
  - intros confirmed srv'. now apply click_gets.
Qed.

Lemma failed_fetch_unmarks_story_witness :
  KeySet.has "11"
    (ScriptJs.changedStories (globals_after (ScriptJs.click true failing_11 two_stories))) = false
  /\ Map.get "11"
       (ScriptJs.imageModifications (globals_after (ScriptJs.click true failing_11 two_stories)))
     = Some [("A1", edit "old.jpg" "old" "new.jpg" "old")]
  /\ existsb (concerns "11")
       (events (ScriptJs.click true (healthy by_name)
                  (globals_after (ScriptJs.click true failing_11 two_stories)))) = false.
Proof.
  destruct (failed_fetch_unmarks_story failing_11 two_stories "11"
              ("A1", edit "old.jpg" "old" "new.jpg" "old") []) as (A & B & C).
  - repeat constructor; simpl; intuition discriminate.
  - reflexivity.
  - now left.
  - reflexivity.
  - reflexivity.
  - split; [exact A|]. split; [exact B|]. apply C.
Defined.

(** A story whose PUT gets no 2xx answer (or one with a falsy body) stays
    in [changedStories] with its edits; one whose PUT is answered leaves
    both. *)
Theorem put_answer_decides_marks (srv : server string) (s : ScriptJs.state) (id : string)
  (ms : Map.t string ScriptJs.modification) (story content : json) (missing : list string) :
  NoDup (ScriptJs.changedStories s) ->
  existsb (fun t => throws (fst t))
    (all_turns (ScriptJs.storyblokMapiToken s) srv (ScriptJs.imageModifications s)
       (ScriptJs.changedStories s)) = false ->
  In id (ScriptJs.changedStories s) ->
  ScriptJs.storyblokMapiToken s <> "" ->
  Map.get id (ScriptJs.imageModifications s) = Some ms ->
  fetched_story (answered (on_get srv id)) = Some story ->
  patch_story ms (content_of story) false = (Ok (content, true), missing) ->
  let answer := answered (on_put srv id (with_prop story "content" content)) in
  let s' := globals_after (ScriptJs.click true srv s) in
  KeySet.has id (ScriptJs.changedStories s') = ScriptJs.falsy_response answer
  /\ Map.get id (ScriptJs.imageModifications s')
     = (if ScriptJs.falsy_response answer then Some ms else None).
Proof.
  intros Hnd Hno Hid Htoken Hms Hstory Hpatch. cbv zeta.
  assert (Hne : ScriptJs.changedStories s <> []) by (intros E; rewrite E in Hid; destruct Hid).
  destruct (click_globals srv s Hnd Hne Hno) as (Hcs & Hmods & _).
  assert (Hin : KeySet.has id (ScriptJs.changedStories s) = true)
    by now apply (keyset_has_In string_key_ok).
  assert (Hms' : ms <> []) by (intros ->; cbn in Hpatch; discriminate).
  assert (Hk : turn_keeps (ScriptJs.storyblokMapiToken s) srv id (Some ms)
               = ScriptJs.falsy_response
                   (answered (on_put srv id (with_prop story "content" content)))
               /\ turn_clears (ScriptJs.storyblokMapiToken s) srv id (Some ms)
                  = negb (ScriptJs.falsy_response
                            (answered (on_put srv id (with_prop story "content" content))))).
  { unfold turn_keeps, turn_clears, ask_get, ask_put.
    destruct ms as [|entry ms]; [contradiction|].
    destruct (ScriptJs.storyblokMapiToken s =? "") eqn:E;
      [apply String.eqb_eq in E; contradiction|].
    destruct (answered (on_get srv id)) as [response|]; [|discriminate].
    cbn [fst]. rewrite Hstory, Hpatch.
    destruct (answered (on_put srv id (with_prop story "content" content))); split; reflexivity. }
  destruct Hk as [Hkeeps Hclears]. rewrite Hcs, Hmods, Hms, Hin, Hkeeps, Hclears.
  cbn [andb]. split; [reflexivity|].
  destruct (ScriptJs.falsy_response _); reflexivity.
Qed.

Lemma put_answer_decides_marks_witness :
  KeySet.has "11"
    (ScriptJs.changedStories (globals_after (ScriptJs.click true refusing_11 two_stories))) = true
  /\ Map.get "11"
       (ScriptJs.imageModifications (globals_after (ScriptJs.click true refusing_11 two_stories)))
     = Some [("A1", edit "old.jpg" "old" "new.jpg" "old")].
Proof.
  apply (put_answer_decides_marks refusing_11 two_stories "11"
           [("A1", edit "old.jpg" "old" "new.jpg" "old")] story_11
           (fst (match fst (patch_story [("A1", edit "old.jpg" "old" "new.jpg" "old")]
                             (content_of story_11) false) with
                 | Ok x => x
                 | Throw _ => (JNull, false)
                 end)) []).
  - repeat constructor; simpl; intuition discriminate.
  - reflexivity.
  - now left.
  - discriminate.
  - reflexivity.
  - reflexivity.
  - reflexivity.
Defined.

(** ** The tracker of script.js and the send handler *)

Lemma map_set_not_nil {V : Type} (k : string) (v : V) (m : Map.t string V) :
  Map.set k v m <> [].
Proof. destruct m as [|[k' v'] m]; simpl; [discriminate|]. destruct (key_eqb k' k); discriminate. Qed.

Lemma handleInputChange_in_sync (r : ScriptJs.row) (s : ScriptJs.state) :
  in_sync s -> in_sync (ScriptJs.handleInputChange r s).
Proof.
  intros (Hnd & Hsame & Hfull). unfold ScriptJs.handleInputChange.
  set (sid := ScriptJs.actualStoryId r).
  set (im := if Map.has sid (ScriptJs.imageModifications s) then ScriptJs.imageModifications s
             else Map.set sid [] (ScriptJs.imageModifications s)).
  assert (Him : forall id, id <> sid ->
            Map.get id im = Map.get id (ScriptJs.imageModifications s)).
  { intros id Hne. unfold im. destruct (Map.has sid _); [reflexivity|].
    apply (get_set_other string_key_ok). congruence. }
  assert (Hhas : forall (m : Map.t string (Map.t string ScriptJs.modification)) id,
            Map.has id m = match Map.get id m with Some _ => true | None => false end)
    by reflexivity.
  destruct (negb _ || negb _).
  - unfold in_sync. cbn [ScriptJs.with_tracker ScriptJs.changedStories ScriptJs.imageModifications].
    split; [|split].
    + now apply (keyset_NoDup_add string_key_ok).
    + intros id. rewrite (keyset_has_add string_key_ok), (has_set string_key_ok).
      change (key_eqb id sid) with (id =? sid). change (key_eqb sid id) with (sid =? id).
      rewrite (String.eqb_sym sid id).
      destruct (String.eqb_spec id sid) as [->|Hne]; [reflexivity|]. cbn [orb].
      rewrite Hsame, !Hhas, (Him id Hne). reflexivity.
    + intros id. destruct (String.eqb_spec id sid) as [->|Hne].
      * rewrite (get_set_same string_key_ok). intros [= E].
        exact (map_set_not_nil _ _ _ E).
      * rewrite (get_set_other string_key_ok) by congruence. rewrite (Him id Hne).
        apply Hfull.
  - set (storyMods' := Map.delete (ScriptJs.imageBynderId r)
                         match Map.get sid im with Some m => m | None => [] end).
    destruct (Map.size storyMods' =? 0)%nat eqn:Hsize; unfold in_sync;
      cbn [ScriptJs.with_tracker ScriptJs.changedStories ScriptJs.imageModifications].
    + split; [|split].
      * now apply keyset_NoDup_delete.
      * intros id. rewrite (keyset_has_delete string_key_ok), (has_delete string_key_ok).
        change (key_eqb id sid) with (id =? sid). change (key_eqb sid id) with (sid =? id).
        rewrite (String.eqb_sym sid id).
        destruct (String.eqb_spec id sid) as [->|Hne]; [reflexivity|]. cbn [negb andb].
        rewrite (has_set string_key_ok). change (key_eqb sid id) with (sid =? id).
        destruct (String.eqb_spec sid id) as [E|_]; [congruence|]. cbn [orb].
        rewrite Hsame, !Hhas, (Him id Hne). reflexivity.
      * intros id. destruct (String.eqb_spec id sid) as [->|Hne].
        -- rewrite get_delete_same. discriminate.
        -- rewrite (get_delete_other string_key_ok) by congruence.
           rewrite (get_set_other string_key_ok) by congruence. rewrite (Him id Hne).
           apply Hfull.
    + assert (Hpresent : Map.has sid (ScriptJs.imageModifications s) = true).
      { destruct (Map.has sid (ScriptJs.imageModifications s)) eqn:E; [reflexivity|].
        exfalso. unfold storyMods', im in Hsize. rewrite ?E in Hsize.
        rewrite (get_set_same string_key_ok) in Hsize. discriminate. }
      split; [|split].
      * assumption.
      * intros id. rewrite (has_set string_key_ok). change (key_eqb sid id) with (sid =? id).
        destruct (String.eqb_spec sid id) as [<-|Hne]; cbn [orb].
        -- now rewrite Hsame.
        -- rewrite Hsame, !Hhas, (Him id) by congruence. reflexivity.
      * intros id. destruct (String.eqb_spec id sid) as [->|Hne].
        -- rewrite (get_set_same string_key_ok). intros [= E]. rewrite E in Hsize.
           discriminate.
        -- rewrite (get_set_other string_key_ok) by congruence. rewrite (Him id Hne).
           apply Hfull.
Qed.

(** The two globals of the tracker stay in sync under [change] events. *)
Theorem tracker_stays_in_sync (evs : list (nat * ScriptJs.field * string)) (pg : ScriptJs.page) :
  in_sync (ScriptJs.app pg) -> in_sync (ScriptJs.app (ScriptJs.changes evs pg)).
Proof.
  unfold ScriptJs.changes. revert pg. induction evs as [|ev evs IH]; intros pg H; [exact H|].
  cbn [fold_left]. apply IH. unfold ScriptJs.change.
  destruct (nth_error (ScriptJs.rows pg) (fst (fst ev))); [|exact H].
  cbn [ScriptJs.app]. now apply handleInputChange_in_sync.
Qed.

Lemma tracker_stays_in_sync_witness :
  in_sync (ScriptJs.app (ScriptJs.changes
                           [(0, ScriptJs.FileName, "New.jpg"); (1, ScriptJs.AltText, "a tug at sea");
                            (0, ScriptJs.FileName, "Old.jpg")] fresh_page)).
Proof.
  apply (tracker_stays_in_sync
           [(0, ScriptJs.FileName, "New.jpg"); (1, ScriptJs.AltText, "a tug at sea");
            (0, ScriptJs.FileName, "Old.jpg")] fresh_page).
  split; [constructor|]. split; [reflexivity|]. discriminate.
Defined.

(** From globals in sync the send handler never meets a story to process
    without modifications. *)
Theorem safeguard_not_reached (confirmed : bool) (srv : server string) (s : ScriptJs.state) :
  in_sync s ->
  existsb safeguard (events (ScriptJs.click confirmed srv s)) = false.
Proof.
  intros (Hnd & Hsame & Hfull).
  destruct (existsb safeguard (events (ScriptJs.click confirmed srv s))) eqn:E; [|reflexivity].
  exfalso. apply existsb_exists in E as (ev & Hin & Hev).
  destruct (click_event_inv confirmed srv s ev Hnd Hin) as [[d ->]|(id & Hid & Hturn)].
  { discriminate. }
  apply (keyset_has_In string_key_ok) in Hid. rewrite Hsame in Hid. unfold Map.has in Hid.
  destruct (Map.get id (ScriptJs.imageModifications s)) as [[|entry ms]|] eqn:Hms;
    try discriminate.
  { now apply (Hfull id). }
  pose proof (turn_no_safeguard (ScriptJs.storyblokMapiToken s) srv id entry ms) as Hno.
  assert (existsb safeguard
            (snd (turn (ScriptJs.storyblokMapiToken s) srv id (Some (entry :: ms)))) = true).
  { apply existsb_exists. exists ev. split; assumption. }
  congruence.
Qed.

Lemma safeguard_not_reached_witness :
  existsb safeguard (events (ScriptJs.click true (healthy by_name) two_stories)) = false.
Proof.
  apply (safeguard_not_reached true (healthy by_name) two_stories).
  split; [repeat constructor; simpl; intuition discriminate|]. split.
  - intros id. unfold KeySet.has, Map.has, two_stories, pending, key_eqb, string_Key.
    cbn [ScriptJs.changedStories ScriptJs.imageModifications map fst existsb Map.get].
    unfold key_eqb, string_Key.
    rewrite (String.eqb_sym "11" id), (String.eqb_sym "12" id).
    destruct (id =? "11"); [reflexivity|]. destruct (id =? "12"); reflexivity.
  - intros id. unfold two_stories, pending.
    cbn [ScriptJs.imageModifications Map.get]. unfold key_eqb, string_Key.
    destruct ("11" =? id); [discriminate|]. destruct ("12" =? id); discriminate.
Defined.

(** ** The globals after a run of the second variant *)

Lemma fetch_all_exn (token : string) (srv : server Z)
  (pending : list ((Z * string) * Part000.modification)) :
  forall stories e gets,
    fetch_all token srv pending stories = (Throw e, gets) -> e <> NotModelled.
Proof.
  induction pending as [|entry rest IH]; intros stories e gets; cbn [fetch_all].
  - discriminate.
  - destruct (Map.has _ stories); [apply IH|].
    unfold ask. destruct (token =? ""); [intros [= <- _]; discriminate|].
    destruct (answered _) as [response|]; [|intros [= <- _]; discriminate].
    destruct response; cbn [get_prop];
      try (intros [= <- _]; discriminate);
      match goal with
      | |- context [fetch_all token srv rest ?m] =>
          destruct (fetch_all token srv rest m) as [r evs] eqn:Hf;
          intros [= -> _]; exact (IH _ _ _ Hf)
      end.
Qed.

(** A pending story whose GET gets no 2xx answer makes the first loop
    throw. *)
Lemma fetch_all_fails (token : string) (srv : server Z)
  (pending : list ((Z * string) * Part000.modification))
  (entry : (Z * string) * Part000.modification) :
  In entry pending ->
  answered (on_get srv (Part000.storyId (snd entry))) = None ->
  exists e gets, fetch_all token srv pending [] = (Throw e, gets) /\ e <> NotModelled.
Proof.
  intros Hin Hget.
  destruct (fetch_all token srv pending []) as [[stories|e] gets] eqn:Hf.
  - exfalso. destruct (fetch_all_inv _ _ _ _ _ _ Hf) as (_ & Hserved & _ & Hall).
    specialize (Hall entry Hin). unfold Map.has in Hall.
    destruct (Map.get (Part000.storyId (snd entry)) stories) as [story|] eqn:Hs;
      [|discriminate].
    destruct (Hserved _ _ Hs) as [Hold|[_ Hsrv]]; [discriminate|].
    unfold served in Hsrv. rewrite Hget in Hsrv. discriminate.
  - exists e, gets. split; [reflexivity|]. eapply fetch_all_exn; eassumption.
Qed.

Lemma send_fetch_failed (srv : server Z) (st : Part000.state) (e : exn)
  (gets : list Part000.event) :
  Part000.modifiedImages st <> [] ->
  fetch_all (Part000.storyblokMapiToken st) srv (Part000.modifiedImages st) [] = (Throw e, gets) ->
  e <> NotModelled ->
  Part000.sendModificationsToServer srv st
  = (Ok tt, Part000.set_disabled false st, gets ++ [Part000.ShowModal Part000.SendFailed]).
Proof.
  intros Hne Hf He. unfold Part000.sendModificationsToServer. rewrite mbind_gets.
  destruct (Part000.modifiedImages st) as [|entry rest] eqn:Hp; [contradiction|].
  cbn [Map.size List.length Nat.eqb]. rewrite mbind_modify.
  set (st0 := Part000.set_disabled true st).
  assert (Hf0 : fetch_all (Part000.storyblokMapiToken st0) srv (entry :: rest) []
                = (Throw e, gets)) by exact Hf.
  unfold mbind at 1. rewrite try_catch_spec.
  rewrite (mbind_run _ _ _ _ _ _ (fetch_loop_spec srv (entry :: rest) [] st0)).
  rewrite Hf0. cbn [fst snd].
  destruct e as [|why|]; [| |contradiction];
    cbn [emit modify fst snd]; unfold Part000.refresh_button, st0;
    cbn [Part000.modifiedImages Part000.set_disabled]; rewrite Hp;
    cbn [Map.size List.length Nat.eqb]; rewrite app_nil_r; reflexivity.
Qed.

Ltac no_success H :=
  exfalso; cbn [emit modify fst snd app] in H; rewrite ?app_nil_r in H;
  repeat (apply in_app_or in H as [H|H]);
  try (eapply plain_not_sent; eauto; fail);
  try contradiction;
  repeat (destruct H as [H|H]; try discriminate); try contradiction.

Lemma send_done (srv : server Z) (st : Part000.state) :
  In (Part000.ShowModal Part000.ChangesSent)
     (events (Part000.sendModificationsToServer srv st)) ->
  Part000.modifiedImages (snd (fst (Part000.sendModificationsToServer srv st))) = []
  /\ Part000.sendToServerBtn_disabled (snd (fst (Part000.sendModificationsToServer srv st)))
     = true.
Proof.
  unfold events. remember (Part000.sendModificationsToServer srv st) as x eqn:Hx.
  unfold Part000.sendModificationsToServer in Hx. rewrite mbind_gets in Hx.
  destruct (Part000.modifiedImages st) as [|entry rest] eqn:Hp.
  { subst x. intros [H|[]]. discriminate. }
  cbn [Map.size List.length Nat.eqb] in Hx. rewrite mbind_modify in Hx.
  set (pending := entry :: rest) in *.
  set (st0 := Part000.set_disabled true st) in *.
  unfold mbind at 1 in Hx. rewrite try_catch_spec in Hx.
  pose proof (fetch_all_plain (Part000.storyblokMapiToken st0) srv pending []) as Hgets.
  rewrite (mbind_run _ _ _ _ _ _ (fetch_loop_spec srv pending [] st0)) in Hx.
  destruct (fetch_all (Part000.storyblokMapiToken st0) srv pending []) as [[stories|e] gets];
    cbn [fst snd] in *.
  2:{ subst x. intros H. destruct e; no_success H. }
  destruct (apply_loop_spec pending stories st0) as (st1 & Hrun & Htok1 & _).
  rewrite (mbind_run _ _ _ _ _ _ Hrun) in Hx.
  destruct (apply_all pending stories) as [stories'|e]; cbn [fst snd] in Hx.
  2:{ subst x. intros H. destruct e; no_success H. }
  rewrite (mbind_run _ _ _ _ _ _ (put_loop_spec srv stories' st1)) in Hx.
  destruct (put_all_inv (Part000.storyblokMapiToken st1) srv stories')
    as (_ & _ & _ & _ & Hmodal).
  destruct (put_all (Part000.storyblokMapiToken st1) srv stories') as [[[]|e] puts];
    cbn [fst snd] in *.
  2:{ subst x. intros H. destruct e; no_success H. }
  intros _. revert Hx. mstep.
  destruct (get_prop (Part000.currentStoryData (Part000.set_modifiedImages [] st1)) "story")
    as [story|e] eqn:Hs.
  2:{ apply get_prop_exn in Hs. subst e. rewrite mbind_lift_Throw. cbn [fst snd].
      intros ->. split; reflexivity. }
  rewrite mbind_lift_Ok. destruct (get_prop story "id") as [id|e] eqn:Hi.
  2:{ apply get_prop_exn in Hi. subst e. rewrite mbind_lift_Throw. cbn [fst snd].
      intros ->. split; reflexivity. }
  rewrite mbind_lift_Ok. intros ->. split; reflexivity.
Qed.

(** In the second variant a run in which the GET of a pending story gets no
    2xx answer leaves every pending edit as it was and the send button
    enabled; a run that shows the modal of success leaves no pending edit
    and the button disabled. *)
Theorem pending_edits_after_send (srv : server Z) (st : Part000.state) :
  (forall entry,
      In entry (Part000.modifiedImages st) ->
      answered (on_get srv (Part000.storyId (snd entry))) = None ->
      snd (fst (Part000.sendModificationsToServer srv st)) = Part000.set_disabled false st)
  /\ (In (Part000.ShowModal Part000.ChangesSent)
         (events (Part000.sendModificationsToServer srv st)) ->
      Part000.modifiedImages (snd (fst (Part000.sendModificationsToServer srv st))) = []
      /\ Part000.sendToServerBtn_disabled
           (snd (fst (Part000.sendModificationsToServer srv st))) = true).
Proof.
  split; [|apply send_done].
  intros entry Hin Hget.
  destruct (fetch_all_fails (Part000.storyblokMapiToken st) srv _ entry Hin Hget)
    as (e & gets & Hf & He).
  rewrite (send_fetch_failed srv st e gets); [reflexivity| |assumption|assumption].
  intros E. rewrite E in Hin. destruct Hin.
Qed.

Lemma pending_edits_after_send_witness :
  snd (fst (Part000.sendModificationsToServer failing_11_z two_stories_z))
  = Part000.set_disabled false two_stories_z
  /\ Part000.modifiedImages
       (snd (fst (Part000.sendModificationsToServer (healthy by_number) two_edits_z))) = []
  /\ Part000.sendToServerBtn_disabled
       (snd (fst (Part000.sendModificationsToServer (healthy by_number) two_edits_z))) = true.
Proof.
  split.
  - destruct (pending_edits_after_send failing_11_z two_stories_z) as [A _].
    apply (A (edit_z 11 "u1" "old.jpg" "old" "new.jpg" "old")); [now left|reflexivity].
  - destruct (pending_edits_after_send (healthy by_number) two_edits_z) as [_ B].
    apply B. vm_compute. repeat (first [now left | right]).
Defined.

(** ** Requests need a token *)

Lemma turn_no_token (srv : server string) (storyId : string)
  (mods : option (Map.t string ScriptJs.modification)) :
  existsb js_request (snd (turn "" srv storyId mods)) = false.
Proof. unfold turn. destruct mods as [[|entry ms]|]; reflexivity. Qed.

(** Without a token neither handler sends a request. *)
Theorem no_token_no_request :
  (forall confirmed srv s,
      NoDup (ScriptJs.changedStories s) ->
      ScriptJs.storyblokMapiToken s = "" ->
      existsb js_request (events (ScriptJs.click confirmed srv s)) = false)
  /\ (forall srv st,
         Part000.storyblokMapiToken st = "" ->
         events (Part000.sendModificationsToServer srv st)
         = match Part000.modifiedImages st with
           | [] => [Part000.ShowModal Part000.NoChangesToSend]
           | _ => [Part000.ShowModal Part000.SendFailed]
           end).
Proof.
  split.
  - intros confirmed srv s Hnd Htoken.
    destruct (existsb js_request (events (ScriptJs.click confirmed srv s))) eqn:E; [|reflexivity].
    exfalso. apply existsb_exists in E as (ev & Hin & Hev).
    destruct (click_event_inv confirmed srv s ev Hnd Hin) as [[d ->]|(id & _ & Hturn)].
    { discriminate. }
    rewrite Htoken in Hturn.
    pose proof (turn_no_token srv id (Map.get id (ScriptJs.imageModifications s))) as Hno.
    assert (existsb js_request (snd (turn "" srv id (Map.get id (ScriptJs.imageModifications s))))
            = true) by (apply existsb_exists; exists ev; split; assumption).
    congruence.
  - intros srv st Htoken. unfold events. rewrite send_spec, Htoken. unfold send_events.
    destruct (Part000.modifiedImages st) as [|entry rest]; reflexivity.
Qed.

Lemma no_token_no_request_witness :
  existsb js_request (events (ScriptJs.click true (healthy by_name) (logged_out two_stories)))
  = false
  /\ events (Part000.sendModificationsToServer (healthy by_number) (logged_out_z two_edits_z))
     = [Part000.ShowModal Part000.SendFailed].
Proof.
  destruct no_token_no_request as [A B]. split.
  - apply (A true (healthy by_name) (logged_out two_stories)); [|reflexivity].
    repeat constructor; simpl; intuition discriminate.
  - apply (B (healthy by_number) (logged_out_z two_edits_z)). reflexivity.
Defined.

(** ** Lookup by identifier *)

Lemma id_test_spec (id : string) (n : json) :
  is_node n = true ->
  ScriptJs.id_test id n
  = match malformed n with
    | Some e => Throw e
    | None => Ok (has_id id n)
    end.
Proof.
  destruct n as [| | | | |items|props]; try discriminate; intros _; [reflexivity|].
  unfold ScriptJs.id_test, malformed, has_id, tagged, image_of; simpl.
  destruct (strict_eq_str (lookup "component" props) "bynder_image"); simpl; [|reflexivity].
  destruct (lookup "image" props) as [| |b|z|s|l|ip]; simpl; try reflexivity.
  - destruct b; reflexivity.
  - destruct (z =? 0)%Z; reflexivity.
  - destruct s; reflexivity.
  - destruct l as [|d r]; [reflexivity|].
    cbn. destruct d; reflexivity.
  - destruct (lookup "length" ip) as [| |b|z|s|l|lp]; simpl; try reflexivity.
    + destruct b; simpl; [|reflexivity]. destruct (lookup "0" ip); reflexivity.
    + destruct (0 <? z)%Z; simpl; [|reflexivity]. destruct (lookup "0" ip); reflexivity.
Qed.

Lemma find_first_app (id : string) (l1 l2 : list json) :
  find_first id (l1 ++ l2)
  = match find_first id l1 with
    | Ok None => find_first id l2
    | r => r
    end.
Proof.
  induction l1 as [|n l1 IH]; simpl; [reflexivity|].
  destruct (malformed n); [reflexivity|]. destruct (has_id id n); [reflexivity|]. exact IH.
Qed.

Section FirstFoundSpec.
Context {A : Type}.
Variable id : string.
Variable visit : A -> result (option path).
Variable g : A -> json.

Lemma first_found_spec (l : list A) :
  Forall (fun x => agrees (fun p => node_at p (g x)) (visit x) (find_first id (nodes (g x)))) l ->
  forall i,
    agrees (resolve g i l) (first_found visit i l)
      (find_first id (flat_map (fun x => nodes (g x)) l)).
Proof.
  induction 1 as [|x l Hx _ IH]; intros i; [exact I|].
  cbn [first_found flat_map]. rewrite find_first_app.
  unfold agrees in Hx.
  destruct (visit x) as [[p|]|e]; cbn [bind];
    destruct (find_first id (nodes (g x))) as [[n|]|e']; try contradiction.
  - cbn [agrees resolve]. rewrite Nat.leb_refl, Nat.sub_diag. exact Hx.
  - specialize (IH (S i)). unfold agrees in *.
    destruct (first_found visit (S i) l) as [[[|j q]|]|e];
      destruct (find_first id (flat_map (fun x => nodes (g x)) l)) as [[n|]|e'];
      try contradiction; try exact IH; try exact I.
    cbn [resolve] in *. destruct (S i <=? j)%nat eqn:Hle; [|discriminate].
      apply Nat.leb_le in Hle.
      assert (Hij : (i <=? j)%nat = true) by (apply Nat.leb_le; lia).
      rewrite Hij. replace (j - i) with (S (j - S i)) by lia. exact IH.
  - exact Hx.
Qed.
End FirstFoundSpec.

Lemma findRecursive_spec (id : string) (v : json) :
  agrees (fun p => node_at p v) (ScriptJs.findRecursive id v) (find_first id (nodes v)).
Proof.
  induction v using json_ind; try exact I.
  - cbn [ScriptJs.findRecursive nodes find_first].
    rewrite (id_test_spec id (JArr items) eq_refl).
    destruct (malformed (JArr items)); [reflexivity|]. cbn [bind].
    destruct (has_id id (JArr items)); [reflexivity|].
    pose proof (first_found_spec id (ScriptJs.findRecursive id) (fun x => x) items H 0) as Hl.
    unfold agrees in *.
    destruct (first_found (ScriptJs.findRecursive id) 0 items) as [[p|]|e];
      destruct (find_first id (flat_map (fun x => nodes x) items)) as [[n|]|e'];
      try contradiction; try exact Hl; try exact I.
    destruct p as [|j q]; [discriminate|]. cbn [resolve] in Hl. cbn [node_at children].
    rewrite Nat.sub_0_r in Hl. exact Hl.
  - cbn [ScriptJs.findRecursive nodes find_first].
    rewrite (id_test_spec id (JObj props) eq_refl).
    destruct (malformed (JObj props)); [reflexivity|]. cbn [bind].
    destruct (has_id id (JObj props)); [reflexivity|].
    pose proof (first_found_spec id (fun kv => ScriptJs.findRecursive id (snd kv)) snd props H 0)
      as Hl.
    unfold agrees in *.
    destruct (first_found (fun kv => ScriptJs.findRecursive id (snd kv)) 0 props) as [[p|]|e];
      destruct (find_first id (flat_map (fun kv => nodes (snd kv)) props)) as [[n|]|e'];
      try contradiction; try exact Hl; try exact I.
    destruct p as [|j q]; [discriminate|]. cbn [resolve] in Hl. cbn [node_at children].
    rewrite Nat.sub_0_r in Hl. cbn [Nat.leb] in Hl. rewrite nth_error_map.
    destruct (nth_error props j); [exact Hl|discriminate].
Qed.

Lemma has_id_read (id : string) (n : json) :
  has_id id n = true -> tagged n = true /\ read_id n = Ok (JStr id).
Proof.
  unfold has_id, tagged, read_id, image_of. destruct n as [| | | | | |props]; try discriminate.
  intros H. apply andb_prop in H as [Ht Hd]. split; [assumption|].
  cbn [get_prop bind]. unfold descriptors_of, database_id, strict_eq_str in Hd.
  destruct (lookup "image" props) as [| |b|z|s|l|ip]; try discriminate.
  - destruct s; discriminate.
  - destruct l as [|d r]; [discriminate|]. cbn [get_first hd bind].
    destruct d as [| | | | | |dp]; try discriminate. cbn [get_prop].
    destruct (lookup "databaseId" dp); try discriminate.
    apply String.eqb_eq in Hd. now subst.
  - cbn [get_first bind].
    assert (Hd' : match match lookup "0" ip with
                        | JObj dp => lookup "databaseId" dp
                        | _ => JUndefined
                        end with
                  | JStr t => t =? id
                  | _ => false
                  end = true).
    { destruct (lookup "length" ip) as [| |b|z|s|l|lp]; try discriminate.
      - destruct b; [exact Hd|discriminate].
      - destruct (0 <? z)%Z; [exact Hd|discriminate]. }
    destruct (lookup "0" ip) as [| | | | | |dp]; try discriminate. cbn [get_prop].
    destruct (lookup "databaseId" dp); try discriminate.
    apply String.eqb_eq in Hd'. now subst.
Qed.

Lemma image_node_has_id (id : string) (n : json) :
  image_node n = true -> read_id n = Ok (JStr id) -> has_id id n = true.
Proof.
  unfold image_node, has_id, tagged, read_id, image_of.
  destruct n as [| | | | | |props]; try discriminate.
  intros H. apply andb_prop in H as [Ht Hd]. rewrite Ht. cbn [get_prop bind andb].
  unfold descriptors_of, database_id in *.
  destruct (lookup "image" props) as [| |b|z|s|l|ip]; try discriminate.
  - destruct s; discriminate.
  - destruct l as [|d r]; [discriminate|]. cbn [get_first hd bind].
    destruct d as [| | | | | |dp]; try discriminate. cbn [get_prop].
    intros [= ->]. cbn. apply String.eqb_refl.
  - cbn [get_first bind].
    destruct (lookup "length" ip) as [| |b|z|s|l|lp]; try discriminate.
    + destruct b; [|discriminate].
      destruct (lookup "0" ip) as [| | | | | |dp]; try discriminate. cbn [get_prop].
      intros [= ->]. cbn. apply String.eqb_refl.
    + destruct (0 <? z)%Z; [|discriminate].
      destruct (lookup "0" ip) as [| | | | | |dp]; try discriminate. cbn [get_prop].
      intros [= ->]. cbn. apply String.eqb_refl.
Qed.

Lemma has_id_image_node (id : string) (n : json) :
  has_id id n = true -> id <> "" -> image_node n = true.
Proof.
  unfold image_node, has_id. intros H Hid. apply andb_prop in H as [-> Hd]. cbn [andb].
  destruct (descriptors_of (image_of n)) as [|d|]; try discriminate.
  unfold strict_eq_str in Hd. destruct (database_id d); try discriminate.
  apply String.eqb_eq in Hd. subst. cbn. destruct (String.eqb_spec id ""); [contradiction|].
  reflexivity.
Qed.

Lemma find_first_some (id : string) (l : list json) (n : json) :
  find_first id l = Ok (Some n) ->
  exists before after,
    l = before ++ n :: after
    /\ has_id id n = true
    /\ malformed n = None
    /\ Forall (fun m => malformed m = None /\ has_id id m = false) before.
Proof.
  induction l as [|m l IH]; cbn [find_first]; [discriminate|].
  destruct (malformed m) eqn:Em; [discriminate|].
  destruct (has_id id m) eqn:E.
  - intros [= ->]. exists [], l. repeat split; auto.
  - intros H. destruct (IH H) as (before & after & -> & Hn & Hm & Hb).
    exists (m :: before), after. repeat split; auto.
Qed.

Lemma find_first_clean (id : string) (l : list json) :
  first_malformed l = None ->
  find_first id l = Ok (find (has_id id) l).
Proof.
  induction l as [|m l IH]; cbn [find_first first_malformed find]; [reflexivity|].
  destruct (malformed m); [discriminate|]. intros H.
  destruct (has_id id m); [reflexivity|]. now apply IH.
Qed.

(** What a lookup returns refers to a node of the tree that passes the
    test of [findRecursive]: it carries the tag and its identifier is the
    string looked up.  The nodes the walk visits before it fail the test. *)
Theorem lookup_returns_first_match (storyContent : json) (imageBynderId : string) (p : path) :
  ScriptJs.findImageInStoryContentById storyContent imageBynderId = Ok (Some p) ->
  exists n before after,
    node_at p storyContent = Some n
    /\ nodes storyContent = before ++ n :: after
    /\ ScriptJs.id_test imageBynderId n = Ok true
    /\ tagged n = true
    /\ read_id n = Ok (JStr imageBynderId)
    /\ Forall (fun m => ScriptJs.id_test imageBynderId m = Ok false) before.
Proof.
  unfold ScriptJs.findImageInStoryContentById. intros Hfind.
  pose proof (findRecursive_spec imageBynderId storyContent) as Hs.
  rewrite Hfind in Hs. unfold agrees in Hs.
  destruct (find_first imageBynderId (nodes storyContent)) as [[n|]|e] eqn:Hf;
    try contradiction.
  destruct (find_first_some _ _ _ Hf) as (before & after & Hnodes & Hn & Hmn & Hb).
  destruct (has_id_read _ _ Hn) as [Ht Hr].
  pose proof (nodes_are_nodes storyContent) as Hall. rewrite Hnodes in Hall.
  apply Forall_app in Hall as [Hbefore Hrest]. inversion Hrest as [|? ? Hnode _]; subst.
  exists n, before, after. repeat split; try assumption.
  - rewrite (id_test_spec _ _ Hnode), Hmn, Hn. reflexivity.
  - rewrite Forall_forall in *. intros m Hm. destruct (Hb m Hm) as [Hmal Hno].
    rewrite (id_test_spec _ _ (Hbefore m Hm)), Hmal, Hno. reflexivity.
Qed.

Lemma lookup_returns_first_match_witness :
  exists p n before after,
    ScriptJs.findImageInStoryContentById (content_of story_11) "B2" = Ok (Some p)
    /\ node_at p (content_of story_11) = Some n
    /\ nodes (content_of story_11) = before ++ n :: after
    /\ ScriptJs.id_test "B2" n = Ok true
    /\ tagged n = true
    /\ read_id n = Ok (JStr "B2")
    /\ Forall (fun m => ScriptJs.id_test "B2" m = Ok false) before.
Proof.
  destruct (ScriptJs.findImageInStoryContentById (content_of story_11) "B2")
    as [[p|]|e] eqn:Hfind; try (vm_compute in Hfind; discriminate Hfind).
  destruct (lookup_returns_first_match (content_of story_11) "B2" p Hfind)
    as (n & before & after & H).
  exists p, n, before, after. split; [reflexivity|exact H].
Defined.

(** An image that [extractImages] lists under a string identifier is found
    again by that identifier in the same tree: the lookup returns the first
    listed image with the identifier, the very image when no other listed
    image has it. *)
Theorem listed_image_is_found (content : json) (images : list json) (n : json) (id : string) :
  ScriptJs.extractImages content = Ok images ->
  In n images ->
  read_id n = Ok (JStr id) ->
  exists p n',
    ScriptJs.findImageInStoryContentById content id = Ok (Some p)
    /\ node_at p content = Some n'
    /\ In n' images
    /\ read_id n' = Ok (JStr id)
    /\ ((forall m, In m images -> read_id m = Ok (JStr id) -> m = n) -> n' = n).
Proof.
  intros Hex Hin Hread. rewrite extractImages_spec in Hex.
  destruct (first_malformed (nodes content)) eqn:Hclean; [discriminate|].
  injection Hex as <-. apply filter_In in Hin as [Hnode Himg].
  pose proof (image_node_has_id id n Himg Hread) as Hid.
  assert (Hne : id <> "").
  { intros ->. unfold image_node in Himg. apply andb_prop in Himg as [_ Hd].
    unfold has_id in Hid. apply andb_prop in Hid as [_ Hd'].
    destruct (descriptors_of (image_of n)) as [|d|]; try discriminate.
    unfold strict_eq_str in Hd'. destruct (database_id d); try discriminate.
    apply String.eqb_eq in Hd'. subst. discriminate. }
  pose proof (findRecursive_spec id content) as Hs.
  rewrite (find_first_clean id _ Hclean) in Hs.
  destruct (find (has_id id) (nodes content)) as [n'|] eqn:Hfind.
  2:{ exfalso. apply (find_none _ _ Hfind) in Hnode. congruence. }
  apply find_some in Hfind as [Hnode' Hid'].
  unfold agrees in Hs. unfold ScriptJs.findImageInStoryContentById.
  destruct (ScriptJs.findRecursive id content) as [[p|]|e]; try contradiction.
  destruct (has_id_read _ _ Hid') as [_ Hread'].
  assert (Hin' : In n' (filter image_node (nodes content))).
  { apply filter_In. split; [assumption|]. now apply (has_id_image_node id). }
  exists p, n'. repeat split; try assumption.
  intros Huniq. now apply Huniq.
Qed.

Lemma listed_image_is_found_witness :
  exists p n',
    ScriptJs.findImageInStoryContentById (content_of story_11) "B2" = Ok (Some p)
    /\ node_at p (content_of story_11) = Some n'
    /\ read_id n' = Ok (JStr "B2").
Proof.
  destruct (listed_image_is_found (content_of story_11)
              [served_image "u1" "A1" "old.jpg" "old" "https://cdn/x/old.jpg";
               served_image "u2" "B2" "tug.jpg" "a tug" "https://cdn/y/tug.jpg"]
              (served_image "u2" "B2" "tug.jpg" "a tug" "https://cdn/y/tug.jpg") "B2")
    as (p & n' & A & B & _ & D & _).
  - reflexivity.
  - right. now left.
  - reflexivity.
  - exists p, n'. split; [exact A|]. split; [exact B|exact D].
Defined.

(** ** The patch of a node *)

(** What a node that [applyModification] patches looks like, before and
    after. *)
Lemma applyModification_inv (mod_ : ScriptJs.modification) (n n' : json) :
  ScriptJs.applyModification mod_ n = Ok n' ->
  exists props d d' props',
    n = JObj props
    /\ get_first (lookup "image" props) = Ok (JObj d)
    /\ n' = with_prop (JObj props') "image" (with_first (lookup "image" props) (JObj d'))
    /\ (forall k, ("alt" =? k) = false -> lookup k props' = lookup k props)
    /\ lookup "alt" props' = JStr (ScriptJs.newAlt mod_)
    /\ lookup "name" d' = JStr (ScriptJs.newFileName mod_)
    /\ (forall k, ("name" =? k) = false -> ("files" =? k) = false -> lookup k d' = lookup k d).
Proof.
  unfold ScriptJs.applyModification. intros H.
  destruct n as [| | | | | |props];
    try (cbn [get_prop get_first bind] in H; discriminate H).
  cbn [get_prop bind] in H.
  destruct (get_first (lookup "image" props)) as [b|e] eqn:Hfirst; [|discriminate H].
  cbn [bind] in H.
  destruct (get_prop b "name") as [name|e] eqn:Hname; [|discriminate H].
  cbn [bind] in H.
  assert (Hobj : forall X : result json,
            X = (if negb (strict_eq_str (lookup "alt" props) (ScriptJs.newAlt mod_))
                 then set_prop (JObj props) "alt" (JStr (ScriptJs.newAlt mod_))
                 else Ok (JObj props)) ->
            exists props',
              X = Ok (JObj props')
              /\ (forall k, ("alt" =? k) = false -> lookup k props' = lookup k props)
              /\ lookup "alt" props' = JStr (ScriptJs.newAlt mod_)).
  { intros X ->.
    destruct (strict_eq_str (lookup "alt" props) (ScriptJs.newAlt mod_)) eqn:E;
      cbn [negb set_prop]; eexists; (split; [reflexivity|]); split.
    - reflexivity.
    - unfold strict_eq_str in E. destruct (lookup "alt" props); try discriminate E.
      apply String.eqb_eq in E. now subst.
    - intros k Hk. now apply lookup_assign_other.
    - apply lookup_assign_same. }
  destruct (strict_eq_str name (ScriptJs.newFileName mod_)) eqn:Esame; cbn [negb bind] in H.
  - (* the name is the proposed one *)
    assert (Hb : exists d, b = JObj d /\ lookup "name" d = JStr (ScriptJs.newFileName mod_)).
    { unfold strict_eq_str in Esame. destruct name; try discriminate Esame.
      apply String.eqb_eq in Esame. subst.
      destruct b; cbn in Hname; try discriminate Hname. injection Hname as Hname. eauto. }
    destruct Hb as (d & -> & Hd).
    match type of H with bind ?X _ = _ =>
      destruct (Hobj X eq_refl) as (props' & E & Hother & Halt); rewrite E in H end.
    exists props, d, d, props'. cbn [bind] in H. injection H as <-.
    repeat split; auto.
  - (* the name changes *)
    destruct b as [| | | | | |d]; cbn in Hname; try discriminate Hname;
      cbn [set_prop bind] in H;
      match type of H with bind ?X _ = _ =>
        destruct (Hobj X eq_refl) as (props' & E & Hother & Halt); rewrite E in H
      | _ => idtac
      end; cbn [bind get_prop] in H; try discriminate H.
    rewrite (lookup_assign_other "name" "files") in H by reflexivity.
    destruct (get_prop (lookup "files" d) "transformBaseUrl") as [t|e] eqn:Ht;
      [|discriminate H].
    cbn [bind] in H.
    destruct (get_prop t "url") as [u|e] eqn:Hu; [|discriminate H].
    cbn [bind] in H.
    destruct (js_lastIndexOf_slash u) as [ix|e] eqn:Hix; [|discriminate H].
    cbn [bind] in H.
    assert (Hfin : forall url t',
              set_prop t "url" (JStr url) = Ok t' ->
              exists d',
                with_prop (JObj (assign "name" (JStr (ScriptJs.newFileName mod_)) d)) "files"
                  (with_prop (lookup "files" d) "transformBaseUrl" t') = JObj d'
                /\ lookup "name" d' = JStr (ScriptJs.newFileName mod_)
                /\ (forall k, ("name" =? k) = false -> ("files" =? k) = false ->
                               lookup k d' = lookup k d)).
    { intros url t' _. cbn [with_prop]. eexists. split; [reflexivity|]. split.
      - rewrite (lookup_replace_other "files" "name") by reflexivity.
        apply lookup_assign_same.
      - intros k Hk1 Hk2. rewrite lookup_replace_other by assumption.
        now apply lookup_assign_other. }
    destruct ix as [i|]; cbn [bind] in H.
    + destruct (js_substring0 u (i + 1)) as [baseUrl|e]; [|discriminate H].
      cbn [bind] in H.
      destruct (set_prop t "url" (JStr (baseUrl ++ ScriptJs.newFileName mod_)))
        as [t'|e] eqn:Hset; [|discriminate H].
      cbn [bind] in H. injection H as <-.
      destruct (Hfin _ _ Hset) as (d' & Hd' & Hn & Hk).
      exists props, d, d', props'. rewrite <- Hd'. repeat split; auto.
    + destruct (set_prop t "url" (JStr (ScriptJs.newFileName mod_)))
        as [t'|e] eqn:Hset; [|discriminate H].
      cbn [bind] in H. injection H as <-.
      destruct (Hfin _ _ Hset) as (d' & Hd' & Hn & Hk).
      exists props, d, d', props'. rewrite <- Hd'. repeat split; auto.
Qed.

Lemma replace_idem (k : string) (x : json) (props : list (string * json)) :
  replace k x (replace k x props) = replace k x props.
Proof.
  induction props as [|[k' v] r IH]; simpl; [reflexivity|].
  destruct (k' =? k) eqn:E; simpl.
  - now rewrite String.eqb_refl.
  - now rewrite E, IH.
Qed.

Lemma with_first_idem (image x : json) : with_first (with_first image x) x = with_first image x.
Proof.
  destruct image as [| | | | |items|ip]; try reflexivity.
  - destruct items; reflexivity.
  - simpl. now rewrite replace_idem.
Qed.

Lemma get_first_not_undefined (image : json) (d : list (string * json)) :
  get_first image = Ok (JObj d) -> image <> JUndefined.
Proof. intros H ->. discriminate. Qed.

(** A patch that has been applied changes nothing when it is applied
    again. *)
Theorem patch_is_idempotent (mod_ : ScriptJs.modification) (n n' : json) :
  ScriptJs.applyModification mod_ n = Ok n' ->
  ScriptJs.applyModification mod_ n' = Ok n'.
Proof.
  intros H.
  destruct (applyModification_inv _ _ _ H)
    as (props & d & d' & props' & -> & Hfirst & -> & Hother & Halt & Hname & _).
  assert (Himg : lookup "image" props' = lookup "image" props) by now apply Hother.
  unfold ScriptJs.applyModification. cbn [with_prop get_prop bind].
  rewrite lookup_replace_same
    by (rewrite Himg; eapply get_first_not_undefined; eassumption).
  rewrite (get_first_with_first _ _ _ Hfirst). cbn [bind get_prop].
  rewrite Hname. cbn [strict_eq_str]. rewrite String.eqb_refl. cbn [negb bind].
  rewrite (lookup_replace_other "image" "alt") by reflexivity.
  rewrite Halt. cbn [strict_eq_str]. rewrite String.eqb_refl. cbn [negb bind with_prop].
  now rewrite with_first_idem, replace_idem.
Qed.

Lemma patch_is_idempotent_witness :
  exists n',
    ScriptJs.applyModification rename_edit
      (served_image "u1" "A1" "old.jpg" "old" "https://cdn/x/old.jpg") = Ok n'
    /\ ScriptJs.applyModification rename_edit n' = Ok n'.
Proof.
  eexists. split; [reflexivity|].
  apply (patch_is_idempotent rename_edit
           (served_image "u1" "A1" "old.jpg" "old" "https://cdn/x/old.jpg")).
  reflexivity.
Defined.

(** A patch leaves the tag and the identifier of the node alone: the
    tests of [extractImages] and of [findRecursive] answer on the patched
    node as on the node. *)
Theorem patch_keeps_identity (mod_ : ScriptJs.modification) (n n' : json) :
  ScriptJs.applyModification mod_ n = Ok n' ->
  ScriptJs.image_test n' = ScriptJs.image_test n
  /\ (forall id, ScriptJs.id_test id n' = ScriptJs.id_test id n)
  /\ read_id n' = read_id n.
Proof.
  intros H.
  destruct (applyModification_inv _ _ _ H)
    as (props & d & d' & props' & -> & Hfirst & -> & Hother & Halt & Hname & Hframe).
  assert (Himg : lookup "image" props' = lookup "image" props) by now apply Hother.
  assert (Hc : lookup "component" props' = lookup "component" props) by now apply Hother.
  assert (Hid : lookup "databaseId" d' = lookup "databaseId" d) by now apply Hframe.
  assert (Hnew : lookup "image" (replace "image" (with_first (lookup "image" props) (JObj d'))
                                   props')
                 = with_first (lookup "image" props) (JObj d')).
  { apply lookup_replace_same. rewrite Himg. eapply get_first_not_undefined; eassumption. }
  assert (Hcomp : lookup "component"
                    (replace "image" (with_first (lookup "image" props) (JObj d')) props')
                  = lookup "component" props).
  { rewrite (lookup_replace_other "image" "component") by reflexivity. exact Hc. }
  assert (Hshape :
    truthy (with_first (lookup "image" props) (JObj d')) = truthy (lookup "image" props)
    /\ get_length (with_first (lookup "image" props) (JObj d'))
       = get_length (lookup "image" props)).
  { destruct (lookup "image" props) as [| | | |s|items|ip]; try discriminate Hfirst.
    - destruct s; discriminate Hfirst.
    - destruct items; [discriminate Hfirst|]. split; reflexivity.
    - split; [reflexivity|]. cbn [with_first get_length].
      now rewrite (lookup_replace_other "0" "length"). }
  destruct Hshape as [Htruthy Hlen].
  unfold ScriptJs.image_test, ScriptJs.id_test, read_id. cbn [with_prop get_prop bind].
  rewrite Hnew, Hcomp, Htruthy, Hlen, (get_first_with_first _ _ _ Hfirst), Hfirst.
  cbn [bind get_prop]. rewrite Hid. repeat split.
Qed.

Lemma patch_keeps_identity_witness :
  exists n',
    ScriptJs.applyModification rename_edit
      (served_image "u1" "A1" "old.jpg" "old" "https://cdn/x/old.jpg") = Ok n'
    /\ ScriptJs.id_test "A1" n' = Ok true
    /\ read_id n' = Ok (JStr "A1").
Proof.
  eexists. split; [reflexivity|].
  destruct (patch_keeps_identity rename_edit
              (served_image "u1" "A1" "old.jpg" "old" "https://cdn/x/old.jpg") _ eq_refl)
    as (_ & B & C).
  split; [rewrite B|rewrite C]; reflexivity.
Defined.

(** ** The file name of an edit on a second run *)

(** Normalising a normalised file name changes nothing, so an edit whose
    [fileName] a run has overwritten with the normalised name patches a
    wrapper on a later run as it did before. *)
Theorem normalized_name_is_stable :
  (forall s, Part000.normalize (Part000.normalize s) = Part000.normalize s)
  /\ (forall w m,
         updated w (Part000.with_fileName (Part000.normalize (Part000.fileName m)) m)
         = updated w m).
Proof.
  assert (Hidem : forall s, Part000.normalize (Part000.normalize s) = Part000.normalize s).
  { intros s. destruct (normalize_shape s) as [Hns Hlow].
    now rewrite (normalize_no_space _ Hns). }
  split; [exact Hidem|].
  intros w m. unfold updated, Part000.update_wrapper.
  destruct (get_prop w "_uid") as [uid|e]; [|reflexivity].
  rewrite !mbind_lift_Ok, !mbind_gets. cbn [Part000.with_fileName Part000.mod_uid].
  destruct (strict_eq_str uid (Part000.mod_uid m)); [|reflexivity].
  rewrite !mbind_modify, !mbind_gets. unfold id.
  cbn [Part000.with_fileName Part000.fileName Part000.originalFileName Part000.altText
       Part000.originalAlt]. rewrite Hidem. reflexivity.
Qed.

(** ** Web links *)

Lemma startsWith_app (p s : string) : startsWith p (p ++ s) = true.
Proof.
  induction p as [|a p IH]; simpl; [reflexivity|]. now rewrite Ascii.eqb_refl, IH.
Qed.

Lemma drop_app (p s : string) : drop (String.length p) (p ++ s) = s.
Proof. induction p as [|a p IH]; simpl; [reflexivity|exact IH]. Qed.

Lemma replace_first_prefix (p r s : string) : replace_first p r (p ++ s) = (r ++ s)%string.
Proof.
  destruct (p ++ s)%string eqn:E; unfold replace_first; fold replace_first;
    rewrite <- E, startsWith_app, drop_app; reflexivity.
Qed.

Lemma slice_is_replace (s : string) :
  (if endsWith_slash s then slice_0_m1 s else s) = replace_trailing_slash s.
Proof.
  induction s as [|c s IH]; [reflexivity|].
  destruct s as [|c' s']; [simpl; destruct (Ascii.eqb c slash); reflexivity|].
  change (endsWith_slash (String c (String c' s'))) with (endsWith_slash (String c' s')).
  change (slice_0_m1 (String c (String c' s')))
    with (String c (slice_0_m1 (String c' s'))).
  change (replace_trailing_slash (String c (String c' s')))
    with (String c (replace_trailing_slash (String c' s'))).
  rewrite <- IH. destruct (endsWith_slash (String c' s')); reflexivity.
Qed.

(** For a story that the Management API lists at [damen/en] or below it,
    script.js links to the site followed by the rest of the slug, less one
    final ['/'].  The second variant keeps the slug [damen/en/home] as
    [damen/en/] and so links the home story to the site itself; for every
    other such story it shows the link of script.js. *)
Theorem weblinks_agree_but_for_home (rest : string) :
  rest = "" \/ startsWith "/" rest = true ->
  ScriptJsTable.weblink ("damen/en" ++ rest)
  = replace_trailing_slash ("https://www.damen.com" ++ (if rest =? "" then "/" else rest))
  /\ Part000Stories.listed_weblink ("damen/en" ++ rest)
     = (if rest =? "/home" then "https://www.damen.com"
        else replace_trailing_slash ("https://www.damen.com" ++ rest))
  /\ (if rest =? "/home"
      then ScriptJsTable.weblink ("damen/en" ++ rest) = "https://www.damen.com/home"
           /\ Part000Stories.listed_weblink ("damen/en" ++ rest) = "https://www.damen.com"
      else ScriptJsTable.weblink ("damen/en" ++ rest)
           = Part000Stories.listed_weblink ("damen/en" ++ rest)).
Proof.
  intros Hrest.
  assert (Hjs : ScriptJsTable.weblink ("damen/en" ++ rest)
                = replace_trailing_slash
                    ("https://www.damen.com" ++ (if rest =? "" then "/" else rest))).
  { unfold ScriptJsTable.weblink. rewrite (replace_first_prefix "damen/en" "" rest).
    cbn [append]. destruct Hrest as [->|Hs]; [reflexivity|].
    rewrite Hs. destruct rest; [discriminate|reflexivity]. }
  assert (Hslug : (("damen/en" ++ rest) =? "damen/en/home") = (rest =? "/home"))
    by reflexivity.
  assert (Hp : Part000Stories.listed_weblink ("damen/en" ++ rest)
               = (if rest =? "/home" then "https://www.damen.com"
                  else replace_trailing_slash ("https://www.damen.com" ++ rest))).
  { unfold Part000Stories.listed_weblink, Part000Stories.processedFullSlug. rewrite Hslug.
    destruct (rest =? "/home") eqn:E.
    - apply String.eqb_eq in E. subst rest. reflexivity.
    - unfold Part000Stories.fullWeblink.
      rewrite (replace_first_prefix "damen/en" Part000Stories.DAMEN_WEBSITE_BASE_URL rest).
      apply slice_is_replace. }
  split; [exact Hjs|]. split; [exact Hp|].
  rewrite Hjs, Hp. destruct (rest =? "/home") eqn:E.
  - apply String.eqb_eq in E. subst rest. split; reflexivity.
  - destruct Hrest as [->|Hs]; [reflexivity|]. destruct rest; [discriminate|reflexivity].
Qed.

Lemma weblinks_agree_but_for_home_witness :
  (ScriptJsTable.weblink "damen/en/about/" = "https://www.damen.com/about"
   /\ Part000Stories.listed_weblink "damen/en/about/" = "https://www.damen.com/about")
  /\ (ScriptJsTable.weblink "damen/en/home" = "https://www.damen.com/home"
      /\ Part000Stories.listed_weblink "damen/en/home" = "https://www.damen.com").
Proof.
  split.
  - destruct (weblinks_agree_but_for_home "/about/" (or_intror eq_refl)) as (A & B & _).
    split; [exact A|exact B].
  - destruct (weblinks_agree_but_for_home "/home" (or_intror eq_refl)) as (_ & _ & C).
    exact C.
Defined.

(** ** Listings *)

Lemma fetchStories_page (token : string) (pages : nat -> response) (page : nat)
  (stories : list json) :
  token <> "" ->
  page_of (pages page) stories ->
  exists props,
    lookup "stories" props = JArr stories
    /\ ScriptJsTable.fetchStories token pages page tt
       = (Ok (Some (JObj props)), tt, [ScriptJsTable.GetStories page]).
Proof.
  intros Htoken (status & props & Hr & Hok & Hs). exists props. split; [assumption|].
  unfold ScriptJsTable.fetchStories.
  destruct (token =? "") eqn:E; [apply String.eqb_eq in E; contradiction|].
  rewrite Hr, Hok. reflexivity.
Qed.

(** The listing of [loadMainTable] ends at the first page that is empty or
    that gets no 2xx answer, with the stories of the pages before it: a
    failed request is taken for the end of the listing. *)
Theorem listing_ends_at_first_bad_page (token : string) (pages : nat -> response)
  (stories : nat -> list json) (n : nat) :
  token <> "" ->
  forall first acc fuel,
    (forall k, k < n -> page_of (pages (first + k)) (stories (first + k))
                        /\ stories (first + k) <> []) ->
    (page_of (pages (first + n)) [] \/ answered (pages (first + n)) = None) ->
    n < fuel ->
    exists evs,
      ScriptJsTable.storiesForTable fuel token pages first acc tt
      = (Ok (Some (acc ++ stories_of_pages stories first n)), tt, evs)
      /\ asked_pages evs = seq first (S n).
Proof.
  intros Htoken. induction n as [|n IH]; intros first acc fuel Hgood Hlast Hfuel.
  - destruct fuel as [|fuel]; [lia|]. cbn [ScriptJsTable.storiesForTable stories_of_pages].
    rewrite Nat.add_0_r in Hlast. rewrite app_nil_r.
    destruct Hlast as [Hempty|Hfail].
    + destruct (fetchStories_page token pages first [] Htoken Hempty) as (props & Hs & Hrun).
      unfold mbind at 1. rewrite Hrun. cbn [truthy get_prop]. rewrite Hs.
      eexists. split; [reflexivity|]. reflexivity.
    + unfold ScriptJsTable.fetchStories.
      destruct (token =? "") eqn:E; [apply String.eqb_eq in E; contradiction|].
      unfold answered in Hfail.
      destruct (pages first) as [|status body]; [|destruct (ok status); [discriminate|]];
        eexists; (split; [reflexivity|]); reflexivity.
  - destruct fuel as [|fuel]; [lia|]. cbn [ScriptJsTable.storiesForTable stories_of_pages].
    destruct (Hgood 0 ltac:(lia)) as [Hpage Hne]. rewrite Nat.add_0_r in Hpage, Hne.
    destruct (fetchStories_page token pages first _ Htoken Hpage) as (props & Hs & Hrun).
    unfold mbind at 1. rewrite Hrun. cbn [truthy get_prop]. rewrite Hs.
    destruct (stories first) as [|s0 l0] eqn:Hst; [contradiction|].
    destruct (IH (S first) (acc ++ s0 :: l0) fuel) as (evs & Hrest & Hasked).
    + intros k Hk. replace (S first + k) with (first + S k) by lia. apply Hgood. lia.
    + replace (S first + n) with (first + S n) by lia. exact Hlast.
    + lia.
    + mstep. cbn [get_length List.length concat_arg]. mstep. unfold gt0.
      change (0 <? Z.of_nat (S (List.length l0)))%Z with true.
      mstep. cbv beta iota. rewrite Hrest.
      eexists. split; [rewrite <- app_assoc; reflexivity|].
      cbn [app asked_pages flat_map]. fold (asked_pages evs). rewrite Hasked. reflexivity.
Qed.

Lemma listing_ends_at_first_bad_page_witness :
  exists evs,
    ScriptJsTable.storiesForTable 5 "token" paged_broken 1 [] tt
    = (Ok (Some (listing 1 ++ listing 2)), tt, evs)
    /\ asked_pages evs = [1; 2; 3].
Proof.
  destruct (listing_ends_at_first_bad_page "token" paged_broken listing 2 ltac:(discriminate)
              1 [] 5) as (evs & A & B).
  - intros [|[|k]] Hk; [| |lia]; (split; [|discriminate]);
      exists 200%Z; eexists; repeat split; reflexivity.
  - right. reflexivity.
  - lia.
  - exists evs. split; [|exact B]. rewrite A. cbn [stories_of_pages app]. now rewrite app_nil_r.
Defined.

Lemma listStories_page (token : string) (pages : nat -> response) (page : nat)
  (stories all : list json) :
  token <> "" ->
  page_of (pages page) stories ->
  exists props,
    lookup "stories" props = JArr stories
    /\ Part000Stories.listStories token pages page all
       = (Ok (JObj props), all, [Part000Stories.GetStories page]).
Proof.
  intros Htoken (status & props & Hr & Hok & Hs). exists props. split; [assumption|].
  unfold Part000Stories.listStories.
  destruct (token =? "") eqn:E; [apply String.eqb_eq in E; contradiction|].
  rewrite Hr, Hok. reflexivity.
Qed.

(** The listing of [fetchAllStories] ends with success at the first empty
    page, and with the error of [makeApiRequest] at the first page that
    gets no 2xx answer; in both cases [allStories] holds the stories kept of
    the pages before. *)
Theorem listing_fails_at_first_failed_page (token : string) (pages : nat -> response)
  (stories mapped : nat -> list json) (n : nat) :
  token <> "" ->
  forall first all fuel,
    (forall k, k < n -> page_of (pages (first + k)) (stories (first + k))
                        /\ stories (first + k) <> []
                        /\ Part000Stories.map_stories (JArr (stories (first + k)))
                           = Ok (mapped (first + k))) ->
    n < fuel ->
    (page_of (pages (first + n)) [] ->
     exists evs,
       Part000Stories.fetch_loop fuel token pages first all
       = (Ok true, all ++ stories_of_pages mapped first n, evs)
       /\ asked_pages_z evs = seq first (S n))
    /\ (answered (pages (first + n)) = None ->
        exists evs,
          Part000Stories.fetch_loop fuel token pages first all
          = (Throw (Error RequestFailed), all ++ stories_of_pages mapped first n, evs)
          /\ asked_pages_z evs = seq first (S n)).
Proof.
  intros Htoken. induction n as [|n IH]; intros first all fuel Hgood Hfuel.
  - destruct fuel as [|fuel]; [lia|]. cbn [Part000Stories.fetch_loop stories_of_pages].
    rewrite Nat.add_0_r. rewrite app_nil_r. split.
    + intros Hempty.
      destruct (listStories_page token pages first [] all Htoken Hempty) as (props & Hs & Hrun).
      unfold mbind at 1. rewrite Hrun. cbn [truthy get_prop]. rewrite Hs.
      eexists. split; [reflexivity|]. reflexivity.
    + intros Hfail. unfold Part000Stories.listStories.
      destruct (token =? "") eqn:E; [apply String.eqb_eq in E; contradiction|].
      unfold answered in Hfail.
      destruct (pages first) as [|status body]; [|destruct (ok status); [discriminate|]];
        eexists; (split; [reflexivity|]); reflexivity.
  - destruct fuel as [|fuel]; [lia|]. cbn [Part000Stories.fetch_loop stories_of_pages].
    destruct (Hgood 0 ltac:(lia)) as (Hpage & Hne & Hmap).
    rewrite Nat.add_0_r in Hpage, Hne, Hmap.
    destruct (listStories_page token pages first _ all Htoken Hpage) as (props & Hs & Hrun).
    destruct (stories first) as [|s0 l0] eqn:Hst; [contradiction|].
    assert (Hstep : forall x,
      Part000Stories.fetch_loop fuel token pages (S first) (all ++ mapped first) = x ->
      (response <~ Part000Stories.listStories token pages first ;;
       stories <~ lift (get_prop response "stories") ;;
       if truthy stories then
         len <~ lift (get_length stories) ;;
         more <~ lift (gt0 len) ;;
         if more then
           mapped <~ lift (Part000Stories.map_stories stories) ;;
           modify (fun allStories => allStories ++ mapped) ;;;
           Part000Stories.fetch_loop fuel token pages (S first)
         else ret true
       else ret true) all
      = (fst (fst x), snd (fst x), Part000Stories.GetStories first :: snd x)).
    { intros x Hx. unfold mbind at 1. rewrite Hrun. cbn [truthy get_prop]. rewrite Hs.
      mstep. cbn [get_length List.length truthy]. mstep. unfold gt0.
      change (0 <? Z.of_nat (S (List.length l0)))%Z with true.
      mstep. cbv beta iota. rewrite Hmap. mstep.
      unfold mbind, modify. cbn [fst snd app]. rewrite Hx.
      destruct x as [[r s'] evs]. reflexivity. }
    assert (Hgood' : forall k, k < n ->
      page_of (pages (S first + k)) (stories (S first + k))
      /\ stories (S first + k) <> []
      /\ Part000Stories.map_stories (JArr (stories (S first + k))) = Ok (mapped (S first + k))).
    { intros k Hk. replace (S first + k) with (first + S k) by lia. apply Hgood. lia. }
    destruct (IH (S first) (all ++ mapped first) fuel Hgood' ltac:(lia)) as [Hsucc Hfail].
    replace (first + S n) with (S first + n) by lia.
    split; intros Hlast.
    + destruct (Hsucc Hlast) as (evs & Hrest & Hasked).
      rewrite (Hstep _ Hrest). cbn [fst snd]. eexists. split; [rewrite <- app_assoc; reflexivity|].
      cbn [app asked_pages_z flat_map]. fold (asked_pages_z evs). rewrite Hasked. reflexivity.
    + destruct (Hfail Hlast) as (evs & Hrest & Hasked).
      rewrite (Hstep _ Hrest). cbn [fst snd]. eexists. split; [rewrite <- app_assoc; reflexivity|].
      cbn [app asked_pages_z flat_map]. fold (asked_pages_z evs). rewrite Hasked. reflexivity.
Qed.

Lemma listing_fails_at_first_failed_page_witness :
  exists evs,
    Part000Stories.fetch_loop 5 "token" paged_broken 1 []
    = (Throw (Error RequestFailed),
       [listed_as 11 "Home" "home" "damen/en/"; listed_as 12 "About" "about" "damen/en/about";
        listed_as 13 "Team" "team" "damen/en/about/team"], evs)
    /\ asked_pages_z evs = [1; 2; 3].
Proof.
  destruct (listing_fails_at_first_failed_page "token" paged_broken listing
              (fun page => match Part000Stories.map_stories (JArr (listing page)) with
                           | Ok l => l
                           | Throw _ => []
                           end)
              2 ltac:(discriminate) 1 [] 5) as [_ A].
  - intros [|[|k]] Hk; [| |lia]; (split; [|split; [discriminate|reflexivity]]);
      exists 200%Z; eexists; repeat split; reflexivity.
  - lia.
  - destruct (A eq_refl) as (evs & B & C). exists evs. split; [exact B|exact C].
Defined.

(** ** The story tree *)

Lemma firstn_done (done : list string) (part : string) (rest : list string) :
  firstn (List.length done + 1) (done ++ part :: rest) = done ++ [part].
Proof.
  replace (List.length done + 1) with (List.length (done ++ [part]))
    by (rewrite length_app; reflexivity).
  replace (done ++ part :: rest) with ((done ++ [part]) ++ rest)
    by (rewrite <- app_assoc; reflexivity).
  rewrite firstn_app, firstn_all, Nat.sub_diag. cbn. now rewrite app_nil_r.
Qed.

Lemma last_index (done : list string) (part : string) (rest : list string) :
  negb (List.length done <? List.length (done ++ part :: rest) - 1)%nat
  = match rest with [] => true | _ => false end.
Proof.
  rewrite length_app. cbn [List.length].
  destruct rest as [|x rest]; cbn [List.length].
  - replace (List.length done + 1 - 1) with (List.length done) by lia.
    now rewrite Nat.ltb_irrefl.
  - assert (H : (List.length done <? List.length done + S (S (List.length rest)) - 1)%nat = true)
      by (apply Nat.ltb_lt; lia).
    now rewrite H.
Qed.

(** One slug added to a level: the nodes that were there keep their slug
    and flag, and the beginnings of the slug that were missing get a node. *)
Lemma add_parts_spec (rest : list string) :
  forall (done : list string) (lvl : ScriptJsTree.level),
    forallb (fun part => negb (ScriptJsTree.inherited part)) rest = true ->
    exists lvl',
      ScriptJsTree.add_parts (done ++ rest) (List.length done) rest lvl = Ok lvl'
      /\ forall p, p <> [] ->
           option_map label (node_of p lvl')
           = match option_map label (node_of p lvl) with
             | Some x => Some x
             | None =>
                 if begins p rest
                 then Some (js_join "/" (done ++ p), same_parts p rest)
                 else None
             end.
Proof.
  induction rest as [|part rest IH]; intros done lvl Hplain.
  - exists lvl. split; [reflexivity|]. intros [|x p] Hp; [contradiction|].
    cbn [begins]. now destruct (option_map label (node_of (x :: p) lvl)).
  - cbn [forallb] in Hplain. apply andb_true_iff in Hplain. destruct Hplain as [Hpart Hplain].
    apply negb_true_iff in Hpart. cbn [ScriptJsTree.add_parts]. rewrite Hpart.
    rewrite firstn_done, last_index.
    set (item := match Map.get part lvl with
                 | Some item => item
                 | None => ScriptJsTree.TreeNode (js_join "/" (done ++ [part])) []
                             match rest with [] => true | _ => false end
                 end).
    destruct (IH (done ++ [part]) (ScriptJsTree._children item) Hplain) as (children & Hrun & Hspec).
    rewrite <- app_assoc, length_app in Hrun. cbn [app List.length] in Hrun.
    rewrite Hrun. cbn [bind]. eexists. split; [reflexivity|].
    intros [|x p] Hp; [contradiction|]. cbn [node_of begins same_parts].
    destruct (x =? part) eqn:E.
    + apply String.eqb_eq in E. subst x.
      rewrite (get_set_same string_key_ok). cbn [andb].
      destruct p as [|y p].
      * cbn [option_map label ScriptJsTree._fullSlug ScriptJsTree._isLeaf begins same_parts].
        unfold item. destruct (Map.get part lvl) as [n|]; [reflexivity|].
        cbn [option_map ScriptJsTree._fullSlug ScriptJsTree._isLeaf].
        now destruct rest.
      * cbn [ScriptJsTree._children]. rewrite (Hspec (y :: p)) by discriminate.
        rewrite <- app_assoc. cbn [app].
        unfold item. destruct (Map.get part lvl) as [n|]; [reflexivity|].
        cbn [ScriptJsTree._children node_of Map.get option_map]. reflexivity.
    + assert (N : part <> x) by (intros ->; now rewrite String.eqb_refl in E).
      rewrite (get_set_other string_key_ok) by assumption. cbn [andb].
      now destruct (option_map label _).
Qed.

Lemma build_spec (slugs : list string) :
  forall root : ScriptJsTree.level,
    forallb plain_slug slugs = true ->
    exists root',
      for_of (fun root slug =>
                ScriptJsTree.add_parts (ScriptJsTree.parts_of slug) 0 (ScriptJsTree.parts_of slug) root)
             slugs root = Ok root'
      /\ forall p, p <> [] ->
           option_map label (node_of p root')
           = match option_map label (node_of p root) with
             | Some x => Some x
             | None =>
                 match first_through p slugs with
                 | Some slug => Some (js_join "/" p, same_parts p (ScriptJsTree.parts_of slug))
                 | None => None
                 end
             end.
Proof.
  induction slugs as [|slug slugs IH]; intros root Hplain.
  - exists root. split; [reflexivity|]. intros p _. cbn [first_through find].
    now destruct (option_map label (node_of p root)).
  - cbn [forallb] in Hplain. apply andb_true_iff in Hplain. destruct Hplain as [Hslug Hplain].
    destruct (add_parts_spec (ScriptJsTree.parts_of slug) [] root Hslug) as (root1 & Hrun & Hspec).
    cbn [app List.length] in Hrun. cbn [for_of]. rewrite Hrun. cbn [bind].
    destruct (IH root1 Hplain) as (root' & Hrest & Hspec'). exists root'. split; [exact Hrest|].
    intros p Hp. rewrite (Hspec' p Hp), (Hspec p Hp). unfold first_through. cbn [find app].
    destruct (option_map label (node_of p root)); [reflexivity|].
    now destruct (begins p (ScriptJsTree.parts_of slug)).
Qed.

(** The tree of [buildStoryTree] has a node exactly along the beginnings of
    the slugs, and the node along the parts [p] carries the slug that joins
    them. *)
Theorem tree_holds_the_beginnings_of_the_slugs (slugs : list string) :
  forallb plain_slug slugs = true ->
  exists root,
    ScriptJsTree.buildStoryTree slugs = Ok root
    /\ forall p, p <> [] ->
         match node_of p root with
         | Some n =>
             existsb (fun slug => begins p (ScriptJsTree.parts_of slug)) slugs = true
             /\ ScriptJsTree._fullSlug n = js_join "/" p
         | None => existsb (fun slug => begins p (ScriptJsTree.parts_of slug)) slugs = false
         end.
Proof.
  intros Hplain. destruct (build_spec slugs [] Hplain) as (root & Hrun & Hspec).
  exists root. split; [exact Hrun|]. intros p Hp. specialize (Hspec p Hp).
  assert (Hnil : node_of p [] = None) by (destruct p; [contradiction|reflexivity]).
  rewrite Hnil in Hspec. cbn [option_map] in Hspec. unfold first_through in Hspec.
  destruct (find _ slugs) as [slug|] eqn:Hfind.
  - destruct (node_of p root) as [n|]; [|discriminate]. cbn [option_map label] in Hspec.
    apply find_some in Hfind. destruct Hfind as [Hin Hb]. split.
    + apply existsb_exists. eauto.
    + injection Hspec as Hslug _. exact Hslug.
  - destruct (node_of p root) as [n|]; [discriminate|].
    destruct (existsb _ slugs) eqn:Hex; [|reflexivity].
    apply existsb_exists in Hex. destruct Hex as (slug & Hin & Hb).
    now rewrite (find_none _ _ Hfind slug Hin) in Hb.
Qed.

Lemma tree_holds_the_beginnings_of_the_slugs_witness :
  exists root,
    ScriptJsTree.buildStoryTree sample_slugs = Ok root
    /\ option_map ScriptJsTree._fullSlug (node_of ["damen"; "en"; "about"] root)
       = Some "damen/en/about"
    /\ node_of ["damen"; "about"] root = None.
Proof.
  destruct (tree_holds_the_beginnings_of_the_slugs sample_slugs eq_refl) as (root & Hrun & Hspec).
  exists root. split; [exact Hrun|]. split.
  - specialize (Hspec ["damen"; "en"; "about"] ltac:(discriminate)).
    destruct (node_of ["damen"; "en"; "about"] root) as [n|]; [|discriminate Hspec].
    destruct Hspec as [_ Hslug]. cbn [option_map]. rewrite Hslug. reflexivity.
  - specialize (Hspec ["damen"; "about"] ltac:(discriminate)).
    destruct (node_of ["damen"; "about"] root) as [n|]; [|reflexivity].
    destruct Hspec as [Hspec _]. discriminate Hspec.
Defined.

(** The flag [_isLeaf] of a node is set when the node is made and never
    again: it says whether the first slug of the list that runs through the
    node ends there, whatever the later slugs add below the node. *)
Theorem leaf_flag_is_set_by_the_first_slug (slugs : list string) :
  forallb plain_slug slugs = true ->
  exists root,
    ScriptJsTree.buildStoryTree slugs = Ok root
    /\ forall p n, node_of p root = Some n ->
         exists slug,
           first_through p slugs = Some slug
           /\ ScriptJsTree._isLeaf n = same_parts p (ScriptJsTree.parts_of slug).
Proof.
  intros Hplain. destruct (build_spec slugs [] Hplain) as (root & Hrun & Hspec).
  exists root. split; [exact Hrun|]. intros p n Hn.
  destruct p as [|part p]; [discriminate|].
  specialize (Hspec (part :: p) ltac:(discriminate)). rewrite Hn in Hspec.
  cbn [node_of Map.get option_map label] in Hspec.
  destruct (first_through (part :: p) slugs) as [slug|]; [|discriminate].
  exists slug. split; [reflexivity|]. injection Hspec as _ Hleaf. exact Hleaf.
Qed.

Lemma leaf_flag_is_set_by_the_first_slug_witness :
  exists root,
    ScriptJsTree.buildStoryTree sample_slugs = Ok root
    /\ option_map ScriptJsTree._isLeaf (node_of ["damen"; "en"; "about"] root) = Some true
    /\ option_map ScriptJsTree._isLeaf (node_of ["damen"; "en"; "about"; "team"] root) = Some false.
Proof.
  destruct (leaf_flag_is_set_by_the_first_slug sample_slugs eq_refl) as (root & Hrun & Hspec).
  exists root. split; [exact Hrun|]. split.
  - destruct (node_of ["damen"; "en"; "about"] root) as [n|] eqn:Hn.
    + destruct (Hspec _ _ Hn) as (slug & Hfirst & Hleaf). vm_compute in Hfirst.
      injection Hfirst as <-. cbn [option_map]. rewrite Hleaf. reflexivity.
    + vm_compute in Hrun. injection Hrun as <-. discriminate Hn.
  - destruct (node_of ["damen"; "en"; "about"; "team"] root) as [n|] eqn:Hn.
    + destruct (Hspec _ _ Hn) as (slug & Hfirst & Hleaf). vm_compute in Hfirst.
      injection Hfirst as <-. cbn [option_map]. rewrite Hleaf. reflexivity.
    + vm_compute in Hrun. injection Hrun as <-. discriminate Hn.
Defined.

(** ** The send button and the edits *)

Lemma handleInputChange_button (r : ScriptJs.row) (s : ScriptJs.state) :
  button_in_step s -> button_in_step (ScriptJs.handleInputChange r s).
Proof.
  unfold button_in_step, ScriptJs.handleInputChange. intros H.
  destruct (negb (ScriptJs.fileNameInput r =? ScriptJs.row_originalFileName r)
            || negb (ScriptJs.altTextInput r =? ScriptJs.row_originalAlt r)).
  - cbn [ScriptJs.with_tracker ScriptJs.sendToServerButton_hidden ScriptJs.changedStories].
    unfold KeySet.add. destruct (KeySet.has _ _) eqn:E.
    + destruct (ScriptJs.changedStories s); [discriminate E|reflexivity].
    + rewrite length_app. cbn [List.length]. symmetry. apply Nat.eqb_neq. lia.
  - destruct (Map.size _ =? 0)%nat;
      cbn [ScriptJs.with_tracker ScriptJs.sendToServerButton_hidden ScriptJs.changedStories].
    + destruct (List.length (KeySet.delete _ _) =? 0)%nat eqn:E; [reflexivity|].
      rewrite H. apply Nat.eqb_neq. apply Nat.eqb_neq in E. intros E0. apply E.
      apply length_zero_iff_nil in E0. now rewrite E0.
    + destruct (List.length (ScriptJs.changedStories s) =? 0)%nat; [reflexivity|exact H].
Qed.

Lemma same_image_type_into (x r : ScriptJs.row) (f : ScriptJs.field) (v : string) :
  same_image x (ScriptJs.type_into f v r) = same_image x r.
Proof. reflexivity. Qed.

Lemma change_entries_of_rows (i : nat) (f : ScriptJs.field) (v : string) (pg : ScriptJs.page) :
  entries_of_rows pg -> entries_of_rows (ScriptJs.change i f v pg).
Proof.
  unfold entries_of_rows, ScriptJs.change. intros H.
  destruct (nth_error (ScriptJs.rows pg) i) as [r|] eqn:Hi; [|exact H].
  destruct (nth_error_split_at _ _ _ Hi) as (l1 & l2 & Hrows & -> & ->).
  cbn [ScriptJs.rows ScriptJs.app]. intros x Hx. rewrite tracked_handleInputChange in Hx.
  destruct (same_image x (ScriptJs.type_into f v r)) eqn:Hsame.
  - exists (ScriptJs.type_into f v r). split; [apply in_elt|exact Hsame].
  - destruct (H x Hx) as (r0 & Hin & Hr0). rewrite Hrows in Hin.
    apply in_app_or in Hin as [Hin|[<-|Hin]].
    + exists r0. split; [apply in_or_app; now left|exact Hr0].
    + rewrite same_image_type_into in Hsame. congruence.
    + exists r0. split; [apply in_or_app; right; now right|exact Hr0].
Qed.

(** What a table keeps under [change] events, from the state in which
    [loadMainTable] leaves the tracker. *)
Lemma changes_keep_table (evs : list (nat * ScriptJs.field * string)) :
  forall pg : ScriptJs.page,
    NoDup (map ScriptJs_row_key (ScriptJs.rows pg)) ->
    Forall (fun r => ScriptJs.tracked r (ScriptJs.app pg) = ScriptJs.edited r) (ScriptJs.rows pg) ->
    in_sync (ScriptJs.app pg) ->
    button_in_step (ScriptJs.app pg) ->
    entries_of_rows pg ->
    Forall (fun r => ScriptJs.tracked r (ScriptJs.app (ScriptJs.changes evs pg))
                     = ScriptJs.edited r)
      (ScriptJs.rows (ScriptJs.changes evs pg))
    /\ in_sync (ScriptJs.app (ScriptJs.changes evs pg))
    /\ button_in_step (ScriptJs.app (ScriptJs.changes evs pg))
    /\ entries_of_rows (ScriptJs.changes evs pg).
Proof.
  induction evs as [|[[i f] v] evs IH]; intros pg Hnd Hinv Hsync Hbutton Hrows.
  - split; [|split; [|split]]; assumption.
  - cbn [ScriptJs.changes fold_left fst snd].
    destruct (ScriptJs_change_invariant i f v pg Hnd Hinv) as [Hk Hinv'].
    apply IH.
    + now rewrite Hk.
    + exact Hinv'.
    + unfold ScriptJs.change. destruct (nth_error (ScriptJs.rows pg) i); [|exact Hsync].
      cbn [ScriptJs.app]. now apply handleInputChange_in_sync.
    + unfold ScriptJs.change. destruct (nth_error (ScriptJs.rows pg) i); [|exact Hbutton].
      cbn [ScriptJs.app]. now apply handleInputChange_button.
    + now apply change_entries_of_rows.
Qed.

Lemma pristine_edited (r : ScriptJs.row) : ScriptJs.pristine r = negb (ScriptJs.edited r).
Proof.
  unfold ScriptJs.pristine, ScriptJs.edited.
  now rewrite negb_orb, !negb_involutive.
Qed.

(** In a table whose tracker is in sync with its rows the marked stories
    are those of the edited rows. *)
Lemma marked_iff_edited (pg : ScriptJs.page) (id : string) :
  Forall (fun r => ScriptJs.tracked r (ScriptJs.app pg) = ScriptJs.edited r) (ScriptJs.rows pg) ->
  in_sync (ScriptJs.app pg) ->
  entries_of_rows pg ->
  KeySet.has id (ScriptJs.changedStories (ScriptJs.app pg))
  = existsb (edited_in id) (ScriptJs.rows pg).
Proof.
  intros Hinv (Hnd & Hsame & Hfull) Hrows. rewrite Forall_forall in Hinv.
  rewrite Hsame. unfold Map.has.
  destruct (existsb (edited_in id) (ScriptJs.rows pg)) eqn:Hex.
  - apply existsb_exists in Hex as (r & Hin & Hr). unfold edited_in in Hr.
    apply andb_true_iff in Hr as [Hid Hed]. apply String.eqb_eq in Hid.
    specialize (Hinv r Hin). rewrite Hed in Hinv. unfold ScriptJs.tracked in Hinv.
    rewrite Hid in Hinv.
    now destruct (Map.get id (ScriptJs.imageModifications (ScriptJs.app pg))).
  - destruct (Map.get id (ScriptJs.imageModifications (ScriptJs.app pg)))
      as [[|[iid m] ms]|] eqn:Hget; [now apply Hfull in Hget| |reflexivity].
    exfalso.
    pose (x := {| ScriptJs.actualStoryId := id;
                  ScriptJs.imageBynderId := iid;
                  ScriptJs.row_originalFileName := "";
                  ScriptJs.row_originalAlt := "";
                  ScriptJs.row_originalTransformUrl := "";
                  ScriptJs.fileNameInput := "";
                  ScriptJs.altTextInput := "" |}).
    assert (Hx : ScriptJs.tracked x (ScriptJs.app pg) = true).
    { unfold ScriptJs.tracked, x. cbn [ScriptJs.actualStoryId ScriptJs.imageBynderId].
      rewrite Hget. unfold Map.has. cbn [Map.get].
      now rewrite (key_eqb_refl string_key_ok). }
    destruct (Hrows x Hx) as (r & Hin & Hr). unfold same_image, x in Hr.
    cbn [ScriptJs.actualStoryId ScriptJs.imageBynderId] in Hr.
    apply andb_true_iff in Hr as [Hsid Hiid]. apply String.eqb_eq in Hsid, Hiid.
    assert (Htr : ScriptJs.tracked r (ScriptJs.app pg) = true).
    { unfold ScriptJs.tracked in *. cbn [x ScriptJs.actualStoryId ScriptJs.imageBynderId] in Hx.
      now rewrite Hsid, Hiid. }
    rewrite (Hinv r Hin) in Htr.
    assert (Hno : edited_in id r = false).
    { destruct (edited_in id r) eqn:E; [|reflexivity].
      assert (existsb (edited_in id) (ScriptJs.rows pg) = true)
        by (apply existsb_exists; eauto).
      congruence. }
    unfold edited_in in Hno. rewrite Hsid, String.eqb_refl, Htr in Hno. discriminate.
Qed.

(** From a table as [loadMainTable] and the rendering of the rows leave
    it (rows of distinct images that show their snapshots, an empty tracker,
    the send button hidden) and after any [change] events, the stories
    marked as changed are exactly those of the rows that differ from their
    snapshot; the send button is hidden exactly when every row shows its
    snapshot, and a click then sends nothing. *)
Theorem send_button_follows_the_edits (evs : list (nat * ScriptJs.field * string))
  (pg : ScriptJs.page) :
  NoDup (map ScriptJs_row_key (ScriptJs.rows pg)) ->
  Forall (fun r => ScriptJs.pristine r = true) (ScriptJs.rows pg) ->
  ScriptJs.changedStories (ScriptJs.app pg) = [] ->
  ScriptJs.imageModifications (ScriptJs.app pg) = [] ->
  ScriptJs.sendToServerButton_hidden (ScriptJs.app pg) = true ->
  (forall id,
      KeySet.has id (ScriptJs.changedStories (ScriptJs.app (ScriptJs.changes evs pg)))
      = existsb (edited_in id) (ScriptJs.rows (ScriptJs.changes evs pg)))
  /\ ScriptJs.sendToServerButton_hidden (ScriptJs.app (ScriptJs.changes evs pg))
     = forallb ScriptJs.pristine (ScriptJs.rows (ScriptJs.changes evs pg))
  /\ (forallb ScriptJs.pristine (ScriptJs.rows (ScriptJs.changes evs pg)) = true ->
      forall confirmed srv,
        events (ScriptJs.click confirmed srv (ScriptJs.app (ScriptJs.changes evs pg)))
        = [ScriptJs.Alert ScriptJs.NoChangesToSend]).
Proof.
  intros Hnd Hfresh Hcs Hmods Hhidden.
  destruct (changes_keep_table evs pg Hnd) as (Hinv & Hsync & Hbutton & Hrows).
  - rewrite Forall_forall in *. intros r Hr. unfold ScriptJs.tracked. rewrite Hmods.
    cbn [Map.get]. specialize (Hfresh r Hr). rewrite pristine_edited in Hfresh.
    now destruct (ScriptJs.edited r).
  - split; [rewrite Hcs; constructor|]. split.
    + intros id. rewrite Hcs, Hmods. reflexivity.
    + intros id. rewrite Hmods. discriminate.
  - unfold button_in_step. now rewrite Hcs, Hhidden.
  - intros x Hx. unfold ScriptJs.tracked in Hx. rewrite Hmods in Hx. discriminate.
  - set (pg' := ScriptJs.changes evs pg) in *.
    assert (Hmarked : forall id,
              KeySet.has id (ScriptJs.changedStories (ScriptJs.app pg'))
              = existsb (edited_in id) (ScriptJs.rows pg'))
      by (intros id; now apply marked_iff_edited).
    assert (Hnone : forallb ScriptJs.pristine (ScriptJs.rows pg') = true
                    <-> ScriptJs.changedStories (ScriptJs.app pg') = []).
    { split.
      - intros Hall. destruct (ScriptJs.changedStories (ScriptJs.app pg')) as [|id cs] eqn:E;
          [reflexivity|]. exfalso.
        specialize (Hmarked id). unfold KeySet.has in Hmarked.
        cbn [existsb] in Hmarked. rewrite (key_eqb_refl string_key_ok) in Hmarked.
        cbn [orb] in Hmarked. symmetry in Hmarked.
        apply existsb_exists in Hmarked as (r & Hin & Hr).
        rewrite forallb_forall in Hall. specialize (Hall r Hin).
        unfold edited_in in Hr. apply andb_true_iff in Hr as [_ Hed].
        rewrite pristine_edited, Hed in Hall. discriminate.
      - intros E. apply forallb_forall. intros r Hin. rewrite pristine_edited.
        destruct (ScriptJs.edited r) eqn:Hed; [|reflexivity]. exfalso.
        specialize (Hmarked (ScriptJs.actualStoryId r)). rewrite E in Hmarked.
        cbn [KeySet.has existsb] in Hmarked. symmetry in Hmarked.
        assert (existsb (edited_in (ScriptJs.actualStoryId r)) (ScriptJs.rows pg') = true).
        { apply existsb_exists. exists r. split; [assumption|].
          unfold edited_in. now rewrite String.eqb_refl, Hed. }
        congruence. }
    split; [exact Hmarked|]. split.
    + rewrite Hbutton.
      destruct (forallb ScriptJs.pristine (ScriptJs.rows pg')) eqn:Hall.
      * now rewrite (proj1 Hnone eq_refl).
      * destruct (ScriptJs.changedStories (ScriptJs.app pg')) as [|id cs] eqn:E; [|reflexivity].
        pose proof (proj2 Hnone eq_refl) as Hf. discriminate Hf.
    + intros Hall confirmed srv. apply click_nothing. now apply Hnone.
Qed.

Lemma send_button_follows_the_edits_witness :
  ScriptJs.sendToServerButton_hidden
    (ScriptJs.app (ScriptJs.changes
                     [(0, ScriptJs.FileName, "New.jpg"); (1, ScriptJs.AltText, "a tug at sea");
                      (0, ScriptJs.FileName, "Old.jpg")] fresh_page))
  = forallb ScriptJs.pristine
      (ScriptJs.rows (ScriptJs.changes
                        [(0, ScriptJs.FileName, "New.jpg"); (1, ScriptJs.AltText, "a tug at sea");
                         (0, ScriptJs.FileName, "Old.jpg")] fresh_page))
  /\ events (ScriptJs.click true (healthy by_name)
               (ScriptJs.app (ScriptJs.changes
                                [(0, ScriptJs.FileName, "New.jpg");
                                 (0, ScriptJs.FileName, "Old.jpg")] fresh_page)))
     = [ScriptJs.Alert ScriptJs.NoChangesToSend].
Proof.
  assert (Hnd : NoDup (map ScriptJs_row_key (ScriptJs.rows fresh_page)))
    by (repeat constructor; simpl; intuition discriminate).
  assert (Hfresh : Forall (fun r => ScriptJs.pristine r = true) (ScriptJs.rows fresh_page))
    by (repeat constructor).
  split.
  - apply (send_button_follows_the_edits
             [(0, ScriptJs.FileName, "New.jpg"); (1, ScriptJs.AltText, "a tug at sea");
              (0, ScriptJs.FileName, "Old.jpg")] fresh_page Hnd Hfresh eq_refl eq_refl eq_refl).
  - destruct (send_button_follows_the_edits
                [(0, ScriptJs.FileName, "New.jpg"); (0, ScriptJs.FileName, "Old.jpg")]
                fresh_page Hnd Hfresh eq_refl eq_refl eq_refl) as (_ & _ & C).
    apply C. reflexivity.
Defined.

(** *** The second variant *)

Lemma handleCellChange_button (storyId : Z) (uid : string) (f : Part000.field) (v : string)
  (st : Part000.state) :
  button_in_step_z st -> button_in_step_z (Part000.handleCellChange storyId uid f v st).
Proof.
  unfold Part000.handleCellChange. intros H.
  destruct (find _ (Part000.currentStoryImages st)); [|exact H].
  destruct (Map.get _ _); [|exact H]. reflexivity.
Qed.

Lemma change_entries_of_rows_z (i : nat) (f : Part000.field) (v : string) (pg : Part000.page) :
  NoDup (map Part000.row_key (Part000.rows pg)) ->
  Forall (fun r => has_uid r = true) (Part000.rows pg) ->
  Part000.currentStoryImages (Part000.app pg) = map Part000.shown (Part000.rows pg) ->
  Forall (fun r => consistent r (Part000.app pg)) (Part000.rows pg) ->
  entries_of_rows_z pg -> entries_of_rows_z (Part000.change i f v pg).
Proof.
  intros Hnd Huid Himgs Hinv H. unfold entries_of_rows_z, Part000.change.
  destruct (nth_error (Part000.rows pg) i) as [r|] eqn:Hi; [|exact H].
  destruct (nth_error_split_at _ _ _ Hi) as (l1 & l2 & Hrows & -> & ->).
  cbn [Part000.rows Part000.app].
  assert (Hr : In r (Part000.rows pg)) by (rewrite Hrows; apply in_elt).
  rewrite Forall_forall in Hinv.
  destruct (handleCellChange_own (Part000.rows pg) r f v (Part000.app pg) Hnd Huid Hr Himgs
              (Hinv r Hr)) as (_ & _ & Hothers).
  intros [z s] Hk.
  destruct (key_eqb (Part000.row_key r) (z, s)) eqn:E.
  - apply pair_key_ok in E. exists (Part000.type_into f v r). split; [apply in_elt|exact E].
  - assert (N : (z, s) <> Part000.row_key r).
    { intros E'. rewrite <- E' in E. now rewrite (key_eqb_refl pair_key_ok) in E. }
    pose (x := {| Part000.shown :=
                    {| Part000.image_storyId := z;
                       Part000.image_parentField := "";
                       Part000.image_alt := "";
                       Part000.image_fileName := "";
                       Part000.image_uid := Some s;
                       Part000.bynderImageRef := JNull;
                       Part000.altTextRef := JNull |};
                  Part000.fileNameInput := "";
                  Part000.altTextInput := "" |}).
    specialize (Hothers x N). change (Part000.row_key x) with (z, s) in Hothers.
    unfold Map.has in Hk. rewrite Hothers in Hk.
    destruct (H (z, s) Hk) as (r0 & Hin & Hr0). rewrite Hrows in Hin.
    apply in_app_or in Hin as [Hin|[<-|Hin]].
    + exists r0. split; [apply in_or_app; now left|exact Hr0].
    + congruence.
    + exists r0. split; [apply in_or_app; right; now right|exact Hr0].
Qed.

Lemma change_button_z (i : nat) (f : Part000.field) (v : string) (pg : Part000.page) :
  button_in_step_z (Part000.app pg) -> button_in_step_z (Part000.app (Part000.change i f v pg)).
Proof.
  unfold Part000.change. intros H. destruct (nth_error (Part000.rows pg) i); [|exact H].
  cbn [Part000.app]. now apply handleCellChange_button.
Qed.

Lemma changes_keep_table_z (evs : list (nat * Part000.field * string)) :
  forall pg : Part000.page,
    NoDup (map Part000.row_key (Part000.rows pg)) ->
    Forall (fun r => has_uid r = true) (Part000.rows pg) ->
    Part000.currentStoryImages (Part000.app pg) = map Part000.shown (Part000.rows pg) ->
    Forall (fun r => consistent r (Part000.app pg)) (Part000.rows pg) ->
    button_in_step_z (Part000.app pg) ->
    entries_of_rows_z pg ->
    Forall (fun r => consistent r (Part000.app (Part000.changes evs pg)))
      (Part000.rows (Part000.changes evs pg))
    /\ button_in_step_z (Part000.app (Part000.changes evs pg))
    /\ entries_of_rows_z (Part000.changes evs pg).
Proof.
  induction evs as [|[[i f] v] evs IH]; intros pg Hnd Huid Himgs Hinv Hbutton Hrows.
  - split; [|split]; assumption.
  - cbn [Part000.changes fold_left fst snd].
    destruct (Part000_change_invariant i f v pg Hnd Huid Himgs Hinv) as (Hk & Hu & Hi & Hc).
    apply IH; try assumption.
    + now rewrite Hk.
    + now apply change_button_z.
    + now apply change_entries_of_rows_z.
Qed.

Lemma pristine_edited_z (r : Part000.row) : Part000.pristine r = negb (Part000.edited r).
Proof.
  unfold Part000.pristine, Part000.edited.
  now rewrite negb_orb, !negb_involutive.
Qed.

(** The same in the second variant, from a table as [renderImageTable]
    leaves it (rows of distinct images with a string [_uid] that show their
    snapshots, no pending edit, the send button disabled): after any
    [change] events the tracker holds an entry exactly for the rows that
    differ from their snapshot, the send button is disabled exactly when
    every row shows its snapshot, and a send then only says that there is
    nothing to send. *)
Theorem send_button_follows_the_edits_z (evs : list (nat * Part000.field * string))
  (pg : Part000.page) :
  NoDup (map Part000.row_key (Part000.rows pg)) ->
  Forall (fun r => has_uid r = true) (Part000.rows pg) ->
  Part000.currentStoryImages (Part000.app pg) = map Part000.shown (Part000.rows pg) ->
  Forall (fun r => Part000.pristine r = true) (Part000.rows pg) ->
  Part000.modifiedImages (Part000.app pg) = [] ->
  Part000.sendToServerBtn_disabled (Part000.app pg) = true ->
  (forall k,
      Map.has k (Part000.modifiedImages (Part000.app (Part000.changes evs pg)))
      = existsb (edited_at k) (Part000.rows (Part000.changes evs pg)))
  /\ Part000.sendToServerBtn_disabled (Part000.app (Part000.changes evs pg))
     = forallb Part000.pristine (Part000.rows (Part000.changes evs pg))
  /\ (forallb Part000.pristine (Part000.rows (Part000.changes evs pg)) = true ->
      forall srv,
        events (Part000.sendModificationsToServer srv (Part000.app (Part000.changes evs pg)))
        = [Part000.ShowModal Part000.NoChangesToSend]).
Proof.
  intros Hnd Huid Himgs Hfresh Hmods Hdisabled.
  destruct (changes_keep_table_z evs pg Hnd Huid Himgs) as (Hinv & Hbutton & Hrows).
  - rewrite Forall_forall in *. intros r Hr. unfold consistent. rewrite Hmods. cbn [Map.get].
    specialize (Hfresh r Hr). rewrite pristine_edited_z in Hfresh.
    now destruct (Part000.edited r).
  - unfold button_in_step_z. now rewrite Hmods, Hdisabled.
  - intros k Hk. rewrite Hmods in Hk. discriminate.
  - set (pg' := Part000.changes evs pg) in *. rewrite Forall_forall in Hinv.
    assert (Hmarked : forall k,
              Map.has k (Part000.modifiedImages (Part000.app pg'))
              = existsb (edited_at k) (Part000.rows pg')).
    { intros k. destruct (existsb (edited_at k) (Part000.rows pg')) eqn:Hex.
      - apply existsb_exists in Hex as (r & Hin & Hr). unfold edited_at in Hr.
        apply andb_true_iff in Hr as [Hk Hed]. apply pair_key_ok in Hk. subst k.
        rewrite <- Hed. apply (consistent_tracked r). now apply Hinv.
      - destruct (Map.has k (Part000.modifiedImages (Part000.app pg'))) eqn:Hhas; [|reflexivity].
        exfalso. destruct (Hrows k Hhas) as (r & Hin & Hr). subst k.
        pose proof (consistent_tracked r _ (Hinv r Hin)) as Htr.
        unfold Part000.tracked in Htr. rewrite Hhas in Htr.
        assert (existsb (edited_at (Part000.row_key r)) (Part000.rows pg') = true).
        { apply existsb_exists. exists r. split; [assumption|].
          unfold edited_at. now rewrite (key_eqb_refl pair_key_ok), <- Htr. }
        congruence. }
    assert (Hnone : forallb Part000.pristine (Part000.rows pg') = true
                    <-> Part000.modifiedImages (Part000.app pg') = []).
    { split.
      - intros Hall.
        destruct (Part000.modifiedImages (Part000.app pg')) as [|[k e] ms] eqn:E;
          [reflexivity|]. exfalso.
        specialize (Hmarked k). unfold Map.has in Hmarked. cbn [Map.get] in Hmarked.
        rewrite (key_eqb_refl pair_key_ok) in Hmarked. symmetry in Hmarked.
        apply existsb_exists in Hmarked as (r & Hin & Hr).
        rewrite forallb_forall in Hall. specialize (Hall r Hin).
        unfold edited_at in Hr. apply andb_true_iff in Hr as [_ Hed].
        rewrite pristine_edited_z, Hed in Hall. discriminate.
      - intros E. apply forallb_forall. intros r Hin. rewrite pristine_edited_z.
        rewrite <- (consistent_tracked r _ (Hinv r Hin)). unfold Part000.tracked, Map.has.
        now rewrite E. }
    split; [exact Hmarked|]. split.
    + rewrite Hbutton.
      destruct (forallb Part000.pristine (Part000.rows pg')) eqn:Hall.
      * now rewrite (proj1 Hnone eq_refl).
      * destruct (Part000.modifiedImages (Part000.app pg')) as [|entry ms] eqn:E; [|reflexivity].
        pose proof (proj2 Hnone eq_refl) as Hf. discriminate Hf.
    + intros Hall srv. unfold events. rewrite send_spec, (proj1 Hnone Hall). reflexivity.
Qed.

Lemma send_button_follows_the_edits_z_witness :
  Part000.sendToServerBtn_disabled
    (Part000.app (Part000.changes
                    [(0, Part000.FileName, "New.jpg"); (1, Part000.AltText, "a tug at sea");
                     (0, Part000.FileName, "Old.jpg")] fresh_table))
  = forallb Part000.pristine
      (Part000.rows (Part000.changes
                       [(0, Part000.FileName, "New.jpg"); (1, Part000.AltText, "a tug at sea");
                        (0, Part000.FileName, "Old.jpg")] fresh_table))
  /\ events (Part000.sendModificationsToServer (healthy by_number)
               (Part000.app (Part000.changes
                               [(0, Part000.FileName, "New.jpg");
                                (0, Part000.FileName, "Old.jpg")] fresh_table)))
     = [Part000.ShowModal Part000.NoChangesToSend].
Proof.
  assert (Hnd : NoDup (map Part000.row_key (Part000.rows fresh_table)))
    by (repeat constructor; simpl; intuition discriminate).
  assert (Huid : Forall (fun r => has_uid r = true) (Part000.rows fresh_table))
    by (repeat constructor).
  assert (Hfresh : Forall (fun r => Part000.pristine r = true) (Part000.rows fresh_table))
    by (repeat constructor).
  split.
  - apply (send_button_follows_the_edits_z
             [(0, Part000.FileName, "New.jpg"); (1, Part000.AltText, "a tug at sea");
              (0, Part000.FileName, "Old.jpg")] fresh_table Hnd Huid eq_refl Hfresh eq_refl
             eq_refl).
  - destruct (send_button_follows_the_edits_z
                [(0, Part000.FileName, "New.jpg"); (0, Part000.FileName, "Old.jpg")]
                fresh_table Hnd Huid eq_refl Hfresh eq_refl eq_refl) as (_ & _ & C).
    apply C. reflexivity.
Defined.

(** ** Edits that were not sent *)

Lemma has_entry {V : Type} (k : Z * string) (v : V) (m : Map.t (Z * string) V) :
  In (k, v) m -> Map.has k m = true.
Proof.
  unfold Map.has. induction m as [|[k' v'] m IH]; [intros []|].
  intros [E|Hin]; cbn [Map.get].
  - injection E as -> ->. now rewrite (key_eqb_refl pair_key_ok).
  - destruct (key_eqb k' k); [reflexivity|]. now apply IH.
Qed.

(** The second loop of the write-back rewrites entries of [modifiedImages]
    in place: it adds no key and drops none. *)
Lemma apply_loop_keys (pending : list ((Z * string) * Part000.modification)) :
  forall (stories : Map.t Z json) (st : Part000.state),
    (forall entry, In entry pending ->
                   Map.has (fst entry) (Part000.modifiedImages st) = true) ->
    exists st',
      for_each_with Part000.apply_entry pending stories st = (apply_all pending stories, st', [])
      /\ Part000.storyblokMapiToken st' = Part000.storyblokMapiToken st
      /\ Part000.currentStoryData st' = Part000.currentStoryData st
      /\ forall k, Map.has k (Part000.modifiedImages st')
                   = Map.has k (Part000.modifiedImages st).
Proof.
  induction pending as [|entry rest IH]; intros stories st Hkeys.
  - exists st. repeat split.
  - assert (Hset : forall m' k,
              Map.has k (Map.set (fst entry) m' (Part000.modifiedImages st))
              = Map.has k (Part000.modifiedImages st)).
    { intros m' k. rewrite (has_set pair_key_ok).
      destruct (key_eqb (fst entry) k) eqn:E; [|reflexivity].
      apply pair_key_ok in E. subst k. cbn [orb]. symmetry. apply Hkeys. now left. }
    cbn [for_each_with apply_all]. unfold Part000.apply_entry at 1.
    destruct (Map.get (Part000.storyId (snd entry)) stories) as [story|].
    2:{ exists st. repeat split. }
    destruct (truthy story) eqn:Ht; cbn [negb].
    2:{ exists st. repeat split. }
    destruct (truthy_get_prop story "content" Ht) as [content Hc].
    unfold update_story. rewrite Hc, mbind_assoc, mbind_lift_Ok, mbind_assoc.
    unfold mbind at 1. unfold Part000.on_entry.
    pose proof (updateImageRecursive_silent content (snd entry)) as Hs.
    destruct (Part000.updateImageRecursive content (snd entry)) as [[[content'|e] m'] evs];
      cbn [snd] in Hs; subst evs; cbn [fst].
    + rewrite mbind_ret.
      destruct (IH (Map.set (Part000.storyId (snd entry)) (with_prop story "content" content')
                      stories)
                  (Part000.set_modifiedImages
                     (Map.set (fst entry) m' (Part000.modifiedImages st)) st))
        as (st' & Hrun & Htok & Hcur & Hk).
      { intros entry' Hin. cbn [Part000.set_modifiedImages Part000.modifiedImages].
        rewrite Hset. apply Hkeys. now right. }
      rewrite Hrun. exists st'. repeat split; try assumption.
      intros k. rewrite Hk. cbn [Part000.set_modifiedImages Part000.modifiedImages].
      apply Hset.
    + eexists. repeat split.
      intros k. cbn [Part000.set_modifiedImages Part000.modifiedImages]. apply Hset.
Qed.

Lemma has_size {V : Type} (k : Z * string) (m : Map.t (Z * string) V) :
  Map.has k m = true -> (Map.size m =? 0)%nat = false.
Proof. destruct m; [discriminate|reflexivity]. Qed.

(** In the second variant a run that returns without the modal of success
    has kept every pending edit under its key (no key is added, none is
    dropped), shows the modal of failure and leaves the send button
    enabled. *)
Theorem unsent_edits_stay_pending (srv : server Z) (st : Part000.state) :
  Part000.modifiedImages st <> [] ->
  fst (fst (Part000.sendModificationsToServer srv st)) = Ok tt ->
  ~ In (Part000.ShowModal Part000.ChangesSent)
       (events (Part000.sendModificationsToServer srv st)) ->
  (forall k,
      Map.has k (Part000.modifiedImages (snd (fst (Part000.sendModificationsToServer srv st))))
      = Map.has k (Part000.modifiedImages st))
  /\ Part000.sendToServerBtn_disabled (snd (fst (Part000.sendModificationsToServer srv st)))
     = false
  /\ In (Part000.ShowModal Part000.SendFailed)
        (events (Part000.sendModificationsToServer srv st)).
Proof.
  intros Hne. unfold events.
  remember (Part000.sendModificationsToServer srv st) as x eqn:Hx.
  unfold Part000.sendModificationsToServer in Hx. rewrite mbind_gets in Hx.
  destruct (Part000.modifiedImages st) as [|entry rest] eqn:Hp; [contradiction|].
  cbn [Map.size List.length Nat.eqb] in Hx. rewrite mbind_modify in Hx.
  set (pending := entry :: rest) in *.
  set (st0 := Part000.set_disabled true st) in *.
  assert (Hkeys0 : forall e, In e pending ->
            Map.has (fst e) (Part000.modifiedImages st0) = true).
  { intros [k v] Hin. cbn [st0 Part000.set_disabled Part000.modifiedImages fst].
    rewrite Hp. now apply (has_entry k v). }
  assert (Hfirst : Map.has (fst entry) (Part000.modifiedImages st0) = true)
    by (apply Hkeys0; now left).
  assert (Hfail : forall s : Part000.state,
            (forall k, Map.has k (Part000.modifiedImages s)
                       = Map.has k (Part000.modifiedImages st0)) ->
            (forall k, Map.has k (Part000.modifiedImages (Part000.refresh_button s))
                       = Map.has k pending)
            /\ Part000.sendToServerBtn_disabled (Part000.refresh_button s) = false).
  { intros s Hk. split.
    - intros k. cbn [Part000.refresh_button Part000.set_disabled Part000.modifiedImages].
      rewrite Hk. unfold st0. cbn [Part000.set_disabled Part000.modifiedImages].
      now rewrite Hp.
    - cbn [Part000.refresh_button Part000.set_disabled Part000.sendToServerBtn_disabled].
      apply (has_size (fst entry)). now rewrite Hk. }
  unfold mbind at 1 in Hx. rewrite try_catch_spec in Hx.
  rewrite (mbind_run _ _ _ _ _ _ (fetch_loop_spec srv pending [] st0)) in Hx.
  destruct (fetch_all (Part000.storyblokMapiToken st0) srv pending []) as [[stories|e] gets];
    cbn [fst snd] in Hx.
  2:{ intros Hok _. subst x. destruct e; cbn [fst snd emit modify app] in *;
        try discriminate Hok;
        (destruct (Hfail st0 (fun k => eq_refl)) as [Hkeys Hbutton];
         split; [exact Hkeys|]; split; [exact Hbutton|];
         rewrite !in_app_iff; cbn [In]; tauto). }
  destruct (apply_loop_keys pending stories st0 Hkeys0) as (st1 & Hrun & Htok1 & _ & Hk1).
  rewrite (mbind_run _ _ _ _ _ _ Hrun) in Hx.
  destruct (apply_all pending stories) as [stories'|e]; cbn [fst snd] in Hx.
  2:{ intros Hok _. subst x. destruct e; cbn [fst snd emit modify app] in *;
        try discriminate Hok;
        (destruct (Hfail st1 Hk1) as [Hkeys Hbutton];
         split; [exact Hkeys|]; split; [exact Hbutton|];
         rewrite !in_app_iff; cbn [In]; tauto). }
  rewrite (mbind_run _ _ _ _ _ _ (put_loop_spec srv stories' st1)) in Hx.
  destruct (put_all (Part000.storyblokMapiToken st1) srv stories') as [[[]|e] puts];
    cbn [fst snd] in Hx.
  2:{ intros Hok _. subst x. destruct e; cbn [fst snd emit modify app] in *;
        try discriminate Hok;
        (destruct (Hfail st1 Hk1) as [Hkeys Hbutton];
         split; [exact Hkeys|]; split; [exact Hbutton|];
         rewrite !in_app_iff; cbn [In]; tauto). }
  intros _ Hno. exfalso. apply Hno. revert Hx. mstep.
  destruct (get_prop (Part000.currentStoryData (Part000.set_modifiedImages [] st1)) "story")
    as [story|e] eqn:Hs.
  2:{ apply get_prop_exn in Hs. subst e. rewrite mbind_lift_Throw. cbn [fst snd emit app].
      intros ->. cbn [modify fst snd]. rewrite !in_app_iff. cbn [In]. tauto. }
  rewrite mbind_lift_Ok. destruct (get_prop story "id") as [id|e] eqn:Hi.
  2:{ apply get_prop_exn in Hi. subst e. rewrite mbind_lift_Throw. cbn [fst snd emit app].
      intros ->. cbn [modify fst snd]. rewrite !in_app_iff. cbn [In]. tauto. }
  rewrite mbind_lift_Ok. intros ->. cbn [fst snd emit modify].
  rewrite !in_app_iff. cbn [In]. tauto.
Qed.

Lemma unsent_edits_stay_pending_witness :
  Map.has (12%Z, "u3")
    (Part000.modifiedImages
       (snd (fst (Part000.sendModificationsToServer refusing_11_z two_stories_z)))) = true
  /\ Part000.sendToServerBtn_disabled
       (snd (fst (Part000.sendModificationsToServer refusing_11_z two_stories_z))) = false
  /\ In (Part000.ShowModal Part000.SendFailed)
        (events (Part000.sendModificationsToServer refusing_11_z two_stories_z)).
Proof.
  destruct (unsent_edits_stay_pending refusing_11_z two_stories_z) as (A & B & C).
  - discriminate.
  - reflexivity.
  - vm_compute. intuition discriminate.
  - split; [rewrite A; reflexivity|]. split; [exact B|exact C].
Defined.
